(* ===== verification/_CoqProject ===== *)
-Q . S2P
Prelude.v
F64.v
RustStr.v
StrFacts.v
Net.v
Routes.v
Prog.v
CircuitBreaker.v
RateLimit.v
DnsCache.v
Health.v
Stats.v
Target.v
Weights.v
Table.v
Picker.v
Registry.v
RoundRobin.v
Http.v
Upstream.v
IpText.v
Config.v
ClientCert.v
Peer.v
ClientHello.v
Tcp.v
Moments.v
Manager.v
TlsConf.v
Pem.v
CertStore.v
Handshake.v
Files.v
Ocsp.v
Consul.v
Watcher.v
Updates.v
Discovery.v
SourceTests.v
Admin.v
Logs.v
Runtime.v
Balancer.v
Metrics.v
Checker.v
Rounds.v
Lifecycle.v
Startup.v
Settings.v
Flow.v
Views.v
Stream.v
Api.v
