(* ===== verification/Prelude.v ===== *)
(** * Sentirum LB: a verification development

    Sentirum LB is an HTTP, gRPC, WebSocket and TCP load balancer in Rust. Its
    routes come from a static file, from a Consul key-value prefix and from
    the tags of Consul services; its TLS certificates and client authorities
    from files or from Consul; an admin interface shows and changes it while it
    runs. This library models the decisions and the state of that program
    (src/src) and proves what makes them correct. What pingora, tokio,
    OpenSSL, axum, reqwest, serde and the operating system do is outside: it
    appears as arguments and as the parameters listed below.

    ** How the parts interact

    Routes.v parses route commands into definitions; Watcher.v and Updates.v
    turn Consul's answers into definitions; Registry.v keeps the three sources
    and publishes the table that Table.v builds from them; Upstream.v looks a
    request up in the published table, asks the breaker (CircuitBreaker.v), the
    token bucket (RateLimit.v) and the connection counter (Target.v) of the
    chosen target and resolves its address through DnsCache.v and the SSRF
    classes of Net.v, again at each attempt the framework makes; Tcp.v does the
    same for a TCP connection, over the same state; Lifecycle.v runs the
    callbacks of requests beside TCP connections, over the metrics they share. A rebuilt
    table finds the counters, breakers and buckets of the targets that stay in
    the heap of Stats.v. Checker.v probes the targets of the published table
    and feeds Health.v. Config.v validates what Startup.v starts from and what
    Runtime.v changes; Admin.v and Api.v decide who may ask for it. Balancer.v
    puts the parts together: one state, on which requests, connections, the
    stores of the configuration handlers, the updates of the table and the
    clock interleave.

    ** Files, and the source they model (under src/src)

    - Prelude, F64, RustStr, StrFacts, Prog: machine integers, [f64] as IEEE
      binary64, the [str] methods the program calls, and programs of atomic
      accesses: [run] executes one alone, [pool_step] interleaves any number of
      them, [safe] / [safe_tok] carry an invariant (and a count of tokens
      held) through every interleaving, [traced] the moments at which a thread
      read what its answer rests on, and [within] what its accesses change.
    - Net: core::net addresses and their parser, [is_ip_*] of route/target.rs,
      [CidrRange] of proxy/handler.rs. IpText: the characters of an address.
    - Routes: route/definition.rs, route/parser.rs.
    - CircuitBreaker, RateLimit, DnsCache, Health, Stats, Target: the files of
      the same names in route/ and proxy/ratelimit.rs.
    - Weights, Table: route/table.rs ([Route::compute_weights], then the rest).
      Picker: route/picker.rs. Registry: route/registry.rs and [RouteTable].
      RoundRobin: the counters of the routes of a table.
    - Http, Peer, ClientCert, Upstream, Lifecycle: proxy/handler/protocol.rs,
      rewrite.rs, forwarded.rs, client_cert.rs, upstream.rs, access.rs and the
      callbacks of proxy/handler.rs.
    - ClientHello, Tcp, Manager: proxy/tcp.rs (the client hello parser,
      listeners and connections, the manager of dynamic listeners). Moments:
      when each part of an answer of Upstream and Tcp held.
    - TlsConf, Pem, CertStore, Handshake, Files, Ocsp: proxy/tls.rs and
      the files of proxy/tls.
    - Consul, Watcher, Updates: consul/client.rs, consul/watcher.rs, and
      [route_update_handler] of main.rs. Discovery: the three, the table and
      the lookup together.
    - Config: the files of config and proxy/keepalive.rs. Runtime: the update and
      reset of admin/config_handler.rs, each as one step. Startup: main.rs.
      Settings: what the running program reads of a validated configuration.
      Balancer: [SentirumProxy] of proxy/handler.rs and the tasks of main.rs
      over their shared state; there the handlers store one thing at a time.
    - Checker: proxy/health.rs. Rounds: its checks in time. Metrics:
      metrics/prometheus.rs.
    - Admin, Api: admin/auth.rs, admin/api.rs, admin/routes_handler.rs,
      admin/certs_handler.rs. Logs: admin/logs.rs. Flow:
      admin/topology_flow.rs. Views, Stream: the documents and the live
      snapshot of admin/config_handler.rs, routes_handler.rs and
      metrics_handler.rs.
    - SourceTests: the program's own unit tests, computed by the definitions.

    Definitions keep the names of the source; a method [f] of [Self] is
    [f args self], and where several parts have the same name the file tells
    them apart. State is a record passed along; an operation under a lock is
    one function, a lock-free method is a [prog], whose every load, store and
    exchange is one step. A fallible function returns [result] or [option]; a
    panic of the source is [None] or its own outcome, and theorems say when it
    can happen. Integers are [Z] with the wrap-around of the release profile
    written out.

    ** What is proved

    - The whole (Balancer): from the start and under every interleaving of the
      parts, a request or connection that gets an upstream address gets it for
      a target that a matching route of the published table had at a moment of
      that run, made from a definition then in its source, at an address that
      definition allows; the configuration is valid at every moment and
      everything agrees with it when no handler is at work; and across the
      rebuilds of the table the connection counter of a backend stays within
      its limit and ends at the number of slots that retried requests lost
      (none without retries).
    - Concurrency: under every interleaving of requests and TCP connections the
      slots of a target are counted by tokens (Upstream, Tcp, Balancer); the breaker keeps its
      invariant under any threads and, called in sequence, refines a
      three-state specification (CircuitBreaker); the token bucket never
      admits more than burst plus rate (RateLimit); request callbacks and TCP
      connections keep the gauge they share, and the metrics, exact
      (Lifecycle); the live snapshot has one task
      exactly while it has subscribers (Stream).
    - Routing: the parser and the printer of route commands; tables refine the
      fold of their definitions over plain lists; lookups find the most
      specific path; selection is sound and complete; slots are shared by
      weight; the sources are isolated and a rebuild keeps the cells of the
      targets that stay (Routes, Table, Weights, Picker, Upstream, Registry).
    - Security: the SSRF classes and every address handed out, CIDR ranges,
      forwarding and client-certificate headers, required client
      authentication, certificates that match their keys, the admin token and
      sessions, what the admin interface never shows (Net, Target, Http,
      ClientCert, Handshake, CertStore, Files, Admin, Api, Views). What a
      header says of a client certificate was verified in some handshake of
      the process, not necessarily in that of the request (ClientCert).
    - Configuration: validation is equivalent to a declarative specification
      and every duration it accepts is the one used, but for a drain cut to
      whole seconds and the longest poll waits (Settings); a running balancer is
      always in agreement with a validated configuration; a started one has the
      listeners and services its configuration asks for (Config, Runtime,
      Startup).
    - Consul and health: while no service is on both lists and no two
      instances share an id, the routes discovered are exactly those of passing
      instances of services that may be discovered; a snapshot is delivered
      however many attempts fail, the last updates are served; the instances
      discovered are where requests go; every backend of the table is checked
      once a round, and a round ends within the sum of its time-outs and of the
      resolver's times, which nothing in the program bounds (Watcher, Updates,
      Discovery, Health, Checker, Rounds).
    - Errors: a failed request is answered with the status that is logged; a
      reload that fails keeps what was in use (Lifecycle, CertStore, Api).

    ** Fuel

    [allow_request] and the compare-exchange loop of a connection slot retry
    while others interfere; their fuel is an argument, the theorems hold for
    any, and the lemmas beside them show that two turns are enough for a caller
    that is not disturbed. The client hello parser and the text functions
    recurse on the length of their input, which every turn shortens
    ([server_name_parser_total], [pem_blocks_roundtrip]). Loops that never end
    (watchers, health checks, managers, the snapshot task) are one turn and the
    lists of turns, with theorems for every list.

    ** Parameters

    Code that is not under src/ is a class with the documented behaviour the
    program relies on, instantiated by a concrete function in the witnesses:
    [GlobCrate] (compiled globs), [UrlParser] and [UriParser], [HashOrder] and
    [PortOrder] (iteration of hash maps), [SelectNth] (the partition of a
    slice), [HeaderNames], [HeaderValues] and [CanonicalReason] (the crate
    http), [Bcrypt], [TlsCrate] and [SslCalls] (OpenSSL), [ConsulCrates] (JSON,
    base64, URL syntax), [CheckOrder] and [CompletionOrder] (the order of
    answers). Clock readings, random numbers, resolver answers, file contents,
    Consul's answers, bytes from sockets and the failures of connects are
    arguments of the definitions.

    ** Not modelled

    - The embedded dashboard (constant HTML, CSS and JavaScript), the log
      stream (the receiver of a tokio channel handed to the web framework) and
      the set-up of logging: no state of the program's own.
    - pingora's server and HTTP modules (gRPC-web conversion among them),
      signals, and the waits for tasks told to stop: outside code driven by a
      clock. Whether it retries a failed exchange is part of an exchange
      ([ex_retry]); that it does not retry an error of [upstream_peer], whose
      errors are not marked for it, is its documented default. The order in
      which it calls back is not fixed: the step relation of Lifecycle allows
      every order.
    - The transport of HTTP, DNS, JSON and TOML: arguments, as above.
    - The memory model: the accesses of [prog]s are sequentially consistent,
      whatever orderings the source gives them.
    - The clones of a breaker and of a bucket, and [get_datacenter] of the
      Consul client: the balancer does not call them. *)
From stdpp Require Export base list gmap strings pretty.
From Stdlib Require Export ZArith Lia.
From Stdlib Require Import Permutation.

(** ** Rust's [Result] *)

Inductive result (A E : Type) : Type :=
  | Ok (a : A)
  | Err (e : E).
Arguments Ok {A E} a.
Arguments Err {A E} e.

(** ** Machine integers

    Integers are [Z]; each arithmetic operation of the source that can leave
    its width is written with its wrap-around (the release profile of
    Cargo.toml keeps overflow checks off), or as the saturating operation the
    source calls. *)

Declare Scope rust_scope.
Delimit Scope rust_scope with rust.

Definition u64_max : Z := (2 ^ 64 - 1)%Z.
Definition wrap64 (z : Z) : Z := (z mod 2 ^ 64)%Z.
Definition wrapping_add (a b : Z) : Z := wrap64 (a + b).
Definition wrapping_sub (a b : Z) : Z := wrap64 (a - b).
Definition wrapping_mul (a b : Z) : Z := wrap64 (a * b).
(** Arithmetic of an [AtomicI64]. *)
Definition wrap_i64 (z : Z) : Z := ((z + 2 ^ 63) mod 2 ^ 64 - 2 ^ 63)%Z.
Definition saturating_add (a b : Z) : Z := Z.min (a + b) u64_max.
Definition saturating_sub (a b : Z) : Z := Z.max (a - b) 0.

Notation "a +w b" := (wrapping_add a b) (at level 50, left associativity) : rust_scope.
Notation "a -w b" := (wrapping_sub a b) (at level 50, left associativity) : rust_scope.
Notation "a *w b" := (wrapping_mul a b) (at level 40, left associativity) : rust_scope.

(** [z] is the value of an unsigned 64-bit integer. *)
Definition is_u64 (z : Z) : Prop := (0 <= z < 2 ^ 64)%Z.

Create HintDb rust discriminated.

Section machine_integers.
Local Open Scope Z_scope.

Lemma wrap64_small z : is_u64 z -> wrap64 z = z.
Proof. intros H. apply Z.mod_small, H. Qed.

Lemma wrap64_range z : is_u64 (wrap64 z).
Proof. apply Z.mod_pos_bound. lia. Qed.

Lemma wrap_i64_shift a b : wrap_i64 (wrap_i64 a + b) = wrap_i64 (a + b).
Proof.
  unfold wrap_i64. f_equal. replace ((a + 2 ^ 63) mod 2 ^ 64 - 2 ^ 63 + b + 2 ^ 63) with ((a + 2 ^ 63) mod 2 ^ 64 + b) by lia.
  rewrite Z.add_mod_idemp_l by lia. f_equal. lia.
Qed.

Lemma wrapping_add_small a b : is_u64 (a + b) -> wrapping_add a b = a + b.
Proof. apply wrap64_small. Qed.

Lemma wrapping_sub_small a b : is_u64 (a - b) -> wrapping_sub a b = a - b.
Proof. apply wrap64_small. Qed.

Lemma wrapping_mul_small a b : is_u64 (a * b) -> wrapping_mul a b = a * b.
Proof. apply wrap64_small. Qed.

Lemma saturating_add_range a b : is_u64 a -> is_u64 b -> is_u64 (saturating_add a b).
Proof. unfold is_u64, saturating_add, u64_max. lia. Qed.

Lemma saturating_sub_range a b : is_u64 a -> is_u64 b -> is_u64 (saturating_sub a b).
Proof. unfold is_u64, saturating_sub. lia. Qed.
End machine_integers.

#[export] Hint Resolve wrap64_range saturating_add_range saturating_sub_range : rust.

(** ** Tactics shared by the development *)

(** Splits the boolean connectives and comparisons of the context. *)
Ltac bool_simpl :=
  repeat match goal with
    | H : context [ negb (negb _) ] |- _ => rewrite negb_involutive in H
    | H : _ && _ = true |- _ => apply andb_true_iff in H; destruct H
    | H : _ || _ = false |- _ => apply orb_false_iff in H; destruct H
    | H : negb _ = true |- _ => apply negb_true_iff in H
    | H : negb _ = false |- _ => apply negb_false_iff in H
    | H : bool_decide _ = true |- _ => apply bool_decide_eq_true in H
    | H : bool_decide _ = false |- _ => apply bool_decide_eq_false in H
    | H : (_ =? _)%Z = true |- _ => apply Z.eqb_eq in H
    | H : (_ =? _)%Z = false |- _ => apply Z.eqb_neq in H
    | H : (_ <=? _)%Z = true |- _ => apply Z.leb_le in H
    | H : (_ <=? _)%Z = false |- _ => apply Z.leb_gt in H
    | H : (_ <? _)%Z = true |- _ => apply Z.ltb_lt in H
    | H : (_ <? _)%Z = false |- _ => apply Z.ltb_ge in H
    | H : (_ >=? _)%Z = true |- _ => apply Z.geb_le in H
    | H : (_ =? _)%nat = true |- _ => apply Nat.eqb_eq in H
    | H : (_ =? _)%nat = false |- _ => apply Nat.eqb_neq in H
    | H : (_ <=? _)%nat = true |- _ => apply Nat.leb_le in H
    | H : (_ <=? _)%nat = false |- _ => apply Nat.leb_gt in H
    | H : (_ <? _)%nat = true |- _ => apply Nat.ltb_lt in H
    | H : (_ <? _)%nat = false |- _ => apply Nat.ltb_ge in H
    | H : String.eqb _ _ = true |- _ => apply String.eqb_eq in H
    | H : String.eqb _ _ = false |- _ => apply String.eqb_neq in H
    end.

(** Case analysis on the scrutinees of the goal, with their equations. *)
Ltac cases :=
  repeat (case_match; simplify_eq/=; try done).
