(* ===== verification/F64.v ===== *)
(** * F64: Rust's [f64]

    Weights, rates and slot positions of the program are [f64].  An [f64] is a
    value of the Standard Library's [spec_float] at binary64 precision; the
    arithmetic is the IEEE-754 round-to-nearest-even arithmetic of
    [SpecFloat].  This file adds the operations of [core::f64] the source
    uses ([as f64], [as usize], [max], [clamp], [round], [from_str]) and the
    facts the other files need: every result of a rounding stays below any
    representable bound of the exact value, and comparison is comparison of
    values. *)
From S2P Require Import Prelude.
From Stdlib Require Import Floats.SpecFloat.
Local Open Scope Z_scope.

Abbreviation f64 := spec_float.
#[local] Abbreviation prec := 53.
#[local] Abbreviation emax := 1024.

(** ** Constants and operators *)

Definition f64_add : f64 -> f64 -> f64 := SFadd prec emax.
Definition f64_sub : f64 -> f64 -> f64 := SFsub prec emax.
Definition f64_mul : f64 -> f64 -> f64 := SFmul prec emax.
Definition f64_div : f64 -> f64 -> f64 := SFdiv prec emax.
Definition f64_lt : f64 -> f64 -> bool := SFltb.
Definition f64_le : f64 -> f64 -> bool := SFleb.
Definition f64_eq : f64 -> f64 -> bool := SFeqb.

(** [z as f64] *)
Definition f64_of_Z (z : Z) : f64 := binary_normalize prec emax z 0 false.

Definition f64_zero : f64 := S754_zero false.
Definition f64_neg_zero : f64 := S754_zero true.
Definition f64_one : f64 := f64_of_Z 1.
Definition f64_half : f64 := binary_normalize prec emax 1 (-1) false.
(** [f64::MAX] *)
Definition f64_MAX : f64 := SFmax_float prec emax.

Definition f64_is_nan (x : f64) : bool := match x with S754_nan => true | _ => false end.

(** [f64::is_finite] *)
Definition f64_is_finite (x : f64) : bool :=
  match x with S754_nan | S754_infinity _ => false | _ => true end.

(** [f64::max]: the other operand when one is a NaN. *)
Definition f64_max (x y : f64) : f64 :=
  if f64_is_nan x then y else if f64_is_nan y then x else if f64_lt x y then y else x.

(** [f64::clamp] *)
Definition f64_clamp (x lo hi : f64) : f64 :=
  if f64_lt x lo then lo else if f64_lt hi x then hi else x.

(** [f64::round]: to the nearest integer, halves away from zero. *)
Definition f64_round (x : f64) : f64 :=
  match x with
  | S754_finite s m e =>
      if 0 <=? e then x
      else
        let n := (Z.pos m + 2 ^ (- e - 1)) / 2 ^ (- e) in
        binary_normalize prec emax (if s then - n else n) 0 s
  | _ => x
  end.

(** [x as usize]: truncation, saturating, NaN to 0. *)
Definition f64_to_usize (x : f64) : Z :=
  match x with
  | S754_finite false m e =>
      Z.min (if 0 <=? e then Z.pos m * 2 ^ e else Z.pos m / 2 ^ (- e)) u64_max
  | S754_infinity false => u64_max
  | _ => 0
  end.

(** [iter.sum::<f64>()] starts from -0.0. *)
Definition f64_sum (l : list f64) : f64 := foldl f64_add f64_neg_zero l.

(** ** Decimal to [f64], as [f64::from_str]: the correctly rounded value of
    [m * 10 ^ e10]. *)
Definition f64_of_decimal (s : bool) (m e10 : Z) : f64 :=
  match m with
  | Zpos p =>
      if 0 <=? e10 then binary_normalize prec emax (if s then - (m * 10 ^ e10) else m * 10 ^ e10) 0 s
      else
        let '(mz, ez, lz) := SFdiv_core_binary prec emax m 0 (10 ^ (- e10)) 0 in
        binary_round_aux prec emax s mz ez lz
  | _ => S754_zero s
  end.

(** ** Values

    A finite [f64] is an integer multiple of 2^-1074; [fval] is that integer. *)
Definition fval (x : f64) : Z :=
  match x with
  | S754_finite s m e => (if s then -1 else 1) * (Z.pos m * 2 ^ (e + 1074))
  | _ => 0
  end.

Definition valid (x : f64) : Prop := valid_binary prec emax x = true.

(** A positive finite number. *)
Definition pos_fin (x : f64) : Prop :=
  exists m e, x = S754_finite false m e /\ valid x.

(** [B] (in units of 2^-1074) is the value of a positive finite number. *)
Definition representable (B : Z) : Prop :=
  exists mb eb, 0 < mb < 2 ^ 53 /\ -1074 <= eb <= 971 /\ B = mb * 2 ^ (eb + 1074).

Lemma mul_lt_r a b c : 0 < c -> a < b -> a * c < b * c.
Proof. intros Hc. by apply Z.mul_lt_mono_pos_r. Qed.

Lemma mul_le_r a b c : 0 < c -> a <= b -> a * c <= b * c.
Proof. intros Hc. apply Z.mul_le_mono_nonneg_r. lia. Qed.

Lemma pow2_pos k : 0 <= k -> 0 < 2 ^ k.
Proof. intros Hk. by apply Z.pow_pos_nonneg. Qed.

Lemma digits2_bounds m :
  2 ^ (Z.pos (digits2_pos m) - 1) <= Z.pos m < 2 ^ Z.pos (digits2_pos m).
Proof.
  induction m as [m IH|m IH|]; cbn [digits2_pos]; rewrite ?Pos2Z.inj_succ; [| |cbn; lia].
  all: replace (Z.succ (Z.pos (digits2_pos m)) - 1) with (Z.succ (Z.pos (digits2_pos m) - 1)) by lia.
  all: rewrite !Z.pow_succ_r by lia; lia.
Qed.

Lemma Zdigits2_bounds m : 0 < m -> 2 ^ (Zdigits2 m - 1) <= m < 2 ^ Zdigits2 m.
Proof. destruct m as [|m|m]; intros H; [lia| |lia]. apply digits2_bounds. Qed.

Lemma Zdigits2_pos m : 0 < m -> 0 < Zdigits2 m.
Proof. destruct m; cbn; lia. Qed.

Lemma Zdigits2_unique m d : 0 < d -> 2 ^ (d - 1) <= m < 2 ^ d -> Zdigits2 m = d.
Proof.
  intros Hd Hm. assert (0 < m) as Hp by (pose proof (Z.pow_pos_nonneg 2 (d - 1)); lia).
  pose proof (Zdigits2_bounds m Hp). pose proof (Zdigits2_pos m Hp).
  destruct (Z.lt_trichotomy (Zdigits2 m) d) as [H1|[H1|H1]]; [|done|]; exfalso.
  - pose proof (Z.pow_le_mono_r 2 (Zdigits2 m) (d - 1)). lia.
  - pose proof (Z.pow_le_mono_r 2 d (Zdigits2 m - 1)). lia.
Qed.

(** ** Right shifts of a mantissa *)

Definition inexact (l : location) : Prop := l <> loc_Exact.

Definition rec_inexact (r : shr_record) : Prop := shr_r r = true \/ shr_s r = true.

Lemma shr_1_spec r :
  0 <= shr_m r ->
  shr_m (shr_1 r) = shr_m r / 2 /\
  (rec_inexact (shr_1 r) <-> rec_inexact r \/ shr_m r mod 2 <> 0).
Proof.
  destruct r as [[|[p|p|]|p] rr s]; unfold rec_inexact; cbn -[Z.div Z.modulo]; intros Hm; [| | | |lia].
  2: rewrite Pos2Z.inj_xI, (Z.mul_comm 2), Z.add_comm, Z.mod_add, Z.div_add by lia.
  3: rewrite Pos2Z.inj_xO, (Z.mul_comm 2), Z.mod_mul, Z.div_mul by lia.
  all: destruct rr, s; cbn; intuition (try congruence; try discriminate).
Qed.

Lemma or_4 (A B C D : Prop) : ((A \/ B) \/ C) \/ D <-> A \/ (B \/ (C \/ D)).
Proof. tauto. Qed.

Lemma or_3 (A B C : Prop) : (A \/ B) \/ C <-> A \/ (B \/ C).
Proof. tauto. Qed.

Lemma shr_iter_spec n r :
  0 <= shr_m r ->
  shr_m (iter_pos shr_1 n r) = shr_m r / 2 ^ Z.pos n /\
  (rec_inexact (iter_pos shr_1 n r) <-> rec_inexact r \/ shr_m r mod 2 ^ Z.pos n <> 0).
Proof.
  assert (forall a x y, 0 <= a -> 0 < x -> 0 < y ->
    a mod (x * y) <> 0 <-> a mod x <> 0 \/ (a / x) mod y <> 0) as Hmm.
  { intros a x y Ha Hx Hy. rewrite Z.rem_mul_r by lia.
    pose proof (Z.mod_pos_bound a x Hx). pose proof (Z.mod_pos_bound (a / x) y Hy). nia. }
  revert r. induction n as [n IH|n IH|]; intros r Hr; cbn [iter_pos].
  - destruct (shr_1_spec r Hr) as [E1 I1].
    destruct (IH (shr_1 r)) as [E2 I2]; [rewrite E1; apply Z.div_pos; lia|].
    destruct (IH (iter_pos shr_1 n (shr_1 r))) as [E3 I3].
    { rewrite E2, E1. repeat apply Z.div_pos; lia. }
    rewrite (Pos2Z.inj_xI n).
    replace (2 ^ (2 * Z.pos n + 1)) with (2 * (2 ^ Z.pos n * 2 ^ Z.pos n))
      by (rewrite <-Z.pow_add_r, <-Z.pow_succ_r by lia; f_equal; lia).
    pose proof (Z.pow_pos_nonneg 2 (Z.pos n) ltac:(lia) ltac:(lia)).
    split; [rewrite E3, E2, E1, !Z.div_div by lia; f_equal; ring|].
    rewrite I3, I2, I1, E2, E1.
    rewrite (Hmm (shr_m r) 2 (2 ^ Z.pos n * 2 ^ Z.pos n)), (Hmm (shr_m r / 2)) by (try apply Z.div_pos; nia).
    apply or_4.
  - destruct (IH r Hr) as [E2 I2].
    destruct (IH (iter_pos shr_1 n r)) as [E3 I3]; [rewrite E2; apply Z.div_pos; lia|].
    rewrite (Pos2Z.inj_xO n).
    replace (2 ^ (2 * Z.pos n)) with (2 ^ Z.pos n * 2 ^ Z.pos n)
      by (rewrite <-Z.pow_add_r by lia; f_equal; lia).
    pose proof (Z.pow_pos_nonneg 2 (Z.pos n) ltac:(lia) ltac:(lia)).
    split; [by rewrite E3, E2, Z.div_div by lia|].
    rewrite I3, I2, E2, (Hmm (shr_m r)) by nia. apply or_3.
  - change (2 ^ 1) with 2. by apply shr_1_spec.
Qed.

Lemma rec_of_loc m l :
  shr_m (shr_record_of_loc m l) = m /\ (rec_inexact (shr_record_of_loc m l) <-> inexact l).
Proof.
  unfold rec_inexact, inexact. destruct l as [|[]]; cbn; intuition (try congruence).
Qed.

Lemma loc_of_rec r : inexact (loc_of_shr_record r) <-> rec_inexact r.
Proof. unfold inexact, rec_inexact. destruct r as [m [] []]; cbn; intuition (try congruence). Qed.

(** One normalisation: the mantissa is divided by the power of two that makes
    the exponent canonical; the location is exact only if nothing was lost. *)
Lemma shr_fexp_spec m e l r e' :
  0 < m -> -1074 <= e -> e <= fexp prec emax (Zdigits2 m + e) ->
  shr_fexp prec emax m e l = (r, e') ->
  exists k, 0 <= k /\ e' = e + k /\ shr_m r = m / 2 ^ k /\ 0 < shr_m r < 2 ^ 53 /\
    (2 ^ 52 <= shr_m r \/ e' = -1074) /\
    (rec_inexact r <-> inexact l \/ m mod 2 ^ k <> 0).
Proof.
  intros Hm He Hl. unfold shr_fexp, shr.
  pose proof (Zdigits2_bounds m Hm) as Hb. pose proof (Zdigits2_pos m Hm) as Hd.
  set (d := Zdigits2 m) in *.
  assert (fexp prec emax (d + e) = Z.max (d + e - 53) (-1074)) as Hf by done.
  rewrite Hf in *. destruct (rec_of_loc m l) as [Er Ir].
  destruct (Z.max (d + e - 53) (-1074) - e) as [|p|p] eqn:Ek; intros [= <- <-]; [| |lia].
  - exists 0. rewrite Er, Ir, Z.div_1_r, Z.mod_1_r.
    assert (d <= 53) by lia.
    assert (m < 2 ^ 53) by (pose proof (Z.pow_le_mono_r 2 d 53); lia).
    repeat split; try lia; try tauto.
    destruct (Z.eq_dec d 53) as [->|]; [left; lia|right; lia].
  - exists (Z.pos p). rewrite <-Ek in *.
    destruct (shr_iter_spec p (shr_record_of_loc m l)) as [E2 I2]; [lia|].
    rewrite <-Ek, Er in E2. rewrite <-Ek, Er, Ir in I2. rewrite E2, I2.
    set (k := Z.max (d + e - 53) (-1074) - e) in *.
    assert (k = d - 53) as Hk by lia.
    assert (2 ^ 52 <= m / 2 ^ k < 2 ^ 53).
    { split; [apply Z.div_le_lower_bound|apply Z.div_lt_upper_bound];
        try (apply Z.pow_pos_nonneg; lia); rewrite <-Z.pow_add_r by lia; rewrite ?Hk;
        [replace (d - 53 + 52) with (d - 1) by lia|replace (d - 53 + 53) with d by lia]; lia. }
    repeat split; try lia; try tauto.
Qed.

Lemma fexp_canonical m e :
  0 < m < 2 ^ 53 -> -1074 <= e -> 2 ^ 52 <= m \/ e = -1074 ->
  fexp prec emax (Zdigits2 m + e) = e.
Proof.
  intros Hm He Hc. pose proof (Zdigits2_bounds m (proj1 Hm)). pose proof (Zdigits2_pos m (proj1 Hm)).
  change (Z.max (Zdigits2 m + e - 53) (-1074) = e).
  assert (Zdigits2 m <= 53).
  { destruct (Z.le_gt_cases (Zdigits2 m) 53) as [|Hgt]; [done|].
    pose proof (Z.pow_le_mono_r 2 53 (Zdigits2 m - 1)). lia. }
  destruct Hc as [Hc|]; [|lia].
  assert (Zdigits2 m = 53) as ->; [|lia]. apply Zdigits2_unique; lia.
Qed.

Lemma fexp_normal m e : 2 ^ 52 <= m -> -1074 <= e -> e <= fexp prec emax (Zdigits2 m + e).
Proof.
  intros Hm He. pose proof (Zdigits2_bounds m ltac:(lia)). pose proof (Zdigits2_pos m ltac:(lia)).
  change (e <= Z.max (Zdigits2 m + e - 53) (-1074)).
  assert (53 <= Zdigits2 m); [|lia].
  destruct (Z.le_gt_cases 53 (Zdigits2 m)) as [|Hgt]; [done|].
  pose proof (Z.pow_le_mono_r 2 (Zdigits2 m) 52). lia.
Qed.

(** A bound that is above a mantissa with the precision's digits is above the
    next mantissa too. *)
Lemma representable_succ M e B :
  representable B -> -1074 <= e -> 0 < M -> 2 ^ 52 <= M \/ e = -1074 ->
  M * 2 ^ (e + 1074) < B -> (M + 1) * 2 ^ (e + 1074) <= B.
Proof.
  intros (mb & eb & Hmb & Heb & ->) He HM Hc Hlt.
  destruct (Z.le_gt_cases e eb) as [Hle|Hgt].
  - assert (2 ^ (eb + 1074) = 2 ^ (eb - e) * 2 ^ (e + 1074)) as Epow
      by (rewrite <-Z.pow_add_r by lia; f_equal; lia).
    rewrite Epow, Z.mul_assoc in *.
    pose proof (Z.pow_pos_nonneg 2 (e + 1074) ltac:(lia) ltac:(lia)).
    apply Z.mul_lt_mono_pos_r in Hlt; [|done]. apply Z.mul_le_mono_nonneg_r; lia.
  - exfalso. destruct Hc as [Hc|]; [|lia].
    assert (2 ^ 53 * 2 ^ (eb + 1074) <= 2 ^ 52 * 2 ^ (e + 1074)).
    { rewrite <-!Z.pow_add_r by lia. apply Z.pow_le_mono_r; lia. }
    pose proof (Z.pow_pos_nonneg 2 (e + 1074) ltac:(lia) ltac:(lia)) as Hp.
    pose proof (Z.pow_pos_nonneg 2 (eb + 1074) ltac:(lia) ltac:(lia)) as Hq.
    pose proof (mul_le_r _ _ _ Hp Hc). pose proof (mul_lt_r _ _ _ Hq (proj2 Hmb)). lia.
Qed.

Lemma representable_lt B : representable B -> B < 2 ^ (1024 + 1074).
Proof.
  intros (mb & eb & Hmb & Heb & ->).
  apply Z.lt_le_trans with (2 ^ 53 * 2 ^ (eb + 1074)).
  - apply mul_lt_r; [apply pow2_pos|]; lia.
  - rewrite <-Z.pow_add_r by lia. apply Z.pow_le_mono_r; lia.
Qed.

Lemma round_nearest_even_cases M l :
  round_nearest_even M l = M \/ (round_nearest_even M l = M + 1 /\ inexact l).
Proof.
  unfold inexact. destruct l as [|[]]; cbn; [auto|destruct (Z.even M)| |]; auto;
    right; split; auto; discriminate.
Qed.

(** Rounding to nearest takes the mantissa or the one above, the latter only
    when something was lost. *)
Lemma round_nearest_even_bounds M l s B :
  0 < M < 2 ^ 53 -> M * s <= B -> (inexact l -> (M + 1) * s <= B) ->
  0 < round_nearest_even M l <= 2 ^ 53 /\ M <= round_nearest_even M l /\ round_nearest_even M l * s <= B.
Proof. intros HM Hle Hlt. destruct (round_nearest_even_cases M l) as [->|[-> Hi]]; [lia|]. specialize (Hlt Hi). lia. Qed.

(** Normalising a rounded mantissa loses nothing: only 2^53 is shifted. *)
Lemma renormalised R e k :
  0 < R <= 2 ^ 53 -> -1074 <= e -> 0 <= k -> 2 ^ 52 <= R / 2 ^ k \/ e + k = -1074 ->
  R / 2 ^ k * 2 ^ (e + k + 1074) = R * 2 ^ (e + 1074).
Proof.
  intros HR He Hk Hc.
  assert (2 ^ (e + k + 1074) = 2 ^ k * 2 ^ (e + 1074)) as -> by (rewrite <-Z.pow_add_r by lia; f_equal; lia).
  rewrite Z.mul_assoc. f_equal. destruct (Z.eq_dec k 0) as [->|Hne]; [rewrite Z.div_1_r; lia|].
  destruct Hc as [Hc|]; [|lia]. pose proof (pow2_pos k Hk) as Hpk.
  assert (2 ^ 53 <= R) as HR53.
  { pose proof (Z.mul_div_le R (2 ^ k) Hpk). pose proof (Z.pow_le_mono_r 2 1 k ltac:(lia) ltac:(lia)). pose proof (mul_le_r _ _ _ Hpk Hc). lia. }
  assert (R = 2 ^ 53) as -> by lia.
  assert (k <= 53).
  { destruct (Z.le_gt_cases k 53) as [|Hgt]; [done|exfalso].
    rewrite Z.div_small in Hc by (split; [lia|apply Z.pow_lt_mono_r; lia]). lia. }
  replace (2 ^ 53) with (2 ^ (53 - k) * 2 ^ k) by (rewrite <-Z.pow_add_r by lia; f_equal; lia).
  rewrite Z.div_mul; [done|]. lia.
Qed.

(** A canonical value below a representable one does not overflow. *)
Lemma canonical_exponent M e B : representable B -> -1074 <= e -> 2 ^ 52 <= M \/ e = -1074 -> M * 2 ^ (e + 1074) <= B -> e <= 971.
Proof.
  intros HB He Hc Hle. destruct (Z.le_gt_cases e 971) as [|Hgt]; [lia|exfalso]. destruct Hc as [Hc|]; [|lia].
  pose proof (representable_lt B HB) as HBlt.
  assert (2 ^ (1024 + 1074) <= 2 ^ 52 * 2 ^ (e + 1074)) by (rewrite <-Z.pow_add_r by lia; apply Z.pow_le_mono_r; lia).
  pose proof (mul_le_r _ _ _ (pow2_pos (e + 1074) ltac:(lia)) Hc). lia.
Qed.

(** ** Rounding never exceeds a representable bound of the exact value

    The exact value is at least [m * 2 ^ e] and less than [(m + 1) * 2 ^ e]; it
    is [m * 2 ^ e] when the location is exact. *)
Lemma round_aux_bounds m e l B :
  0 < m -> -1074 <= e -> e <= fexp prec emax (Zdigits2 m + e) ->
  representable B -> m * 2 ^ (e + 1074) <= B -> (inexact l -> m * 2 ^ (e + 1074) < B) ->
  pos_fin (binary_round_aux prec emax false m e l) /\
  fval (binary_round_aux prec emax false m e l) <= B /\
  (forall A, representable A -> A <= m * 2 ^ (e + 1074) ->
     A <= fval (binary_round_aux prec emax false m e l)).
Proof.
  intros Hm He Hf HB Hle Hlt. unfold binary_round_aux.
  destruct (shr_fexp _ _ m e l) as [r1 e1] eqn:E1.
  destruct (shr_fexp_spec _ _ _ _ _ Hm He Hf E1) as (k & Hk & -> & EM & HM & Hc & Hi).
  set (R := round_nearest_even _ _).
  pose proof (pow2_pos k Hk) as Hpk. pose proof (pow2_pos (e + 1074) ltac:(lia)) as Hpe.
  assert (2 ^ (e + k + 1074) = 2 ^ k * 2 ^ (e + 1074)) as Epow
    by (rewrite <-Z.pow_add_r by lia; f_equal; lia).
  pose proof (Z.mul_div_le m (2 ^ k) Hpk) as Hdiv.
  assert (shr_m r1 * 2 ^ (e + k + 1074) <= m * 2 ^ (e + 1074)) as Hbelow
    by (rewrite Epow, EM, Z.mul_assoc; apply mul_le_r; lia).
  assert (0 < R <= 2 ^ 53 /\ shr_m r1 <= R /\ R * 2 ^ (e + k + 1074) <= B) as (HR & HMR & HRB).
  { apply round_nearest_even_bounds; [lia|lia|]. intros IR%loc_of_rec%Hi. apply representable_succ; [done|lia|lia|done|].
    destruct IR as [IR|IR]; [specialize (Hlt IR); lia|]. apply Z.lt_le_trans with (m * 2 ^ (e + 1074)); [|done].
    rewrite Epow, EM, Z.mul_assoc. apply mul_lt_r; [lia|]. pose proof (Z.mod_pos_bound m (2 ^ k) Hpk). pose proof (Z.div_mod m (2 ^ k) ltac:(lia)). lia. }
  destruct (shr_fexp _ _ R (e + k) loc_Exact) as [r2 e2] eqn:E2.
  assert (e + k <= fexp prec emax (Zdigits2 R + (e + k))) as Hf2.
  { destruct Hc as [Hc| ->]; [apply fexp_normal; lia|apply Z.le_max_r]. }
  assert (-1074 <= e + k) as Hek by lia.
  destruct (shr_fexp_spec _ _ _ _ _ (proj1 HR) Hek Hf2 E2) as (k2 & Hk2 & -> & EM2 & HM2 & Hc2 & _).
  assert (shr_m r2 * 2 ^ (e + k + k2 + 1074) = R * 2 ^ (e + k + 1074)) as Hsame
    by (rewrite EM2; apply renormalised; [done|lia|done|by rewrite <- EM2]).
  assert (e + k + k2 <= 1024 - 53) as He2 by (apply (canonical_exponent (shr_m r2) _ B); [done|lia|done|lia]).
  destruct (shr_m r2) as [|p|p] eqn:Ep; [lia| |lia].
  replace (e + k + k2 <=? 1024 - 53) with true by (symmetry; apply Z.leb_le; lia).
  split; [|split; [cbn [fval]; lia|]].
  2: { intros A HA HAle. cbn [fval]. rewrite Z.mul_1_l, Hsame.
    apply Z.le_trans with (shr_m r1 * 2 ^ (e + k + 1074)); [|apply mul_le_r; [apply pow2_pos|]; lia].
    destruct (Z.le_gt_cases A (shr_m r1 * 2 ^ (e + k + 1074))) as [|Hgt]; [done|exfalso].
    apply representable_succ in Hgt; [|done..|lia|done]. rewrite Epow, Z.mul_assoc in Hgt.
    assert (m < (shr_m r1 + 1) * 2 ^ k) as Hlt' by (rewrite EM; pose proof (Z.mul_succ_div_gt m (2 ^ k) Hpk); lia).
    apply (mul_lt_r _ _ _ Hpe) in Hlt'. lia. }
  exists p, (e + k + k2). split; [done|]. unfold valid, valid_binary, bounded, canonical_mantissa.
  change (Z.pos (digits2_pos p)) with (Zdigits2 (Z.pos p)).
  rewrite fexp_canonical by (rewrite <-?Ep; lia).
  rewrite Z.eqb_refl. cbn [andb]. apply Z.leb_le. lia.
Qed.

Lemma shl_align_spec m ex ex' :
  ex' <= ex -> shl_align m ex ex' = (Z.to_pos (Z.pos m * 2 ^ (ex - ex')), ex').
Proof.
  intros H. unfold shl_align. destruct (ex' - ex) as [|d|d] eqn:E; [|lia|].
  - assert (ex = ex') as -> by lia. by rewrite Z.sub_diag, Z.mul_1_r.
  - f_equal. replace (ex - ex') with (Z.pos d) by lia. clear.
    enough (Z.pos (Pos.iter xO m d) = Z.pos m * 2 ^ Z.pos d) as <- by done.
    induction d as [|d IH] using Pos.peano_ind; [cbn; lia|].
    rewrite Pos.iter_succ, Pos2Z.inj_succ, Z.pow_succ_r, Pos2Z.inj_xO, IH by lia. lia.
Qed.

Lemma shl_align_ge m ex ex' : ex <= ex' -> shl_align m ex ex' = (m, ex).
Proof. intros H. unfold shl_align. destruct (ex' - ex) eqn:E; [done..|lia]. Qed.

Lemma Zdigits2_shift m k : 0 < m -> 0 <= k -> Zdigits2 (m * 2 ^ k) = Zdigits2 m + k.
Proof.
  intros Hm Hk. pose proof (Zdigits2_bounds m Hm) as [H1 H2]. pose proof (Zdigits2_pos m Hm).
  apply Zdigits2_unique; [lia|].
  replace (Zdigits2 m + k - 1) with (Zdigits2 m - 1 + k) by lia. rewrite !Z.pow_add_r by lia.
  split; [apply mul_le_r|apply mul_lt_r]; auto using pow2_pos.
Qed.

Lemma binary_round_bounds m e B :
  -1074 <= e -> representable B -> Z.pos m * 2 ^ (e + 1074) <= B ->
  pos_fin (binary_round prec emax false m e) /\
  fval (binary_round prec emax false m e) <= B /\
  (forall A, representable A -> A <= Z.pos m * 2 ^ (e + 1074) ->
     A <= fval (binary_round prec emax false m e)).
Proof.
  intros He HB Hle. unfold binary_round.
  change (Z.pos (digits2_pos m)) with (Zdigits2 (Z.pos m)).
  set (f := fexp prec emax (Zdigits2 (Z.pos m) + e)).
  assert (-1074 <= f) by apply Z.le_max_r.
  destruct (Z.le_gt_cases e f) as [Hef|Hef].
  - rewrite shl_align_ge by done.
    by apply round_aux_bounds.
  - rewrite shl_align_spec by lia. rewrite Z2Pos.id by (pose proof (pow2_pos (e - f)); lia).
    assert (Z.pos m * 2 ^ (e - f) * 2 ^ (f + 1074) = Z.pos m * 2 ^ (e + 1074)) as <-.
    { rewrite <-Z.mul_assoc, <-Z.pow_add_r by lia. do 2 f_equal. lia. }
    apply round_aux_bounds; [| | |done| |].
    + pose proof (pow2_pos (e - f)). lia.
    + done.
    + rewrite Zdigits2_shift by lia. replace (_ + (e - f) + f) with (Zdigits2 (Z.pos m) + e) by lia. done.
    + rewrite <-Z.mul_assoc, <-Z.pow_add_r by lia. by replace (e - f + (f + 1074)) with (e + 1074) by lia.
    + by intros [].
Qed.

(** ** The operations on positive finite numbers *)

Lemma pos_fin_inv x :
  pos_fin x ->
  exists m e, x = S754_finite false m e /\ -1074 <= e <= 971 /\ Z.pos m < 2 ^ 53 /\
    (2 ^ 52 <= Z.pos m \/ e = -1074) /\ fval x = Z.pos m * 2 ^ (e + 1074).
Proof.
  intros (m & e & -> & Hv). exists m, e. unfold valid, valid_binary, bounded, canonical_mantissa in Hv.
  apply andb_true_iff in Hv as [Hc Hmax]. apply Z.eqb_eq in Hc. apply Z.leb_le in Hmax.
  change (Z.max (Zdigits2 (Z.pos m) + e - 53) (-1074) = e) in Hc.
  pose proof (Zdigits2_bounds (Z.pos m) ltac:(lia)) as Hb.
  assert (Z.pos m < 2 ^ 53).
  { pose proof (Z.pow_le_mono_r 2 (Zdigits2 (Z.pos m)) 53). lia. }
  split; [done|]. split; [lia|]. split; [done|]. split; [|cbn [fval]; lia].
  destruct (Z.eq_dec (Zdigits2 (Z.pos m)) 53) as [E|]; [left; rewrite E in Hb; lia|right; lia].
Qed.

Lemma pos_fin_fval x : pos_fin x -> 0 < fval x.
Proof.
  intros (m & e & _ & He & _ & _ & ->)%pos_fin_inv. pose proof (pow2_pos (e + 1074)). lia.
Qed.

Lemma pos_fin_representable x : pos_fin x -> representable (fval x).
Proof. intros (m & e & _ & He & Hm & _ & ->)%pos_fin_inv. exists (Z.pos m), e. auto with lia. Qed.

Lemma representable_int n k : 0 < n < 2 ^ 53 -> 0 <= k <= 971 -> representable (n * 2 ^ (k + 1074)).
Proof. intros Hn Hk. exists n, k. lia. Qed.

Lemma f64_of_Z_bounds n : 0 < n < 2 ^ 53 -> pos_fin (f64_of_Z n) /\ fval (f64_of_Z n) = n * 2 ^ 1074.
Proof.
  intros Hn. destruct n as [|p|p]; [lia| |lia].
  assert (representable (Z.pos p * 2 ^ (0 + 1074))) as HB by (apply representable_int; lia).
  destruct (binary_round_bounds p 0 _ ltac:(lia) HB ltac:(done)) as (Hp & Hle & Hge).
  split; [done|]. apply Z.le_antisymm; [done|]. by apply Hge.
Qed.

Lemma f64_add_bounds x y B :
  pos_fin x -> pos_fin y -> representable B -> fval x + fval y <= B ->
  pos_fin (f64_add x y) /\ fval (f64_add x y) <= B.
Proof.
  intros (mx & ex & -> & Hex & _ & _ & Ex)%pos_fin_inv (my & ey & -> & Hey & _ & _ & Ey)%pos_fin_inv HB Hle.
  unfold f64_add, SFadd. set (ez := Z.min ex ey).
  rewrite !shl_align_spec by lia. cbn [fst cond_Zopp].
  assert (0 < Z.pos mx * 2 ^ (ex - ez)) by (pose proof (pow2_pos (ex - ez)); lia).
  assert (0 < Z.pos my * 2 ^ (ey - ez)) by (pose proof (pow2_pos (ey - ez)); lia).
  rewrite !Z2Pos.id by done.
  destruct (Z.pos mx * 2 ^ (ex - ez) + Z.pos my * 2 ^ (ey - ez)) as [|s|s] eqn:Es; [lia| |lia].
  unfold binary_normalize.
  edestruct (binary_round_bounds s ez B) as (H1 & H2 & _); [lia|done| |by split].
  rewrite <-Es, Z.mul_add_distr_r, <-!Z.mul_assoc, <-!Z.pow_add_r by lia.
  replace (ex - ez + (ez + 1074)) with (ex + 1074) by lia.
  replace (ey - ez + (ez + 1074)) with (ey + 1074) by lia. lia.
Qed.

Lemma f64_half_mul_bounds x B :
  pos_fin x -> 2 ^ 1074 <= fval x -> representable B -> fval x <= 2 * B ->
  pos_fin (f64_mul x f64_half) /\ fval (f64_mul x f64_half) <= B.
Proof.
  intros (m & e & -> & He & Hm & Hc & Ex)%pos_fin_inv H1 HB Hle. rewrite Ex in *.
  assert (-52 <= e).
  { destruct (Z.le_gt_cases (-52) e) as [|Hgt]; [done|exfalso].
    pose proof (mul_lt_r _ _ _ (pow2_pos (e + 1074) ltac:(lia)) Hm) as Hlt.
    rewrite <-Z.pow_add_r in Hlt by lia.
    pose proof (Z.pow_le_mono_r 2 (53 + (e + 1074)) 1074). lia. }
  unfold f64_mul. change f64_half with (S754_finite false 4503599627370496 (-53)).
  unfold SFmul. cbn [xorb]. rewrite Pos2Z.inj_mul.
  edestruct (round_aux_bounds (Z.pos m * 4503599627370496) (e + -53) loc_Exact B) as (H2 & H3 & _);
    [lia|lia|apply fexp_normal; lia|done| |by intros []|by split].
  assert (2 ^ (e + 1074) = 2 ^ 53 * 2 ^ (e + -53 + 1074)) as Ep
    by (rewrite <-Z.pow_add_r by lia; f_equal; lia).
  rewrite Ep in Hle. change 4503599627370496 with (2 ^ 52). change (2 ^ 53) with (2 * 2 ^ 52) in Hle.
  lia.
Qed.

(** The mantissa and exponent of a small integer. *)
Lemma f64_of_Z_shape n :
  0 < n < 2 ^ 53 ->
  exists m a, f64_of_Z n = S754_finite false m (- a) /\ 0 <= a <= 52 /\
    Z.pos m = n * 2 ^ a /\ 2 ^ 52 <= Z.pos m < 2 ^ 53.
Proof.
  intros Hn. destruct (f64_of_Z_bounds n Hn) as [(m & e & -> & He & Hm & Hc & Ee)%pos_fin_inv Vn].
  rewrite Vn in Ee. clear Vn.
  assert (-52 <= e).
  { destruct (Z.le_gt_cases (-52) e) as [|Hgt]; [done|exfalso].
    pose proof (mul_lt_r _ _ _ (pow2_pos (e + 1074) ltac:(lia)) Hm) as Hlt.
    rewrite <-Z.pow_add_r in Hlt by lia.
    pose proof (Z.pow_le_mono_r 2 (53 + (e + 1074)) 1074). lia. }
  assert (2 ^ 52 <= Z.pos m) by lia.
  assert (e <= 0).
  { destruct (Z.le_gt_cases e 0) as [|Hgt]; [done|exfalso].
    pose proof (mul_lt_r _ _ _ (pow2_pos 1074 ltac:(lia)) (proj2 Hn)).
    assert (2 ^ 53 * 2 ^ 1074 <= 2 ^ 52 * 2 ^ (e + 1074)).
    { rewrite <-!Z.pow_add_r by lia. apply Z.pow_le_mono_r; lia. }
    pose proof (mul_le_r (2 ^ 52) (Z.pos m) _ (pow2_pos (e + 1074) ltac:(lia))). lia. }
  exists m, (- e). rewrite Z.opp_involutive. split; [done|]. split; [lia|]. split; [|lia].
  apply (Z.mul_reg_r _ _ (2 ^ (e + 1074))); [pose proof (pow2_pos (e + 1074)); lia|].
  rewrite <-Z.mul_assoc, <-Z.pow_add_r by lia. by replace (- e + (e + 1074)) with 1074 by lia.
Qed.

Lemma new_location_exact nb r : 0 <= r -> inexact (new_location nb r) <-> r <> 0.
Proof.
  intros Hr. unfold inexact, new_location, new_location_even, new_location_odd.
  destruct (Z.even nb), (Z.eqb_spec r 0) as [->|]; split; intros H; try done; congruence.
Qed.

(** The integer quotient of mantissas: [n] over [c], both shifted. *)
Lemma scaled_quotient n c k E b q r :
  0 < c <= n -> n <= c * 2 ^ k -> 0 <= k -> 0 <= E -> 0 <= b ->
  n * 2 ^ E * 2 ^ b = c * 2 ^ b * q + r -> 0 <= r < c * 2 ^ b ->
  2 ^ E <= q <= 2 ^ (k + E) /\ (r <> 0 -> q < 2 ^ (k + E)).
Proof.
  intros Hc Hq Hk HE Hb Hdm Hr. pose proof (pow2_pos b Hb) as Hpb. pose proof (pow2_pos E HE) as HpE. pose proof (pow2_pos k Hk) as Hpk.
  assert (2 ^ E <= q) as Hlow.
  { rewrite (Z.div_unique (n * 2 ^ E * 2 ^ b) (c * 2 ^ b) q r) by lia. apply Z.div_le_lower_bound; [lia|].
    replace (c * 2 ^ b * 2 ^ E) with (c * 2 ^ E * 2 ^ b) by lia. apply mul_le_r; [done|]. apply mul_le_r; lia. }
  assert (2 ^ (k + E) = 2 ^ k * 2 ^ E) as EpkE by (rewrite Z.pow_add_r; lia).
  assert (q * c * 2 ^ b <= 2 ^ (k + E) * c * 2 ^ b - r) as Hqb.
  { apply (mul_le_r _ _ _ HpE) in Hq. apply (mul_le_r _ _ _ Hpb) in Hq. rewrite EpkE. lia. }
  split; [split; [done|]|intros Hr0].
  - destruct (Z.le_gt_cases q (2 ^ (k + E))) as [|Hgt]; [done|].
    apply (mul_lt_r _ _ c) in Hgt; [|lia]. apply (mul_lt_r _ _ _ Hpb) in Hgt. lia.
  - destruct (Z.lt_ge_cases q (2 ^ (k + E))) as [|Hge]; [done|].
    apply (mul_le_r _ _ c) in Hge; [|lia]. apply (mul_le_r _ _ _ Hpb) in Hge. lia.
Qed.

(** Quotient of two small integers: the result lies between one and any
    power of two above the quotient. *)
Lemma f64_div_int_bounds n c k :
  0 < c <= n -> n < 2 ^ 53 -> 0 <= k <= 52 -> n <= c * 2 ^ k ->
  pos_fin (f64_div (f64_of_Z n) (f64_of_Z c)) /\
  2 ^ 1074 <= fval (f64_div (f64_of_Z n) (f64_of_Z c)) <= 2 ^ (k + 1074).
Proof.
  intros Hc Hn Hk Hq.
  destruct (f64_of_Z_shape n ltac:(lia)) as (mx & a & -> & Ha & Emx & Hmx).
  destruct (f64_of_Z_shape c ltac:(lia)) as (my & b & -> & Hb & Emy & Hmy).
  unfold f64_div, SFdiv, SFdiv_core_binary. cbn [xorb].
  rewrite (Zdigits2_unique (Z.pos mx) 53), (Zdigits2_unique (Z.pos my) 53) by lia.
  set (E := 53 + a - b).
  assert (Z.min (fexp prec emax (53 + - a - (53 + - b))) (- a - - b) = - E) as ->.
  { change (Z.min (Z.max (53 + - a - (53 + - b) - 53) (-1074)) (- a - - b) = - E). lia. }
  replace (- a - - b - - E) with 53 by lia. cbv iota.
  rewrite Z.shiftl_mul_pow2 by lia.
  destruct (Z.div_eucl (Z.pos mx * 2 ^ 53) (Z.pos my)) as [q r] eqn:Eqr.
  pose proof (Z_div_mod (Z.pos mx * 2 ^ 53) (Z.pos my) ltac:(lia)) as Hdm. rewrite Eqr in Hdm.
  destruct Hdm as [Hdm Hr].
  assert (Z.pos mx * 2 ^ 53 = n * 2 ^ E * 2 ^ b) as Enum.
  { rewrite Emx, <-!Z.mul_assoc, <-!Z.pow_add_r by lia. do 2 f_equal. lia. }
  rewrite Emy in Hdm, Hr. rewrite Enum in Hdm.
  destruct (scaled_quotient n c k E b q r ltac:(lia) Hq ltac:(lia) ltac:(lia) ltac:(lia) Hdm Hr) as [[Hlow Hq1] Hq2].
  assert (2 ^ (k + E) * 2 ^ (- E + 1074) = 2 ^ (k + 1074)) as EB
    by (rewrite <-Z.pow_add_r by lia; f_equal; lia).
  assert (2 ^ 52 <= q) as Hq52.
  { rewrite (Z.div_unique (Z.pos mx * 2 ^ 53) (Z.pos my) q r) by lia.
    apply Z.div_le_lower_bound; lia. }
  pose proof (pow2_pos (- E + 1074) ltac:(lia)) as HpE'.
  destruct (round_aux_bounds q (- E) (new_location (Z.pos my) r) (2 ^ (k + 1074))) as (H1 & H2 & H3).
  - lia.
  - lia.
  - apply fexp_normal; lia.
  - exists 1, k. lia.
  - rewrite <-EB. by apply mul_le_r.
  - intros Hi. apply new_location_exact in Hi; [|lia]. rewrite <-EB. auto using mul_lt_r.
  - split; [done|]. split; [|done]. apply H3; [exists 1, 0; lia|].
    replace (2 ^ 1074) with (2 ^ E * 2 ^ (- E + 1074)) by (rewrite <-Z.pow_add_r by lia; f_equal; lia).
    by apply mul_le_r.
Qed.

(** ** Comparison *)

Lemma f64_lt_pos x y : pos_fin x -> pos_fin y -> fval x < fval y -> f64_lt x y = true.
Proof.
  intros (m1 & e1 & -> & He1 & Hm1 & Hc1 & ->)%pos_fin_inv (m2 & e2 & -> & He2 & Hm2 & Hc2 & ->)%pos_fin_inv Hlt.
  unfold f64_lt, SFltb, SFcompare. destruct (Z.compare_spec e1 e2) as [->|Hl|Hg]; [| done|exfalso].
  - apply Z.mul_lt_mono_pos_r in Hlt; [|apply pow2_pos; lia].
    change (Pos.compare_cont Eq m1 m2) with (Pos.compare m1 m2).
    destruct (Pos.compare_spec m1 m2); [lia|done|lia].
  - destruct Hc1 as [Hc1|]; [|lia].
    pose proof (mul_le_r _ _ _ (pow2_pos (e1 + 1074) ltac:(lia)) Hc1).
    pose proof (mul_lt_r _ _ _ (pow2_pos (e2 + 1074) ltac:(lia)) Hm2).
    assert (2 ^ 53 * 2 ^ (e2 + 1074) <= 2 ^ 52 * 2 ^ (e1 + 1074)).
    { rewrite <-!Z.pow_add_r by lia. apply Z.pow_le_mono_r; lia. }
    lia.
Qed.

Lemma f64_MAX_pos : pos_fin f64_MAX.
Proof. exists 9007199254740991%positive, 971. split; vm_compute; reflexivity. Qed.

Lemma f64_MAX_val : fval f64_MAX = (2 ^ 53 - 1) * 2 ^ (971 + 1074).
Proof. vm_compute. reflexivity. Qed.

Lemma f64_lt_MAX x B :
  pos_fin x -> fval x <= B * 2 ^ (52 + 1074) -> 0 <= B < 2 ^ 53 -> f64_lt x f64_MAX = true.
Proof.
  intros Hx Hle HB. apply f64_lt_pos; [done|apply f64_MAX_pos|]. rewrite f64_MAX_val.
  assert (B * 2 ^ (52 + 1074) < 2 ^ 53 * 2 ^ (52 + 1074)) by (apply mul_lt_r; [apply pow2_pos|]; lia).
  assert (2 ^ 53 * 2 ^ (52 + 1074) <= 1 * 2 ^ (971 + 1074)).
  { rewrite Z.mul_1_l, <-Z.pow_add_r by lia. apply Z.pow_le_mono_r; lia. }
  assert (1 * 2 ^ (971 + 1074) <= (2 ^ 53 - 1) * 2 ^ (971 + 1074)) by (apply mul_le_r; [apply pow2_pos|]; lia).
  lia.
Qed.

(** A weight above zero is a positive finite number or the infinity. *)
Lemma f64_lt_zero_inv x :
  f64_lt f64_zero x = true -> (exists m e, x = S754_finite false m e) \/ x = S754_infinity false.
Proof. destruct x as [s|[]| |[] m e]; cbn; try discriminate; eauto. Qed.

#[export] Hint Resolve mul_lt_r mul_le_r pow2_pos f64_MAX_pos pos_fin_fval pos_fin_representable : rust.

Example f64_ex_weight : f64_to_usize (f64_round (f64_mul (f64_of_decimal false 7 (-1)) (f64_of_Z 1000))) = 700.
Proof. vm_compute. reflexivity. Qed.

Example f64_ex_third :
  f64_to_usize (f64_round (f64_mul (f64_div f64_one (f64_of_Z 3)) (f64_of_Z 1000))) = 333.
Proof. vm_compute. reflexivity. Qed.
