(* ===== verification/RustStr.v ===== *)
(** * RustStr: the [str] operations of the program

    A Rust [String] is a UTF-8 byte string; it is a [string] of bytes here.
    The functions below are the methods of [core::str] the source calls.
    Methods that look at characters outside ASCII ([trim],
    [split_whitespace]) recognise the encodings of the Unicode white-space
    characters. *)
From S2P Require Import Prelude F64.
From Stdlib Require Import Floats.SpecFloat.
From Stdlib Require Import Ascii String.
Local Open Scope string_scope.
Local Open Scope Z_scope.

Definition byte (c : ascii) : Z := Z.of_N (N_of_ascii c).
Definition chr (z : Z) : ascii := ascii_of_N (Z.to_N z).
Definition str_len (s : string) : Z := Z.of_nat (String.length s).
Definition is_empty (s : string) : bool := match s with "" => true | _ => false end.

Fixpoint str_rev_app (s acc : string) : string :=
  match s with "" => acc | String c s' => str_rev_app s' (String c acc) end.
Definition str_rev (s : string) : string := str_rev_app s "".

(** ** ASCII classes and case *)

Definition in_range (lo hi : Z) (c : ascii) : bool := (lo <=? byte c) && (byte c <=? hi).
Definition is_digit (c : ascii) : bool := in_range 48 57 c.
Definition is_ascii_uppercase (c : ascii) : bool := in_range 65 90 c.
Definition is_ascii_control (c : ascii) : bool := (byte c <=? 31) || (byte c =? 127).
Definition ascii_lower (c : ascii) : ascii := if is_ascii_uppercase c then chr (byte c + 32) else c.

Fixpoint to_ascii_lowercase (s : string) : string :=
  match s with "" => "" | String c s' => String (ascii_lower c) (to_ascii_lowercase s') end.

Fixpoint str_any (p : ascii -> bool) (s : string) : bool :=
  match s with "" => false | String c s' => p c || str_any p s' end.

Definition eq_ignore_ascii_case (a b : string) : bool :=
  String.eqb (to_ascii_lowercase a) (to_ascii_lowercase b).

(** ** Prefixes, suffixes, substrings *)

Fixpoint strip_prefix (p s : string) : option string :=
  match p, s with
  | "", _ => Some s
  | String a p', String b s' => if Ascii.eqb a b then strip_prefix p' s' else None
  | _, _ => None
  end.

Definition starts_with (p s : string) : bool := match strip_prefix p s with Some _ => true | None => false end.

Fixpoint str_take (n : nat) (s : string) : string :=
  match n, s with
  | S n', String c s' => String c (str_take n' s')
  | _, _ => ""
  end.

Fixpoint str_drop (n : nat) (s : string) : string :=
  match n, s with
  | S n', String _ s' => str_drop n' s'
  | _, _ => s
  end.

(** [strip_suffix]: the text before a final [p]. *)
Definition strip_suffix (p s : string) : option string :=
  let k := (String.length s - String.length p)%nat in
  if (String.length p <=? String.length s)%nat && String.eqb (str_drop k s) p then Some (str_take k s) else None.

Definition ends_with (p s : string) : bool := match strip_suffix p s with Some _ => true | None => false end.

(** [find]: index of the first occurrence of [p]. *)
Fixpoint str_find_from (i : nat) (p s : string) : option nat :=
  if starts_with p s then Some i
  else match s with "" => None | String _ s' => str_find_from (S i) p s' end.
Definition str_find (p s : string) : option nat := str_find_from 0 p s.
Definition str_contains (p s : string) : bool := match str_find p s with Some _ => true | None => false end.

Definition contains_char (c : ascii) (s : string) : bool := str_any (Ascii.eqb c) s.

(** ** Splitting *)

(** [split_once(c)] *)
Fixpoint split_once (c : ascii) (s : string) : option (string * string) :=
  match s with
  | "" => None
  | String a s' =>
      if Ascii.eqb a c then Some ("", s')
      else match split_once c s' with Some (l, r) => Some (String a l, r) | None => None end
  end.

(** [rsplit_once(c)] *)
Fixpoint rsplit_once (c : ascii) (s : string) : option (string * string) :=
  match s with
  | "" => None
  | String a s' =>
      match rsplit_once c s' with
      | Some (l, r) => Some (String a l, r)
      | None => if Ascii.eqb a c then Some ("", s') else None
      end
  end.

(** [split(c)]: always at least one piece. *)
Fixpoint split_on (c : ascii) (s : string) : list string :=
  match s with
  | "" => [""]
  | String a s' =>
      if Ascii.eqb a c then "" :: split_on c s'
      else match split_on c s' with
           | p :: ps => String a p :: ps
           | [] => [String a ""]
           end
  end.

(** [splitn(2, c)]: the first piece and the optional rest. *)
Definition splitn2 (c : ascii) (s : string) : string * option string :=
  match split_once c s with Some (l, r) => (l, Some r) | None => (s, None) end.

(** [rsplit(c).next()]: what follows the last [c], or the whole string. *)
Definition rsplit_next (c : ascii) (s : string) : string :=
  match rsplit_once c s with Some (_, r) => r | None => s end.

Definition newline : ascii := chr 10.
Definition carriage_return : ascii := chr 13.

(** [lines] *)
Definition strip_cr (s : string) : string :=
  match strip_suffix (String carriage_return "") s with Some l => l | None => s end.

Definition lines (s : string) : list string :=
  match split_on newline s with
  | [] => []
  | ps =>
      (* every piece but the last was followed by a newline *)
      (map strip_cr (removelast ps) ++ (if is_empty (List.last ps "") then [] else [List.last ps ""]))%list
  end.

(** ** White space *)

(** Length in bytes of a white-space character at the head of [s], 0 if none. *)
Definition ws_len (s : string) : nat :=
  match s with
  | "" => 0%nat
  | String c r =>
      let b := byte c in
      if ((9 <=? b) && (b <=? 13)) || (b =? 32) then 1%nat
      else match r with
      | "" => 0%nat
      | String c1 r1 =>
          let b1 := byte c1 in
          if (b =? 194) && ((b1 =? 133) || (b1 =? 160)) then 2%nat
          else match r1 with
          | "" => 0%nat
          | String c2 _ =>
              let b2 := byte c2 in
              if ((b =? 225) && (b1 =? 154) && (b2 =? 128))
                 || ((b =? 226) && (b1 =? 128) &&
                     (((128 <=? b2) && (b2 <=? 138)) || (b2 =? 168) || (b2 =? 169) || (b2 =? 175)))
                 || ((b =? 226) && (b1 =? 129) && (b2 =? 159))
                 || ((b =? 227) && (b1 =? 128) && (b2 =? 128))
              then 3%nat else 0%nat
          end
      end
  end.

(** The same at the head of a reversed string. *)
Definition ws_len_rev (s : string) : nat :=
  match s with
  | String c ((String c1 r1) as r) =>
      match ws_len (String c "") with
      | S n => S n
      | O =>
          match ws_len (String c1 (String c "")) with
          | 2%nat => 2%nat
          | _ => match r1 with
                 | String c2 _ => match ws_len (String c2 (String c1 (String c ""))) with 3%nat => 3%nat | _ => 0%nat end
                 | "" => 0%nat
                 end
          end
      end
  | String c "" => ws_len s
  | "" => 0%nat
  end.

Fixpoint trim_with (len : string -> nat) (fuel : nat) (s : string) : string :=
  match fuel with
  | O => s
  | S fuel' => match len s with O => s | n => trim_with len fuel' (str_drop n s) end
  end.

(** Each step drops at least one byte, so the length of the string is enough
    fuel. *)
Definition trim_start (s : string) : string := trim_with ws_len (String.length s) s.
Definition trim_end (s : string) : string := str_rev (trim_with ws_len_rev (String.length s) (str_rev s)).
Definition trim (s : string) : string := trim_end (trim_start s).

(** [trim_start_matches(c)] and [trim_end_matches(c)] *)
Fixpoint trim_start_char (c : ascii) (s : string) : string :=
  match s with
  | String a s' => if Ascii.eqb a c then trim_start_char c s' else s
  | "" => ""
  end.
Definition trim_end_char (c : ascii) (s : string) : string := str_rev (trim_start_char c (str_rev s)).

(** [trim_start_matches(p)] and [trim_end_matches(p)] for a non-empty [p] *)
Fixpoint trim_start_str_fuel (fuel : nat) (p s : string) : string :=
  match fuel with
  | O => s
  | S fuel' => match strip_prefix p s with Some r => trim_start_str_fuel fuel' p r | None => s end
  end.
Definition trim_start_str (p s : string) : string := trim_start_str_fuel (String.length s) p s.

Fixpoint trim_end_str_fuel (fuel : nat) (p s : string) : string :=
  match fuel with
  | O => s
  | S fuel' => match strip_suffix p s with Some r => trim_end_str_fuel fuel' p r | None => s end
  end.
Definition trim_end_str (p s : string) : string := trim_end_str_fuel (String.length s) p s.

(** [trim_matches(&['[', ']'])] *)
Fixpoint trim_start_brackets (s : string) : string :=
  match s with
  | String a s' => if Ascii.eqb a "["%char || Ascii.eqb a "]"%char then trim_start_brackets s' else s
  | "" => ""
  end.
Definition trim_brackets (s : string) : string :=
  str_rev (trim_start_brackets (str_rev (trim_start_brackets s))).

(** [split_whitespace]: the non-empty pieces between white space. *)
Fixpoint split_whitespace_fuel (fuel : nat) (cur s : string) : list string :=
  match fuel with
  | O => if is_empty cur then [] else [str_rev cur]
  | S fuel' =>
      match s with
      | "" => if is_empty cur then [] else [str_rev cur]
      | String c s' =>
          match ws_len s with
          | O => split_whitespace_fuel fuel' (String c cur) s'
          | n => ((if is_empty cur then [] else [str_rev cur]) ++ split_whitespace_fuel fuel' "" (str_drop n s))%list
          end
      end
  end.
Definition split_whitespace (s : string) : list string :=
  split_whitespace_fuel (S (String.length s)) "" s.

(** ** Numbers *)

Definition digit_val (c : ascii) : Z := byte c - 48.

(** The digits of [s] after [acc], checked against [max] at each step. *)
Fixpoint parse_digits (max acc : Z) (s : string) : option Z :=
  match s with
  | "" => Some acc
  | String c s' =>
      if is_digit c then
        let acc' := acc * 10 + digit_val c in
        if acc' <=? max then parse_digits max acc' s' else None
      else None
  end.

(** [parse::<uN>()]: an optional plus sign and at least one digit. *)
Definition parse_uint (max : Z) (s : string) : option Z :=
  match s with
  | "" => None
  | String "+" "" => None
  | String "+" s' => parse_digits max 0 s'
  | _ => parse_digits max 0 s
  end.

Definition parse_u64 : string -> option Z := parse_uint u64_max.
Definition parse_usize : string -> option Z := parse_uint u64_max.
Definition parse_u16 : string -> option Z := parse_uint 65535.
Definition parse_u8 : string -> option Z := parse_uint 255.

(** [to_string()] of an unsigned integer *)
Definition show_uint (z : Z) : string := pretty (Z.to_N z).

(** Unsigned and signed runs of digits, without bound (for [f64]). *)
Fixpoint span_digits (s : string) : string * string :=
  match s with
  | String c s' => if is_digit c then let '(d, r) := span_digits s' in (String c d, r) else ("", s)
  | "" => ("", "")
  end.
Fixpoint digits_val (acc : Z) (s : string) : Z :=
  match s with "" => acc | String c s' => digits_val (acc * 10 + digit_val c) s' end.

(** [parse::<f64>()] *)
Definition parse_f64_exp (s : string) : option Z :=
  match s with
  | "" => Some 0
  | String c r =>
      if Ascii.eqb c "e"%char || Ascii.eqb c "E"%char then
        let '(neg, r1) :=
          match r with
          | String "+" r' => (false, r')
          | String "-" r' => (true, r')
          | _ => (false, r)
          end in
        let '(d, rest) := span_digits r1 in
        if is_empty d || negb (is_empty rest) then None
        else Some (if neg then - digits_val 0 d else digits_val 0 d)
      else None
  end.

Definition parse_f64_number (neg : bool) (s : string) : option f64 :=
  let '(ip, r) := span_digits s in
  let '(fp, r1) :=
    match r with
    | String "." r' => span_digits r'
    | _ => ("", r)
    end in
  if is_empty ip && is_empty fp then None
  else
    match parse_f64_exp r1 with
    | Some e => Some (f64_of_decimal neg (digits_val 0 (ip ++ fp)) (e - str_len fp))
    | None => None
    end.

Definition parse_f64 (s : string) : option f64 :=
  let '(neg, r) :=
    match s with
    | String "+" r => (false, r)
    | String "-" r => (true, r)
    | _ => (false, s)
    end in
  if eq_ignore_ascii_case r "inf" || eq_ignore_ascii_case r "infinity" then Some (S754_infinity neg)
  else if eq_ignore_ascii_case r "nan" then Some S754_nan
  else parse_f64_number neg r.

(** [chars().count()]-free joins: [parts.join(sep)] *)
Fixpoint str_join (sep : string) (l : list string) : string :=
  match l with
  | [] => ""
  | [x] => x
  | x :: l' => x ++ sep ++ str_join sep l'
  end.

(** [++] is not simplified by [cbn] (stdpp's setting); these are its
    equations. *)
Lemma app_nil_s s : "" ++ s = s.
Proof. reflexivity. Qed.
Lemma app_cons_s c s t : String c s ++ t = String c (s ++ t).
Proof. reflexivity. Qed.
Lemma app_nil_r_s s : s ++ "" = s.
Proof. induction s as [|c s IH]; [done|]. by rewrite app_cons_s, IH. Qed.
Lemma app_assoc_s s t u : (s ++ t) ++ u = s ++ (t ++ u).
Proof. induction s as [|c s IH]; [done|]. by rewrite !app_cons_s, IH. Qed.
Lemma str_length_app s t : String.length (s ++ t) = (String.length s + String.length t)%nat.
Proof. induction s as [|c s IH]; [done|]. rewrite app_cons_s. cbn. by rewrite IH. Qed.
Create Rewrite HintDb str.
#[export] Hint Rewrite app_nil_s app_cons_s app_nil_r_s app_assoc_s : str.
Ltac str_simpl := autorewrite with str in *.

Example trim_ex : trim (" a b" ++ String (chr 194) (String (chr 160) "")) = "a b".
Proof. vm_compute. reflexivity. Qed.
Example lines_ex : lines ("a" ++ String carriage_return (String newline ("b" ++ String newline "")))  = ["a"; "b"].
Proof. vm_compute. reflexivity. Qed.
Example split_ws_ex : split_whitespace " k=v  x=y " = ["k=v"; "x=y"].
Proof. vm_compute. reflexivity. Qed.
Example parse_f64_ex : parse_f64 "0.5" = Some f64_half /\ parse_f64 "." = None /\ parse_f64 "-inf" = Some (S754_infinity true).
Proof. vm_compute. auto. Qed.
