(* ===== verification/StrFacts.v ===== *)
(** * StrFacts: what the string functions of [RustStr] compute

    [trim] removes white space at both ends and nothing else, and is
    idempotent; a decimal number prints and parses back. *)
From S2P Require Import Prelude RustStr.
From Stdlib Require Import String Ascii.
Open Scope string_scope.
Open Scope Z_scope.

(** ** All characters, reversing, splitting *)

Fixpoint str_all (p : ascii -> bool) (s : string) : bool :=
  match s with "" => true | String c s' => p c && str_all p s' end.

Lemma str_rev_app_nonempty s acc : acc <> "" -> str_rev_app s acc <> "".
Proof. revert acc. induction s as [|c s IH]; cbn; [done|]. intros acc _. by apply IH. Qed.

Lemma str_rev_nonempty s : s <> "" -> str_rev s <> "".
Proof. destruct s; [done|]. intros _. cbn. by apply str_rev_app_nonempty. Qed.

Lemma str_rev_app_app s acc t : str_rev_app (str_rev_app s acc) t = str_rev_app acc (s ++ t).
Proof.
  revert acc t. induction s as [|c s IH]; intros acc t; cbn [str_rev_app]; [done|].
  by rewrite IH.
Qed.

Lemma str_rev_involutive s : str_rev (str_rev s) = s.
Proof. unfold str_rev. rewrite str_rev_app_app. apply app_nil_r_s. Qed.

Lemma str_all_app p s t : str_all p (s ++ t) = str_all p s && str_all p t.
Proof. induction s as [|c s IH]; [done|]. rewrite app_cons_s. cbn. by rewrite IH, andb_assoc. Qed.

(** Splitting what was joined. *)
Lemma split_on_app c s rest :
  str_all (fun a => negb (Ascii.eqb a c)) s = true -> split_on c (s ++ String c rest) = s :: split_on c rest.
Proof.
  induction s as [|a s IH]; intros H.
  - rewrite app_nil_s. cbn. by rewrite Ascii.eqb_refl.
  - rewrite app_cons_s. cbn in *. apply andb_true_iff in H as [Ha H]. apply negb_true_iff in Ha.
    by rewrite Ha, IH.
Qed.

Lemma split_on_none c s : str_all (fun a => negb (Ascii.eqb a c)) s = true -> split_on c s = [s].
Proof.
  induction s as [|a s IH]; intros H; [done|]. cbn in *.
  apply andb_true_iff in H as [Ha H]. apply negb_true_iff in Ha. by rewrite Ha, IH.
Qed.

Lemma split_once_app c s rest :
  str_all (fun a => negb (Ascii.eqb a c)) s = true -> split_once c (s ++ String c rest) = Some (s, rest).
Proof.
  induction s as [|a s IH]; intros H.
  - rewrite app_nil_s. cbn. by rewrite Ascii.eqb_refl.
  - rewrite app_cons_s. cbn in *. apply andb_true_iff in H as [Ha H]. apply negb_true_iff in Ha.
    by rewrite Ha, IH.
Qed.

Lemma str_all_impl (p q : ascii -> bool) s :
  (forall c, p c = true -> q c = true) -> str_all p s = true -> str_all q s = true.
Proof. intros Hpq. induction s as [|c s IH]; cbn; [done|]. rewrite !andb_true_iff. intros []. auto. Qed.

Lemma str_all_andb p q s : str_all (fun c => p c && q c) s = str_all p s && str_all q s.
Proof. induction s as [|c s IH]; [done|]. cbn. rewrite IH. by destruct (p c), (q c), (str_all p s). Qed.

Lemma is_empty_spec s : is_empty s = true <-> s = "".
Proof. by destruct s. Qed.
Lemma is_empty_false s : is_empty s = false <-> s <> "".
Proof. by destruct s. Qed.

(** ** Taking, dropping, reversing *)

Lemma str_take_drop k s : str_take k s ++ str_drop k s = s.
Proof. revert s. induction k as [|k IH]; intros [|c s]; cbn; try done. by rewrite app_cons_s, IH. Qed.

Lemma str_drop_length k s : String.length (str_drop k s) = (String.length s - k)%nat.
Proof. revert s. induction k as [|k IH]; intros [|c s]; cbn; auto. Qed.

Lemma str_take_app s t : str_take (String.length s) (s ++ t) = s.
Proof. induction s as [|c s IH]; cbn; [by destruct t|]. by rewrite app_cons_s, IH. Qed.

Lemma str_drop_app s t : str_drop (String.length s) (s ++ t) = t.
Proof. induction s as [|c s IH]; cbn; [by destruct t|]. by rewrite app_cons_s. Qed.

Lemma str_rev_app_spec s acc : str_rev_app s acc = str_rev s ++ acc.
Proof.
  unfold str_rev. revert acc. induction s as [|c s IH]; intros acc; cbn; [done|].
  by rewrite (IH (String c acc)), (IH (String c "")), app_assoc_s, app_cons_s.
Qed.

Lemma str_rev_cons c s : str_rev (String c s) = str_rev s ++ String c "".
Proof. unfold str_rev at 1. cbn. by rewrite str_rev_app_spec. Qed.

Lemma str_rev_concat s t : str_rev (s ++ t) = str_rev t ++ str_rev s.
Proof.
  induction s as [|c s IH]; [by rewrite app_nil_s, app_nil_r_s|]. by rewrite app_cons_s, !str_rev_cons, IH, app_assoc_s.
Qed.

Lemma str_rev_length s : String.length (str_rev s) = String.length s.
Proof. induction s as [|c s IH]; [done|]. rewrite str_rev_cons, str_length_app, IH. cbn. lia. Qed.

Lemma str_all_rev p s : str_all p (str_rev s) = str_all p s.
Proof. induction s as [|c s IH]; [done|]. rewrite str_rev_cons, str_all_app, IH. cbn. by rewrite andb_true_r, andb_comm. Qed.

(** ** White space *)

(** Printable ASCII other than the space: none of it is white space. *)
Definition plain (c : ascii) : bool := in_range 33 126 c.
Definition blank (s : string) : Prop := str_all (fun c => negb (plain c)) s = true.

Ltac or_cases :=
  repeat (bool_simpl; match goal with X : _ || _ = true |- _ => apply orb_true_iff in X as [X|X] end).

(** A function that tells the length of the white space at the head of a
    string: it looks at that white space only. *)
Record ws_reader (len : string -> nat) : Prop := {
  ws_le : forall s, (len s <= String.length s)%nat;
  ws_ext : forall s t k, len s = S k -> len (str_take (S k) s ++ t) = S k;
  ws_blank : forall s k, len s = S k -> blank (str_take (S k) s);
}.

Lemma blank_cons c s : byte c <= 32 \/ 127 <= byte c -> blank s -> blank (String c s).
Proof.
  unfold blank, plain, in_range. cbn [str_all]. intros H ->. rewrite andb_true_r, negb_true_iff, andb_false_iff, !Z.leb_gt. lia.
Qed.

Lemma blank_nil : blank "".
Proof. done. Qed.

Lemma ws_len_reader : ws_reader ws_len.
Proof.
  split.
  - intros [|c [|c1 [|c2 r]]]; unfold ws_len; repeat case_match; cbn; lia.
  - intros [|c [|c1 [|c2 r]]] t k E; unfold ws_len in E; cbv zeta in E; revert E; repeat case_match; intros [= <-]; unfold ws_len; cbn [str_take];
      rewrite ?app_cons_s, ?app_nil_s; cbv iota beta;
      repeat match goal with X : ?l = ?b |- context [?l] => rewrite X end; first [done | by destruct t | by destruct t as [|? [|? ?]]].
  - intros [|c [|c1 [|c2 r]]] k E; unfold ws_len in E; cbv zeta in E; revert E; repeat case_match; intros [= <-]; cbn [str_take];
      repeat (apply blank_cons; [or_cases; bool_simpl; lia|]); apply blank_nil.
Qed.

Lemma ws_len_rev_reader : ws_reader ws_len_rev.
Proof.
  assert (H1 : forall c, (ws_len (String c "") <= 1)%nat) by (intros c; apply (ws_le _ ws_len_reader (String c ""))).
  split.
  - intros [|c [|c1 r]]; unfold ws_len_rev; [cbn; lia| |].
    + apply H1.
    + specialize (H1 c). destruct (ws_len (String c "")); [|cbn; lia]. repeat case_match; cbn; lia.
  - intros s t k. destruct s as [|c [|c1 r]]; unfold ws_len_rev; [done| |].
    + intros E. specialize (H1 c). assert (k = 0%nat) as -> by lia. cbn [str_take]. rewrite app_cons_s, app_nil_s.
      destruct t; [done|]. by rewrite E.
    + intros E. specialize (H1 c). destruct (ws_len (String c "")) as [|n] eqn:E1.
      * assert (E4 : forall r', match r with
                       | "" => 0%nat
                       | String c2 _ => match ws_len (String c2 (String c1 (String c ""))) with 3%nat => 3%nat | _ => 0%nat end
                       end = S k -> match str_take k (String c1 r) ++ r' with
                       | String c1' (String c2' _) => c1' = c1 /\ ws_len (String c2' (String c1 (String c ""))) = 3%nat /\ k = 2%nat
                       | _ => False end).
        { intros r'. destruct r as [|c2 r]; [done|]. destruct (ws_len (String c2 (String c1 (String c "")))) as [|[|[|[|?]]]] eqn:E3; try done.
          intros [= <-]. cbn [str_take]. rewrite !app_cons_s. by rewrite E3. }
        destruct (ws_len (String c1 (String c ""))) as [|[|[|?]]] eqn:E2; [| |injection E as <-|];
          try (specialize (E4 t E); cbn [str_take] in *; rewrite app_cons_s, E1;
               destruct (str_take k _ ++ t) as [|? [|? ?]]; try done; destruct E4 as (-> & E3 & ->); by rewrite E2, E3).
        cbn [str_take]. by rewrite !app_cons_s, E1, E2.
      * injection E as <-. assert (n = 0%nat) as -> by lia. cbn [str_take]. rewrite app_cons_s, app_nil_s.
        destruct t; [done|]. by rewrite E1.
  - assert (Hb : forall s k, ws_len s = S k -> blank (str_take (S k) s)) by apply ws_len_reader.
    intros [|c [|c1 r]] k; unfold ws_len_rev; [done| |].
    + intros E. specialize (H1 c). assert (k = 0%nat) as -> by lia. by apply Hb.
    + intros E. specialize (H1 c). destruct (ws_len (String c "")) as [|n] eqn:E1.
      * destruct (ws_len (String c1 (String c ""))) as [|[|[|?]]] eqn:E2; [| |injection E as <-|];
          try (destruct r as [|c2 r]; [done|]; destruct (ws_len (String c2 (String c1 (String c "")))) as [|[|[|[|?]]]] eqn:E3; try done; injection E as <-).
        all: first [apply Hb in E3; revert E3|apply Hb in E2; revert E2]; unfold blank; cbn [str_take str_all]; rewrite !andb_true_iff; tauto.
      * injection E as <-. assert (n = 0%nat) as -> by lia. by apply Hb in E1.
Qed.

Section trimming.
Context (len : string -> nat) (Hlen : ws_reader len).

Definition drop_ws (s : string) : string := trim_with len (String.length s) s.

Lemma trim_with_fuel n m s : (String.length s <= n)%nat -> (String.length s <= m)%nat -> trim_with len n s = trim_with len m s.
Proof.
  revert m s. induction n as [|n IH]; intros [|m] s Hn Hm; cbn [trim_with]; try done.
  - destruct (len s) eqn:E; [done|]. pose proof (ws_le _ Hlen s). lia.
  - destruct (len s) eqn:E; [done|]. pose proof (ws_le _ Hlen s). lia.
  - destruct (len s) eqn:E; [done|]. pose proof (ws_le _ Hlen s). apply IH; rewrite str_drop_length; lia.
Qed.

Lemma drop_ws_stop s : len s = 0%nat -> drop_ws s = s.
Proof. unfold drop_ws. intros E. destruct (String.length s); cbn; [done|]. by rewrite E. Qed.

Lemma drop_ws_step s k : len s = S k -> drop_ws s = drop_ws (str_drop (S k) s).
Proof.
  unfold drop_ws. intros E. pose proof (ws_le _ Hlen s) as Hl. destruct (String.length s) as [|n] eqn:El; [lia|].
  cbn [trim_with]. rewrite E. apply trim_with_fuel; rewrite ?str_drop_length; lia.
Qed.

Lemma ws_mono s t k : len s = S k -> len (s ++ t) = S k.
Proof. intros E. rewrite <- (str_take_drop (S k) s), app_assoc_s. by apply ws_ext. Qed.

(** [drop_ws] removes a prefix that it would remove before any text, and
    leaves no white space at the head. *)
Lemma drop_ws_spec s :
  len (drop_ws s) = 0%nat /\ exists w, s = w ++ drop_ws s /\ blank w /\ forall t, drop_ws (w ++ t) = drop_ws t.
Proof.
  induction s as [s IH] using (induction_ltof1 _ String.length).
  destruct (len s) as [|k] eqn:E.
  - rewrite drop_ws_stop by done. split; [done|]. by exists "".
  - pose proof (ws_le _ Hlen s) as Hl.
    destruct (IH (str_drop (S k) s)) as (H0' & w & Hw & Hb & Ht); [unfold ltof; rewrite str_drop_length; lia|].
    rewrite (drop_ws_step s k E). split; [done|]. exists (str_take (S k) s ++ w). split_and!.
    + by rewrite app_assoc_s, <- Hw, str_take_drop.
    + unfold blank. rewrite str_all_app, Hb, andb_true_r. by apply (ws_blank len).
    + intros t. rewrite app_assoc_s, (drop_ws_step _ k) by (by apply ws_ext).
      rewrite <- (Ht t). f_equal.
      assert (Hl' : String.length (str_take (S k) s) = S k).
      { pose proof (f_equal String.length (str_take_drop (S k) s)) as E'. rewrite str_length_app, str_drop_length in E'. lia. }
      rewrite <- Hl' at 1. apply str_drop_app.
Qed.
End trimming.

Lemma trim_end_drop s : trim_end s = str_rev (drop_ws ws_len_rev (str_rev s)).
Proof. unfold trim_end, drop_ws. by rewrite str_rev_length. Qed.

Lemma trim_end_spec s :
  ws_len_rev (str_rev (trim_end s)) = 0%nat /\ exists w, s = trim_end s ++ w /\ blank w /\ forall t, trim_end (t ++ w) = trim_end t.
Proof.
  rewrite !trim_end_drop, str_rev_involutive. destruct (drop_ws_spec _ ws_len_rev_reader (str_rev s)) as (Hz & w & Hw & Hb & Ht).
  split; [done|]. exists (str_rev w). split_and!.
  - rewrite <- str_rev_concat, <- Hw. by rewrite str_rev_involutive.
  - unfold blank. by rewrite str_all_rev.
  - intros t. by rewrite !trim_end_drop, str_rev_concat, str_rev_involutive, Ht.
Qed.

(** [trim] removes a prefix and a suffix, and both are white space. *)
Lemma trim_decompose s : exists w w',
  s = w ++ trim s ++ w' /\ blank w /\ blank w' /\ (forall t, trim_start (w ++ t) = trim_start t) /\ (forall t, trim_end (t ++ w') = trim_end t).
Proof.
  destruct (drop_ws_spec _ ws_len_reader s) as (_ & w & Hw & Hb & Ht).
  destruct (trim_end_spec (trim_start s)) as (_ & w' & Hw' & Hb' & Ht').
  exists w, w'. split; [|done]. unfold trim. rewrite <- Hw'. exact Hw.
Qed.

Lemma trim_fixed s : ws_len s = 0%nat -> ws_len_rev (str_rev s) = 0%nat -> trim s = s.
Proof.
  intros Hs Hr. unfold trim. change (trim_start s) with (drop_ws ws_len s). rewrite drop_ws_stop by done.
  by rewrite trim_end_drop, drop_ws_stop, str_rev_involutive.
Qed.

Lemma trim_idempotent s : trim (trim s) = trim s.
Proof.
  apply trim_fixed.
  - destruct (drop_ws_spec _ ws_len_reader s) as (Hz & _). destruct (trim_end_spec (trim_start s)) as (_ & w & Hw & _).
    unfold trim. destruct (ws_len (trim_end (trim_start s))) as [|k] eqn:E; [done|].
    apply (ws_mono _ ws_len_reader _ w) in E. rewrite <- Hw in E. change (trim_start s) with (drop_ws ws_len s) in E. congruence.
  - apply trim_end_spec.
Qed.

Lemma ws_len_plain c s : plain c = true -> ws_len (String c s) = 0%nat.
Proof.
  unfold plain, in_range. intros H. bool_simpl. unfold ws_len.
  assert (((9 <=? byte c) && (byte c <=? 13)) = false) as -> by (apply andb_false_iff; right; apply Z.leb_gt; lia).
  assert ((byte c =? 32) = false) as -> by (apply Z.eqb_neq; lia).
  assert ((byte c =? 194) = false) as -> by (apply Z.eqb_neq; lia). assert ((byte c =? 225) = false) as -> by (apply Z.eqb_neq; lia).
  assert ((byte c =? 226) = false) as -> by (apply Z.eqb_neq; lia). assert ((byte c =? 227) = false) as -> by (apply Z.eqb_neq; lia).
  cbn. by repeat case_match.
Qed.

Lemma ws_len_rev_plain c s : plain c = true -> ws_len_rev (String c s) = 0%nat.
Proof.
  intros H. unfold ws_len_rev. rewrite (ws_len_plain c "" H). destruct s as [|c1 r]; [by apply ws_len_plain|].
  unfold plain, in_range in H. bool_simpl.
  assert (E2 : ws_len (String c1 (String c "")) <> 2%nat).
  { unfold ws_len. cbv zeta. repeat case_match; try done. all: bool_simpl; or_cases; bool_simpl; lia. }
  assert (E3 : forall c2, ws_len (String c2 (String c1 (String c ""))) <> 3%nat).
  { intros c2. unfold ws_len. cbv zeta. repeat case_match; try done. all: bool_simpl; or_cases; bool_simpl; lia. }
  destruct (ws_len (String c1 (String c ""))) as [|[|[|?]]]; try done; destruct r as [|c2 r]; try done;
    specialize (E3 c2); by destruct (ws_len _) as [|[|[|[|?]]]].
Qed.

Lemma trim_plain s : str_all plain s = true -> trim s = s.
Proof.
  intros H. apply trim_fixed.
  - destruct s as [|c s]; [done|]. cbn in H. bool_simpl. by apply ws_len_plain.
  - rewrite <- (str_all_rev plain) in H. destruct (str_rev s) as [|c r]; [done|]. cbn in H. bool_simpl. by apply ws_len_rev_plain.
Qed.

(** Text that is plain at both ends keeps white space around it apart. *)
Lemma trim_around w t w' :
  (forall u, trim_start (w ++ u) = trim_start u) -> (forall u, trim_end (u ++ w') = trim_end u) ->
  t <> "" -> str_all plain t = true -> trim (w ++ t ++ w') = t.
Proof.
  intros Hw Hw' Ht Hp. unfold trim. rewrite Hw.
  assert (trim_start (t ++ w') = t ++ w') as ->.
  { apply (drop_ws_stop ws_len). destruct t as [|c t]; [done|]. rewrite app_cons_s. apply ws_len_plain. cbn in Hp. by bool_simpl. }
  rewrite Hw', trim_end_drop, drop_ws_stop, str_rev_involutive; [done|].
  rewrite <- (str_all_rev plain) in Hp. destruct (str_rev t) as [|c r]; [done|]. cbn in Hp. bool_simpl. by apply ws_len_rev_plain.
Qed.

(** ** Decimal numbers *)

Lemma pretty_N_digits n : str_all is_digit (pretty (N.of_nat n)) = true.
Proof.
  rewrite pretty_N_unfold || unfold pretty, pretty_N.
  assert (Hgo : forall x s, str_all is_digit s = true -> str_all is_digit (pretty_N_go x s) = true).
  { intros x. induction (N.lt_wf_0 x) as [x _ IH]. intros s Hs.
    destruct (decide (0 < x)%N) as [Hx|Hx].
    - rewrite pretty_N_go_step by done. apply IH; [apply N.div_lt; lia|]. cbn [str_all]. rewrite Hs, andb_true_r.
      pose proof (N.mod_lt x 10 ltac:(lia)) as Hm. destruct (x `mod` 10)%N as [|p]; [done|].
      do 9 (destruct p as [p|p|]; try done; try lia).
    - assert (x = 0%N) as -> by lia. by rewrite pretty_N_go_0. }
  case_decide; [done|]. by apply Hgo.
Qed.

Lemma show_uint_digits z : str_all is_digit (show_uint z) = true.
Proof. unfold show_uint. rewrite <- (N2Nat.id (Z.to_N z)). apply pretty_N_digits. Qed.

Lemma digits_no_char c s : is_digit c = false -> str_all is_digit s = true -> str_all (fun a => negb (Ascii.eqb a c)) s = true.
Proof.
  intros Hc. apply str_all_impl. intros a Ha. apply negb_true_iff, Ascii.eqb_neq. intros ->. congruence.
Qed.

Lemma show_uint_inj a b : 0 <= a -> 0 <= b -> show_uint a = show_uint b -> a = b.
Proof. unfold show_uint. intros Ha Hb E. apply (inj pretty) in E. lia. Qed.

Lemma parse_digits_nonneg max acc s z : 0 <= acc -> parse_digits max acc s = Some z -> 0 <= z.
Proof.
  revert acc. induction s as [|c s IH]; intros acc Hacc H; cbn in H; [by simplify_eq|].
  destruct (is_digit c) eqn:Hc; [|done]. destruct (_ <=? max); [|done].
  apply IH in H; [done|]. unfold is_digit, in_range in Hc. bool_simpl. unfold digit_val. lia.
Qed.

Lemma parse_u64_nonneg s z : parse_u64 s = Some z -> 0 <= z.
Proof.
  unfold parse_u64, parse_uint. destruct s as [|c s]; [done|].
  intros H. assert (exists acc s', 0 <= acc /\ parse_digits u64_max acc s' = Some z) as (acc & s' & ? & ?);
    [|by eapply parse_digits_nonneg].
  exists 0. repeat case_match; try done; eauto using Z.le_refl.
Qed.

(** What [show_uint] prints parses back. *)
Lemma pretty_go_app x s : pretty_N_go x s = pretty_N_go x "" ++ s.
Proof.
  revert s. induction (N.lt_wf_0 x) as [x _ IH]. intros s. destruct (decide (0 < x)%N) as [Hx|Hx].
  - rewrite !(pretty_N_go_step x) by done. rewrite IH by (apply N.div_lt; lia).
    rewrite (IH (x `div` 10)%N ltac:(apply N.div_lt; lia) (String _ "")), app_assoc_s. by rewrite app_cons_s, app_nil_s.
  - assert (x = 0%N) as -> by lia. by rewrite !pretty_N_go_0.
Qed.

Lemma pretty_char_spec m : (m < 10)%N -> is_digit (pretty_N_char m) = true /\ digit_val (pretty_N_char m) = Z.of_N m.
Proof. intros Hm. destruct m as [|p]; [done|]. do 9 (destruct p as [p|p|]; try done; try lia). Qed.

Lemma parse_digits_app max acc s t : parse_digits max acc (s ++ t) = parse_digits max acc s ≫= fun a => parse_digits max a t.
Proof.
  revert acc. induction s as [|c s IH]; intros acc; [done|]. rewrite app_cons_s. cbn. destruct (is_digit c); [|done].
  by destruct (_ <=? max).
Qed.

Lemma parse_digits_pretty max x : Z.of_N x <= max -> parse_digits max 0 (pretty_N_go x "") = Some (Z.of_N x).
Proof.
  induction (N.lt_wf_0 x) as [x _ IH]. intros Hmax. destruct (decide (0 < x)%N) as [Hx|Hx].
  - rewrite pretty_N_go_step, pretty_go_app, parse_digits_app by done.
    pose proof (N.div_mod x 10 ltac:(lia)) as E. pose proof (N.mod_lt x 10 ltac:(lia)) as Hm.
    pose proof (N.div_lt x 10 ltac:(lia) ltac:(lia)) as Hlt. rewrite IH by lia. destruct (pretty_char_spec _ Hm) as [Hd Hv].
    cbn [mbind option_bind parse_digits]. rewrite Hd, Hv.
    replace (Z.of_N (x `div` 10) * 10 + Z.of_N (x `mod` 10)) with (Z.of_N x) by lia. by apply Z.leb_le in Hmax as ->.
  - assert (x = 0%N) as -> by lia. by rewrite pretty_N_go_0.
Qed.

Lemma parse_uint_digits max s : s <> "" -> str_all is_digit s = true -> parse_uint max s = parse_digits max 0 s.
Proof.
  destruct s as [|c s]; [done|]. intros _ H. cbn in H. apply andb_true_iff in H as [Hc _]. unfold parse_uint.
  assert (c <> "+"%char) as Hne by (intros ->; done).
  destruct c as [[] [] [] [] [] [] [] []]; done.
Qed.

Lemma show_uint_nonempty z : show_uint z <> "".
Proof.
  unfold show_uint, pretty, pretty_N. case_decide as Hz; [done|].
  rewrite pretty_N_go_step, pretty_go_app by lia. by destruct (pretty_N_go _ "").
Qed.

Lemma parse_show_uint max n : 0 <= n <= max -> parse_uint max (show_uint n) = Some n.
Proof.
  intros Hn. rewrite parse_uint_digits by (apply show_uint_nonempty || apply show_uint_digits).
  unfold show_uint, pretty, pretty_N. case_decide as Hz.
  - assert (n = 0) as -> by lia. change (parse_digits max 0 "0") with (if 0 <=? max then Some 0 else None).
    by rewrite (proj2 (Z.leb_le _ _)) by lia.
  - rewrite parse_digits_pretty; f_equal; lia.
Qed.

Lemma digit_plain c : is_digit c = true -> plain c = true.
Proof. unfold is_digit, plain, in_range. intros H. bool_simpl. apply andb_true_iff. split; apply Z.leb_le; lia. Qed.

Lemma show_uint_plain z : str_all plain (show_uint z) = true.
Proof. eapply str_all_impl; [apply digit_plain|]. apply show_uint_digits. Qed.

(** ** Suffixes *)

Lemma strip_suffix_app p s : strip_suffix p (s ++ p) = Some s.
Proof.
  unfold strip_suffix. rewrite str_length_app, (proj2 (Nat.leb_le _ _)) by lia.
  replace (String.length s + String.length p - String.length p)%nat with (String.length s) by lia.
  by rewrite str_drop_app, String.eqb_refl, str_take_app.
Qed.

Lemma strip_suffix_some p s t : strip_suffix p s = Some t -> s = t ++ p.
Proof.
  unfold strip_suffix. destruct (_ && _) eqn:E; [|done]. bool_simpl. intros [= <-].
  rewrite <- (str_take_drop (String.length s - String.length p) s) at 1. by f_equal.
Qed.

Lemma ends_with_app p s : ends_with p (s ++ p) = true.
Proof. unfold ends_with. by rewrite strip_suffix_app. Qed.

Lemma str_app_inv_tail s t c d : s ++ String c "" = t ++ String d "" -> s = t /\ c = d.
Proof.
  intros E. apply (f_equal str_rev) in E. rewrite !str_rev_concat in E. change (str_rev (String c "")) with (String c "") in E.
  change (str_rev (String d "")) with (String d "") in E. rewrite !app_cons_s, !app_nil_s in E. injection E as -> E.
  split; [|done]. apply (f_equal str_rev) in E. by rewrite !str_rev_involutive in E.
Qed.

(** Text over [p] has no suffix with a character outside [p]. *)
Lemma ends_with_all p c s t : p c = false -> str_all p s = true -> ends_with (t ++ String c "") s = false.
Proof.
  intros Hc Hs. unfold ends_with. destruct (strip_suffix _ s) as [u|] eqn:E; [|done].
  apply strip_suffix_some in E as ->. rewrite !str_all_app in Hs. cbn in Hs. by rewrite Hc, !andb_false_r in Hs.
Qed.

Lemma trim_end_char_all p c s : p c = false -> str_all p s = true -> trim_end_char c (s ++ String c "") = s.
Proof.
  intros Hc Hs. unfold trim_end_char. rewrite str_rev_concat. change (str_rev (String c "")) with (String c "").
  rewrite app_cons_s, app_nil_s. cbn. rewrite Ascii.eqb_refl. rewrite <- (str_all_rev p) in Hs.
  rewrite <- (str_rev_involutive s) at 2. f_equal. destruct (str_rev s) as [|a r]; [done|]. cbn in *.
  apply andb_true_iff in Hs as [Ha _]. destruct (Ascii.eqb a c) eqn:E; [|done]. apply Ascii.eqb_eq in E as ->. congruence.
Qed.

Lemma trim_end_str_once p s : p <> "" -> ends_with p s = false -> trim_end_str p (s ++ p) = s.
Proof.
  intros Hp Hs. unfold trim_end_str. destruct (String.length (s ++ p)) as [|n] eqn:E.
  { rewrite str_length_app in E. destruct p; [done|cbn in E; lia]. }
  cbn [trim_end_str_fuel]. rewrite strip_suffix_app. destruct n; [done|]. cbn [trim_end_str_fuel].
  unfold ends_with in Hs. by destruct (strip_suffix p s).
Qed.

Lemma split_once_spec c s l r :
  split_once c s = Some (l, r) -> s = l ++ String c r /\ str_all (fun a => negb (Ascii.eqb a c)) l = true.
Proof.
  revert l. induction s as [|a s IH]; intros l; cbn; [done|]. destruct (Ascii.eqb a c) eqn:E.
  - apply Ascii.eqb_eq in E as ->. by intros [= <- ->].
  - destruct (split_once c s) as [[l' r']|]; [|done]. intros [= <- <-]. destruct (IH l' eq_refl) as [-> Hl].
    split; [done|]. cbn. by rewrite E, Hl.
Qed.

Lemma blank_no_char c s : plain c = true -> blank s -> str_all (fun a => negb (Ascii.eqb a c)) s = true.
Proof.
  intros Hc. apply str_all_impl. intros a Ha. destruct (Ascii.eqb a c) eqn:E; [|done]. apply Ascii.eqb_eq in E as ->.
  by rewrite Hc in Ha.
Qed.

Lemma parse_digits_all max acc s z : parse_digits max acc s = Some z -> str_all is_digit s = true.
Proof.
  revert acc. induction s as [|c s IH]; intros acc; cbn; [done|]. destruct (is_digit c); [|done].
  destruct (_ <=? max); [|done]. apply IH.
Qed.

Lemma parse_uint_plain max s z : parse_uint max s = Some z -> s <> "" /\ str_all plain s = true.
Proof.
  intros H. destruct s as [|c s]; [done|]. split; [done|].
  assert (Hd : forall t, parse_digits max 0 t = Some z -> str_all plain t = true).
  { intros t Ht%parse_digits_all. eapply str_all_impl; [apply digit_plain|done]. }
  destruct (decide (c = "+"%char)) as [->|Hc].
  - destruct s as [|c s]; [done|]. by apply (Hd (String c s)) in H.
  - apply Hd. unfold parse_uint in H. by destruct c as [[] [] [] [] [] [] [] []].
Qed.
