(* ===== verification/Net.v ===== *)
(** * Net: IP addresses, their parser, the SSRF classes and CIDR ranges

    The types and parsers of [core::net] the program uses, then the address
    classes of src/src/route/target.rs (what the balancer refuses to connect
    to) and [CidrRange] of src/src/proxy/handler.rs (the trusted proxies). *)
From S2P Require Import Prelude RustStr StrFacts.
From Stdlib Require Import Ascii String.
Local Open Scope string_scope.
Local Open Scope Z_scope.

(** ** [core::net] *)

Record Ipv4Addr := mk_v4 { o0 : Z; o1 : Z; o2 : Z; o3 : Z }.
(** The eight 16-bit segments. *)
Record Ipv6Addr := mk_v6 { s0 : Z; s1 : Z; s2 : Z; s3 : Z; s4 : Z; s5 : Z; s6 : Z; s7 : Z }.
Inductive IpAddr := V4 (a : Ipv4Addr) | V6 (a : Ipv6Addr).
Record SocketAddr := mk_sock { sock_ip : IpAddr; sock_port : Z }.

#[export] Instance Ipv4Addr_eq_dec : EqDecision Ipv4Addr.
Proof. solve_decision. Defined.
#[export] Instance Ipv6Addr_eq_dec : EqDecision Ipv6Addr.
Proof. solve_decision. Defined.
#[export] Instance IpAddr_eq_dec : EqDecision IpAddr.
Proof. solve_decision. Defined.
#[export] Instance SocketAddr_eq_dec : EqDecision SocketAddr.
Proof. solve_decision. Defined.

Definition is_u8 (z : Z) : Prop := 0 <= z < 256.
Definition is_u16 (z : Z) : Prop := 0 <= z < 65536.
Definition v4_wf (a : Ipv4Addr) : Prop := is_u8 (o0 a) /\ is_u8 (o1 a) /\ is_u8 (o2 a) /\ is_u8 (o3 a).
Definition segments (a : Ipv6Addr) : list Z := [s0 a; s1 a; s2 a; s3 a; s4 a; s5 a; s6 a; s7 a].
Definition v6_wf (a : Ipv6Addr) : Prop := Forall is_u16 (segments a).

(** [u32::from] and [u128::from] *)
Definition v4_bits (a : Ipv4Addr) : Z := ((o0 a * 256 + o1 a) * 256 + o2 a) * 256 + o3 a.
Definition v6_bits (a : Ipv6Addr) : Z := fold_left (fun acc s => acc * 65536 + s) (segments a) 0.
#[global] Arguments v4_bits : simpl never.
#[global] Arguments v6_bits : simpl never.

Definition v4_of_segments (hi lo : Z) : Ipv4Addr :=
  mk_v4 (Z.shiftr hi 8) (Z.land hi 255) (Z.shiftr lo 8) (Z.land lo 255).

Definition is_private (a : Ipv4Addr) : bool :=
  (o0 a =? 10) || ((o0 a =? 172) && (16 <=? o1 a) && (o1 a <=? 31)) || ((o0 a =? 192) && (o1 a =? 168)).
Definition v4_is_loopback (a : Ipv4Addr) : bool := o0 a =? 127.
Definition v4_is_link_local (a : Ipv4Addr) : bool := (o0 a =? 169) && (o1 a =? 254).
Definition v4_is_broadcast (a : Ipv4Addr) : bool := v4_bits a =? 4294967295.
Definition v4_is_unspecified (a : Ipv4Addr) : bool := v4_bits a =? 0.
Definition v4_is_multicast (a : Ipv4Addr) : bool := (224 <=? o0 a) && (o0 a <=? 239).
Definition v6_is_loopback (a : Ipv6Addr) : bool := v6_bits a =? 1.
Definition v6_is_unspecified (a : Ipv6Addr) : bool := v6_bits a =? 0.
Definition v6_is_unicast_link_local (a : Ipv6Addr) : bool := Z.land (s0 a) 65472 =? 65152.
Definition v6_is_multicast (a : Ipv6Addr) : bool := Z.shiftr (s0 a) 8 =? 255.

Definition first_five_zero (a : Ipv6Addr) : bool :=
  (s0 a =? 0) && (s1 a =? 0) && (s2 a =? 0) && (s3 a =? 0) && (s4 a =? 0).
(** [to_ipv4_mapped]: ::ffff:a.b.c.d *)
Definition to_ipv4_mapped (a : Ipv6Addr) : option Ipv4Addr :=
  if first_five_zero a && (s5 a =? 65535) then Some (v4_of_segments (s6 a) (s7 a)) else None.
(** [to_ipv4]: the mapped and the compatible (::a.b.c.d) addresses *)
Definition to_ipv4 (a : Ipv6Addr) : option Ipv4Addr :=
  if first_five_zero a && ((s5 a =? 0) || (s5 a =? 65535)) then Some (v4_of_segments (s6 a) (s7 a)) else None.

(** The parser of [core::net]: a reader returns what it read and the rest. *)
Definition reader (A : Type) := string -> option (A * string).

Definition digit_of (radix : Z) (c : ascii) : option Z :=
  let b := byte c in
  let d := if is_digit c then Some (b - 48)
           else if (97 <=? b) && (b <=? 122) then Some (b - 87)
           else if (65 <=? b) && (b <=? 90) then Some (b - 55) else None in
  match d with Some d => if d <? radix then Some d else None | None => None end.

(** The digits read by [read_number]: at most [max_digits], one more fails. *)
Fixpoint read_digits (radix : Z) (max_digits count : nat) (acc : Z) (s : string) : option (Z * nat * string) :=
  match s with
  | "" => Some (acc, count, "")
  | String c s' =>
      match digit_of radix c with
      | None => Some (acc, count, s)
      | Some d => if (max_digits <=? count)%nat then None
                  else read_digits radix max_digits (S count) (acc * radix + d) s'
      end
  end.
#[global] Arguments digit_of : simpl never.

Definition read_number (radix : Z) (max_digits : nat) (max : Z) (allow_zero_prefix : bool) : reader Z := fun s =>
  let has_leading_zero := match s with String "0" _ => true | _ => false end in
  match read_digits radix max_digits 0 0 s with
  | None => None
  | Some (r, count, rest) =>
      if (count =? 0)%nat then None
      else if negb allow_zero_prefix && has_leading_zero && (1 <? count)%nat then None
      else if r <=? max then Some (r, rest) else None
  end.

Definition read_given_char (c : ascii) : reader unit := fun s =>
  match s with String a s' => if Ascii.eqb a c then Some (tt, s') else None | "" => None end.

Definition read_separator {A} (sep : ascii) (index : nat) (inner : reader A) : reader A := fun s =>
  if (0 <? index)%nat
  then match read_given_char sep s with Some (_, s') => inner s' | None => None end
  else inner s.

Definition read_octet : reader Z := read_number 10 3 255 false.

Definition read_ipv4_addr : reader Ipv4Addr := fun s =>
  match read_octet s with None => None | Some (a, s) =>
  match read_separator "."%char 1 read_octet s with None => None | Some (b, s) =>
  match read_separator "."%char 2 read_octet s with None => None | Some (c, s) =>
  match read_separator "."%char 3 read_octet s with None => None | Some (d, s) =>
  Some (mk_v4 a b c d, s) end end end end.

(** [read_groups]: the groups read (an embedded IPv4 address gives two), and
    whether an IPv4 address ended them; [left] groups of [limit] are left. *)
Fixpoint read_groups (left i : nat) (s : string) : list Z * bool * string :=
  match left with
  | O => ([], false, s)
  | S left' =>
      let try4 := if (0 <? left')%nat then read_separator ":"%char i read_ipv4_addr s else None in
      match try4 with
      | Some (a, s') => ([o0 a * 256 + o1 a; o2 a * 256 + o3 a], true, s')
      | None =>
          match read_separator ":"%char i (read_number 16 4 65535 true) s with
          | Some (g, s') => let '(gs, v4, s'') := read_groups left' (S i) s' in (g :: gs, v4, s'')
          | None => ([], false, s)
          end
      end
  end.

Definition v6_of_list (l : list Z) : Ipv6Addr :=
  let g i := nth i l 0 in mk_v6 (g 0%nat) (g 1%nat) (g 2%nat) (g 3%nat) (g 4%nat) (g 5%nat) (g 6%nat) (g 7%nat).

Definition read_ipv6_addr : reader Ipv6Addr := fun s =>
  let '(head, head_ipv4, s1) := read_groups 8 0 s in
  if (List.length head =? 8)%nat then Some (v6_of_list head, s1)
  else if head_ipv4 then None
  else
    match read_given_char ":"%char s1 with None => None | Some (_, s2) =>
    match read_given_char ":"%char s2 with None => None | Some (_, s3) =>
      let '(tail, _, s4) := read_groups (8 - (List.length head + 1)) 0 s3 in
      Some (v6_of_list (head ++ repeat 0 (8 - List.length head - List.length tail) ++ tail)%list, s4)
    end end.

(** [str::parse::<IpAddr>()] *)
Definition parse_ip (s : string) : option IpAddr :=
  let r := match read_ipv4_addr s with
           | Some (a, rest) => Some (V4 a, rest)
           | None => match read_ipv6_addr s with Some (a, rest) => Some (V6 a, rest) | None => None end
           end in
  match r with Some (ip, "") => Some ip | _ => None end.

(** [Ipv4Addr::to_string] *)
Definition show_v4 (a : Ipv4Addr) : string :=
  show_uint (o0 a) ++ "." ++ show_uint (o1 a) ++ "." ++ show_uint (o2 a) ++ "." ++ show_uint (o3 a).

(** ** The address classes of target.rs *)

Definition is_ipv6_unique_local (ip : Ipv6Addr) : bool := Z.land (s0 ip) 65024 =? 64512.

Definition embedded_v4 (v6 : Ipv6Addr) : option Ipv4Addr :=
  match to_ipv4_mapped v6 with Some v4 => Some v4 | None => to_ipv4 v6 end.

Definition is_ip_rfc1918 (ip : IpAddr) : bool :=
  match ip with
  | V4 v4 => is_private v4
  | V6 v6 =>
      if is_ipv6_unique_local v6 then true
      else match embedded_v4 v6 with Some v4 => is_private v4 | None => false end
  end.

Definition v4_always_blocked (v4 : Ipv4Addr) : bool :=
  if v4_is_loopback v4 || v4_is_link_local v4 || v4_is_broadcast v4 || v4_is_unspecified v4 || v4_is_multicast v4
  then true
  else
    let is_cgnat := (o0 v4 =? 100) && (Z.land (o1 v4) 192 =? 64) in
    let is_documentation :=
      ((o0 v4 =? 192) && (o1 v4 =? 0) && (o2 v4 =? 2))
      || ((o0 v4 =? 198) && (o1 v4 =? 51) && (o2 v4 =? 100))
      || ((o0 v4 =? 203) && (o1 v4 =? 0) && (o2 v4 =? 113))
      || ((o0 v4 =? 198) && ((o1 v4 =? 18) || (o1 v4 =? 19))) in
    is_cgnat || is_documentation.

Definition is_ip_always_blocked (ip : IpAddr) : bool :=
  match ip with
  | V4 v4 => v4_always_blocked v4
  | V6 v6 =>
      if v6_is_loopback v6 || v6_is_unspecified v6 || v6_is_unicast_link_local v6 || v6_is_multicast v6 then true
      else match embedded_v4 v6 with Some v4 => v4_always_blocked v4 | None => false end
  end.

Definition is_ip_private (ip : IpAddr) : bool := is_ip_always_blocked ip || is_ip_rfc1918 ip.

(** ** [CidrRange] of handler.rs *)

Record CidrRange := mk_cidr { network : IpAddr; prefix_len : Z }.

Definition CidrRange_parse (s : string) : option CidrRange :=
  match split_once "/"%char s with
  | None => None
  | Some (ip_str, prefix_str) =>
      match parse_ip (trim ip_str) with
      | None => None
      | Some net =>
          match parse_u8 (trim prefix_str) with
          | None => None
          | Some plen =>
              match net with
              | V4 _ => if 32 <? plen then None else Some (mk_cidr net plen)
              | V6 _ => if 128 <? plen then None else Some (mk_cidr net plen)
              end
          end
      end
  end.

Definition CidrRange_contains (self : CidrRange) (addr : IpAddr) : bool :=
  match network self, addr with
  | V4 net, V4 ip =>
      if prefix_len self =? 0 then true
      else if 32 <=? prefix_len self then bool_decide (net = ip)
      else
        let mask := Z.land (Z.shiftl (2 ^ 32 - 1) (32 - prefix_len self)) (2 ^ 32 - 1) in
        Z.land (v4_bits net) mask =? Z.land (v4_bits ip) mask
  | V6 net, V6 ip =>
      if prefix_len self =? 0 then true
      else if 128 <=? prefix_len self then bool_decide (net = ip)
      else
        let mask := Z.land (Z.shiftl (2 ^ 128 - 1) (128 - prefix_len self)) (2 ^ 128 - 1) in
        Z.land (v6_bits net) mask =? Z.land (v6_bits ip) mask
  | _, _ => false
  end.

Definition is_trusted_proxy (ip_str : string) (trusted : list CidrRange) : bool :=
  if (match trusted with [] => true | _ => false end) then false
  else match parse_ip ip_str with
       | None => false
       | Some ip => existsb (fun cidr => CidrRange_contains cidr ip) trusted
       end.

(** [parse_trusted_proxies], the unparsable entries skipped *)
Definition parse_trusted_proxies (raw : list string) : list CidrRange := omap CidrRange_parse raw.

Example parse_ip_ex :
  parse_ip "::ffff:127.0.0.1" = Some (V6 (mk_v6 0 0 0 0 0 65535 32512 1))
  /\ parse_ip "fe80::1" = Some (V6 (mk_v6 65152 0 0 0 0 0 0 1))
  /\ parse_ip "1:2:3:4:5:6:7::" = Some (V6 (mk_v6 1 2 3 4 5 6 7 0))
  /\ parse_ip "010.0.0.1" = None /\ parse_ip "256.0.0.1" = None /\ parse_ip "1.2.3" = None
  /\ parse_ip "1:2:3:4:5:6:7:8::" = None.
Proof. vm_compute. auto 10. Qed.

(** ** CIDR membership is equality of the leading bits *)

Definition addr_width (ip : IpAddr) : Z := match ip with V4 _ => 32 | V6 _ => 128 end.
Definition addr_bits (ip : IpAddr) : Z := match ip with V4 a => v4_bits a | V6 a => v6_bits a end.
Definition addr_wf (ip : IpAddr) : Prop := match ip with V4 a => v4_wf a | V6 a => v6_wf a end.
Definition same_family (a b : IpAddr) : bool :=
  match a, b with V4 _, V4 _ | V6 _, V6 _ => true | _, _ => false end.

(** The reference definition: the same family and the same first
    [prefix_len] bits. *)
Definition cidr_spec (c : CidrRange) (ip : IpAddr) : Prop :=
  same_family (network c) ip = true
  /\ addr_bits (network c) / 2 ^ (addr_width ip - prefix_len c) = addr_bits ip / 2 ^ (addr_width ip - prefix_len c).

Lemma v4_bits_range a : v4_wf a -> 0 <= v4_bits a < 2 ^ 32.
Proof. unfold v4_wf, v4_bits, is_u8. lia. Qed.

(** Big-endian digits: range and injectivity. *)
Lemma be_range (l : list Z) acc k :
  Forall is_u16 l -> 0 <= acc < 65536 ^ k -> 0 <= k ->
  0 <= fold_left (fun acc s => acc * 65536 + s) l acc < 65536 ^ (k + Z.of_nat (List.length l)).
Proof.
  intros Hl. revert acc k. induction Hl as [|x l Hx Hl IH]; intros acc k Hacc Hk.
  - cbn. by rewrite Z.add_0_r.
  - cbn [fold_left List.length].
    replace (k + Z.of_nat (S (List.length l))) with ((k + 1) + Z.of_nat (List.length l)) by lia.
    apply IH; [|lia]. rewrite Z.pow_add_r by lia. unfold is_u16 in Hx. lia.
Qed.

Lemma be_inj (l1 l2 : list Z) a b :
  Forall is_u16 l1 -> Forall is_u16 l2 -> List.length l1 = List.length l2 ->
  fold_left (fun acc s => acc * 65536 + s) l1 a = fold_left (fun acc s => acc * 65536 + s) l2 b ->
  a = b /\ l1 = l2.
Proof.
  intros H1. revert l2 a b. induction H1 as [|x l1 Hx H1 IH]; intros [|y l2] a b H2 Hlen Heq; try done.
  apply Forall_cons in H2 as [Hy H2]. cbn in *. injection Hlen as Hlen.
  destruct (IH _ _ _ H2 Hlen Heq) as [E ->]. unfold is_u16 in *.
  assert (a = b) by lia. subst. split; [done|]. f_equal. lia.
Qed.

Lemma v6_bits_range a : v6_wf a -> 0 <= v6_bits a < 2 ^ 128.
Proof. intros H. apply (be_range _ 0 0 H); lia. Qed.

Lemma v4_bits_inj a b : v4_wf a -> v4_wf b -> v4_bits a = v4_bits b -> a = b.
Proof.
  destruct a, b. unfold v4_wf, v4_bits, is_u8; cbn. intros. f_equal; lia.
Qed.

Lemma v6_bits_inj a b : v6_wf a -> v6_wf b -> v6_bits a = v6_bits b -> a = b.
Proof.
  intros Ha Hb Heq. destruct (be_inj _ _ _ _ Ha Hb eq_refl Heq) as [_ E].
  destruct a, b. unfold segments in E. cbn in E. congruence.
Qed.

(** Masking with the [p] leading ones of a [w]-bit word compares the
    quotients. *)
Lemma masked_eq_iff w p a b :
  0 < p < w -> 0 <= a < 2 ^ w -> 0 <= b < 2 ^ w ->
  let mask := Z.land (Z.shiftl (2 ^ w - 1) (w - p)) (2 ^ w - 1) in
  Z.land a mask = Z.land b mask <-> a / 2 ^ (w - p) = b / 2 ^ (w - p).
Proof.
  intros Hp Ha Hb mask.
  assert (Hm : forall x, 0 <= x < 2 ^ w -> Z.land x mask = Z.shiftl (Z.shiftr x (w - p)) (w - p)).
  { intros x Hx. unfold mask. apply Z.bits_inj'. intros n Hn.
    rewrite !Z.land_spec, !Z.shiftl_spec by lia.
    assert (Hones : forall k, Z.testbit (2 ^ w - 1) k = (0 <=? k) && (k <? w)).
    { intros k. replace (2 ^ w - 1) with (Z.ones w) by (rewrite Z.ones_equiv; lia).
      apply Z.testbit_ones. lia. }
    rewrite !Hones.
    destruct (Z_lt_le_dec n (w - p)) as [Hlow|Hhigh].
    - rewrite (Z.testbit_neg_r (Z.shiftr x (w - p))) by lia.
      destruct (0 <=? n - (w - p)) eqn:E; [apply Z.leb_le in E; lia|]. cbn. apply andb_false_r.
    - rewrite Z.shiftr_spec by lia. replace (n - (w - p) + (w - p)) with n by lia.
      destruct (Z_lt_le_dec n w).
      + replace (0 <=? n - (w - p)) with true by (symmetry; apply Z.leb_le; lia).
        replace (n - (w - p) <? w) with true by (symmetry; apply Z.ltb_lt; lia).
        replace (0 <=? n) with true by (symmetry; apply Z.leb_le; lia).
        replace (n <? w) with true by (symmetry; apply Z.ltb_lt; lia).
        apply andb_true_r.
      + rewrite (Z.bits_above_log2 x n); [done|lia|].
        destruct (Z.eq_dec x 0) as [->|]; [cbn; lia|].
        apply Z.log2_lt_pow2; [lia|]. eapply Z.lt_le_trans; [apply Hx|apply Z.pow_le_mono_r; lia]. }
  rewrite !Hm by done. rewrite <- !Z.shiftr_div_pow2 by lia. split; [|intros ->; done].
  intros H. apply (f_equal (fun z => Z.shiftr z (w - p))) in H.
  by rewrite !Z.shiftr_shiftl_l, Z.sub_diag, !Z.shiftl_0_r in H by lia.
Qed.

Lemma div_small_pow a b w : 0 <= a < 2 ^ w -> 0 <= b < 2 ^ w -> a / 2 ^ w = b / 2 ^ w.
Proof. intros. by rewrite !Z.div_small. Qed.

(** C10: for every valid range and address, [CidrRange::contains] (masks,
    early returns for /0 and full length) holds exactly when the two addresses
    are of one family and share their leading [prefix_len] bits. *)
Theorem cidr_contains_spec c ip :
  addr_wf (network c) -> addr_wf ip -> 0 <= prefix_len c <= addr_width (network c) ->
  CidrRange_contains c ip = true <-> cidr_spec c ip.
Proof.
  destruct c as [[net|net] p], ip as [a|a]; cbn; intros Hn Ha Hp; unfold cidr_spec; cbn;
    try (split; [done|by intros []]).
  - pose proof (v4_bits_range _ Hn). pose proof (v4_bits_range _ Ha).
    destruct (Z.eqb_spec p 0) as [->|]; [split; [split; [done|by apply div_small_pow]|done]|].
    destruct (Z.leb_spec 32 p).
    + replace p with 32 by lia. rewrite bool_decide_eq_true, Z.sub_diag, !Z.div_1_r.
      split; [by intros ->|]. intros [_ E]. by apply v4_bits_inj.
    + rewrite Z.eqb_eq, (masked_eq_iff 32 p) by lia. tauto.
  - pose proof (v6_bits_range _ Hn). pose proof (v6_bits_range _ Ha).
    destruct (Z.eqb_spec p 0) as [->|]; [split; [split; [done|by apply div_small_pow]|done]|].
    destruct (Z.leb_spec 128 p).
    + replace p with 128 by lia. rewrite bool_decide_eq_true, Z.sub_diag, !Z.div_1_r.
      split; [by intros ->|]. intros [_ E]. by apply v6_bits_inj.
    + rewrite Z.eqb_eq, (masked_eq_iff 128 p) by lia. tauto.
Qed.

Lemma cidr_contains_spec_witness :
  let c := mk_cidr (V4 (mk_v4 10 1 0 0)) 16 in
  CidrRange_contains c (V4 (mk_v4 10 1 7 7)) = true <-> cidr_spec c (V4 (mk_v4 10 1 7 7)).
Proof.
  apply cidr_contains_spec; cbn; unfold v4_wf, is_u8; cbn; lia.
Defined.

(** ** IPv4 addresses inside IPv6 addresses *)

Definition segment_pair (a b : Z) : Z := a * 256 + b.
(** [::ffff:a.b.c.d] and [::a.b.c.d] *)
Definition mapped (a : Ipv4Addr) : IpAddr :=
  V6 (mk_v6 0 0 0 0 0 65535 (segment_pair (o0 a) (o1 a)) (segment_pair (o2 a) (o3 a))).
Definition compatible (a : Ipv4Addr) : IpAddr :=
  V6 (mk_v6 0 0 0 0 0 0 (segment_pair (o0 a) (o1 a)) (segment_pair (o2 a) (o3 a))).

Lemma land_255 x : Z.land x 255 = x mod 256.
Proof. change 255 with (Z.ones 8). by rewrite Z.land_ones. Qed.

Lemma v4_of_segments_pair a :
  v4_wf a -> v4_of_segments (segment_pair (o0 a) (o1 a)) (segment_pair (o2 a) (o3 a)) = a.
Proof.
  destruct a as [a b c d]. unfold v4_wf, is_u8, v4_of_segments, segment_pair. cbn. intros.
  rewrite !land_255, !Z.shiftr_div_pow2 by lia. change (2 ^ 8) with 256.
  f_equal; Z.div_mod_to_equations; lia.
Qed.

Lemma embedded_v4_mapped a : v4_wf a -> forall v6, mapped a = V6 v6 \/ compatible a = V6 v6 -> embedded_v4 v6 = Some a.
Proof.
  intros Ha v6 [[= <-]|[= <-]]; unfold embedded_v4, to_ipv4_mapped, to_ipv4, first_five_zero; cbn;
    by rewrite v4_of_segments_pair.
Qed.

(** C9: an IPv4 address written inside an IPv6 address does not escape the
    upstream checks: the mapped form is in exactly the same blocked and
    private classes, and the compatible form is blocked whenever the IPv4
    address is. *)
Theorem embedded_v4_not_bypassed a :
  v4_wf a ->
  is_ip_always_blocked (mapped a) = is_ip_always_blocked (V4 a)
  /\ is_ip_rfc1918 (mapped a) = is_ip_rfc1918 (V4 a)
  /\ (is_ip_always_blocked (V4 a) = true -> is_ip_always_blocked (compatible a) = true)
  /\ is_ip_rfc1918 (compatible a) = is_ip_rfc1918 (V4 a)
  /\ (is_ip_private (V4 a) = true -> is_ip_private (mapped a) = true /\ is_ip_private (compatible a) = true).
Proof.
  intros Ha.
  assert (Hm : is_ip_always_blocked (mapped a) = is_ip_always_blocked (V4 a)).
  { unfold is_ip_always_blocked, mapped.
    rewrite (embedded_v4_mapped a Ha) by (by left).
    replace (v6_is_loopback _) with false; [replace (v6_is_unspecified _) with false; [done|]|];
      symmetry; apply Z.eqb_neq; destruct a as [x y z w]; unfold v4_wf, is_u8 in Ha;
      unfold v6_bits, segments, segment_pair; cbn [fold_left s0 s1 s2 s3 s4 s5 s6 s7 o0 o1 o2 o3] in *; lia. }
  assert (Hr : is_ip_rfc1918 (mapped a) = is_ip_rfc1918 (V4 a)).
  { unfold is_ip_rfc1918, mapped. by rewrite (embedded_v4_mapped a Ha) by (by left). }
  assert (Hc : is_ip_always_blocked (V4 a) = true -> is_ip_always_blocked (compatible a) = true).
  { unfold is_ip_always_blocked, compatible. intros H.
    rewrite (embedded_v4_mapped a Ha), H by (by right). by destruct (_ || _ || _ || _). }
  assert (Hrc : is_ip_rfc1918 (compatible a) = is_ip_rfc1918 (V4 a)).
  { unfold is_ip_rfc1918, compatible. by rewrite (embedded_v4_mapped a Ha) by (by right). }
  split_and!; try done.
  unfold is_ip_private. rewrite Hm, Hr, Hrc, !orb_true_iff. intros [H|H]; auto.
Qed.

Lemma embedded_v4_not_bypassed_witness :
  let a := mk_v4 127 0 0 1 in
  is_ip_always_blocked (V4 a) = true /\ is_ip_always_blocked (mapped a) = is_ip_always_blocked (V4 a).
Proof.
  split; [reflexivity|]. apply embedded_v4_not_bypassed. unfold v4_wf, is_u8; cbn; lia.
Defined.

(** ** Parsing what is printed *)

Definition not_digit_first (radix : Z) (s : string) : Prop :=
  match s with "" => True | String c _ => digit_of radix c = None end.

Lemma read_digits_frame radix m n acc s v k rest :
  read_digits radix m n acc s = Some (v, k, "") -> not_digit_first radix rest ->
  read_digits radix m n acc (s ++ rest) = Some (v, k, rest).
Proof.
  revert n acc. induction s as [|c s IH]; intros n acc H Hr; rewrite ?app_nil_s, ?app_cons_s; cbn in *.
  - simplify_eq. destruct rest as [|c r]; [done|]. cbn in *. by rewrite Hr.
  - destruct (digit_of radix c); [|simplify_eq]. destruct (m <=? n)%nat; [done|]. by apply IH.
Qed.

Lemma read_octet_frame s v rest :
  read_octet s = Some (v, "") -> not_digit_first 10 rest -> read_octet (s ++ rest) = Some (v, rest).
Proof.
  unfold read_octet, read_number. intros H Hr.
  destruct (read_digits 10 3 0 0 s) as [[[r k] rest']|] eqn:E; [|done].
  assert (rest' = "") as -> by (repeat case_match; by simplify_eq).
  rewrite (read_digits_frame _ _ _ _ _ _ _ _ E Hr).
  assert (s <> "") by (intros ->; cbn in E; simplify_eq; done).
  replace (match (s ++ rest)%string with String "0" _ => true | _ => false end)
    with (match s with String "0" _ => true | _ => false end) by (by destruct s).
  repeat case_match; by simplify_eq.
Qed.

Definition octets : list Z := map Z.of_nat (seq 0 256).
Lemma is_u8_octets z : is_u8 z -> z ∈ octets.
Proof.
  intros H. apply list_elem_of_In, in_map_iff. exists (Z.to_nat z).
  split; [unfold is_u8 in H; lia|]. apply in_seq. unfold is_u8 in H; lia.
Qed.

Lemma read_octet_show z : is_u8 z -> read_octet (show_uint z) = Some (z, "").
Proof.
  intros H%is_u8_octets%list_elem_of_In.
  assert (Hall : forallb (fun z => bool_decide (read_octet (show_uint z) = Some (z, ""))) octets = true)
    by (vm_compute; reflexivity).
  rewrite forallb_forall in Hall. by apply Hall, bool_decide_eq_true in H.
Qed.

Lemma read_octet_show_app z rest :
  is_u8 z -> not_digit_first 10 rest -> read_octet (show_uint z ++ rest) = Some (z, rest).
Proof. intros H Hr. apply read_octet_frame; [by apply read_octet_show|done]. Qed.

Lemma read_dot i s : read_separator "."%char (S i) read_octet (String "." s) = read_octet s.
Proof. reflexivity. Qed.

(** Parsing the text of an IPv4 address gives the address back, so the
    peer address the balancer prints is the address its trusted-proxy check
    reads. *)
Theorem parse_show_v4 a : v4_wf a -> parse_ip (show_v4 a) = Some (V4 a).
Proof.
  destruct a as [a b c d]. intros (Ha & Hb & Hc & Hd). cbn in *.
  unfold parse_ip, show_v4, read_ipv4_addr; cbn [o0 o1 o2 o3].
  rewrite !app_cons_s, !app_nil_s, read_octet_show_app by done.
  rewrite !read_dot, read_octet_show_app by done.
  rewrite !read_dot, read_octet_show_app by done.
  by rewrite !read_dot, read_octet_show.
Qed.

Lemma parse_show_v4_witness : parse_ip (show_v4 (mk_v4 192 168 0 10)) = Some (V4 (mk_v4 192 168 0 10)).
Proof. apply parse_show_v4. unfold v4_wf, is_u8; cbn; lia. Defined.
