(* ===== verification/Routes.v ===== *)
(** * Routes: route definitions and the route-command parser

    src/src/route/definition.rs and src/src/route/parser.rs: the [RouteDef]
    that both the static configuration and Consul produce, and the parser of
    the Fabio command language ([route add], [route del], [route weight]). *)
From S2P Require Import Prelude F64 RustStr StrFacts.
From Stdlib Require Import Floats.SpecFloat.
From Stdlib Require Import Ascii String.
Local Open Scope string_scope.
Local Open Scope Z_scope.

(** ** definition.rs *)

Inductive RouteCmd := Add | Del | Weight.
Inductive RouteSource := Static | ConsulKv | ConsulService.

#[export] Instance RouteCmd_eq_dec : EqDecision RouteCmd.
Proof. solve_decision. Defined.
#[export] Instance RouteSource_eq_dec : EqDecision RouteSource.
Proof. solve_decision. Defined.

Record RouteDef := mk_def {
  cmd : RouteCmd;
  def_service : string;
  def_src : string;
  def_dst : string;
  def_weight : f64;
  def_tags : list string;
  def_opts : gmap string string;
  def_source : RouteSource;
}.

Definition src_host (self : RouteDef) : string := hd "" (split_on "/"%char (def_src self)).

Definition src_path (self : RouteDef) : string :=
  match split_once "/"%char (def_src self) with Some (_, path) => path | None => "" end.

(** ** parser.rs *)

Definition quote : ascii := chr 34.
Definition tab : ascii := chr 9.

(** The loop of [tokenize]: [cur] is the reversed current token, [None] an
    unterminated quotation. *)
Definition push_token (cur : string) (rest : list string) : list string :=
  if is_empty cur then rest else str_rev cur :: rest.

Fixpoint tokenize_loop (in_quotes : bool) (cur s : string) : option (list string) :=
  match s with
  | "" => if in_quotes then None else Some (push_token cur [])
  | String c s' =>
      if Ascii.eqb c quote then tokenize_loop (negb in_quotes) cur s'
      else if (Ascii.eqb c " "%char || Ascii.eqb c tab) && negb in_quotes then
        match tokenize_loop in_quotes "" s' with
        | Some l => Some (push_token cur l)
        | None => None
        end
      else tokenize_loop in_quotes (String c cur) s'
  end.

Definition tokenize (line : string) : option (list string) := tokenize_loop false "" line.

Definition MAX_WEIGHT : f64 := f64_of_Z 1000.

(** The weight a [weight] option leaves: the parsed value when it is finite
    and in [0, 1000], the previous one otherwise. *)
Definition parse_weight (weight : f64) (token : string) : f64 :=
  match parse_f64 token with
  | Some w => if f64_is_finite w && (f64_le f64_zero w && f64_le w MAX_WEIGHT) then w else weight
  | None => weight
  end.

Definition parse_tags (token : string) : list string :=
  List.filter (fun t => negb (is_empty t)) (map trim (split_on ","%char token)).

Definition parse_opts (opts : gmap string string) (token : string) : gmap string string :=
  fold_left (fun opts pair => match split_once "="%char pair with
                              | Some (k, v) => <[k := v]> opts
                              | None => opts
                              end) (split_whitespace token) opts.

(** The option loop of [parse_route_add], from the token at [i] on. *)
Fixpoint route_add_options (tokens : list string) (weight : f64) (tags : list string) (opts : gmap string string)
  : f64 * list string * gmap string string :=
  match tokens with
  | [] => (weight, tags, opts)
  | t :: rest =>
      if String.eqb t "weight" then
        match rest with [] => (weight, tags, opts) | v :: rest' => route_add_options rest' (parse_weight weight v) tags opts end
      else if String.eqb t "tags" then
        match rest with [] => (weight, tags, opts) | v :: rest' => route_add_options rest' weight (parse_tags v) opts end
      else if String.eqb t "opts" then
        match rest with [] => (weight, tags, opts) | v :: rest' => route_add_options rest' weight tags (parse_opts opts v) end
      else route_add_options rest weight tags opts
  end.

Definition parse_route_add (tokens : list string) : option RouteDef :=
  match tokens with
  | _ :: _ :: service :: src :: dst :: rest =>
      let '(weight, tags, opts) := route_add_options rest f64_zero [] ∅ in
      Some (mk_def Add service src dst weight tags opts Static)
  | _ => None
  end.

(** The option loop of [parse_route_del]. *)
Fixpoint route_del_options (tokens : list string) (src dst : string) (tags : list string) : string * string * list string :=
  match tokens with
  | [] => (src, dst, tags)
  | t :: rest =>
      if String.eqb t "tags" then
        match rest with [] => (src, dst, tags) | v :: rest' => route_del_options rest' src dst (parse_tags v) end
      else if is_empty src then route_del_options rest t dst tags
      else if is_empty dst then route_del_options rest src t tags
      else route_del_options rest src dst tags
  end.

Definition parse_route_del (tokens : list string) : option RouteDef :=
  let '(service, rest) :=
    match tokens with
    | _ :: _ :: t :: rest => if String.eqb t "tags" then ("", t :: rest) else (t, rest)
    | _ => ("", [])
    end in
  let '(src, dst, tags) := route_del_options rest "" "" [] in
  if is_empty service && (match tags with [] => true | _ => false end) then None
  else Some (mk_def Del service src dst f64_zero tags ∅ Static).

(** The option loop of [parse_route_weight]. *)
Fixpoint route_weight_options (tokens : list string) (weight : f64) (tags : list string) : f64 * list string :=
  match tokens with
  | [] => (weight, tags)
  | t :: rest =>
      if String.eqb t "weight" then
        match rest with [] => (weight, tags) | v :: rest' => route_weight_options rest' (parse_weight weight v) tags end
      else if String.eqb t "tags" then
        match rest with [] => (weight, tags) | v :: rest' => route_weight_options rest' weight (parse_tags v) end
      else route_weight_options rest weight tags
  end.

Definition parse_route_weight (tokens : list string) : option RouteDef :=
  match tokens with
  | _ :: _ :: first :: t :: rest =>
      let '(service, src, rest) := if String.eqb t "weight" then ("", first, t :: rest) else (first, t, rest) in
      let '(weight, tags) := route_weight_options rest f64_zero [] in
      Some (mk_def Weight service src "" weight tags ∅ Static)
  | _ => None
  end.

Definition parse_line (line : string) : option RouteDef :=
  match tokenize line with
  | None => None
  | Some tokens =>
      match tokens with
      | t0 :: t1 :: _ :: _ =>
          if negb (String.eqb t0 "route") then None
          else if String.eqb t1 "add" then parse_route_add tokens
          else if String.eqb t1 "del" then parse_route_del tokens
          else if String.eqb t1 "weight" then parse_route_weight tokens
          else None
      | _ => None
      end
  end.

Definition parse_command (raw : string) : option RouteDef :=
  let line := trim raw in
  if is_empty line || starts_with "#" line || starts_with "//" line then None else parse_line line.

Definition parse_route_commands (input : string) : list RouteDef := omap parse_command (lines input).

Example parse_add_ex :
  parse_line ("route add svc host/ http://10.0.0.1:8080/ weight 0.5 tags " ++ String quote ("a, b" ++ String quote ""))
  = Some (mk_def Add "svc" "host/" "http://10.0.0.1:8080/" f64_half ["a"; "b"] ∅ Static).
Proof. vm_compute. reflexivity. Qed.
Example parse_bad_weight_ex :
  map def_weight (omap (fun w => parse_line ("route add svc host/ http://10.0.0.1/ weight " ++ w))
                       ["inf"; "-inf"; "nan"; "-1"; "1e308"]) = repeat f64_zero 5.
Proof. vm_compute. reflexivity. Qed.

(** ** Well-formed commands *)

Definition weight_ok (w : f64) : Prop :=
  f64_is_finite w = true /\ f64_le f64_zero w = true /\ f64_le w MAX_WEIGHT = true.

Record def_wf (d : RouteDef) : Prop := {
  wf_weight : weight_ok (def_weight d);
  wf_source : def_source d = Static;
  wf_tags : "" ∉ def_tags d;
  wf_add : cmd d = Add -> def_service d <> "" /\ def_src d <> "" /\ def_dst d <> "";
  wf_del : cmd d = Del -> def_weight d = f64_zero /\ (def_service d <> "" \/ def_tags d <> []);
  wf_cmd_weight : cmd d = Weight -> def_src d <> "" /\ def_dst d = "";
}.

Lemma push_token_nonempty cur l : "" ∉ l -> "" ∉ push_token cur l.
Proof.
  unfold push_token. destruct (is_empty cur) eqn:E; [done|]. apply is_empty_false in E.
  intros H. rewrite elem_of_cons. intros [Hc|Hl]; [|done]. by apply (str_rev_nonempty cur).
Qed.

Lemma tokenize_loop_nonempty q cur s l : tokenize_loop q cur s = Some l -> "" ∉ l.
Proof.
  revert q cur l. induction s as [|c s IH]; cbn [tokenize_loop]; intros q cur l H.
  - destruct q; [done|]. simplify_eq. apply push_token_nonempty. by apply not_elem_of_nil.
  - destruct (Ascii.eqb c quote); [exact (IH _ _ _ H)|].
    destruct (_ && _); [|exact (IH _ _ _ H)].
    destruct (tokenize_loop q "" s) eqn:E; [|done]. simplify_eq. exact (push_token_nonempty _ _ (IH _ _ _ E)).
Qed.

Lemma weight_ok_zero : weight_ok f64_zero.
Proof. repeat split. Qed.

Lemma parse_weight_ok w t : weight_ok w -> weight_ok (parse_weight w t).
Proof.
  unfold parse_weight. intros Hw. destruct (parse_f64 t) as [v|]; [|done].
  destruct (_ && _) eqn:E; [|done]. bool_simpl. by repeat split.
Qed.

Lemma parse_tags_nonempty t : "" ∉ parse_tags t.
Proof. unfold parse_tags. rewrite list_elem_of_In, filter_In. by intros [_ ?]. Qed.

#[export] Hint Resolve weight_ok_zero parse_weight_ok parse_tags_nonempty : rust.

(** The option loops consume one or two tokens at a time. *)
Lemma tokens_ind (P : list string -> Prop) :
  P [] -> (forall t, P [t]) -> (forall t v rest, P (v :: rest) -> P rest -> P (t :: v :: rest)) -> forall l, P l.
Proof.
  intros H0 H1 H2. assert (H : forall l, P l /\ forall t, P (t :: l)) by (induction l as [|v l [? ?]]; auto).
  apply H.
Qed.

Lemma route_add_options_ok tokens w tags opts :
  weight_ok w -> "" ∉ tags ->
  let '(w', tags', _) := route_add_options tokens w tags opts in weight_ok w' /\ "" ∉ tags'.
Proof.
  revert w tags opts.
  induction tokens as [|t|t v rest IH1 IH2] using tokens_ind; intros w tags opts Hw Ht; cbn; try done.
  - by repeat case_match; simplify_eq.
  - destruct (String.eqb t "weight"); [apply IH2; auto with rust|].
    destruct (String.eqb t "tags"); [apply IH2; auto with rust|].
    destruct (String.eqb t "opts"); [by apply IH2|]. by apply IH1.
Qed.

Lemma route_weight_options_ok tokens w tags :
  weight_ok w -> "" ∉ tags ->
  let '(w', tags') := route_weight_options tokens w tags in weight_ok w' /\ "" ∉ tags'.
Proof.
  revert w tags.
  induction tokens as [|t|t v rest IH1 IH2] using tokens_ind; intros w tags Hw Ht; cbn; try done.
  - by repeat case_match; simplify_eq.
  - destruct (String.eqb t "weight"); [apply IH2; auto with rust|].
    destruct (String.eqb t "tags"); [apply IH2; auto with rust|]. by apply IH1.
Qed.

Lemma route_del_options_eq t v rest src dst tags :
  route_del_options (t :: v :: rest) src dst tags =
  if String.eqb t "tags" then route_del_options rest src dst (parse_tags v)
  else if is_empty src then route_del_options (v :: rest) t dst tags
  else if is_empty dst then route_del_options (v :: rest) src t tags
  else route_del_options (v :: rest) src dst tags.
Proof. reflexivity. Qed.

Lemma route_del_options_ok tokens src dst tags :
  "" ∉ tags -> let '(_, _, tags') := route_del_options tokens src dst tags in "" ∉ tags'.
Proof.
  revert src dst tags.
  induction tokens as [|t|t v rest IH1 IH2] using tokens_ind; intros src dst tags Ht; try done.
  - cbn. by repeat case_match; simplify_eq.
  - rewrite route_del_options_eq.
    destruct (String.eqb t "tags"); [apply IH2; auto with rust|].
    destruct (is_empty src); [by apply IH1|]. destruct (is_empty dst); by apply IH1.
Qed.

Lemma parse_line_wf line d : parse_line line = Some d -> def_wf d.
Proof.
  unfold parse_line. destruct (tokenize line) as [tokens|] eqn:Ht; [|done].
  apply tokenize_loop_nonempty in Ht.
  destruct tokens as [|t0 [|t1 [|t2 rest]]]; try done.
  destruct (negb _); [done|].
  destruct (String.eqb t1 "add"); [|destruct (String.eqb t1 "del"); [|destruct (String.eqb t1 "weight"); [|done]]].
  - unfold parse_route_add. destruct rest as [|t3 [|t4 rest]]; try done.
    pose proof (route_add_options_ok rest f64_zero [] ∅ weight_ok_zero ltac:(apply not_elem_of_nil)) as Hok.
    destruct (route_add_options rest f64_zero [] ∅) as [[w tags] opts]. destruct Hok. intros; simplify_eq.
    rewrite !not_elem_of_cons in Ht. destruct_and! Ht. split; cbn; try done.
  - unfold parse_route_del. 
    destruct (if String.eqb t2 "tags" then _ else _) as [service rest'].
    pose proof (route_del_options_ok rest' "" "" [] ltac:(apply not_elem_of_nil)) as Hok.
    destruct (route_del_options rest' "" "" []) as [[src dst] tags].
    destruct (is_empty service && _) eqn:E; [done|]. intros; simplify_eq.
    split; cbn; auto with rust; try done. intros _. split; [done|].
    apply andb_false_iff in E as [E|E]; [left; by apply is_empty_false|right; by destruct tags].
  - unfold parse_route_weight. destruct rest as [|t3 rest]; [done|].
    rewrite !not_elem_of_cons in Ht. destruct_and! Ht.
    assert (Hsrc : (if String.eqb t3 "weight" then ("", t2, t3 :: rest) else (t2, t3, rest)).1.2 <> "")
      by (by destruct (String.eqb t3 "weight")).
    destruct (if String.eqb t3 "weight" then _ else _) as [[service src] rest'].
    pose proof (route_weight_options_ok rest' f64_zero [] weight_ok_zero ltac:(apply not_elem_of_nil)) as Hok.
    destruct (route_weight_options rest' f64_zero []) as [w tags]. destruct Hok. intros; simplify_eq.
    by split; cbn.
Qed.

(** C19: every command the parser produces, whatever the input text, is well
    formed: its weight is finite and in [0, 1000] (so the slot count computed
    from it cannot be the saturated [usize::MAX]), no tag is empty, an [add]
    names a service, a source and a destination, a [del] names a service or a
    tag. *)
Theorem parsed_commands_wf input : Forall def_wf (parse_route_commands input).
Proof.
  apply Forall_forall. intros d Hd. apply list_elem_of_omap in Hd as (raw & _ & H).
  unfold parse_command in H. destruct (_ || _); [done|]. by eapply parse_line_wf.
Qed.

(** ** Printing and parsing a [route add] *)

(** The characters of an unquoted token, of a quoted one, of an option. *)
Definition token_char (c : ascii) : bool :=
  negb (Ascii.eqb c quote) && negb (Ascii.eqb c " "%char || Ascii.eqb c tab).
Definition no_quote (c : ascii) : bool := negb (Ascii.eqb c quote).
Definition visible (c : ascii) : bool := in_range 33 126 c && no_quote c.

Definition token_ok (s : string) : Prop := s <> "" /\ str_all token_char s = true.
Definition tag_ok (s : string) : Prop :=
  s <> "" /\ trim s = s /\ str_all (fun c => no_quote c && negb (Ascii.eqb c ","%char)) s = true.
Definition opt_ok (kv : string * string) : Prop :=
  str_all (fun c => visible c && negb (Ascii.eqb c "="%char)) kv.1 = true /\ str_all visible kv.2 = true.

Definition quoted (s : string) : string := String quote (s ++ String quote "").
Definition show_opt (kv : string * string) : string := kv.1 ++ "=" ++ kv.2.

(** The documented format of a [route add]; an empty list is left out. *)
Definition show_add (service src dst weight : string) (tags : list string) (opts : list (string * string)) : string :=
  "route add " ++ service ++ " " ++ src ++ " " ++ dst ++ " weight " ++ weight
  ++ (match tags with [] => "" | _ => " tags " ++ quoted (str_join "," tags) end)
  ++ (match opts with [] => "" | _ => " opts " ++ quoted (str_join " " (map show_opt opts)) end).

Lemma tokenize_token s cur rest :
  str_all token_char s = true -> tokenize_loop false cur (s ++ rest) = tokenize_loop false (str_rev_app s cur) rest.
Proof.
  revert cur. induction s as [|c s IH]; intros cur H; [done|].
  rewrite app_cons_s. cbn [tokenize_loop str_rev_app str_all] in *.
  apply andb_true_iff in H as [[Hq Hs]%andb_true_iff H]. apply negb_true_iff in Hq, Hs.
  rewrite Hq, Hs. by apply IH.
Qed.

Lemma tokenize_quoted s cur rest :
  str_all no_quote s = true -> tokenize_loop true cur (s ++ rest) = tokenize_loop true (str_rev_app s cur) rest.
Proof.
  revert cur. induction s as [|c s IH]; intros cur H; [done|].
  rewrite app_cons_s. cbn [tokenize_loop str_rev_app str_all] in *.
  apply andb_true_iff in H as [Hq H]. apply negb_true_iff in Hq.
  rewrite Hq, andb_false_r. by apply IH.
Qed.

Lemma push_token_rev s l : s <> "" -> push_token (str_rev_app s "") l = s :: l.
Proof.
  intros Hs. unfold push_token. change (str_rev_app s "") with (str_rev s).
  destruct (is_empty _) eqn:E; [apply is_empty_spec in E; by destruct (str_rev_nonempty s)|].
  by rewrite str_rev_involutive.
Qed.

(** One token and the space after it; a token at the end; a quoted token. *)
Lemma tokenize_token_space s rest l :
  token_ok s -> tokenize_loop false "" rest = Some l -> tokenize_loop false "" (s ++ " " ++ rest) = Some (s :: l).
Proof.
  intros [Hs Ht] H. rewrite tokenize_token by done.
  change (" " ++ rest) with (String " " rest). cbn [tokenize_loop].
  change (Ascii.eqb " " quote) with false. cbn [Ascii.eqb Bool.eqb orb negb andb].
  by rewrite H, push_token_rev.
Qed.

Lemma tokenize_token_end s : token_ok s -> tokenize_loop false "" s = Some [s].
Proof.
  intros [Hs Ht]. rewrite <- (app_nil_r_s s) at 1. rewrite tokenize_token by done.
  cbn [tokenize_loop]. by rewrite push_token_rev.
Qed.

Lemma tokenize_quoted_space s rest l :
  s <> "" -> str_all no_quote s = true -> tokenize_loop false "" rest = Some l ->
  tokenize_loop false "" (quoted s ++ " " ++ rest) = Some (s :: l).
Proof.
  intros Hs Hq H. unfold quoted. rewrite app_cons_s, app_assoc_s. cbn [tokenize_loop].
  rewrite Ascii.eqb_refl, tokenize_quoted by done. rewrite !app_cons_s, app_nil_s. cbn [tokenize_loop negb].
  rewrite Ascii.eqb_refl. change (Ascii.eqb " " quote) with false. cbn [Ascii.eqb Bool.eqb orb negb andb].
  by rewrite app_nil_s, H, push_token_rev.
Qed.

Lemma tokenize_quoted_end s :
  s <> "" -> str_all no_quote s = true -> tokenize_loop false "" (quoted s) = Some [s].
Proof.
  intros Hs Hq. unfold quoted. cbn [tokenize_loop].
  rewrite Ascii.eqb_refl, tokenize_quoted by done. cbn [tokenize_loop negb].
  rewrite Ascii.eqb_refl. by rewrite push_token_rev.
Qed.

Lemma join_split_tags tags :
  tags <> [] -> Forall tag_ok tags -> split_on ","%char (str_join "," tags) = tags.
Proof.
  intros Hne Hok. induction Hok as [|t tags (_ & _ & Ht) Hok IH]; [done|].
  rewrite str_all_andb in Ht. apply andb_true_iff in Ht as [_ Ht].
  destruct tags as [|t' tags]; [by apply split_on_none|].
  change (str_join "," (t :: t' :: tags)) with (t ++ String ","%char (str_join "," (t' :: tags))).
  by rewrite split_on_app, IH.
Qed.

Lemma parse_tags_join tags : tags <> [] -> Forall tag_ok tags -> parse_tags (str_join "," tags) = tags.
Proof.
  intros Hne Hok. unfold parse_tags. rewrite join_split_tags by done.
  clear Hne. induction Hok as [|t tags (Hn & Htrim & _) Hok IH]; [done|].
  cbn. rewrite Htrim. apply is_empty_false in Hn. rewrite Hn. cbn. by rewrite IH.
Qed.

Lemma visible_ws c s : visible c = true -> ws_len (String c s) = 0%nat.
Proof.
  unfold visible, in_range. rewrite !andb_true_iff. intros [[H1 H2] _]. bool_simpl.
  cbn [ws_len].
  replace ((9 <=? byte c) && (byte c <=? 13) || (byte c =? 32)) with false by lia.
  destruct s as [|c1 r1]; [done|].
  replace (byte c =? 194) with false by lia. cbn.
  destruct r1 as [|c2 r2]; [done|].
  by replace (byte c =? 225) with false by lia; replace (byte c =? 226) with false by lia;
    replace (byte c =? 227) with false by lia.
Qed.

Lemma split_ws_visible s rest cur fuel :
  str_all visible s = true -> (String.length s <= fuel)%nat ->
  split_whitespace_fuel fuel cur (s ++ rest)
  = split_whitespace_fuel (fuel - String.length s) (str_rev_app s cur) rest.
Proof.
  revert cur fuel. induction s as [|c s IH]; intros cur fuel H Hf.
  - rewrite app_nil_s. cbn. by rewrite Nat.sub_0_r.
  - cbn in Hf. destruct fuel as [|fuel]; [lia|]. rewrite app_cons_s. cbn [split_whitespace_fuel str_all] in *.
    apply andb_true_iff in H as [Hc H]. rewrite visible_ws by done. rewrite IH by (done || lia). done.
Qed.

Lemma str_rev_app_empty s : str_rev_app s "" = "" -> s = "".
Proof. intros H. destruct s; [done|]. by destruct (str_rev_nonempty (String a s)). Qed.

Lemma split_ws_join_fuel l fuel :
  Forall (fun s => s <> "" /\ str_all visible s = true) l ->
  (String.length (str_join " " l) < fuel)%nat -> split_whitespace_fuel fuel "" (str_join " " l) = l.
Proof.
  intros Hl. revert fuel. induction Hl as [|s l [Hne Hs] Hl IH]; intros fuel Hf.
  - by destruct fuel.
  - assert (Hcur : is_empty (str_rev_app s "") = false).
    { apply is_empty_false. intros E. by apply str_rev_app_empty in E. }
    assert (Hrev : str_rev (str_rev_app s "") = s) by apply str_rev_involutive.
    destruct l as [|s' l].
    + cbn [str_join] in *. rewrite <- (app_nil_r_s s) at 1. rewrite split_ws_visible by (done || lia).
      destruct (fuel - String.length s)%nat; cbn; by rewrite Hcur, Hrev.
    + change (str_join " " (s :: s' :: l)) with (s ++ String " " (str_join " " (s' :: l))) in *.
      rewrite str_length_app in Hf. cbn [String.length] in Hf.
      rewrite split_ws_visible by (done || lia).
      destruct (fuel - String.length s)%nat as [|f] eqn:E; [lia|].
      cbn [split_whitespace_fuel]. 
      change (ws_len (String " " _)) with 1%nat. cbn iota. rewrite Hcur, Hrev.
      change (str_drop 1 (String " " (str_join " " (s' :: l)))) with (str_join " " (s' :: l)).
      cbn [List.app]. f_equal. apply IH. lia.
Qed.

Definition insert_opt (opts : gmap string string) (pair : string) : gmap string string :=
  match split_once "="%char pair with Some (k, v) => <[k := v]> opts | None => opts end.

Lemma insert_opts kvs m :
  Forall opt_ok kvs -> NoDup kvs.*1 -> fold_left insert_opt (map show_opt kvs) m = list_to_map kvs ∪ m.
Proof.
  intros Hok. revert m. induction Hok as [|[k v] kvs [Hk Hv] Hok IH]; intros m Hnd.
  - cbn. by rewrite map_empty_union.
  - apply NoDup_cons in Hnd as [Hnin Hnd]. cbn [fst snd] in *.
    rewrite str_all_andb in Hk. apply andb_true_iff in Hk as [_ Hk].
    assert (E : insert_opt m (show_opt (k, v)) = <[k := v]> m).
    { unfold insert_opt. change (show_opt (k, v)) with (k ++ String "=" v). by rewrite split_once_app. }
    cbn [map fold_left]. rewrite E, IH by done. cbn [list_to_map foldr fst snd]. rewrite <- insert_union_r; [by rewrite insert_union_l|].
    by apply not_elem_of_list_to_map.
Qed.

Lemma parse_opts_join kvs :
  kvs <> [] -> Forall opt_ok kvs -> NoDup kvs.*1 -> parse_opts ∅ (str_join " " (map show_opt kvs)) = list_to_map kvs.
Proof.
  intros Hne Hok Hnd. unfold parse_opts, split_whitespace. rewrite split_ws_join_fuel; [|..|lia].
  - etransitivity; [exact (insert_opts kvs ∅ Hok Hnd)|]. apply map_union_empty.
  - apply Forall_map. eapply Forall_impl; [exact Hok|]. intros [k v] [Hk Hv]. cbn in *.
    unfold show_opt; cbn. rewrite str_all_andb in Hk. apply andb_true_iff in Hk as [Hk _].
    split; [destruct k; done|]. rewrite !str_all_app, Hk, Hv. done.
Qed.

Lemma join_head_nonempty sep s l : s <> "" -> str_join sep (s :: l) <> "".
Proof. intros Hs. destruct l, s; done. Qed.

Lemma join_all p sep l : str_all p sep = true -> Forall (fun s => str_all p s = true) l -> str_all p (str_join sep l) = true.
Proof.
  intros Hsep Hl. induction Hl as [|s l Hs Hl IH]; [done|]. destruct l as [|s' l]; [done|].
  change (str_join sep (s :: s' :: l)) with (s ++ sep ++ str_join sep (s' :: l)).
  by rewrite !str_all_app, Hs, Hsep, IH.
Qed.

Lemma tags_text_ok tags : tags <> [] -> Forall tag_ok tags ->
  str_join "," tags <> "" /\ str_all no_quote (str_join "," tags) = true.
Proof.
  intros Hne Hok. split.
  - destruct Hok as [|t tags [Ht _] _]; [done|]. by apply join_head_nonempty.
  - apply join_all; [done|]. eapply Forall_impl; [exact Hok|]. intros t (_ & _ & H).
    rewrite str_all_andb in H. by apply andb_true_iff in H as [H _].
Qed.

Lemma opts_text_ok opts : opts <> [] -> Forall opt_ok opts ->
  str_join " " (map show_opt opts) <> "" /\ str_all no_quote (str_join " " (map show_opt opts)) = true.
Proof.
  intros Hne Hok. split.
  - destruct opts as [|[k v] opts]; [done|]. apply join_head_nonempty. unfold show_opt. by destruct k.
  - apply join_all; [done|]. apply Forall_map. eapply Forall_impl; [exact Hok|]. intros [k v] [Hk Hv]. cbn in *.
    rewrite str_all_andb in Hk. apply andb_true_iff in Hk as [Hk _].
    assert (Hvis : forall c, visible c = true -> no_quote c = true) by (intros c [_ H]%andb_true_iff; done).
    unfold show_opt; cbn. rewrite !str_all_app.
    rewrite (str_all_impl _ _ _ Hvis Hk), (str_all_impl _ _ _ Hvis Hv). done.
Qed.

(** The tokens of a printed command. *)
Definition opt_tokens (tags : list string) (opts : list (string * string)) : list string :=
  ((match tags with [] => [] | _ => ["tags"; str_join "," tags] end)
   ++ (match opts with [] => [] | _ => ["opts"; str_join " " (map show_opt opts)] end))%list.

Lemma token_ok_dec s : negb (is_empty s) && str_all token_char s = true -> token_ok s.
Proof. rewrite andb_true_iff, negb_true_iff, is_empty_false. by intros []. Qed.

Lemma tokenize_opts opts :
  Forall opt_ok opts -> opts <> [] ->
  tokenize_loop false "" ("opts " ++ quoted (str_join " " (map show_opt opts)))
  = Some ["opts"; str_join " " (map show_opt opts)].
Proof.
  intros Hok Hne. destruct (opts_text_ok _ Hne Hok).
  apply (tokenize_token_space "opts"); [by apply token_ok_dec|]. by apply tokenize_quoted_end.
Qed.

Lemma tokenize_tail weight tags opts :
  token_ok weight -> Forall tag_ok tags -> Forall opt_ok opts ->
  tokenize_loop false "" (weight
     ++ (match tags with [] => "" | _ => " tags " ++ quoted (str_join "," tags) end)
     ++ (match opts with [] => "" | _ => " opts " ++ quoted (str_join " " (map show_opt opts)) end))
  = Some (weight :: opt_tokens tags opts).
Proof.
  intros Hw Ht Ho.
  assert (Htags : "tags" = "tags" -> tags <> [] -> forall rest l,
            (rest = "" /\ l = []) \/ (exists r, rest = " " ++ r /\ tokenize_loop false "" r = Some l) ->
            tokenize_loop false "" ("tags " ++ quoted (str_join "," tags) ++ rest)
            = Some ("tags" :: str_join "," tags :: l)).
  { intros _ Hne rest l H. destruct (tags_text_ok _ Hne Ht).
    apply (tokenize_token_space "tags"); [by apply token_ok_dec|].
    destruct H as [[-> ->]|(r & -> & H)].
    - rewrite app_nil_r_s. by apply tokenize_quoted_end.
    - by apply tokenize_quoted_space. }
  destruct tags as [|t tags], opts as [|o opts]; unfold opt_tokens.
  - rewrite !app_nil_r_s. by apply tokenize_token_end.
  - rewrite app_nil_s. apply (tokenize_token_space weight); [done|]. by apply tokenize_opts.
  - rewrite app_nil_r_s. apply (tokenize_token_space weight); [done|].
    rewrite <- (app_nil_r_s (quoted _)). by apply Htags; [..|left].
  - rewrite app_assoc_s. apply (tokenize_token_space weight); [done|].
    apply Htags; [done..|]. right. eexists. split; [reflexivity|]. by apply tokenize_opts.
Qed.

(** C18: a [route add] printed in the documented format parses back to
    exactly the service, source, destination, weight, tags and options it was
    printed from. *)
Theorem parse_show_add service src dst weight w tags opts :
  token_ok service -> token_ok src -> token_ok dst -> token_ok weight ->
  parse_f64 weight = Some w -> weight_ok w ->
  Forall tag_ok tags -> Forall opt_ok opts -> NoDup opts.*1 ->
  parse_line (show_add service src dst weight tags opts)
  = Some (mk_def Add service src dst w tags (list_to_map opts) Static).
Proof.
  intros Hs Hsrc Hdst Hwt Hw (Hfin & Hlo & Hhi) Ht Ho Hnd. unfold parse_line, tokenize.
  assert (E : tokenize_loop false "" (show_add service src dst weight tags opts)
              = Some ("route" :: "add" :: service :: src :: dst :: "weight" :: weight :: opt_tokens tags opts)).
  { apply (tokenize_token_space "route"); [by apply token_ok_dec|].
    apply (tokenize_token_space "add"); [by apply token_ok_dec|].
    do 3 (apply tokenize_token_space; [done|]).
    apply (tokenize_token_space "weight"); [by apply token_ok_dec|]. by apply tokenize_tail. }
  rewrite E. cbn [String.eqb Ascii.eqb Bool.eqb negb parse_route_add]. unfold opt_tokens.
  assert (Hpw : forall v, parse_weight v weight = w).
  { intros v. unfold parse_weight. by rewrite Hw, Hfin, Hlo, Hhi. }
  destruct tags as [|t tags], opts as [|o opts]; cbn [List.app route_add_options String.eqb Ascii.eqb Bool.eqb];
    rewrite Hpw, ?parse_tags_join, ?parse_opts_join by done; done.
Qed.

Lemma parse_show_add_witness :
  parse_line (show_add "svc" "host/" "http://10.0.0.1/" "0.5" ["v1"; "canary b"] [("strip", "/a"); ("k", "x=y")])
  = Some (mk_def Add "svc" "host/" "http://10.0.0.1/" f64_half ["v1"; "canary b"]
                 (list_to_map [("strip", "/a"); ("k", "x=y")]) Static).
Proof.
  apply parse_show_add;
    [by apply token_ok_dec|by apply token_ok_dec|by apply token_ok_dec|by apply token_ok_dec
    |vm_compute; reflexivity|repeat split| | |].
  - repeat constructor; vm_compute; discriminate || reflexivity.
  - repeat constructor; vm_compute; reflexivity.
  - apply (bool_decide_unpack _). vm_compute. exact I.
Defined.
