(* ===== verification/Prog.v ===== *)
(** * Prog: programs over shared atomic state

    The lock-free components (circuit breaker, token bucket, connection
    slots) are methods on [&self] whose fields are atomics. A method is a
    [prog]: a sequence of atomic accesses to the shared state, each giving
    back a value the rest of the method depends on. [run] executes a method
    alone; [pool_step] interleaves the accesses of any number of methods, one
    access at a time. A mutex-protected section whose data is touched under
    that mutex only is one access.

    Memory orderings are those of a single total order of accesses. *)
From S2P Require Import Prelude.
From Stdlib Require Export Relations.Relation_Operators.

Section prog.
Context {S : Type}.

Inductive prog (A : Type) : Type :=
  | Ret (a : A)
  | Access (B : Type) (act : S -> S * B) (k : B -> prog A).
Arguments Ret {A} a.
Arguments Access {A B} act k.

Fixpoint bind {A B} (m : prog A) (f : A -> prog B) : prog B :=
  match m with
  | Ret a => f a
  | Access act k => Access act (fun b => bind (k b) f)
  end.

Definition access {B} (act : S -> S * B) : prog B := Access act Ret.
Definition load {B} (get : S -> B) : prog B := access (fun s => (s, get s)).
Definition store (set : S -> S) : prog unit := access (fun s => (set s, tt)).

(** [m] alone, to its end. *)
Fixpoint run {A} (m : prog A) (s : S) : S * A :=
  match m with
  | Ret a => (s, a)
  | Access act k => let '(s', b) := act s in run (k b) s'
  end.

Lemma run_bind {A B} (m : prog A) (f : A -> prog B) s :
  run (bind m f) s = let '(s', a) := run m s in run (f a) s'.
Proof.
  revert s. induction m as [a|C act k IH]; intros s; cbn; [done|].
  destruct (act s) as [s' b]. apply IH.
Qed.

(** [a] is an outcome of [m] under some interleaving with other methods: any
    value may be read by any access. *)
Fixpoint leaf {A} (m : prog A) (a : A) : Prop :=
  match m with
  | Ret b => b = a
  | @Access _ B act k => exists b : B, leaf (k b) a
  end.

Lemma leaf_bind {A B} (m : prog A) (f : A -> prog B) b : leaf (bind m f) b -> exists a, leaf (f a) b.
Proof. induction m as [a|C act k IH]; cbn; [eauto|]. intros [c L]. eauto. Qed.

Lemma run_leaf {A} (m : prog A) s : leaf m (run m s).2.
Proof. revert s. induction m as [a|B act k IH]; intros s; cbn; [done|]. destruct (act s) as [s' b]. exists b. apply IH. Qed.

(** ** Interleaving *)

(** One access of one of the methods, or a step of the environment (the
    clock). *)
Inductive pool_step {A} (env : S -> S -> Prop) : S * list (prog A) -> S * list (prog A) -> Prop :=
  | pool_access B (act : S -> S * B) k s ps qs :
      pool_step env (s, ps ++ Access act k :: qs) ((act s).1, ps ++ k (act s).2 :: qs)
  | pool_env s s' ps : env s s' -> pool_step env (s, ps) (s', ps).

(** Running alone is one of the interleavings. *)
Lemma run_pool {A} (env : S -> S -> Prop) (m : prog A) s :
  clos_refl_trans_1n _ (pool_step env) (s, [m]) ((run m s).1, [Ret (run m s).2]).
Proof.
  revert s. induction m as [a|B act k IH]; intros s; [apply rt1n_refl|].
  eapply rt1n_trans; [exact (pool_access env B act k s [] [])|]. cbn. destruct (act s) as [s' b]. apply IH.
Qed.

(** Every access of [m] preserves [I], whatever the other methods do between
    two accesses as long as they preserve [I]; the values read are those of
    states that satisfy [I]; [m] returns values in [Q]. *)
Fixpoint safe {A} (I : S -> Prop) (Q : A -> Prop) (m : prog A) : Prop :=
  match m with
  | Ret a => Q a
  | Access act k => forall s, I s -> I (act s).1 /\ safe I Q (k (act s).2)
  end.

Lemma safe_bind {A B} I (Q : A -> Prop) (R : B -> Prop) m f :
  safe I Q m -> (forall a, Q a -> safe I R (f a)) -> safe I R (bind m f).
Proof.
  intros Hm Hf. induction m as [a|C act k IH]; cbn in *; [by apply Hf|].
  intros s Hs. destruct (Hm s Hs). auto.
Qed.

Lemma safe_access {B} I (Q : B -> Prop) (act : S -> S * B) :
  (forall s, I s -> I (act s).1 /\ Q (act s).2) -> safe I Q (access act).
Proof. done. Qed.

Lemma safe_load {B} I (Q : B -> Prop) (get : S -> B) : (forall s, I s -> Q (get s)) -> safe I Q (load get).
Proof. cbn. auto. Qed.

Lemma safe_store I (set : S -> S) (Q : unit -> Prop) : Q tt -> (forall s, I s -> I (set s)) -> safe I Q (store set).
Proof. cbn. auto. Qed.

Lemma safe_and {A} I (Q R : A -> Prop) m : safe I Q m -> safe I R m -> safe I (fun a => Q a /\ R a) m.
Proof.
  induction m as [a|C act k IH]; cbn; [done|]. intros Hq Hr s Hs. destruct (Hq s Hs), (Hr s Hs). auto.
Qed.

(** Without an invariant nothing can go wrong. *)
Lemma safe_any {A} (m : prog A) : safe (fun _ => True) (fun _ => True) m.
Proof. induction m as [a|B act k IH]; cbn; auto. Qed.

Lemma safe_load_bind {A B} I (get : S -> B) (f : B -> prog A) Q :
  (forall s, I s -> safe I Q (f (get s))) -> safe I Q (bind (load get) f).
Proof. cbn. auto. Qed.

(** A safe method run alone. *)
Lemma safe_run {A} I (Q : A -> Prop) m s : safe I Q m -> I s -> I (run m s).1 /\ Q (run m s).2.
Proof.
  revert s. induction m as [a|C act k IH]; cbn; intros s Hm Hs; [done|].
  destruct (Hm s Hs) as [HI Hk]. destruct (act s) as [s' b]. by apply IH.
Qed.

(** Any interleaving of safe methods preserves the invariant. *)
Lemma pool_invariant {A} I (Q : A -> Prop) env c c' :
  (forall s s', env s s' -> I s -> I s') ->
  clos_refl_trans_1n _ (pool_step env) c c' ->
  I c.1 /\ Forall (safe I Q) c.2 -> I c'.1 /\ Forall (safe I Q) c'.2.
Proof.
  intros Henv Hsteps. induction Hsteps as [|c c1 c' Hstep Hsteps IH]; [done|].
  intros [HI Hp]. apply IH. destruct Hstep as [B act k s ps qs|s s' ps Hs]; cbn in *.
  - apply Forall_app in Hp as [Hps Hq]. apply Forall_cons in Hq as [Hm Hqs].
    destruct (Hm s HI). split; [done|]. apply Forall_app; split; [done|]. by constructor.
  - split; [by eapply Henv|done].
Qed.

(** A method whose accesses change the state within [R] preserves what [R]
    preserves. *)
Fixpoint within {A} (R : S -> S -> Prop) (m : prog A) : Prop :=
  match m with
  | Ret _ => True
  | Access act k => forall s, R s (act s).1 /\ within R (k (act s).2)
  end.

Lemma within_bind {A B} R (m : prog A) (f : A -> prog B) : within R m -> (forall a, within R (f a)) -> within R (bind m f).
Proof.
  intros Hm Hf. induction m as [a|C act k IH]; cbn in *; [done|]. intros s. destruct (Hm s). auto.
Qed.

Lemma within_access {B} R (act : S -> S * B) : (forall s, R s (act s).1) -> within R (access act).
Proof. cbn. auto. Qed.

Lemma within_load {B} R (get : S -> B) : Reflexive R -> within R (load get).
Proof. cbn. auto. Qed.

Lemma within_any {A} R (m : prog A) : (forall s s', R s s') -> within R m.
Proof. intros HR. induction m as [a|B act k IH]; cbn; auto. Qed.

Lemma within_weaken {A} (R R' : S -> S -> Prop) (m : prog A) : (forall s s', R s s' -> R' s s') -> within R m -> within R' m.
Proof. intros HR. induction m as [a|B act k IH]; cbn; [done|]. intros Hm s. destruct (Hm s). auto. Qed.

(** A method run alone stays within the changes of its accesses. *)
Lemma within_run {A} R (m : prog A) s : Reflexive R -> Transitive R -> within R m -> R s (run m s).1.
Proof.
  intros Hr Ht. revert s. induction m as [a|B act k IH]; intros s; cbn; [done|]. intros Hm. destruct (Hm s) as [Hs Hk].
  destruct (act s) as [s' b]. cbn in *. etransitivity; [exact Hs|]. by apply IH.
Qed.

Lemma within_safe {A} R (I : S -> Prop) (m : prog A) :
  (forall s s', R s s' -> I s -> I s') -> within R m -> safe I (fun _ => True) m.
Proof. intros HR. induction m as [a|B act k IH]; cbn; [done|]. intros Hm s Hs. destruct (Hm s). eauto. Qed.

(** ** Moments of a run

    [traced Q V m]: when the states [m] finds at its accesses join the states
    [V] found before, [m] returns [a] with [Q V' a], [V'] being all of them.
    This is how an answer is related to the moments at which its parts were
    read. *)
Fixpoint traced {A} (Q : (S -> Prop) -> A -> Prop) (V : S -> Prop) (m : prog A) : Prop :=
  match m with
  | Ret a => Q V a
  | Access act k => forall s, traced Q (fun x => V x \/ x = s) (k (act s).2)
  end.

Lemma traced_bind {A B} (Q : (S -> Prop) -> A -> Prop) (R : (S -> Prop) -> B -> Prop) V m f :
  traced Q V m -> (forall V' a, Q V' a -> traced R V' (f a)) -> traced R V (bind m f).
Proof. revert V. induction m as [a|C act k IH]; cbn; auto. Qed.

Lemma traced_weaken {A} (Q R : (S -> Prop) -> A -> Prop) V m :
  (forall V' a, Q V' a -> R V' a) -> traced Q V m -> traced R V m.
Proof. intros HQR. revert V. induction m as [a|C act k IH]; cbn; auto. Qed.

(** What holds of the values whatever is read, with the states kept. *)
Lemma traced_safe {A} (Q : A -> Prop) (V : S -> Prop) (m : prog A) :
  safe (fun _ => True) Q m -> traced (fun V' a => (forall x, V x -> V' x) /\ Q a) V m.
Proof.
  revert V. induction m as [a|B act k IH]; cbn; [done|]. intros V Hm s. destruct (Hm s Logic.I) as [_ Hk].
  eapply traced_weaken; [|apply IH, Hk]. cbn. intros V' a [Hv Ha]. auto.
Qed.

Lemma traced_keep {A} (Q : (S -> Prop) -> A -> Prop) V (m : prog A) :
  traced Q V m -> traced (fun V' a => (forall x, V x -> V' x) /\ Q V' a) V m.
Proof.
  revert V. induction m as [a|B act k IH]; cbn; [done|]. intros V Hm s.
  eapply traced_weaken; [|apply IH, Hm]. cbn. intros V' a [Hv Ha]. auto.
Qed.

(** A state found by a [load], and what was read there. *)
Lemma traced_load {B C} (get : S -> B) (f : B -> prog C) Q (V : S -> Prop) :
  (forall s, traced Q (fun x => V x \/ x = s) (f (get s))) -> traced Q V (bind (load get) f).
Proof. done. Qed.

(** The states a run from [c] to [c'] goes through. *)
Definition visited {A} (env : S -> S -> Prop) (c c' : S * list (prog A)) (s : S) : Prop :=
  exists ps, clos_refl_trans_1n _ (pool_step env) c (s, ps) /\ clos_refl_trans_1n _ (pool_step env) (s, ps) c'.

Lemma visited_later {A} env (c c1 c' : S * list (prog A)) s : pool_step env c c1 -> visited env c1 c' s -> visited env c c' s.
Proof. intros Hs (ps & H1 & H2). exists ps. split; [by eapply rt1n_trans|done]. Qed.

(** In any interleaving the states a thread finds are states of the run. *)
Lemma pool_traced {A} env (W : S -> Prop) (Qs : list ((S -> Prop) -> A -> Prop)) c c' :
  clos_refl_trans_1n _ (pool_step env) c c' ->
  Forall2 (fun Q m => exists V, (forall x, V x -> W x) /\ traced Q V m) Qs c.2 ->
  Forall2 (fun Q m => exists V, (forall x, V x -> W x \/ visited env c c' x) /\ traced Q V m) Qs c'.2.
Proof.
  intros Hsteps. revert W. induction Hsteps as [c|c c1 c' Hstep Hsteps IH]; intros W Hall.
  { eapply Forall2_impl; [exact Hall|]. cbn. intros Q m (V & HV & Hm). exists V. auto. }
  assert (Hnow : visited env c c' c.1).
  { exists c.2. destruct c. split; [apply rt1n_refl|by eapply rt1n_trans]. }
  eapply Forall2_impl; [apply (IH (fun x => W x \/ x = c.1))|].
  - destruct Hstep as [B act k s ps qs|s s' ps Hs]; cbn in *.
    + apply Forall2_app_inv_r in Hall as (Q1 & Q2 & H1 & H2 & ->). apply Forall2_cons_inv_r in H2 as (Q & Q3 & (V & HV & Hm) & H3 & ->).
      apply Forall2_app; [|constructor; [|]].
      * eapply Forall2_impl; [exact H1|]. intros ? ? (V' & ? & ?). exists V'. auto.
      * exists (fun x => V x \/ x = s). split; [|by apply Hm]. intros x [?|?]; auto.
      * eapply Forall2_impl; [exact H3|]. intros ? ? (V' & ? & ?). exists V'. auto.
    + eapply Forall2_impl; [exact Hall|]. intros ? ? (V' & ? & ?). exists V'. auto.
  - cbn. intros Q m (V & HV & Hm). exists V. split; [|done]. intros x Hx.
    destruct (HV x Hx) as [[?| ->]|Hv]; [by left|by right|right; by eapply visited_later].
Qed.

(** ** Tokens

    Methods that own something while they run (a connection slot): each method
    holds a number of tokens, and the invariant speaks of the state and the
    total. An access may change the method's own tokens only. *)
Fixpoint safe_tok {A} (I : S -> nat -> Prop) (Q : A -> nat -> Prop) (m : prog A) (n : nat) : Prop :=
  match m with
  | Ret a => Q a n
  | Access act k =>
      forall s others, I s (others + n)%nat ->
      exists n', I (act s).1 (others + n')%nat /\ safe_tok I Q (k (act s).2) n'
  end.

Lemma safe_tok_bind {A B} I (Q : A -> nat -> Prop) (R : B -> nat -> Prop) m f n :
  safe_tok I Q m n -> (forall a n, Q a n -> safe_tok I R (f a) n) -> safe_tok I R (bind m f) n.
Proof.
  revert n. induction m as [a|C act k IH]; cbn; intros n Hm Hf; [by apply Hf|].
  intros s others Hs. destruct (Hm s others Hs) as (n' & HI & Hk). exists n'. auto.
Qed.

Lemma safe_tok_weaken {A} I (Q R : A -> nat -> Prop) m n :
  (forall a n, Q a n -> R a n) -> safe_tok I Q m n -> safe_tok I R m n.
Proof.
  intros HQR. revert n. induction m as [a|C act k IH]; cbn; intros n Hm; [auto|].
  intros s others Hs. destruct (Hm s others Hs) as (n' & ? & ?). eauto.
Qed.

(** Tokens held beside those a method uses stay held. *)
Lemma safe_tok_extra {A} I (Q : A -> nat -> Prop) m k n :
  safe_tok I Q m n -> safe_tok I (fun a n' => exists n0, n' = (k + n0)%nat /\ Q a n0) m (k + n).
Proof.
  revert n. induction m as [a|C act kk IH]; cbn; intros n Hm; [eauto|].
  intros s others Hs. replace (others + (k + n))%nat with (others + k + n)%nat in Hs by lia.
  destruct (Hm s _ Hs) as (n' & HI & Hk). exists (k + n')%nat. rewrite Nat.add_assoc. auto.
Qed.

Lemma sum_list_middle (l1 l2 : list nat) n : sum_list (l1 ++ n :: l2) = (sum_list l1 + sum_list l2 + n)%nat.
Proof. rewrite sum_list_with_app. cbn. lia. Qed.

Lemma pool_tokens {A} I (Q : A -> nat -> Prop) env c c' ns :
  (forall s s' n, env s s' -> I s n -> I s' n) ->
  clos_refl_trans_1n _ (pool_step env) c c' ->
  I c.1 (sum_list ns) -> Forall2 (safe_tok I Q) c.2 ns ->
  exists ns', I c'.1 (sum_list ns') /\ Forall2 (safe_tok I Q) c'.2 ns'.
Proof.
  intros Henv Hsteps. revert ns. induction Hsteps as [|c c1 c' Hstep Hsteps IH]; [eauto|].
  intros ns HI Hp. destruct Hstep as [B act k s ps qs|s s' ps Hs]; cbn in *.
  - apply Forall2_app_inv_l in Hp as (n1 & n2 & Hps & Hqs & ->).
    apply Forall2_cons_inv_l in Hqs as (n & n3 & Hm & Hqs' & ->). rewrite sum_list_middle in HI.
    destruct (Hm s _ HI) as (n' & HI' & Hk).
    apply (IH (n1 ++ n' :: n3)); [by rewrite sum_list_middle|].
    apply Forall2_app; [done|]. by constructor.
  - by eapply IH; [eapply Henv|].
Qed.

(** An invariant that does not speak of tokens goes along. *)
Lemma safe_tok_within {A} I (Q : A -> nat -> Prop) (R : S -> S -> Prop) (K : S -> Prop) m n :
  (forall s s', R s s' -> K s -> K s') -> within R m -> safe_tok I Q m n -> safe_tok (fun s n => I s n /\ K s) Q m n.
Proof.
  intros HR. revert n. induction m as [a|C act k IH]; cbn; intros n Hw Hm; [done|].
  intros s others [Hs HK]. destruct (Hw s) as [HRs Hk], (Hm s others Hs) as (n' & HI & Hm'). exists n'. eauto.
Qed.

(** Methods whose accesses keep [I] whatever the tokens. *)
Fixpoint frames {A} (I : S -> nat -> Prop) (m : prog A) : Prop :=
  match m with
  | Ret _ => True
  | Access act k => forall s n, I s n -> I (act s).1 n /\ frames I (k (act s).2)
  end.

Lemma frames_bind {A B} I (m : prog A) (f : A -> prog B) :
  frames I m -> (forall a, frames I (f a)) -> frames I (bind m f).
Proof.
  intros Hm Hf. induction m as [a|C act k IH]; cbn in *; [done|]. intros s n Hs. destruct (Hm s n Hs). auto.
Qed.

Lemma frames_access {B} I (act : S -> S * B) : (forall s n, I s n -> I (act s).1 n) -> frames I (access act).
Proof. cbn. auto. Qed.

Lemma frames_load {B} I (get : S -> B) : frames I (load get).
Proof. cbn. auto. Qed.

Lemma frames_safe_tok {A} I (m : prog A) n : frames I m -> safe_tok I (fun _ n' => n' = n) m n.
Proof.
  induction m as [a|C act k IH]; cbn; [done|]. intros Hm s others Hs. exists n. destruct (Hm s _ Hs). auto.
Qed.
End prog.
Arguments prog S A : clear implicits.
#[global] Arguments Ret {S A} a.
#[global] Arguments Access {S A B} act k.

Notation "'let!' x := m 'in' k" := (bind m (fun x => k))
  (at level 10, x name, m at level 100, k at level 200) : rust_scope.
Notation "m ;; k" := (bind m (fun _ => k)) (at level 100, right associativity) : rust_scope.

(** ** Parts of a larger state *)

Section zoom.
Context {S T : Type} (get : S -> T) (put : T -> S -> S).

(** A method of a part of the state, as a method of the whole. *)
Fixpoint zoom {A} (m : prog T A) : prog S A :=
  match m with
  | Ret a => Ret a
  | Access act k => Access (fun s => let '(t, b) := act (get s) in (put t s, b)) (fun b => zoom (k b))
  end.

Lemma frames_zoom {A} I (m : prog T A) : (forall t s n, I s n -> I (put t s) n) -> frames I (zoom m).
Proof.
  intros Hput. induction m as [a|B act k IH]; cbn; [done|]. intros s n Hs. destruct (act (get s)) as [t b]. cbn.
  split; [by apply Hput|apply IH].
Qed.

Lemma within_zoom {A} (R : S -> S -> Prop) (R' : T -> T -> Prop) (m : prog T A) :
  (forall s t, R' (get s) t -> R s (put t s)) -> within R' m -> within R (zoom m).
Proof.
  intros Hput. induction m as [a|B act k IH]; cbn; [done|]. intros Hm s. destruct (Hm (get s)) as [Hr Hk].
  destruct (act (get s)) as [t b]. cbn in *. auto.
Qed.

(** The states of the part are seen in states of the whole. *)
Lemma traced_zoom {A} (Q : (T -> Prop) -> A -> Prop) (V : T -> Prop) (W : S -> Prop) (m : prog T A) :
  traced Q V m -> (forall t, V t -> exists s, W s /\ get s = t) ->
  traced (fun W' a => exists V', (forall t, V' t -> exists s, W' s /\ get s = t) /\ Q V' a) W (zoom m).
Proof.
  revert V W. induction m as [a|B act k IH]; intros V W; cbn; [eauto|]. intros Hm HV s.
  specialize (Hm (get s)). destruct (act (get s)) as [t b]. cbn in *. eapply IH; [exact Hm|].
  intros x [Hx| ->]; [|by exists s; auto]. destruct (HV x Hx) as (s' & ? & ?). exists s'. auto.
Qed.

Lemma safe_tok_zoom {A} (I : S -> nat -> Prop) (J : T -> nat -> Prop) (Q : A -> nat -> Prop) (m : prog T A) n :
  (forall s n, I s n -> J (get s) n) -> (forall s n t n', I s n -> J t n' -> I (put t s) n') ->
  safe_tok J Q m n -> safe_tok I Q (zoom m) n.
Proof.
  intros Hget Hput. revert n. induction m as [a|B act k IH]; intros n; cbn; [done|].
  intros Hm s others Hs. destruct (Hm (get s) others (Hget _ _ Hs)) as (n' & HJ & Hk). exists n'.
  destruct (act (get s)) as [t b]. cbn in *. split; [by eapply Hput|by apply IH].
Qed.

Lemma run_zoom {A} (m : prog T A) s :
  (forall t s, get (put t s) = t) -> (forall t t' s, put t' (put t s) = put t' s) -> put (get s) s = s ->
  run (zoom m) s = (put (run m (get s)).1 s, (run m (get s)).2).
Proof.
  intros Hgp Hpp. revert s. induction m as [a|B act k IH]; intros s Hs; cbn; [by rewrite Hs|].
  destruct (act (get s)) as [t b]. cbn. rewrite IH by (by rewrite Hgp, Hpp). by rewrite Hgp, Hpp.
Qed.
End zoom.
