(* ===== verification/CircuitBreaker.v ===== *)
(** * CircuitBreaker: the per-target circuit breaker

    src/src/route/circuit_breaker.rs. The state byte, the window and the
    counters are shared atomics; every method is a [prog] over them (Prog.v),
    so the same definition is run alone (the refinement of the abstract
    breaker) and interleaved with others (the invariant). *)
From S2P Require Import Prelude Prog.
Local Open Scope Z_scope.
Local Open Scope rust_scope.

Inductive CircuitState := Closed | Open | HalfOpen.
#[export] Instance CircuitState_eq_dec : EqDecision CircuitState.
Proof. solve_decision. Defined.

Record CircuitTransition := mk_transition { tr_from : CircuitState; tr_to : CircuitState; tr_elapsed_ms : Z }.

Record CircuitBreakerConfig := mk_cb_config {
  cfg_error_threshold : Z;
  cfg_window_size : Z;
  cfg_recovery_timeout_secs : Z;
  cfg_half_open_max_requests : Z;
}.
Definition CircuitBreakerConfig_default : CircuitBreakerConfig := mk_cb_config 50 100 30 3.

Record CircuitBreaker := mk_cb {
  state_atomic : Z;
  recovery_timeout_secs : Z;
  error_threshold : Z;
  window_size : Z;
  half_open_max_requests : Z;
  window : list bool;
  error_count : Z;
  opened_at_ms : Z;
  half_open_in_flight : bool;
  half_open_probe_sent_at_ms : Z;
  history : list CircuitTransition;
}.

Definition STATE_MASK : Z := 3.
Definition STATE_CLOSED : Z := 0.
Definition STATE_OPEN : Z := 1.
Definition STATE_HALF_OPEN : Z := 2.

(** [with_config]; the clamps of the window size and of the probe count. *)
Definition with_config (config : CircuitBreakerConfig) : CircuitBreaker :=
  mk_cb STATE_CLOSED (cfg_recovery_timeout_secs config) (cfg_error_threshold config)
    (Z.max (cfg_window_size config) 1) (Z.min (Z.max (cfg_half_open_max_requests config) 1) 63)
    [] 0 0 false 0 [].
Definition cb_new : CircuitBreaker := with_config CircuitBreakerConfig_default.

(** The breaker, the clock it reads and the global counters it bumps. *)
Record World := mk_world { now_ms : Z; cb : CircuitBreaker; open_total : Z; reopen_total : Z; close_total : Z }.

Definition upd_cb (f : CircuitBreaker -> CircuitBreaker) (w : World) : World :=
  mk_world (now_ms w) (f (cb w)) (open_total w) (reopen_total w) (close_total w).

Definition set_state_atomic (v : Z) (c : CircuitBreaker) : CircuitBreaker :=
  mk_cb v (recovery_timeout_secs c) (error_threshold c) (window_size c) (half_open_max_requests c) (window c)
    (error_count c) (opened_at_ms c) (half_open_in_flight c) (half_open_probe_sent_at_ms c) (history c).
Definition set_window (v : list bool) (n : Z) (c : CircuitBreaker) : CircuitBreaker :=
  mk_cb (state_atomic c) (recovery_timeout_secs c) (error_threshold c) (window_size c) (half_open_max_requests c) v
    n (opened_at_ms c) (half_open_in_flight c) (half_open_probe_sent_at_ms c) (history c).
Definition set_opened_at_ms (v : Z) (c : CircuitBreaker) : CircuitBreaker :=
  mk_cb (state_atomic c) (recovery_timeout_secs c) (error_threshold c) (window_size c) (half_open_max_requests c)
    (window c) (error_count c) v (half_open_in_flight c) (half_open_probe_sent_at_ms c) (history c).
Definition set_half_open_in_flight (v : bool) (c : CircuitBreaker) : CircuitBreaker :=
  mk_cb (state_atomic c) (recovery_timeout_secs c) (error_threshold c) (window_size c) (half_open_max_requests c)
    (window c) (error_count c) (opened_at_ms c) v (half_open_probe_sent_at_ms c) (history c).
Definition set_probe_sent_at_ms (v : Z) (c : CircuitBreaker) : CircuitBreaker :=
  mk_cb (state_atomic c) (recovery_timeout_secs c) (error_threshold c) (window_size c) (half_open_max_requests c)
    (window c) (error_count c) (opened_at_ms c) (half_open_in_flight c) v (history c).
Definition set_history (v : list CircuitTransition) (c : CircuitBreaker) : CircuitBreaker :=
  mk_cb (state_atomic c) (recovery_timeout_secs c) (error_threshold c) (window_size c) (half_open_max_requests c)
    (window c) (error_count c) (opened_at_ms c) (half_open_in_flight c) (half_open_probe_sent_at_ms c) v.

Definition M (A : Type) : Type := prog World A.
Definition monotonic_elapsed_ms : M Z := load now_ms.
Definition ld {B} (get : CircuitBreaker -> B) : M B := load (fun w => get (cb w)).
Definition st (f : CircuitBreaker -> CircuitBreaker) : M unit := store (upd_cb f).

(** [state_atomic.compare_exchange(current, v)]: the error carries the actual
    value. *)
Definition cas_state (current v : Z) : M (result unit Z) :=
  access (fun w => if state_atomic (cb w) =? current then (upd_cb (set_state_atomic v) w, Ok tt)
                   else (w, Err (state_atomic (cb w)))).
(** [half_open_in_flight.compare_exchange(false, true).is_ok()] *)
Definition cas_in_flight : M bool :=
  access (fun w => if half_open_in_flight (cb w) then (w, false)
                   else (upd_cb (set_half_open_in_flight true) w, true)).

Definition inc_open_total : M unit :=
  store (fun w => mk_world (now_ms w) (cb w) (open_total w +w 1) (reopen_total w) (close_total w)).
Definition inc_reopen_total : M unit :=
  store (fun w => mk_world (now_ms w) (cb w) (open_total w) (reopen_total w +w 1) (close_total w)).
Definition inc_close_total : M unit :=
  store (fun w => mk_world (now_ms w) (cb w) (open_total w) (reopen_total w) (close_total w +w 1)).

Definition decode_state (byte : Z) : CircuitState :=
  let s := Z.land byte STATE_MASK in
  if s =? STATE_CLOSED then Closed else if s =? STATE_OPEN then Open
  else if s =? STATE_HALF_OPEN then HalfOpen else Closed.

Definition probe_count_of (byte : Z) : Z := Z.land (Z.shiftr byte 2) 63.

Definition current_state : M CircuitState := let! b := ld state_atomic in Ret (decode_state b).

Definition recovery_elapsed : M bool :=
  let! recovery_timeout := ld recovery_timeout_secs in
  let! opened_at := ld opened_at_ms in
  let! now := monotonic_elapsed_ms in
  Ret (recovery_timeout *w 1000 <=? saturating_sub now opened_at).

(** The history lock is held for the whole update. *)
Definition record_transition (from to : CircuitState) : M unit :=
  let! elapsed := monotonic_elapsed_ms in
  st (fun c =>
        let h := if 20 <=? Z.of_nat (length (history c)) then tl (history c) else history c in
        set_history (h ++ [mk_transition from to elapsed]) c).

Definition can_accept_request : M bool :=
  let! state := ld state_atomic in
  let s := Z.land state STATE_MASK in
  if s =? STATE_CLOSED then Ret true
  else if s =? STATE_OPEN then recovery_elapsed
  else if s =? STATE_HALF_OPEN then
    let! max := ld half_open_max_requests in
    if probe_count_of state <? max then let! f := ld half_open_in_flight in Ret (negb f) else Ret false
  else Ret false.

Definition try_transition_to_half_open : M bool :=
  let! current := ld state_atomic in
  let s := Z.land current STATE_MASK in
  if s =? STATE_HALF_OPEN then Ret true
  else if s =? STATE_CLOSED then Ret true
  else
    let! r := cas_state current STATE_HALF_OPEN in
    match r with
    | Ok _ => st (set_half_open_in_flight false);; record_transition Open HalfOpen;; Ret true
    | Err actual => Ret (negb (Z.land actual STATE_MASK =? STATE_OPEN))
    end.

(** The auto-reset of a stuck probe in [allow_request]. *)
Definition reset_stuck_probe : M unit :=
  let! in_flight := ld half_open_in_flight in
  if in_flight then
    let! probe_sent := ld half_open_probe_sent_at_ms in
    let! recovery_secs := ld recovery_timeout_secs in
    let reset_threshold_ms := Z.max (recovery_secs *w 1000) 100 in
    let! now := monotonic_elapsed_ms in
    let elapsed := saturating_sub now probe_sent in
    if (0 <? probe_sent) && (reset_threshold_ms <=? elapsed) then st (set_half_open_in_flight false) else Ret tt
  else Ret tt.

(** [allow_request]; [None] when the loop is still going after [fuel] turns. *)
Fixpoint allow_request (fuel : nat) : M (option bool) :=
  match fuel with
  | O => Ret None
  | S fuel' =>
      let! state := ld state_atomic in
      let s := Z.land state STATE_MASK in
      if s =? STATE_CLOSED then Ret (Some true)
      else if s =? STATE_OPEN then
        let! elapsed := recovery_elapsed in
        if negb elapsed then Ret (Some false)
        else
          let! ok := try_transition_to_half_open in
          if negb ok then Ret (Some false) else allow_request fuel'
      else if s =? STATE_HALF_OPEN then
        let! max := ld half_open_max_requests in
        if max <=? probe_count_of state then Ret (Some false)
        else
          reset_stuck_probe;;
          let! won := cas_in_flight in
          if won then
            let! now := monotonic_elapsed_ms in
            st (set_probe_sent_at_ms now);; Ret (Some true)
          else Ret (Some false)
      else Ret (Some false)
  end.

Definition abort_probe : M unit :=
  let! b := ld state_atomic in
  if Z.land b STATE_MASK =? STATE_HALF_OPEN
  then st (set_probe_sent_at_ms 0);; st (set_half_open_in_flight false)
  else Ret tt.

Definition record_open_transition (from : CircuitState) : M unit :=
  match from with
  | Open => Ret tt
  | HalfOpen => record_transition HalfOpen Open;; inc_reopen_total;; inc_open_total
  | Closed => record_transition Closed Open;; inc_open_total
  end.

(** The loop of [transition_to_open] with [left] attempts left of 64; the last
    failure forces the state. *)
Fixpoint open_loop (left : nat) : M unit :=
  match left with
  | O => Ret tt
  | S left' =>
      let! current := ld state_atomic in
      let from := decode_state current in
      let! r := cas_state current STATE_OPEN in
      match r with
      | Ok _ => record_open_transition from
      | Err actual =>
          if Z.land actual STATE_MASK =? STATE_OPEN then Ret tt
          else match left' with
               | O => st (set_state_atomic STATE_OPEN);; record_open_transition from
               | S _ => open_loop left'
               end
      end
  end.

Definition transition_to_open : M unit :=
  let! now := monotonic_elapsed_ms in
  st (set_opened_at_ms now);;
  st (set_half_open_in_flight false);;
  open_loop 64.

Definition transition_to_closed : M unit :=
  let! current := ld state_atomic in
  st (set_half_open_in_flight false);;
  let! r := cas_state current STATE_CLOSED in
  (match r with Ok _ => inc_close_total | Err _ => Ret tt end);;
  (* the window lock *)
  st (set_window [] 0).

(** The window section of [record_success] and [record_error], under the
    window lock: an outcome is pushed, the oldest one of a full window is
    dropped, the error counter follows. *)
Definition push_outcome (is_error : bool) (c : CircuitBreaker) : CircuitBreaker :=
  let n := if is_error then error_count c +w 1 else error_count c in
  let '(w, n) :=
    if window_size c <=? Z.of_nat (length (window c)) then
      match window c with
      | true :: w' => (w', n -w 1)
      | false :: w' => (w', n)
      | [] => ([], n)
      end
    else (window c, n) in
  set_window (w ++ [is_error]) n c.

Definition record_success : M unit :=
  let! state := ld state_atomic in
  let s := Z.land state STATE_MASK in
  if s =? STATE_CLOSED then st (push_outcome false)
  else if s =? STATE_HALF_OPEN then
    st (set_half_open_in_flight false);;
    let probe_count := probe_count_of state in
    let! max := ld half_open_max_requests in
    if max <=? probe_count + 1 then transition_to_closed
    else
      let next := Z.lor STATE_HALF_OPEN (Z.land (Z.shiftl (Z.land (probe_count + 1) 255) 2) 255) in
      let! _ := cas_state state next in Ret tt
  else Ret tt.

Definition min_samples (window_size : Z) : Z := Z.min (Z.max (window_size / 4) 5) window_size.

Definition error_rate_meets (errors window_len threshold : Z) : bool :=
  (0 <? window_len) && (window_len *w threshold <=? errors *w 100).

Definition record_error : M unit :=
  let! state := ld state_atomic in
  let s := Z.land state STATE_MASK in
  if s =? STATE_CLOSED then
    let! (* the window lock *) le :=
      access (fun w => let w' := upd_cb (push_outcome true) w in
                       (w', (Z.of_nat (length (window (cb w'))), error_count (cb w')))) in
    let '(window_len, errors) := le in
    let! size := ld window_size in
    let! threshold := ld error_threshold in
    if error_rate_meets errors window_len threshold && (min_samples size <=? window_len)
    then transition_to_open else Ret tt
  else if s =? STATE_HALF_OPEN then
    st (set_half_open_in_flight false);; transition_to_open
  else Ret tt.

(** ** The invariant, under any interleaving *)

Definition count_errors (l : list bool) : Z := Z.of_nat (length (List.filter (fun b => b) l)).

(** The state bytes the breaker reaches: closed, open, or half-open with a
    probe count below the maximum. *)
Definition half_open_byte (n : Z) : Z := 2 + 4 * n.
Definition byte_ok (max byte : Z) : Prop :=
  byte = STATE_CLOSED \/ byte = STATE_OPEN \/ exists n, 0 <= n < max /\ byte = half_open_byte n.

Record cb_inv (cfg : CircuitBreakerConfig) (w : World) : Prop := {
  inv_size : window_size (cb w) = Z.max (cfg_window_size cfg) 1;
  inv_max : half_open_max_requests (cb w) = Z.min (Z.max (cfg_half_open_max_requests cfg) 1) 63;
  inv_threshold : error_threshold (cb w) = cfg_error_threshold cfg;
  inv_timeout : recovery_timeout_secs (cb w) = cfg_recovery_timeout_secs cfg;
  inv_byte : byte_ok (half_open_max_requests (cb w)) (state_atomic (cb w));
  inv_window : Z.of_nat (length (window (cb w))) <= window_size (cb w);
  inv_errors : error_count (cb w) = count_errors (window (cb w));
  inv_clock : 0 <= now_ms w;
  inv_opened : 0 <= opened_at_ms (cb w);
  inv_sent : 0 <= half_open_probe_sent_at_ms (cb w);
  inv_history : (length (history (cb w)) <= 20)%nat;
  (* transition_to_closed records nothing *)
  inv_history_to : Forall (fun tr => tr_to tr <> Closed) (history (cb w));
}.

(** Configurations whose sizes fit the machine: the window is a collection in
    memory, and a percentage of its length is computed in 64 bits. *)
Definition cfg_ok (cfg : CircuitBreakerConfig) : Prop :=
  cfg_window_size cfg <= 2 ^ 56 /\ 0 <= cfg_error_threshold cfg <= 255
  /\ 0 <= cfg_recovery_timeout_secs cfg <= 2 ^ 53.

(** Time only grows. *)
Definition tick (w w' : World) : Prop :=
  exists t, now_ms w <= t /\ w' = mk_world t (cb w) (open_total w) (reopen_total w) (close_total w).

Lemma half_open_byte_decode n :
  0 <= n < 63 ->
  Z.land (half_open_byte n) STATE_MASK = STATE_HALF_OPEN /\ probe_count_of (half_open_byte n) = n
  /\ Z.lor STATE_HALF_OPEN (Z.land (Z.shiftl (Z.land n 255) 2) 255) = half_open_byte n.
Proof.
  intros H.
  assert (Hall : forallb (fun k => let n := Z.of_nat k in
     (Z.land (half_open_byte n) STATE_MASK =? STATE_HALF_OPEN) && (probe_count_of (half_open_byte n) =? n)
     && (Z.lor STATE_HALF_OPEN (Z.land (Z.shiftl (Z.land n 255) 2) 255) =? half_open_byte n)) (seq 0 63) = true)
    by reflexivity.
  rewrite forallb_forall in Hall. specialize (Hall (Z.to_nat n)). rewrite Z2Nat.id in Hall by lia.
  assert (Hin : In (Z.to_nat n) (seq 0 63)) by (apply in_seq; lia).
  specialize (Hall Hin). cbv zeta in Hall. bool_simpl. done.
Qed.

(** Takes the branch of a [match state & STATE_MASK] that [H] selects. *)
Ltac state_branch H :=
  cbv beta zeta; rewrite ?H;
  change (Z.land STATE_CLOSED STATE_MASK) with STATE_CLOSED; change (Z.land STATE_OPEN STATE_MASK) with STATE_OPEN;
  change (STATE_CLOSED =? STATE_CLOSED) with true; change (STATE_OPEN =? STATE_CLOSED) with false;
  change (STATE_OPEN =? STATE_OPEN) with true; change (STATE_OPEN =? STATE_HALF_OPEN) with false;
  change (STATE_HALF_OPEN =? STATE_CLOSED) with false; change (STATE_HALF_OPEN =? STATE_OPEN) with false;
  change (STATE_HALF_OPEN =? STATE_HALF_OPEN) with true; cbv iota.

(** The three cases of a reachable state byte. *)
Lemma byte_cases max byte (P : Prop) :
  max <= 63 -> byte_ok max byte ->
  (byte = STATE_CLOSED -> Z.land byte STATE_MASK = STATE_CLOSED -> P) ->
  (byte = STATE_OPEN -> Z.land byte STATE_MASK = STATE_OPEN -> P) ->
  (forall n, 0 <= n < max -> byte = half_open_byte n -> Z.land byte STATE_MASK = STATE_HALF_OPEN ->
             probe_count_of byte = n -> P) -> P.
Proof.
  intros Hmax [->|[->|(n & Hn & ->)]] H0 H1 H2; [by apply H0|by apply H1|].
  destruct (half_open_byte_decode n) as (? & ? & _); [lia|]. by eapply H2.
Qed.

Lemma count_errors_app l b : count_errors (l ++ [b]) = count_errors l + (if b then 1 else 0).
Proof. unfold count_errors. rewrite List.filter_app, length_app. destruct b; cbn; lia. Qed.

Lemma count_errors_bounds l : 0 <= count_errors l <= Z.of_nat (length l).
Proof. unfold count_errors. pose proof (List.filter_length_le (fun b : bool => b) l). lia. Qed.

(** The window keeps the last [size] outcomes. *)
Definition slide (size : Z) (l : list bool) (b : bool) : list bool :=
  (if size <=? Z.of_nat (length l) then tl l else l) ++ [b].

Lemma slide_length size l b :
  1 <= size -> Z.of_nat (length l) <= size -> Z.of_nat (length (slide size l b)) <= size.
Proof.
  unfold slide. intros. rewrite length_app. destruct (Z.leb_spec size (Z.of_nat (length l))); cbn; [|lia].
  destruct l; cbn in *; lia.
Qed.

Lemma push_outcome_spec c b :
  1 <= window_size c <= 2 ^ 56 -> Z.of_nat (length (window c)) <= window_size c ->
  error_count c = count_errors (window c) ->
  push_outcome b c = set_window (slide (window_size c) (window c) b) (count_errors (slide (window_size c) (window c) b)) c.
Proof.
  intros Hs Hl He. unfold push_outcome, slide. rewrite He.
  pose proof (count_errors_bounds (window c)) as Hb.
  assert (Hinc : (if b then count_errors (window c) +w 1 else count_errors (window c))
                 = count_errors (window c) + (if b then 1 else 0)).
  { destruct b; [|lia]. rewrite wrapping_add_small; [done|]. unfold is_u64. lia. }
  rewrite Hinc, count_errors_app.
  destruct (Z.leb_spec (window_size c) (Z.of_nat (length (window c)))); [|done].
  destruct (window c) as [|[] l]; [cbn in *; lia| |];
    unfold count_errors in *; cbn [List.filter length tl] in *; f_equal.
  - rewrite wrapping_sub_small; unfold is_u64; destruct b; lia.
Qed.

Section invariant.
Context (cfg : CircuitBreakerConfig) (Hcfg : cfg_ok cfg).
Abbreviation I := (cb_inv cfg).
Let max := Z.min (Z.max (cfg_half_open_max_requests cfg) 1) 63.

Lemma inv_tick w w' : tick w w' -> I w -> I w'.
Proof. intros (t & Ht & ->) []. by constructor; cbn in *; try lia. Qed.

Lemma inv_max_bounds w : I w -> 1 <= half_open_max_requests (cb w) <= 63.
Proof. intros []. lia. Qed.

Lemma inv_size_bounds w : I w -> 1 <= window_size (cb w) <= 2 ^ 56.
Proof. intros []. destruct Hcfg. lia. Qed.

Lemma inv_byte_max w : I w -> byte_ok max (state_atomic (cb w)).
Proof. intros H. pose proof (inv_byte _ _ H) as Hb. by rewrite (inv_max _ _ H) in Hb. Qed.

Lemma max_le : max <= 63.
Proof. unfold max. lia. Qed.

Lemma inv_set_state w v : byte_ok max v -> I w -> I (upd_cb (set_state_atomic v) w).
Proof. intros Hv []. constructor; cbn; try done. by rewrite inv_max0. Qed.
Lemma inv_set_in_flight w v : I w -> I (upd_cb (set_half_open_in_flight v) w).
Proof. by intros []. Qed.
Lemma inv_set_opened w v : 0 <= v -> I w -> I (upd_cb (set_opened_at_ms v) w).
Proof. by intros ? []. Qed.
Lemma inv_set_sent w v : 0 <= v -> I w -> I (upd_cb (set_probe_sent_at_ms v) w).
Proof. by intros ? []. Qed.
Lemma inv_set_window w l :
  Z.of_nat (length l) <= window_size (cb w) -> I w -> I (upd_cb (set_window l (count_errors l)) w).
Proof. by intros ? []. Qed.
Lemma inv_push w b : I w -> I (upd_cb (push_outcome b) w).
Proof.
  intros H. pose proof (inv_size_bounds w H). unfold upd_cb.
  rewrite push_outcome_spec by (done || apply H).
  apply inv_set_window; [|done]. apply slide_length; [lia|apply H].
Qed.

Lemma byte_closed : byte_ok max STATE_CLOSED. Proof. by left. Qed.
Lemma byte_open : byte_ok max STATE_OPEN. Proof. by right; left. Qed.
Lemma byte_half : byte_ok max STATE_HALF_OPEN.
Proof. right; right. exists 0. unfold max. split; [lia|done]. Qed.

Abbreviation ok m := (safe I (fun _ => True) m).

Lemma safe_ld {B} (get : CircuitBreaker -> B) (Q : B -> Prop) : (forall w, I w -> Q (get (cb w))) -> safe I Q (ld get).
Proof. apply safe_load. Qed.
Lemma ok_ld {B} (get : CircuitBreaker -> B) : ok (ld get).
Proof. by apply safe_ld. Qed.
Lemma safe_byte : safe I (byte_ok max) (ld state_atomic).
Proof. apply safe_ld, inv_byte_max. Qed.
Lemma safe_now : safe I (fun t => 0 <= t) monotonic_elapsed_ms.
Proof. apply safe_load. by intros w []. Qed.
Lemma ok_now : ok monotonic_elapsed_ms.
Proof. by apply safe_load. Qed.
Lemma ok_st f : (forall w, I w -> I (upd_cb f w)) -> ok (st f).
Proof. by apply safe_store. Qed.
Lemma ok_then {A B} (m : M A) (k : M B) : ok m -> ok k -> ok (m;; k).
Proof. intros Hm Hk. eapply safe_bind; [exact Hm|]. auto. Qed.
Lemma ok_let {A B} (m : M A) (k : A -> M B) : ok m -> (forall a, ok (k a)) -> ok (bind m k).
Proof. intros Hm Hk. eapply safe_bind; [exact Hm|]. auto. Qed.
Lemma ok_let_q {A B} (Q : A -> Prop) (m : M A) (k : A -> M B) : safe I Q m -> (forall a, Q a -> ok (k a)) -> ok (bind m k).
Proof. intros Hm Hk. by eapply safe_bind. Qed.

Lemma ok_cas_state current v : byte_ok max v -> ok (cas_state current v).
Proof.
  intros Hv. apply safe_access. intros w Hw. destruct (_ =? _); [|done].
  split; [|done]. by apply inv_set_state.
Qed.
Lemma ok_cas_in_flight : ok cas_in_flight.
Proof.
  apply safe_access. intros w Hw. destruct (half_open_in_flight _); [done|].
  split; [|done]. by apply inv_set_in_flight.
Qed.
Lemma ok_open_total : ok inc_open_total.
Proof. apply safe_store; [done|]. by intros w []. Qed.
Lemma ok_reopen_total : ok inc_reopen_total.
Proof. apply safe_store; [done|]. by intros w []. Qed.
Lemma ok_close_total : ok inc_close_total.
Proof. apply safe_store; [done|]. by intros w []. Qed.
Lemma ok_in_flight v : ok (st (set_half_open_in_flight v)).
Proof. apply ok_st. intros w. apply inv_set_in_flight. Qed.

Lemma ok_record_transition from to : to <> Closed -> ok (record_transition from to).
Proof.
  intros Hto. apply ok_let; [by apply safe_load|]. intros t. apply ok_st.
  intros w []. constructor; cbn; try done.
  - rewrite length_app. cbn. destruct (Z.leb_spec 20 (Z.of_nat (length (history (cb w))))); [|lia].
    destruct (history (cb w)); cbn in *; lia.
  - apply Forall_app; split; [|by repeat constructor].
    destruct (_ <=? _); [|done]. by destruct inv_history_to0; cbn.
Qed.
Lemma ok_record_open_history from : ok (record_transition from Open).
Proof. by apply ok_record_transition. Qed.
Lemma ok_record_half_history from : ok (record_transition from HalfOpen).
Proof. by apply ok_record_transition. Qed.

Hint Resolve ok_ld ok_cas_in_flight ok_in_flight ok_record_open_history ok_record_half_history ok_open_total ok_reopen_total
  ok_close_total ok_cas_state byte_closed byte_open byte_half safe_byte safe_now : core.

(** Steps through the accesses of a method. *)
Ltac ok_step :=
  lazymatch goal with
  | |- safe I (fun _ => True) (Ret _) => exact Logic.I
  | |- safe I (fun _ => True) (if ?b then _ else _) => destruct b
  | |- safe I (fun _ => True) (bind monotonic_elapsed_ms _) => eapply ok_let_q; [exact safe_now|intros ? ?]
  | |- safe I (fun _ => True) (bind _ _) => first [apply ok_then; [solve [auto]|] | apply ok_let; [solve [auto]|intros ?]]
  | |- safe I (fun _ => True) (match ?r with Ok _ => _ | Err _ => _ end) => destruct r
  | _ => solve [auto]
  end.
Ltac ok_steps := repeat ok_step.

Lemma ok_recovery_elapsed : ok recovery_elapsed.
Proof. unfold recovery_elapsed. ok_steps. Qed.
Hint Resolve ok_recovery_elapsed : core.

Lemma ok_can_accept : ok can_accept_request.
Proof. unfold can_accept_request. ok_steps. Qed.

Lemma ok_try_half_open : ok try_transition_to_half_open.
Proof. unfold try_transition_to_half_open. ok_steps. Qed.
Hint Resolve ok_try_half_open : core.

Lemma ok_reset_stuck : ok reset_stuck_probe.
Proof. unfold reset_stuck_probe. ok_steps. Qed.
Hint Resolve ok_reset_stuck : core.

Lemma ok_set_sent t : 0 <= t -> ok (st (set_probe_sent_at_ms t)).
Proof. intros Ht. apply ok_st. intros w. by apply inv_set_sent. Qed.

Lemma ok_allow_request fuel : ok (allow_request fuel).
Proof.
  induction fuel as [|fuel IH]; cbn [allow_request]; [done|]. ok_steps.
  apply ok_then; [by apply ok_set_sent|done].
Qed.

Lemma ok_abort_probe : ok abort_probe.
Proof. unfold abort_probe. ok_steps. apply ok_then; [by apply ok_set_sent|ok_steps]. Qed.

Lemma ok_record_open from : ok (record_open_transition from).
Proof. destruct from; cbn [record_open_transition]; ok_steps. Qed.
Hint Resolve ok_record_open : core.

Lemma ok_open_loop left : ok (open_loop left).
Proof.
  induction left as [|left IH]; cbn [open_loop]; [done|]. ok_steps.
  apply ok_then; [|auto]. apply ok_st. intros w Hw. by apply inv_set_state.
Qed.
Hint Resolve ok_open_loop : core.

Lemma ok_transition_to_open : ok transition_to_open.
Proof.
  unfold transition_to_open. ok_step.
  apply ok_then; [apply ok_st; intros w; by apply inv_set_opened|]. ok_steps.
Qed.
Hint Resolve ok_transition_to_open : core.

Lemma ok_transition_to_closed : ok transition_to_closed.
Proof.
  unfold transition_to_closed. do 3 ok_step. apply ok_then; [ok_steps|].
  apply ok_st. intros w Hw. apply (inv_set_window w []); [|done].
  pose proof (inv_size_bounds w Hw). cbn. lia.
Qed.
Hint Resolve ok_transition_to_closed : core.

Lemma ok_push b : ok (st (push_outcome b)).
Proof. apply ok_st. intros w. by apply inv_push. Qed.
Hint Resolve ok_push : core.

Lemma ok_record_success : ok record_success.
Proof.
  eapply ok_let_q; [apply safe_byte|]. intros byte Hb.
  apply (byte_cases max byte); [apply max_le|done|..].
  - intros _ Hland. state_branch Hland. auto.
  - intros _ Hland. by state_branch Hland.
  - intros n Hn -> Hland Hprobe. rewrite Hprobe. state_branch Hland. ok_step.
    eapply ok_let_q; [apply (safe_ld half_open_max_requests (fun m => m = max)); by intros w []|]. intros m ->.
    destruct (Z.leb_spec max (n + 1)); [auto|].
    apply ok_let; [|done]. apply ok_cas_state. right; right. exists (n + 1). split; [lia|].
    apply half_open_byte_decode. pose proof max_le. lia.
Qed.

Lemma ok_record_error : ok record_error.
Proof.
  unfold record_error. ok_steps. apply ok_let.
  - apply safe_access. intros w Hw. split; [by apply inv_push|done].
  - intros [len errs]. ok_steps.
Qed.
End invariant.

(** The methods other code calls, each as a program that gives back nothing. *)
Inductive cb_method := MAllow (fuel : nat) | MSuccess | MError | MAbort | MCanAccept | MState.
Definition method_prog (m : cb_method) : M unit :=
  match m with
  | MAllow fuel => allow_request fuel;; Ret tt
  | MSuccess => record_success
  | MError => record_error
  | MAbort => abort_probe
  | MCanAccept => can_accept_request;; Ret tt
  | MState => current_state;; Ret tt
  end.
(** A thread: calls in sequence. *)
Definition thread (calls : list cb_method) : M unit :=
  fold_right (fun m k => method_prog m;; k) (Ret tt) calls.

Definition fresh_world (cfg : CircuitBreakerConfig) (t : Z) : World := mk_world t (with_config cfg) 0 0 0.

Lemma cb_inv_fresh cfg t : cfg_ok cfg -> 0 <= t -> cb_inv cfg (fresh_world cfg t).
Proof. intros Hcfg Ht. constructor; cbn; try done; [by left|lia..]. Qed.

Lemma method_safe cfg m : cfg_ok cfg -> safe (cb_inv cfg) (fun _ => True) (method_prog m).
Proof.
  intros Hcfg. destruct m; cbn [method_prog];
    auto using ok_then, ok_allow_request, ok_record_success, ok_record_error, ok_abort_probe, ok_can_accept.
  - apply ok_then; [by apply ok_allow_request|done].
  - apply ok_then; [by apply ok_can_accept|done].
  - apply ok_then; [|done]. apply ok_let; [apply ok_ld|done].
Qed.

Lemma thread_safe cfg calls : cfg_ok cfg -> safe (cb_inv cfg) (fun _ => True) (thread calls).
Proof.
  intros Hcfg. induction calls as [|m calls IH]; cbn; [done|]. apply ok_then; [by apply method_safe|done].
Qed.

(** C13: whatever threads call the methods of one breaker, and however their
    atomic accesses interleave with each other and with the clock, the state
    byte is closed, open or half-open with fewer successes than the maximum,
    the window holds at most [window_size] outcomes, the error counter that
    replaces the scan of the window is exactly the number of errors in it, and
    the history holds at most 20 transitions, none of them to the closed
    state. *)
Theorem breaker_invariant_interleaved cfg t threads w ps :
  cfg_ok cfg -> 0 <= t ->
  clos_refl_trans_1n _ (pool_step tick) (fresh_world cfg t, map thread threads) (w, ps) ->
  cb_inv cfg w.
Proof.
  intros Hcfg Ht Hsteps.
  apply (pool_invariant (cb_inv cfg) (fun _ => True) tick _ _ (fun w w' => inv_tick cfg w w') Hsteps).
  split; [by apply cb_inv_fresh|]. apply Forall_map, Forall_true. intros calls. by apply thread_safe.
Qed.

Lemma breaker_invariant_interleaved_witness :
  exists w ps, window (cb w) = [false]
    /\ clos_refl_trans_1n _ (pool_step tick)
         (fresh_world CircuitBreakerConfig_default 7, map thread [[MSuccess]; [MError]]) (w, ps)
    /\ cb_inv CircuitBreakerConfig_default w.
Proof.
  assert (H : exists w ps, window (cb w) = [false]
    /\ clos_refl_trans_1n _ (pool_step tick)
         (fresh_world CircuitBreakerConfig_default 7, map thread [[MSuccess]; [MError]]) (w, ps)).
  { eexists _, _. split.
    2: { eapply rt1n_trans; [exact (pool_access tick _ _ _ _ [thread [MSuccess]] [])|].
         eapply rt1n_trans; [exact (pool_access tick _ _ _ _ [] [_])|].
         eapply rt1n_trans; [exact (pool_access tick _ _ _ _ [] [_])|]. apply rt1n_refl. }
    reflexivity. }
  destruct H as (w & ps & Hw & Hs). exists w, ps. split; [exact Hw|]. split; [exact Hs|].
  apply (breaker_invariant_interleaved CircuitBreakerConfig_default 7 [[MSuccess]; [MError]] w ps);
    [unfold cfg_ok; cbn; lia|lia|exact Hs].
Defined.

(** ** Refinement: the breaker as three states

    The abstract breaker keeps only what its contract speaks of: the last
    outcomes while closed; the opening time while open; the successful probes,
    whether a probe is out and when it was sent while half-open. *)

Inductive Breaker :=
  | BClosed (outcomes : list bool)
  | BOpen (since : Z)
  | BHalfOpen (successes : Z) (probe_out : bool) (sent : Z).

Definition abs (c : CircuitBreaker) : Breaker :=
  match decode_state (state_atomic c) with
  | Closed => BClosed (window c)
  | Open => BOpen (opened_at_ms c)
  | HalfOpen => BHalfOpen (probe_count_of (state_atomic c)) (half_open_in_flight c) (half_open_probe_sent_at_ms c)
  end.

#[global] Arguments abs : simpl never.

Lemma abs_closed c : state_atomic c = STATE_CLOSED -> abs c = BClosed (window c).
Proof. unfold abs. by intros ->. Qed.
Lemma abs_open c : state_atomic c = STATE_OPEN -> abs c = BOpen (opened_at_ms c).
Proof. unfold abs. by intros ->. Qed.
Lemma abs_half c n :
  0 <= n < 63 -> state_atomic c = half_open_byte n ->
  abs c = BHalfOpen n (half_open_in_flight c) (half_open_probe_sent_at_ms c).
Proof.
  intros Hn E. destruct (half_open_byte_decode n Hn) as (L & P & _).
  unfold abs, decode_state. rewrite E. state_branch L. by rewrite P.
Qed.

Section spec.
Context (cfg : CircuitBreakerConfig).
Definition window_cap : Z := Z.max (cfg_window_size cfg) 1.
Definition probes : Z := Z.min (Z.max (cfg_half_open_max_requests cfg) 1) 63.
Definition timeout_ms : Z := cfg_recovery_timeout_secs cfg * 1000.

(** The recovery timeout has passed since [t] (a time in the future counts as
    now). *)
Definition elapsed_since (now t : Z) : Z := Z.max (now - t) 0.

Definition probe_stuck (now sent : Z) : bool := (0 <? sent) && (Z.max timeout_ms 100 <=? elapsed_since now sent).

Definition spec_can_accept (now : Z) (b : Breaker) : bool :=
  match b with
  | BClosed _ => true
  | BOpen since => timeout_ms <=? elapsed_since now since
  | BHalfOpen _ out _ => negb out
  end.

Definition spec_allow (now : Z) (b : Breaker) : Breaker * bool :=
  match b with
  | BClosed _ => (b, true)
  | BOpen since => if timeout_ms <=? elapsed_since now since then (BHalfOpen 0 true now, true) else (b, false)
  | BHalfOpen n out sent => if out && negb (probe_stuck now sent) then (b, false) else (BHalfOpen n true now, true)
  end.

(** Percentage and sample thresholds, in unbounded arithmetic. *)
Definition trips (outcomes : list bool) : bool :=
  (cfg_error_threshold cfg * Z.of_nat (length outcomes) <=? 100 * count_errors outcomes)
  && (Z.min (Z.max (window_cap / 4) 5) window_cap <=? Z.of_nat (length outcomes)).

Definition spec_error (now : Z) (b : Breaker) : Breaker :=
  match b with
  | BClosed l => let l' := slide window_cap l true in if trips l' then BOpen now else BClosed l'
  | BOpen _ => b
  | BHalfOpen _ _ _ => BOpen now
  end.

Definition spec_success (b : Breaker) : Breaker :=
  match b with
  | BClosed l => BClosed (slide window_cap l false)
  | BOpen _ => b
  | BHalfOpen n _ sent => if probes <=? n + 1 then BClosed [] else BHalfOpen (n + 1) false sent
  end.

Definition spec_abort (b : Breaker) : Breaker :=
  match b with BHalfOpen n _ _ => BHalfOpen n false 0 | _ => b end.
End spec.

Section refinement.
Context (cfg : CircuitBreakerConfig) (Hcfg : cfg_ok cfg).
Abbreviation I := (cb_inv cfg).
Hint Unfold is_u64 : core.

Lemma probes_le n : n < probes cfg -> n < 63.
Proof. unfold probes. lia. Qed.

Lemma abs_byte w (P : Breaker -> Prop) :
  I w ->
  (state_atomic (cb w) = STATE_CLOSED -> P (BClosed (window (cb w)))) ->
  (state_atomic (cb w) = STATE_OPEN -> P (BOpen (opened_at_ms (cb w)))) ->
  (forall n, 0 <= n < 63 -> n < probes cfg -> state_atomic (cb w) = half_open_byte n ->
     Z.land (half_open_byte n) STATE_MASK = STATE_HALF_OPEN -> probe_count_of (half_open_byte n) = n ->
     P (BHalfOpen n (half_open_in_flight (cb w)) (half_open_probe_sent_at_ms (cb w)))) -> P (abs (cb w)).
Proof.
  intros H Hc Ho Hh. destruct (inv_byte_max cfg w H) as [E|[E|(n & Hn & E)]].
  - rewrite abs_closed; auto.
  - rewrite abs_open; auto.
  - assert (0 <= n < 63) by (split; [lia|apply probes_le, Hn]).
    destruct (half_open_byte_decode n) as (L & P' & _); [done|].
    rewrite (abs_half _ n); auto. apply Hh; auto. apply Hn.
Qed.

Lemma timeout_wrap w : I w -> recovery_timeout_secs (cb w) *w 1000 = timeout_ms cfg.
Proof. intros []. rewrite inv_timeout0. destruct Hcfg. apply wrapping_mul_small. unfold is_u64. lia. Qed.

Lemma run_recovery_elapsed w : I w -> run recovery_elapsed w = (w, timeout_ms cfg <=? elapsed_since (now_ms w) (opened_at_ms (cb w))).
Proof. intros H. cbn. by rewrite timeout_wrap. Qed.

(** Recording a transition changes the history and the global counters only. *)
Definition same_but_history (w w' : World) : Prop :=
  now_ms w' = now_ms w /\ exists h, cb w' = set_history h (cb w).

Lemma abs_history h c : abs (set_history h c) = abs c.
Proof. done. Qed.

Lemma run_record_transition from to w : same_but_history w (run (record_transition from to) w).1.
Proof. split; [done|]. by eexists. Qed.

Lemma run_record_open from w : same_but_history w (run (record_open_transition from) w).1.
Proof. destruct from; (split; [done|]); [by eexists|by exists (history (cb w)); destruct w as [? [] ? ? ?]|by eexists]. Qed.

Lemma run_open_loop n w :
  same_but_history (upd_cb (set_state_atomic STATE_OPEN) w) (run (open_loop (S n)) w).1.
Proof.
  cbn [open_loop]. rewrite run_bind. cbn [run ld load access].
  rewrite run_bind. cbn [run cas_state access]. rewrite Z.eqb_refl. apply run_record_open.
Qed.

Lemma run_transition_to_open w : abs (cb (run transition_to_open w).1) = BOpen (now_ms w).
Proof.
  unfold transition_to_open. rewrite run_bind. cbn [run monotonic_elapsed_ms load access].
  rewrite run_bind. cbn [run st store access]. rewrite run_bind. cbn [run st store access].
  change 64%nat with (S 63).
  destruct (run_open_loop 63 (upd_cb (set_half_open_in_flight false) (upd_cb (set_opened_at_ms (now_ms w)) w)))
    as [_ [h ->]]. by rewrite abs_history.
Qed.

Lemma run_transition_to_closed w : abs (cb (run transition_to_closed w).1) = BClosed [].
Proof. unfold transition_to_closed. cbn. by rewrite Z.eqb_refl. Qed.

Lemma refine_can_accept w :
  I w -> run can_accept_request w = (w, spec_can_accept cfg (now_ms w) (abs (cb w))).
Proof.
  intros H. unfold can_accept_request. rewrite run_bind. cbn [run ld load access].
  pattern (abs (cb w)); apply abs_byte; [done|..].
  - by intros ->.
  - intros ->. state_branch H. by apply run_recovery_elapsed.
  - intros n Hn Hp -> L P. state_branch L. rewrite run_bind. cbn [run ld load access].
    rewrite P, (inv_max _ _ H). fold (probes cfg). by destruct (Z.ltb_spec n (probes cfg)); [|lia].
Qed.

Lemma refine_abort w : I w -> abs (cb (run abort_probe w).1) = spec_abort (abs (cb w)).
Proof.
  intros H. unfold abort_probe. rewrite run_bind. cbn [run ld load access].
  pattern (abs (cb w)); apply abs_byte; [done|..].
  - intros E. rewrite E. by apply abs_closed.
  - intros E. rewrite E. by apply abs_open.
  - intros n Hn Hp E L P. rewrite E, L. cbn. by apply abs_half.
Qed.

Lemma refine_success w : I w -> abs (cb (run record_success w).1) = spec_success cfg (abs (cb w)).
Proof.
  intros H. unfold record_success. rewrite run_bind. cbn [run ld load access].
  pattern (abs (cb w)); apply abs_byte; [done|..].
  - intros E. rewrite E. state_branch H. cbn [run st store access fst].
    rewrite abs_closed; unfold upd_cb; cbn [cb].
    + rewrite push_outcome_spec by (apply H || by apply (inv_size_bounds cfg)). cbn. by rewrite (inv_size _ _ H).
    + rewrite push_outcome_spec by (apply H || by apply (inv_size_bounds cfg)). done.
  - intros E. rewrite E. state_branch H. by apply abs_open.
  - intros n Hn Hp E L P. rewrite E, P. state_branch L. rewrite run_bind. cbn [run st store access].
    rewrite run_bind. cbn [run ld load access]. unfold upd_cb at 1; cbn [cb half_open_max_requests set_half_open_in_flight].
    rewrite (inv_max _ _ H). fold (probes cfg). cbn [spec_success].
    destruct (Z.leb_spec (probes cfg) (n + 1)); [apply run_transition_to_closed|].
    cbn. rewrite E, Z.eqb_refl. cbn. apply probes_le in Hp as Hm. assert (0 <= n + 1 < 63) by (unfold probes in *; lia).
    by rewrite (abs_half _ (n + 1)); [..|apply half_open_byte_decode].
Qed.

Lemma trips_spec l :
  Z.of_nat (length l) <= window_cap cfg -> l <> [] ->
  error_rate_meets (count_errors l) (Z.of_nat (length l)) (cfg_error_threshold cfg)
    && (min_samples (window_cap cfg) <=? Z.of_nat (length l)) = trips cfg l.
Proof.
  intros Hl Hne. unfold error_rate_meets, trips, min_samples, window_cap in *.
  pose proof (count_errors_bounds l). destruct Hcfg as (? & ? & ?).
  assert (0 < Z.of_nat (length l)) by (destruct l; cbn; [done|lia]).
  rewrite !wrapping_mul_small by (unfold is_u64; nia).
  destruct (Z.ltb_spec 0 (Z.of_nat (length l))); [|lia]. cbn [andb]. f_equal. f_equal; lia.
Qed.

Lemma refine_error w : I w -> abs (cb (run record_error w).1) = spec_error cfg (now_ms w) (abs (cb w)).
Proof.
  intros H. unfold record_error. rewrite run_bind. cbn [run ld load access].
  pattern (abs (cb w)); apply abs_byte; [done|..].
  - intros E. rewrite E. state_branch H. rewrite run_bind. cbn [run access].
    unfold upd_cb. cbn [cb]. rewrite push_outcome_spec by (apply H || by apply (inv_size_bounds cfg)).
    cbn [window error_count set_window]. rewrite run_bind. cbn [run ld load access]. rewrite run_bind. cbn [run ld load access].
    cbn [cb window_size error_threshold set_window]. rewrite (inv_size _ _ H), (inv_threshold _ _ H).
    fold (window_cap cfg). set (l := slide _ _ _). rewrite trips_spec.
    + cbn [spec_error]. fold l. destruct (trips cfg l); [by rewrite run_transition_to_open|].
      cbn. by rewrite abs_closed.
    + pose proof (inv_size_bounds cfg Hcfg w H). apply slide_length; unfold window_cap; rewrite <- ?(inv_size _ _ H); [lia|apply H].
    + unfold l, slide. intros Hnil. by apply app_eq_nil in Hnil as [_ ?].
  - intros E. rewrite E. state_branch H. by apply abs_open.
  - intros n Hn Hp E L P. rewrite E. state_branch L. rewrite run_bind. cbn [run st store access].
    by rewrite run_transition_to_open.
Qed.

Lemma run_try_half_open w :
  state_atomic (cb w) = STATE_OPEN ->
  (run try_transition_to_half_open w).2 = true
  /\ same_but_history (upd_cb (fun c => set_half_open_in_flight false (set_state_atomic STATE_HALF_OPEN c)) w)
       (run try_transition_to_half_open w).1.
Proof.
  intros E. unfold try_transition_to_half_open. rewrite run_bind. cbn [run ld load access].
  rewrite E. state_branch E. rewrite run_bind. cbn [run cas_state access]. rewrite E, Z.eqb_refl.
  split; [done|]. split; [done|]. by eexists.
Qed.

(** What is left of [reset_stuck_probe] is whether the flag is set. *)
Lemma run_reset_stuck w :
  I w ->
  (run reset_stuck_probe w).1
  = upd_cb (set_half_open_in_flight (half_open_in_flight (cb w)
              && negb (probe_stuck cfg (now_ms w) (half_open_probe_sent_at_ms (cb w))))) w.
Proof.
  intros H. unfold reset_stuck_probe. rewrite run_bind. cbn [run ld load access].
  destruct (half_open_in_flight (cb w)) eqn:Ef.
  - cbn. rewrite timeout_wrap by done. unfold probe_stuck, elapsed_since, saturating_sub.
    destruct (_ && _); cbn; [done|]. destruct w as [? [] ? ? ?]. cbn in *. by rewrite Ef.
  - destruct w as [? [] ? ? ?]. cbn in *. by rewrite Ef.
Qed.

Lemma refine_allow_half fuel w n :
  I w -> 0 <= n < 63 -> n < probes cfg -> state_atomic (cb w) = half_open_byte n ->
  let '(w', r) := run (allow_request (S fuel)) w in
  abs (cb w') = (spec_allow cfg (now_ms w)
                   (BHalfOpen n (half_open_in_flight (cb w)) (half_open_probe_sent_at_ms (cb w)))).1
  /\ r = Some (spec_allow cfg (now_ms w)
                 (BHalfOpen n (half_open_in_flight (cb w)) (half_open_probe_sent_at_ms (cb w)))).2.
Proof.
  intros H Hn Hp E. destruct (half_open_byte_decode n Hn) as (L & P & _).
  cbn [allow_request]. rewrite run_bind. cbn [run ld load access]. rewrite E, P. state_branch L.
  rewrite run_bind. cbn [run ld load access]. rewrite (inv_max _ _ H). fold (probes cfg).
  destruct (Z.leb_spec (probes cfg) n); [lia|].
  rewrite run_bind. destruct (run reset_stuck_probe w) as [w1 u] eqn:R.
  apply (f_equal fst) in R. rewrite run_reset_stuck in R by done. cbn [fst] in R. subst w1.
  rewrite run_bind. cbn [spec_allow]. 
  destruct (half_open_in_flight (cb w) && negb (probe_stuck cfg (now_ms w) (half_open_probe_sent_at_ms (cb w)))) eqn:G.
  - cbn. split; [|done]. rewrite (abs_half _ n) by done. cbn. by apply andb_true_iff in G as [-> _].
  - cbn. split; [|done]. by rewrite (abs_half _ n).
Qed.

Lemma refine_allow fuel w :
  I w ->
  let '(w', r) := run (allow_request (S (S fuel))) w in
  abs (cb w') = (spec_allow cfg (now_ms w) (abs (cb w))).1 /\ r = Some (spec_allow cfg (now_ms w) (abs (cb w))).2.
Proof.
  intros H. pattern (abs (cb w)); apply abs_byte; [done|..].
  - intros E. cbn [allow_request]. rewrite run_bind. cbn [run ld load access]. rewrite E. state_branch H.
    split; [by apply abs_closed|done].
  - intros E. remember (S fuel) as fuel1 eqn:Hf. cbn [allow_request]. rewrite run_bind. cbn [run ld load access]. rewrite E.
    state_branch H. rewrite run_bind, run_recovery_elapsed by done. cbn [spec_allow].
    destruct (timeout_ms cfg <=? _) eqn:El; cbn [negb]; [|split; [by apply abs_open|done]].
    rewrite run_bind. pose proof (run_try_half_open w E) as [Hr [Ht [h Hc]]].
    pose proof (safe_run (cb_inv cfg) _ _ w (ok_try_half_open cfg) H) as [H' _].
    destruct (run try_transition_to_half_open w) as [w1 r1]. cbn [fst snd] in *. subst r1. cbn [negb]. subst fuel1.
    assert (E1 : state_atomic (cb w1) = half_open_byte 0) by (by rewrite Hc).
    assert (F1 : half_open_in_flight (cb w1) = false) by (by rewrite Hc).
    pose proof (refine_allow_half fuel w1 0 H' ltac:(lia) ltac:(unfold probes; lia) E1) as Hh.
    destruct (run (allow_request (S fuel)) w1) as [w2 r2]. rewrite F1 in Hh.
    cbn [spec_allow andb fst snd] in Hh. by rewrite Ht in Hh.
  - intros n Hn Hp E L P. by apply refine_allow_half.
Qed.
End refinement.

(** ** Sequences of calls *)

Inductive cb_call := CAllow | CCan | CSuccess | CError | CAbort.

(** A call and its answer; [allow_request] needs two turns of its loop at most
    when it runs alone. *)
Definition call_prog (c : cb_call) : M (option bool) :=
  match c with
  | CAllow => allow_request 2
  | CCan => let! b := can_accept_request in Ret (Some b)
  | CSuccess => record_success;; Ret None
  | CError => record_error;; Ret None
  | CAbort => abort_probe;; Ret None
  end.

Definition at_time (t : Z) (w : World) : World := mk_world t (cb w) (open_total w) (reopen_total w) (close_total w).

(** Calls at given clock readings, one after the other. *)
Fixpoint cb_exec (calls : list (Z * cb_call)) (w : World) : World * list (option bool) :=
  match calls with
  | [] => (w, [])
  | (t, c) :: calls' =>
      let '(w1, a) := run (call_prog c) (at_time t w) in
      let '(w2, l) := cb_exec calls' w1 in (w2, a :: l)
  end.

Definition spec_call (cfg : CircuitBreakerConfig) (now : Z) (c : cb_call) (b : Breaker) : Breaker * option bool :=
  match c with
  | CAllow => let '(b', r) := spec_allow cfg now b in (b', Some r)
  | CCan => (b, Some (spec_can_accept cfg now b))
  | CSuccess => (spec_success cfg b, None)
  | CError => (spec_error cfg now b, None)
  | CAbort => (spec_abort b, None)
  end.

Fixpoint spec_exec (cfg : CircuitBreakerConfig) (calls : list (Z * cb_call)) (b : Breaker) : Breaker * list (option bool) :=
  match calls with
  | [] => (b, [])
  | (t, c) :: calls' =>
      let '(b1, a) := spec_call cfg t c b in
      let '(b2, l) := spec_exec cfg calls' b1 in (b2, a :: l)
  end.

Lemma inv_at_time cfg t w : 0 <= t -> cb_inv cfg w -> cb_inv cfg (at_time t w).
Proof. intros Ht []. by constructor. Qed.

Lemma call_safe cfg c : cfg_ok cfg -> safe (cb_inv cfg) (fun _ => True) (call_prog c).
Proof.
  intros Hcfg. destruct c; cbn [call_prog].
  - by apply ok_allow_request.
  - apply ok_let; [by apply ok_can_accept|done].
  - apply ok_then; [by apply ok_record_success|done].
  - apply ok_then; [by apply ok_record_error|done].
  - apply ok_then; [by apply ok_abort_probe|done].
Qed.

Lemma run_call cfg c t w :
  cfg_ok cfg -> 0 <= t -> cb_inv cfg w ->
  let '(w', a) := run (call_prog c) (at_time t w) in
  cb_inv cfg w' /\ spec_call cfg t c (abs (cb w)) = (abs (cb w'), a).
Proof.
  intros Hcfg Ht H. apply (inv_at_time cfg t w Ht) in H.
  pose proof (safe_run _ _ _ _ (call_safe cfg c Hcfg) H) as [HI _].
  change (abs (cb w)) with (abs (cb (at_time t w))). change t with (now_ms (at_time t w)) at 2.
  destruct c; cbn [call_prog spec_call] in *.
  - pose proof (refine_allow cfg Hcfg 0 _ H) as R. destruct (run (allow_request 2) (at_time t w)) as [w' a].
    destruct R as [-> ->]. split; [done|]. by destruct (spec_allow _ _ _).
  - rewrite run_bind, (refine_can_accept cfg Hcfg) in * by done. done.
  - rewrite run_bind in *. rewrite <- (refine_success cfg Hcfg) by done. by destruct (run record_success _).
  - rewrite run_bind in *. rewrite <- (refine_error cfg Hcfg) by done. by destruct (run record_error _).
  - rewrite run_bind in *. rewrite <- (refine_abort cfg) by done. by destruct (run abort_probe _).
Qed.

Lemma exec_refines cfg calls w :
  cfg_ok cfg -> Forall (fun c => 0 <= c.1) calls -> cb_inv cfg w ->
  let '(w', l) := cb_exec calls w in cb_inv cfg w' /\ spec_exec cfg calls (abs (cb w)) = (abs (cb w'), l).
Proof.
  intros Hcfg Hc. revert w. induction Hc as [|[t c] calls Ht Hc IH]; intros w H; [done|].
  cbn [cb_exec spec_exec]. pose proof (run_call cfg c t w Hcfg Ht H) as Hrun.
  destruct (run (call_prog c) (at_time t w)) as [w1 a]. destruct Hrun as [H1 E]. rewrite E.
  specialize (IH w1 H1). destruct (cb_exec calls w1) as [w2 l]. destruct IH as [H2 E2]. by rewrite E2.
Qed.

(** C12: run one call after the other, the atomic byte-and-counters breaker is
    the three-state breaker: for every sequence of calls at any times, the
    answers and the abstract state agree with the specification — the window
    of the last [window_size] outcomes, opening exactly when the percentage of
    errors in it and the number of samples reach their thresholds, rejection
    until the recovery timeout, one probe at a time, closing after the
    configured number of successful probes, reopening on a failed one. The
    answer of [allow_request] is never the out-of-fuel one. *)
Theorem breaker_refines_spec cfg t calls :
  cfg_ok cfg -> 0 <= t -> Forall (fun c => 0 <= c.1) calls ->
  let '(w, answers) := cb_exec calls (fresh_world cfg t) in
  spec_exec cfg calls (BClosed []) = (abs (cb w), answers).
Proof.
  intros Hcfg Ht Hc. pose proof (exec_refines cfg calls _ Hcfg Hc (cb_inv_fresh cfg t Hcfg Ht)) as H.
  destruct (cb_exec calls (fresh_world cfg t)) as [w l]. apply H.
Qed.

Lemma breaker_refines_spec_witness :
  let cfg := mk_cb_config 50 4 1 2 in
  let calls := [(0, CSuccess); (1, CError); (2, CError); (3, CError); (500, CAllow); (1003, CAllow); (1004, CAllow);
                (1005, CSuccess); (1006, CAllow); (1007, CSuccess); (1008, CAllow)] in
  (cb_exec calls (fresh_world cfg 0)).2
    = [None; None; None; None; Some false; Some true; Some false; None; Some true; None; Some true]
  /\ let '(w, answers) := cb_exec calls (fresh_world cfg 0) in spec_exec cfg calls (BClosed []) = (abs (cb w), answers).
Proof.
  split; [vm_compute; reflexivity|].
  apply (breaker_refines_spec (mk_cb_config 50 4 1 2) 0); [unfold cfg_ok; cbn; lia|lia|repeat constructor; cbn; lia].
Defined.

(** ** Recovery *)

Definition probe_round (now : Z) : list (Z * cb_call) := [(now, CAllow); (now, CSuccess)].

Lemma spec_exec_app cfg l1 l2 b :
  spec_exec cfg (l1 ++ l2) b =
  let '(b1, a1) := spec_exec cfg l1 b in let '(b2, a2) := spec_exec cfg l2 b1 in (b2, a1 ++ a2).
Proof.
  revert b. induction l1 as [|[t c] l1 IH]; intros b; cbn [app spec_exec].
  - by destruct (spec_exec cfg l2 b).
  - destruct (spec_call cfg t c b) as [b1 a1]. rewrite IH. destruct (spec_exec cfg l1 b1) as [b2 a2].
    by destruct (spec_exec cfg l2 b2).
Qed.

Lemma spec_rounds cfg now k n s :
  0 <= n -> n + Z.of_nat k = probes cfg -> (0 < k)%nat ->
  spec_exec cfg (concat (repeat (probe_round now) k)) (BHalfOpen n false s)
  = (BClosed [], concat (repeat [Some true; None] k)).
Proof.
  revert n s. induction k as [|k IH]; intros n s Hn Hk H0; [lia|].
  cbn [repeat concat]. rewrite spec_exec_app. cbn [probe_round spec_exec spec_call spec_allow andb].
  cbn [spec_success]. destruct (Z.leb_spec (probes cfg) (n + 1)).
  - assert (k = 0)%nat as -> by lia. done.
  - rewrite IH by lia. done.
Qed.

(** C14: an open breaker always comes back. Until the recovery timeout has
    passed since it opened, every request is refused and nothing changes;
    from then on, with a healthy upstream, exactly
    [half_open_max_requests] admitted-and-successful probes close it again
    with an empty window and a zero error count. *)
Theorem open_breaker_recovers cfg w since now early :
  cfg_ok cfg -> cb_inv cfg w -> abs (cb w) = BOpen since ->
  since + timeout_ms cfg <= now -> since <= early < since + timeout_ms cfg ->
  (let '(w', a) := run (allow_request 2) (at_time early w) in a = Some false /\ abs (cb w') = BOpen since)
  /\ let '(w', answers) := cb_exec (concat (repeat (probe_round now) (Z.to_nat (probes cfg)))) w in
     answers = concat (repeat [Some true; None] (Z.to_nat (probes cfg)))
     /\ abs (cb w') = BClosed [] /\ window (cb w') = [] /\ error_count (cb w') = 0.
Proof.
  intros Hcfg H Ha Hnow Hearly. 
  assert (Hs : 0 <= since) by (unfold abs in Ha; destruct (decode_state _); simplify_eq; apply (inv_opened _ _ H)).
  assert (Ht : 0 <= timeout_ms cfg) by (unfold timeout_ms; destruct Hcfg; lia).
  split.
  - pose proof (run_call cfg CAllow early w Hcfg ltac:(lia) H) as R. cbn [call_prog] in R.
    destruct (run (allow_request 2) (at_time early w)) as [w' a]. destruct R as [_ R].
    rewrite Ha in R. cbn [spec_call spec_allow] in R. unfold elapsed_since in R.
    destruct (Z.leb_spec (timeout_ms cfg) (Z.max (early - since) 0)).
    + lia.
    + by simplify_eq.
  - set (calls := concat (repeat (probe_round now) (Z.to_nat (probes cfg)))).
    assert (Hc : Forall (fun c : Z * cb_call => 0 <= c.1) calls).
    { apply Forall_concat, Forall_forall. intros l Hl. apply list_elem_of_In, repeat_spec in Hl as ->.
      repeat constructor; cbn; lia. }
    pose proof (exec_refines cfg calls w Hcfg Hc H) as R. destruct (cb_exec calls w) as [w' l]. destruct R as [H' R].
    assert (Hp : 1 <= probes cfg) by (unfold probes; lia).
    rewrite Ha in R.
    assert (E : spec_exec cfg calls (BOpen since) = (BClosed [], concat (repeat [Some true; None] (Z.to_nat (probes cfg))))).
    { unfold calls. rewrite <- (spec_rounds cfg now (Z.to_nat (probes cfg)) 0 now) by lia.
      destruct (Z.to_nat (probes cfg)) as [|k] eqn:Ek; [lia|]. cbn [repeat concat probe_round app spec_exec spec_call spec_allow].
      unfold elapsed_since. destruct (Z.leb_spec (timeout_ms cfg) (Z.max (now - since) 0)); [done|lia]. }
    rewrite E in R. injection R as Hb Hl. split; [done|]. split; [done|].
    unfold abs in Hb. destruct (decode_state _); try discriminate. injection Hb as Hb.
    by rewrite (inv_errors _ _ H'), <- Hb.
Qed.

Lemma open_breaker_recovers_witness :
  let cfg := mk_cb_config 50 4 1 2 in
  let w := (cb_exec [(0, CSuccess); (1, CError); (2, CError); (3, CError)] (fresh_world cfg 0)).1 in
  abs (cb w) = BOpen 3
  /\ ((let '(w', a) := run (allow_request 2) (at_time 500 w) in a = Some false /\ abs (cb w') = BOpen 3)
      /\ let '(w', answers) := cb_exec (concat (repeat (probe_round 1003) (Z.to_nat (probes cfg)))) w in
         answers = concat (repeat [Some true; None] (Z.to_nat (probes cfg)))
         /\ abs (cb w') = BClosed [] /\ window (cb w') = [] /\ error_count (cb w') = 0).
Proof.
  split; [vm_compute; reflexivity|].
  apply (open_breaker_recovers (mk_cb_config 50 4 1 2) _ 3 1003 500).
  - unfold cfg_ok; cbn; lia.
  - constructor; vm_compute; first [reflexivity|discriminate|by right; left|lia|intuition discriminate|repeat constructor; discriminate].
  - vm_compute. reflexivity.
  - unfold timeout_ms; cbn; lia.
  - unfold timeout_ms; cbn; lia.
Defined.
