(* ===== verification/RateLimit.v ===== *)
(** * RateLimit: the token bucket

    src/src/proxy/ratelimit.rs. [rate] and [burst] are atomics read before the
    lock; the refill and the consumption are one section under the mutex. *)
From S2P Require Import Prelude Prog.
Local Open Scope Z_scope.
Local Open Scope rust_scope.

Definition SCALE : Z := 1000000.
Definition UNCONFIGURED : Z := 0.

Record TokenBucket := mk_bucket {
  tokens : Z;
  last_refill_ns : Z;
  rate : Z;
  burst : Z;
}.

Definition bucket_new : TokenBucket := mk_bucket 0 0 UNCONFIGURED 0.

(** [configure] at clock reading [now_ns] *)
Definition configure (now_ns r b : Z) (self : TokenBucket) : TokenBucket :=
  if r =? 0 then mk_bucket (tokens self) (last_refill_ns self) UNCONFIGURED 0
  else
    let scaled_rate := r *w SCALE in
    let scaled_burst := Z.max b 1 *w SCALE in
    mk_bucket (if tokens self =? 0 then scaled_burst else tokens self)
      (if last_refill_ns self =? 0 then now_ns else last_refill_ns self) scaled_rate scaled_burst.

Definition with_params (now_ns r b : Z) : TokenBucket := configure now_ns r b bucket_new.

(** The critical section of [try_acquire]; [as u64] keeps the low 64 bits of
    the 128-bit quotient. *)
Definition refill (now_ns r b : Z) (self : TokenBucket) : TokenBucket :=
  let elapsed_ns := saturating_sub now_ns (last_refill_ns self) in
  if 0 <? elapsed_ns then
    let added := wrap64 (r * elapsed_ns / 1000000000) in
    let t := saturating_add (tokens self) added in
    mk_bucket (if b <? t then b else t) now_ns (rate self) (burst self)
  else self.

Definition consume (self : TokenBucket) : TokenBucket * bool :=
  if tokens self <? SCALE then (self, false)
  else (mk_bucket (saturating_sub (tokens self) SCALE) (last_refill_ns self) (rate self) (burst self), true).

Definition refill_consume (now_ns r b : Z) (self : TokenBucket) : TokenBucket * bool :=
  consume (refill now_ns r b self).

(** The clock, the bucket and, as a history variable, how many requests its
    critical section has admitted. *)
Record BucketWorld := mk_bworld { now_ns : Z; bucket : TokenBucket; admitted : Z }.

Definition try_acquire : prog BucketWorld bool :=
  let! r := load (fun w => rate (bucket w)) in
  if r =? UNCONFIGURED then Ret true
  else
    let! b := load (fun w => burst (bucket w)) in
    access (fun w => let '(bk, ok) := refill_consume (now_ns w) r b (bucket w) in
                     (mk_bworld (now_ns w) bk (if ok then admitted w + 1 else admitted w), ok)).

Definition is_configured (self : TokenBucket) : bool := negb (rate self =? UNCONFIGURED).

Definition configured_rate_burst (self : TokenBucket) : Z * Z :=
  if rate self =? UNCONFIGURED then (0, 0) else (rate self / SCALE, burst self / SCALE).

Definition available_tokens (self : TokenBucket) : Z :=
  if rate self =? UNCONFIGURED then u64_max else tokens self / SCALE.

(** One call at a clock reading, on its own. *)
Definition try_acquire_at (now : Z) (self : TokenBucket) : TokenBucket * bool :=
  let '(w, ok) := run try_acquire (mk_bworld now self 0) in (bucket w, ok).

Lemma try_acquire_at_eq now self :
  try_acquire_at now self
  = if rate self =? UNCONFIGURED then (self, true) else refill_consume now (rate self) (burst self) self.
Proof.
  unfold try_acquire_at, try_acquire. cbn. destruct (_ =? _); [done|]. cbn.
  by destruct (refill_consume _ _ _ _).
Qed.

(** ** Rates that fit 64 bits *)

Definition params_ok (r b : Z) : Prop := 0 < r /\ 0 <= b /\ r * SCALE < 2 ^ 64 /\ Z.max b 1 * SCALE < 2 ^ 64.

Lemma configure_rate_burst now r b self :
  params_ok r b -> rate (configure now r b self) = r * SCALE /\ burst (configure now r b self) = Z.max b 1 * SCALE.
Proof.
  intros (Hr & Hb & Hrs & Hbs). unfold configure. destruct (Z.eqb_spec r 0); [lia|]. cbn. unfold SCALE in *.
  rewrite !wrapping_mul_small by (unfold is_u64; lia). done.
Qed.

(** What [configured_rate_burst] reports is what was configured, with a
    burst of at least one (so it never reports a configured burst of zero). *)
Theorem configured_rate_burst_configure now r b self :
  params_ok r b -> configured_rate_burst (configure now r b self) = (r, Z.max b 1).
Proof.
  intros H. destruct (configure_rate_burst now r b self H) as [Hr Hb]. destruct H as (? & ? & ? & ?).
  unfold configured_rate_burst. rewrite Hr, Hb. unfold SCALE, UNCONFIGURED in *.
  destruct (Z.eqb_spec (r * 1000000) 0); [lia|]. by rewrite !Z.div_mul by lia.
Qed.

Lemma configured_rate_burst_configure_witness :
  configured_rate_burst (configure 5 10 0 bucket_new) = (10, Z.max 0 1).
Proof. apply configured_rate_burst_configure. unfold params_ok, SCALE. lia. Defined.

(** ** The rate bound *)

Record bucket_ok (b : TokenBucket) : Prop := {
  ok_tokens : is_u64 (tokens b);
  ok_last : 0 <= last_refill_ns b;
  ok_rate : is_u64 (rate b);
  ok_burst : is_u64 (burst b);
}.

(** Tokens never appear from nowhere: in units of 1/(SCALE * 10^9) of a
    request, what is in the bucket grows by at most the rate times the time. *)
Lemma refill_bound now b :
  bucket_ok b -> 
  let b' := refill now (rate b) (burst b) b in
  bucket_ok b' /\ rate b' = rate b /\ burst b' = burst b /\ tokens b' <= Z.max (tokens b) (burst b)
  /\ last_refill_ns b <= last_refill_ns b' /\ last_refill_ns b' <= Z.max now (last_refill_ns b)
  /\ 1000000000 * tokens b' <= 1000000000 * tokens b + rate b * (last_refill_ns b' - last_refill_ns b).
Proof.
  intros [Ht Hl Hr Hb]. unfold refill. cbv zeta. unfold is_u64 in *.
  destruct (Z.ltb_spec 0 (saturating_sub now (last_refill_ns b))) as [He|He].
  2: { split; [by constructor|]. lia. }
  unfold saturating_sub in *. rewrite Z.max_l by lia.
  set (e := now - last_refill_ns b) in *. set (q := rate b * e / 1000000000).
  assert (Hq : 0 <= q) by (apply Z.div_pos; nia).
  assert (Hq' : 1000000000 * q <= rate b * e) by (apply Z.mul_div_le; lia).
  assert (Hw : 0 <= wrap64 q <= q).
  { split; [apply wrap64_range|]. apply Z.mod_le; lia. }
  unfold saturating_add, u64_max.
  set (t := Z.min (tokens b + wrap64 q) (2 ^ 64 - 1)).
  assert (Htt : 0 <= t <= tokens b + q /\ t < 2 ^ 64) by lia.
  destruct (Z.ltb_spec (burst b) t); cbn; (split; [constructor; cbn; unfold is_u64; lia|]); lia.
Qed.

Lemma consume_bound b :
  bucket_ok b ->
  let '(b', ok) := consume b in
  bucket_ok b' /\ rate b' = rate b /\ burst b' = burst b /\ last_refill_ns b' = last_refill_ns b
  /\ tokens b' + (if ok then SCALE else 0) = tokens b.
Proof.
  intros [Ht Hl Hr Hb]. unfold consume, SCALE, is_u64 in *.
  destruct (Z.ltb_spec (tokens b) 1000000); [repeat split; cbn; unfold is_u64; lia|].
  unfold saturating_sub. cbn. repeat split; cbn; unfold is_u64; lia.
Qed.

(** The potential of a world against a start with [tok0] tokens at [t0]. *)
Record rate_inv (r b tok0 t0 : Z) (w : BucketWorld) : Prop := {
  ri_ok : bucket_ok (bucket w);
  ri_rate : rate (bucket w) = r;
  ri_burst : burst (bucket w) = b;
  ri_last : t0 <= last_refill_ns (bucket w) <= Z.max t0 (now_ns w);
  ri_admitted : 0 <= admitted w;
  ri_bound : 1000000000 * (tokens (bucket w) + SCALE * admitted w)
             <= 1000000000 * tok0 + r * (last_refill_ns (bucket w) - t0);
}.

Definition bucket_tick (w w' : BucketWorld) : Prop := exists t, now_ns w <= t /\ w' = mk_bworld t (bucket w) (admitted w).

Lemma rate_inv_step r b tok0 t0 w :
  rate_inv r b tok0 t0 w ->
  let '(bk, ok) := refill_consume (now_ns w) r b (bucket w) in
  rate_inv r b tok0 t0 (mk_bworld (now_ns w) bk (if ok then admitted w + 1 else admitted w)).
Proof.
  intros [Hok Hr Hb Hl Ha Hbound]. unfold refill_consume.
  pose proof (refill_bound (now_ns w) _ Hok) as Hf. cbv zeta in Hf. rewrite Hr, Hb in Hf.
  destruct Hf as (Hok1 & Hr1 & Hb1 & Ht1 & Hl1 & Hn1 & Hp1).
  pose proof (consume_bound _ Hok1) as Hc. destruct (consume _) as [bk ok]. destruct Hc as (Hok2 & Hr2 & Hb2 & Hl2 & Ht2).
  constructor; cbn; [done|congruence|congruence|lia|destruct ok; lia|]. unfold SCALE in *. destruct ok; lia.
Qed.

(** C22: whatever number of requests contend for a configured bucket, and
    however their accesses interleave with each other and with the clock, the
    number admitted since [t0] is at most the tokens the bucket held (at most
    the burst) plus the rate times the elapsed time. *)
Theorem rate_never_exceeded r b t0 bk n w ps :
  params_ok r b -> bucket_ok bk -> rate bk = r * SCALE -> burst bk = Z.max b 1 * SCALE -> tokens bk <= burst bk ->
  last_refill_ns bk = t0 ->
  clos_refl_trans_1n _ (pool_step bucket_tick) (mk_bworld t0 bk 0, repeat try_acquire n) (w, ps) ->
  1000000000 * admitted w <= 1000000000 * Z.max b 1 + r * (now_ns w - t0).
Proof.
  intros Hp Hok Hr Hb Ht Hl Hsteps. destruct Hp as (Hr0 & Hb0 & _ & _).
  set (I := fun w => rate_inv (r * SCALE) (Z.max b 1 * SCALE) (tokens bk) t0 w /\ t0 <= now_ns w).
  assert (HI : I w).
  { apply (pool_invariant I (fun _ => True) bucket_tick _ _) in Hsteps; [apply Hsteps| |].
    - intros s s' (t & Hle & ->) [[] ?]. split; [constructor; cbn; try done; lia|cbn; lia].
    - split; [split; [constructor; cbn; try done; lia|cbn; lia]|].
      apply Forall_forall. intros p Hin. apply list_elem_of_In, repeat_spec in Hin as ->.
      eapply safe_bind; [apply (safe_load _ (fun v => v = r * SCALE)); by intros s [[] _]|]. intros v ->.
      destruct (_ =? _); [done|].
      eapply safe_bind; [apply (safe_load _ (fun v => v = Z.max b 1 * SCALE)); by intros s [[] _]|]. intros v ->.
      apply safe_access. intros s [Hs Hn]. pose proof (rate_inv_step _ _ _ _ _ Hs) as H.
      destruct (refill_consume _ _ _ _). by split. }
  destruct HI as [[[] _ _ Hlast Ha Hbound] Hnow]. unfold SCALE, is_u64 in *.
  assert (r * (last_refill_ns (bucket w) - t0) <= r * (now_ns w - t0)) by (apply Z.mul_le_mono_nonneg_l; lia).
  lia.
Qed.

Lemma rate_never_exceeded_witness :
  let bk := with_params 1 10 1 in
  exists w ps,
    admitted w = 1
    /\ clos_refl_trans_1n _ (pool_step bucket_tick) (mk_bworld 1 bk 0, repeat try_acquire 2) (w, ps)
    /\ 1000000000 * admitted w <= 1000000000 * Z.max 1 1 + 10 * (now_ns w - 1).
Proof.
  set (bk := with_params 1 10 1).
  assert (H : exists w ps, admitted w = 1
    /\ clos_refl_trans_1n _ (pool_step bucket_tick) (mk_bworld 1 bk 0, repeat try_acquire 2) (w, ps)).
  { eexists _, _. split.
    2: { eapply rt1n_trans; [exact (pool_access bucket_tick _ _ _ _ [] [_])|].
         eapply rt1n_trans; [exact (pool_access bucket_tick _ _ _ _ [_] [])|].
         eapply rt1n_trans; [exact (pool_access bucket_tick _ _ _ _ [_] [])|].
         eapply rt1n_trans; [exact (pool_access bucket_tick _ _ _ _ [_] [])|].
         eapply rt1n_trans; [exact (pool_access bucket_tick _ _ _ _ [] [_])|].
         eapply rt1n_trans; [exact (pool_access bucket_tick _ _ _ _ [] [_])|]. apply rt1n_refl. }
    vm_compute. reflexivity. }
  destruct H as (w & ps & Ha & Hs). exists w, ps. split; [exact Ha|]. split; [exact Hs|].
  apply (rate_never_exceeded 10 1 1 bk 2 w ps); [| |reflexivity|reflexivity|vm_compute; discriminate|reflexivity|exact Hs].
  - unfold params_ok, SCALE. lia.
  - constructor; unfold is_u64; vm_compute; intuition discriminate.
Defined.

(** the limiter does not starve: once the bucket has rested for the time
    one token takes ([10^9 / rate] nanoseconds), the next request is admitted,
    whatever happened before. *)
Theorem rested_bucket_admits r b now bk :
  params_ok r b -> bucket_ok bk -> rate bk = r * SCALE -> burst bk = Z.max b 1 * SCALE ->
  1000000000 <= r * (now - last_refill_ns bk) < 2 ^ 64 * 1000 ->
  (try_acquire_at now bk).2 = true.
Proof.
  intros (Hr0 & Hb0 & Hr1 & Hb1) [Ht Hl Hr Hb] Hrate Hburst Hrest.
  rewrite try_acquire_at_eq. rewrite Hrate at 1. unfold UNCONFIGURED, SCALE in *.
  destruct (Z.eqb_spec (r * 1000000) 0); [lia|].
  unfold refill_consume, refill, is_u64 in *. cbv zeta.
  assert (Hpos : 0 < now - last_refill_ns bk) by nia.
  set (e := now - last_refill_ns bk) in *.
  assert (He : saturating_sub now (last_refill_ns bk) = e) by (unfold saturating_sub, e; lia).
  rewrite He. destruct (Z.ltb_spec 0 e); [|lia].
  assert (Hq : 1000000 <= rate bk * e / 1000000000).
  { rewrite Hrate. apply Z.div_le_lower_bound; lia. }
  assert (Hw : wrap64 (rate bk * e / 1000000000) = rate bk * e / 1000000000).
  { apply wrap64_small. split; [lia|]. apply Z.div_lt_upper_bound; [lia|]. rewrite Hrate. lia. }
  rewrite Hw. unfold saturating_add, u64_max. set (q := rate bk * e / 1000000000) in *.
  set (t := Z.min (tokens bk + q) (2 ^ 64 - 1)). assert (1000000 <= t) by lia.
  unfold consume. cbn [tokens]. unfold SCALE.
  set (t' := if burst bk <? t then burst bk else t).
  assert (1000000 <= t') by (unfold t'; destruct (burst bk <? t); lia).
  by destruct (Z.ltb_spec t' 1000000); [lia|].
Qed.

Lemma rested_bucket_admits_witness :
  let bk := (try_acquire_at 1 (with_params 1 10 1)).1 in
  (try_acquire_at 2 bk).2 = false /\ (try_acquire_at 100000001 bk).2 = true.
Proof.
  split; [vm_compute; reflexivity|].
  apply (rested_bucket_admits 10 1); [unfold params_ok, SCALE; lia| |reflexivity|reflexivity|vm_compute; intuition discriminate].
  constructor; unfold is_u64; vm_compute; intuition discriminate.
Defined.
