(* ===== verification/DnsCache.v ===== *)
(** * DnsCache: the resolver cache

    src/src/route/dns_cache.rs: entries with an expiry, negative entries, the
    capacity bound and its eviction. The concurrent map is a [gmap]; one call
    is one step (the calls are short and the map locks per key). *)
From stdpp Require Import sorting.
From S2P Require Import Prelude Net.
Local Open Scope Z_scope.
Local Open Scope rust_scope.

Record DnsCacheEntry := mk_entry { addrs : list SocketAddr; expires_at_ms : Z; negative : bool }.

Inductive LookupOutcome := Positive (addrs : list SocketAddr) | Negative | Miss.

Record DnsCache := mk_cache {
  inner : gmap string DnsCacheEntry;
  default_ttl_secs : Z;
  negative_ttl_secs : Z;
  hits : Z;
  misses : Z;
  negatives : Z;
  (* the global counters bumped alongside *)
  prom_hits : Z;
  prom_misses : Z;
  prom_negatives : Z;
}.

Definition DNS_CACHE_MAX_ENTRIES : nat := Z.to_nat 10000.
#[global] Opaque DNS_CACHE_MAX_ENTRIES.

Definition with_ttl (default_ttl negative_ttl : Z) : DnsCache := mk_cache ∅ default_ttl negative_ttl 0 0 0 0 0 0.
Definition cache_new : DnsCache := with_ttl 30 10.

Definition set_inner (m : gmap string DnsCacheEntry) (c : DnsCache) : DnsCache :=
  mk_cache m (default_ttl_secs c) (negative_ttl_secs c) (hits c) (misses c) (negatives c)
    (prom_hits c) (prom_misses c) (prom_negatives c).
Definition bump_hits (c : DnsCache) : DnsCache :=
  mk_cache (inner c) (default_ttl_secs c) (negative_ttl_secs c) (hits c +w 1) (misses c) (negatives c)
    (prom_hits c +w 1) (prom_misses c) (prom_negatives c).
Definition bump_misses (c : DnsCache) : DnsCache :=
  mk_cache (inner c) (default_ttl_secs c) (negative_ttl_secs c) (hits c) (misses c +w 1) (negatives c)
    (prom_hits c) (prom_misses c +w 1) (prom_negatives c).
Definition bump_negatives (c : DnsCache) : DnsCache :=
  mk_cache (inner c) (default_ttl_secs c) (negative_ttl_secs c) (hits c) (misses c) (negatives c +w 1)
    (prom_hits c) (prom_misses c) (prom_negatives c +w 1).

Definition dns_clear (c : DnsCache) : DnsCache := set_inner ∅ c.
Definition dns_remove (host : string) (c : DnsCache) : DnsCache := set_inner (delete host (inner c)) c.

Definition set_ttl (default_secs negative_secs : Z) (c : DnsCache) : DnsCache :=
  let c' := mk_cache (inner c) default_secs negative_secs (hits c) (misses c) (negatives c)
              (prom_hits c) (prom_misses c) (prom_negatives c) in
  if negb (default_ttl_secs c =? default_secs) || negb (negative_ttl_secs c =? negative_secs) then dns_clear c' else c'.

(** [lookup_status] at clock reading [now_ms] *)
Definition lookup_status (now_ms : Z) (host : string) (c : DnsCache) : DnsCache * LookupOutcome :=
  match inner c !! host with
  | None => (bump_misses c, Miss)
  | Some entry =>
      if expires_at_ms entry <=? now_ms then (bump_misses (dns_remove host c), Miss)
      else if negative entry then (bump_negatives c, Negative)
      else (bump_hits c, Positive (addrs entry))
  end.

Definition dns_lookup (now_ms : Z) (host : string) (c : DnsCache) : DnsCache * option (list SocketAddr) :=
  let '(c', o) := lookup_status now_ms host c in
  (c', match o with Positive a => Some a | Negative | Miss => None end).

Record DnsCacheStats := mk_stats { stat_entries : Z; stat_hits : Z; stat_misses : Z; stat_negatives : Z }.
Definition dns_stats (c : DnsCache) : DnsCacheStats :=
  mk_stats (Z.of_nat (size (inner c))) (hits c) (misses c) (negatives c).

(** [select_nth_unstable_by_key]: some permutation of the entries whose first
    [n] have the smallest expiries. *)
Class SelectNth := {
  select_nth : nat -> list (string * Z) -> list (string * Z);
  select_nth_perm n l : select_nth n l ≡ₚ l;
  select_nth_le n l x y : (n < length l)%nat -> x ∈ take n (select_nth n l) -> y ∈ drop n (select_nth n l) -> x.2 <= y.2;
}.

Section cache.
Context `{SelectNth}.

Definition remove_all (keys : list string) (m : gmap string DnsCacheEntry) : gmap string DnsCacheEntry :=
  fold_left (fun m k => delete k m) keys m.

Definition evict_if_over_capacity (now_ms : Z) (c : DnsCache) : DnsCache :=
  if (size (inner c) <=? DNS_CACHE_MAX_ENTRIES)%nat then c
  else
    let expired_keys := (List.filter (fun e => expires_at_ms e.2 <=? now_ms) (map_to_list (inner c))).*1 in
    let c1 := set_inner (remove_all expired_keys (inner c)) c in
    if (size (inner c1) <=? DNS_CACHE_MAX_ENTRIES)%nat then c1
    else
      let entries := map (fun e => (e.1, expires_at_ms e.2)) (map_to_list (inner c1)) in
      let to_remove := (size (inner c1) - DNS_CACHE_MAX_ENTRIES)%nat in
      let entries := if (to_remove <? length entries)%nat then select_nth to_remove entries else entries in
      set_inner (remove_all (take to_remove entries).*1 (inner c1)) c1.

Definition dns_store (now_ms : Z) (host : string) (a : list SocketAddr) (c : DnsCache) : DnsCache :=
  let ttl_secs := default_ttl_secs c in
  if ttl_secs =? 0 then c
  else
    let entry := mk_entry a (now_ms +w (ttl_secs *w 1000)) false in
    evict_if_over_capacity now_ms (set_inner (<[host := entry]> (inner c)) c).

Definition store_negative (now_ms : Z) (host : string) (c : DnsCache) : DnsCache :=
  let ttl_secs := negative_ttl_secs c in
  if ttl_secs =? 0 then c
  else
    let entry := mk_entry [] (now_ms +w (ttl_secs *w 1000)) true in
    evict_if_over_capacity now_ms (set_inner (<[host := entry]> (inner c)) c).

(** ** Operation sequences against a map without capacity and expiry *)

Inductive cache_op :=
  | OLookup (host : string)
  | OStore (host : string) (a : list SocketAddr)
  | OStoreNegative (host : string)
  | ORemove (host : string)
  | OClear
  | OSetTtl (d n : Z).

Definition apply_op (now : Z) (op : cache_op) (c : DnsCache) : DnsCache :=
  match op with
  | OLookup host => (lookup_status now host c).1
  | OStore host a => dns_store now host a c
  | OStoreNegative host => store_negative now host c
  | ORemove host => dns_remove host c
  | OClear => dns_clear c
  | OSetTtl d n => set_ttl d n c
  end.

Lemma evict_keeps_ttl now c :
  default_ttl_secs (evict_if_over_capacity now c) = default_ttl_secs c /\ negative_ttl_secs (evict_if_over_capacity now c) = negative_ttl_secs c.
Proof. unfold evict_if_over_capacity. by repeat (case_match || cbn). Qed.

(** Only [set_ttl] changes the TTLs. *)
Lemma dns_ops_keep_ttl now op c :
  (forall d n, op <> OSetTtl d n) ->
  default_ttl_secs (apply_op now op c) = default_ttl_secs c /\ negative_ttl_secs (apply_op now op c) = negative_ttl_secs c.
Proof.
  intros Hop. destruct op as [host|host a|host|host| |d n]; cbn [apply_op].
  - unfold lookup_status. by repeat case_match.
  - unfold dns_store. cbv zeta. case_match; [done|].
    match goal with |- context [ evict_if_over_capacity ?n ?c ] => by destruct (evict_keeps_ttl n c) as [-> ->] end.
  - unfold store_negative. cbv zeta. case_match; [done|].
    match goal with |- context [ evict_if_over_capacity ?n ?c ] => by destruct (evict_keeps_ttl n c) as [-> ->] end.
  - done.
  - done.
  - by destruct (Hop d n).
Qed.

(** The same operations on what was last written under each name. *)
Definition spec_op (now : Z) (op : cache_op) (c : DnsCache) (written : gmap string DnsCacheEntry) : gmap string DnsCacheEntry :=
  match op with
  | OLookup _ => written
  | OStore host a =>
      if default_ttl_secs c =? 0 then written
      else <[host := mk_entry a (now +w (default_ttl_secs c *w 1000)) false]> written
  | OStoreNegative host =>
      if negative_ttl_secs c =? 0 then written
      else <[host := mk_entry [] (now +w (negative_ttl_secs c *w 1000)) true]> written
  | ORemove host => delete host written
  | OClear => ∅
  | OSetTtl d n => if negb (default_ttl_secs c =? d) || negb (negative_ttl_secs c =? n) then ∅ else written
  end.

Fixpoint run_ops (ops : list (Z * cache_op)) (c : DnsCache) (written : gmap string DnsCacheEntry)
  : DnsCache * gmap string DnsCacheEntry :=
  match ops with
  | [] => (c, written)
  | (now, op) :: ops' => run_ops ops' (apply_op now op c) (spec_op now op c written)
  end.

Lemma remove_all_subseteq ks m : remove_all ks m ⊆ m.
Proof.
  revert m. induction ks as [|k ks IH]; intros m; cbn; [done|].
  etransitivity; [apply IH|apply delete_subseteq].
Qed.

Lemma lookup_remove_all ks m k : remove_all ks m !! k = if decide (k ∈ ks) then None else m !! k.
Proof.
  revert m. induction ks as [|k' ks IH]; intros m; [done|]. cbn. rewrite IH.
  destruct (decide (k ∈ ks)), (decide (k ∈ k' :: ks)) as [Hin|Hin]; try done; rewrite ?elem_of_cons in *.
  - naive_solver.
  - destruct Hin as [->|]; [|done]. by rewrite lookup_delete_eq.
  - rewrite lookup_delete_ne; [done|]. naive_solver.
Qed.

Lemma remove_all_size ks m :
  NoDup ks -> (forall k, k ∈ ks -> is_Some (m !! k)) -> size (remove_all ks m) = (size m - length ks)%nat.
Proof.
  intros Hnd. revert m. induction Hnd as [|k ks Hk Hnd IH]; intros m Hin; cbn; [lia|].
  rewrite IH.
  - rewrite map_size_delete_Some by (apply Hin; by left). lia.
  - intros k' Hk'. rewrite lookup_delete_ne by naive_solver. apply Hin. by right.
Qed.

Lemma evict_subseteq now c : inner (evict_if_over_capacity now c) ⊆ inner c.
Proof.
  unfold evict_if_over_capacity. destruct (_ <=? _)%nat; [done|]. cbv zeta. cbn [inner set_inner].
  destruct (_ <=? _)%nat; cbn; [apply remove_all_subseteq|].
  etransitivity; apply remove_all_subseteq.
Qed.

(** The keys of the final batch are distinct keys of the map. *)
Lemma batch_keys (m : gmap string DnsCacheEntry) n l :
  l ≡ₚ map (fun e => (e.1, expires_at_ms e.2)) (map_to_list m) ->
  NoDup (take n l).*1 /\ forall k, k ∈ (take n l).*1 -> is_Some (m !! k).
Proof.
  intros Hp.
  assert (Hk : l.*1 ≡ₚ (map_to_list m).*1).
  { rewrite Hp. change (map ?f ?l) with (f <$> l). by rewrite <- list_fmap_compose. }
  assert (Hnd : NoDup l.*1) by (rewrite Hk; apply NoDup_fst_map_to_list).
  rewrite fmap_take. split.
  - rewrite <- (take_drop n l.*1) in Hnd. by apply NoDup_app in Hnd as [? _].
  - intros k Hin. apply elem_of_take in Hin as (i & Hi & _). apply list_elem_of_lookup_2 in Hi.
    rewrite Hk in Hi. apply list_elem_of_fmap in Hi as ([k' e] & -> & Hin).
    apply elem_of_map_to_list in Hin. by eexists.
Qed.

Lemma evict_size now c : (size (inner (evict_if_over_capacity now c)) <= DNS_CACHE_MAX_ENTRIES)%nat.
Proof.
  unfold evict_if_over_capacity. destruct (Nat.leb_spec (size (inner c)) DNS_CACHE_MAX_ENTRIES); [done|].
  cbv zeta. cbn [inner set_inner]. set (m1 := remove_all _ (inner c)).
  destruct (Nat.leb_spec (size m1) DNS_CACHE_MAX_ENTRIES); [done|]. cbn [inner set_inner].
  set (n := (size m1 - DNS_CACHE_MAX_ENTRIES)%nat).
  set (l0 := map _ (map_to_list m1)). set (l := if (_ <? _)%nat then _ else l0).
  assert (Hl : l ≡ₚ l0) by (unfold l; destruct (_ <? _)%nat; [apply select_nth_perm|done]).
  destruct (batch_keys m1 n l Hl) as [Hnd Hin]. rewrite remove_all_size by done.
  assert (Hlen : length l = size m1).
  { rewrite Hl. unfold l0. by rewrite length_map, length_map_to_list. }
  rewrite length_fmap, length_take, Hlen. unfold n. lia.
Qed.

(** Nothing that is still valid is lost below the capacity. *)
Lemma evict_keeps now c k e :
  (size (inner c) <= DNS_CACHE_MAX_ENTRIES)%nat -> inner c !! k = Some e -> inner (evict_if_over_capacity now c) !! k = Some e.
Proof. intros Hs. unfold evict_if_over_capacity. by destruct (Nat.leb_spec (size (inner c)) DNS_CACHE_MAX_ENTRIES); [|lia]. Qed.

Record cache_rel (c : DnsCache) (written : gmap string DnsCacheEntry) : Prop := {
  rel_size : (size (inner c) <= DNS_CACHE_MAX_ENTRIES)%nat;
  rel_sound : inner c ⊆ written;
}.

Lemma apply_op_rel now op c written :
  cache_rel c written -> cache_rel (apply_op now op c) (spec_op now op c written).
Proof.
  intros [Hs Hsub]. destruct op as [host|host a|host|host| |d n]; cbn [apply_op spec_op].
  - unfold lookup_status. destruct (inner c !! host) as [e|]; [|done].
    destruct (_ <=? _); [|by destruct (negative e)]. cbn. split; cbn.
    + etransitivity; [|exact Hs]. apply map_subseteq_size, delete_subseteq.
    + etransitivity; [apply delete_subseteq|done].
  - unfold dns_store. destruct (_ =? 0); [done|]. split; [apply evict_size|].
    etransitivity; [apply evict_subseteq|]. by apply insert_mono.
  - unfold store_negative. destruct (_ =? 0); [done|]. split; [apply evict_size|].
    etransitivity; [apply evict_subseteq|]. by apply insert_mono.
  - split; cbn; [|by apply delete_mono].
    etransitivity; [|exact Hs]. apply map_subseteq_size, delete_subseteq.
  - split; cbn; [rewrite map_size_empty; lia|done].
  - unfold set_ttl. destruct (_ || _); [|done]. split; cbn; [rewrite map_size_empty; lia|done].
Qed.

(** Times that never go back. *)
Fixpoint monotone (t : Z) (ops : list (Z * cache_op)) : Prop :=
  match ops with [] => True | (now, _) :: ops' => t <= now /\ monotone now ops' end.

(** The names written never exceed the capacity. *)
Fixpoint within_capacity (ops : list (Z * cache_op)) (c : DnsCache) (written : gmap string DnsCacheEntry) : Prop :=
  (size written <= DNS_CACHE_MAX_ENTRIES)%nat
  /\ match ops with [] => True | (now, op) :: ops' => within_capacity ops' (apply_op now op c) (spec_op now op c written) end.

Definition complete (now : Z) (c : DnsCache) (written : gmap string DnsCacheEntry) : Prop :=
  forall k e, written !! k = Some e -> now < expires_at_ms e -> inner c !! k = Some e.

Lemma within_capacity_size ops c written :
  within_capacity ops c written -> (size written <= DNS_CACHE_MAX_ENTRIES)%nat.
Proof. destruct ops as [|[] ?]; by intros [? ?]. Qed.

Lemma complete_mono now now' c written : now <= now' -> complete now c written -> complete now' c written.
Proof. intros Hle Hc k e Hk Hlt. apply Hc; [done|lia]. Qed.

Lemma store_complete now c written k0 e0 :
  inner c ⊆ written -> (size (<[k0 := e0]> written) <= DNS_CACHE_MAX_ENTRIES)%nat -> complete now c written ->
  complete now (evict_if_over_capacity now (set_inner (<[k0 := e0]> (inner c)) c)) (<[k0 := e0]> written).
Proof.
  intros Hsub Hsize Hc k e Hk Hlt. apply evict_keeps.
  - cbn. etransitivity; [|exact Hsize]. by apply map_subseteq_size, insert_mono.
  - cbn. destruct (decide (k = k0)) as [->|Hne].
    + by rewrite lookup_insert_eq in *.
    + rewrite lookup_insert_ne in * by done. by apply Hc.
Qed.

Lemma apply_op_complete now op c written :
  inner c ⊆ written -> (size (spec_op now op c written) <= DNS_CACHE_MAX_ENTRIES)%nat ->
  complete now c written -> complete now (apply_op now op c) (spec_op now op c written).
Proof.
  intros Hsub Hsize Hc. destruct op as [host|host a|host|host| |d n]; cbn [apply_op spec_op] in *.
  - unfold lookup_status. destruct (inner c !! host) as [e|] eqn:E; [|done].
    destruct (Z.leb_spec (expires_at_ms e) now); [|by destruct (negative e)].
    intros k e' Hk Hlt. cbn. rewrite lookup_delete_ne; [by apply Hc|]. intros ->.
    pose proof (lookup_weaken _ _ _ _ E Hsub). simplify_eq. lia.
  - unfold dns_store. destruct (_ =? 0); [done|]. by apply store_complete.
  - unfold store_negative. destruct (_ =? 0); [done|]. by apply store_complete.
  - intros k e Hk Hlt. cbn. apply lookup_delete_Some in Hk as [Hne Hk].
    rewrite lookup_delete_ne by done. by apply Hc.
  - by intros k e Hk.
  - unfold set_ttl. destruct (_ || _); [by intros k e Hk|done].
Qed.

Lemma run_ops_rel ops c written c' written' :
  cache_rel c written -> run_ops ops c written = (c', written') -> cache_rel c' written'.
Proof.
  revert c written. induction ops as [|[t op] ops IH]; intros c written Hrel Hrun; cbn in Hrun; [by simplify_eq|].
  eapply IH; [|exact Hrun]. by apply apply_op_rel.
Qed.

Lemma last_cons_default {A} (a : A) l d : List.last l a = List.last (a :: l) d.
Proof.
  revert a d. induction l as [|b l IH]; intros a d; [done|].
  change (List.last (a :: b :: l) d) with (List.last (b :: l) d). by rewrite <- !IH.
Qed.

Lemma run_ops_complete t ops c written c' written' :
  monotone t ops -> within_capacity ops c written -> cache_rel c written -> complete t c written ->
  run_ops ops c written = (c', written') -> exists t', t' = List.last (map fst ops) t /\ complete t' c' written'.
Proof.
  revert t c written. induction ops as [|[now op] ops IH]; intros t c written Hm Hw Hrel Hc Hrun.
  - cbn in *. simplify_eq. eauto.
  - cbn in Hrun, Hm. destruct Hm as [Hle Hm]. destruct Hw as [_ Hw].
    edestruct (IH now _ _ Hm Hw) as (t' & -> & Hc'); [exact (apply_op_rel now op c written Hrel)| |exact Hrun|].
    + apply apply_op_complete; [apply Hrel|by eapply within_capacity_size|by eapply complete_mono].
    + eexists. split; [|exact Hc']. apply (last_cons_default now).
Qed.

(** C23: the cache never answers with something that was not written or is no
    longer valid. After any operations at any times, at most 10000 entries are
    held, and what a lookup returns — addresses or a cached NXDOMAIN — is the
    last thing written under that name since it was removed or the cache was
    cleared, read before its expiry (the store time plus the TTL in force). *)
Theorem cache_never_stale ops d n c written now host :
  run_ops ops (with_ttl d n) ∅ = (c, written) ->
  (size (inner c) <= DNS_CACHE_MAX_ENTRIES)%nat
  /\ match (lookup_status now host c).2 with
     | Positive a => exists e, written !! host = Some e /\ addrs e = a /\ negative e = false /\ now < expires_at_ms e
     | Negative => exists e, written !! host = Some e /\ negative e = true /\ now < expires_at_ms e
     | Miss => True
     end.
Proof.
  intros Hrun. apply run_ops_rel in Hrun as [Hs Hsub]; [|split; [cbn; rewrite map_size_empty; lia|done]].
  split; [done|]. unfold lookup_status. destruct (inner c !! host) as [e|] eqn:E; [|done].
  destruct (Z.leb_spec (expires_at_ms e) now); [done|].
  pose proof (lookup_weaken _ _ _ _ E Hsub). destruct (negative e) eqn:En; cbn; eauto 10.
Qed.

(** and it does cache: as long as the names written stay within the
    capacity and the clock does not go back, every entry written and not yet
    expired is still found. *)
Theorem cache_keeps_valid ops d n c written now host e :
  run_ops ops (with_ttl d n) ∅ = (c, written) -> monotone 0 ops -> within_capacity ops (with_ttl d n) ∅ ->
  List.last (map fst ops) 0 <= now -> written !! host = Some e -> now < expires_at_ms e ->
  (lookup_status now host c).2 = if negative e then Negative else Positive (addrs e).
Proof.
  intros Hrun Hm Hw Hle He Hlt.
  destruct (run_ops_complete 0 ops _ ∅ c written Hm Hw) as (t' & -> & Hc); [|by intros k ?|done|].
  - split; [cbn; rewrite map_size_empty; lia|done].
  - unfold lookup_status. rewrite (Hc host e He) by lia.
    destruct (Z.leb_spec (expires_at_ms e) now); [lia|]. by destruct (negative e).
Qed.

Lemma batch_entry (m : gmap string DnsCacheEntry) k x :
  (k, x) ∈ map (fun e => (e.1, expires_at_ms e.2)) (map_to_list m)
  <-> exists e, m !! k = Some e /\ x = expires_at_ms e.
Proof.
  rewrite list_elem_of_In, in_map_iff. split.
  - intros ([k2 e2] & [= -> <-] & Hin2). rewrite <- list_elem_of_In, elem_of_map_to_list in Hin2. eauto.
  - intros (e2 & Hm & ->). exists (k, e2). split; [done|]. by rewrite <- list_elem_of_In, elem_of_map_to_list.
Qed.

(** over capacity, nothing is evicted before something that expires
    earlier: an entry that was dropped while another was kept had already
    expired or expires no later than the one kept. *)
Theorem eviction_drops_soonest now c k e k' e' :
  inner c !! k = Some e -> inner (evict_if_over_capacity now c) !! k = None ->
  inner (evict_if_over_capacity now c) !! k' = Some e' ->
  expires_at_ms e <= now \/ expires_at_ms e <= expires_at_ms e'.
Proof.
  intros Hk Hgone Hkept. unfold evict_if_over_capacity in *.
  destruct (Nat.leb_spec (size (inner c)) DNS_CACHE_MAX_ENTRIES); [congruence|].
  cbv zeta in *. cbn [inner set_inner] in *. set (m1 := remove_all _ (inner c)) in *.
  assert (Hexp : m1 !! k = None -> expires_at_ms e <= now).
  { unfold m1. rewrite lookup_remove_all. destruct (decide _) as [Hin|]; [|congruence]. intros _.
    apply list_elem_of_fmap in Hin as ([k1 e1] & -> & Hin). rewrite list_elem_of_In, filter_In, <- list_elem_of_In in Hin.
    destruct Hin as [Hin Hle%Z.leb_le]. apply elem_of_map_to_list in Hin. cbn in *. by simplify_eq. }
  destruct (Nat.leb_spec (size m1) DNS_CACHE_MAX_ENTRIES); [by left; apply Hexp|]. cbn [inner set_inner] in *.
  destruct (m1 !! k) as [e1|] eqn:E1; [|by left; apply Hexp]. right.
  assert (e1 = e) as -> by (pose proof (lookup_weaken _ _ _ _ E1 (remove_all_subseteq _ _)); congruence).
  set (n := (size m1 - DNS_CACHE_MAX_ENTRIES)%nat) in *.
  set (l0 := map _ (map_to_list m1)) in *. set (l := if (_ <? _)%nat then _ else l0) in *.
  assert (Hl : l ≡ₚ l0) by (unfold l; destruct (_ <? _)%nat; [apply select_nth_perm|done]).
  rewrite lookup_remove_all in Hgone, Hkept.
  destruct (decide (k ∈ (take n l).*1)) as [Hin|]; [|congruence].
  destruct (decide (k' ∈ (take n l).*1)) as [|Hin']; [done|].
  apply list_elem_of_fmap in Hin as ([k1 x] & -> & Hin). cbn [fst snd] in *.
  assert (x = expires_at_ms e) as ->.
  { assert (Hin0 : (k1, x) ∈ l0) by (rewrite <- Hl, <- (take_drop n l), elem_of_app; by left).
    apply batch_entry in Hin0 as (e2 & He2 & ->). congruence. }
  assert (Hd : (k', expires_at_ms e') ∈ drop n l).
  { assert (Hin0 : (k', expires_at_ms e') ∈ take n l ++ drop n l) by (rewrite take_drop, Hl; apply batch_entry; eauto).
    apply elem_of_app in Hin0 as [Hin0|]; [|done]. destruct Hin'. apply list_elem_of_fmap. by exists (k', expires_at_ms e'). }
  assert (Hnl : (n < length l0)%nat).
  { apply Nat.nle_gt. intros Hge. rewrite drop_ge in Hd by (rewrite Hl; lia). by apply elem_of_nil in Hd. }
  assert (El : l = select_nth n l0) by (unfold l; by destruct (Nat.ltb_spec n (length l0)); [|lia]).
  rewrite El in Hin, Hd. by apply (select_nth_le n l0 _ _ Hnl Hin Hd).
Qed.
End cache.

(** ** A concrete selection: sorting by expiry *)

Definition by_expiry (a b : string * Z) : Prop := a.2 <= b.2.
#[export] Instance by_expiry_dec a b : Decision (by_expiry a b) := Z_le_dec a.2 b.2.
#[export] Instance by_expiry_trans : Transitive by_expiry.
Proof. intros a b c. unfold by_expiry. lia. Qed.
#[export] Instance by_expiry_total : Total by_expiry.
Proof. intros a b. unfold by_expiry. lia. Qed.

Lemma sorted_take_drop n (l : list (string * Z)) x y :
  StronglySorted by_expiry l -> x ∈ take n l -> y ∈ drop n l -> by_expiry x y.
Proof.
  revert n. induction l as [|a l IH]; intros n Hs Hx Hy; [rewrite take_nil in Hx; by apply elem_of_nil in Hx|].
  destruct n as [|n]; [by apply elem_of_nil in Hx|]. cbn in *.
  apply StronglySorted_inv in Hs as [Hs Ha]. apply elem_of_cons in Hx as [->|Hx]; [|by eapply IH].
  rewrite Forall_forall in Ha. apply Ha. rewrite <- (take_drop n l). apply elem_of_app. by right.
Qed.

#[export] Instance sort_select : SelectNth.
Proof.
  refine {| select_nth n l := merge_sort by_expiry l |}.
  - intros n l. apply merge_sort_Permutation.
  - intros n l x y _ Hx Hy. eapply (sorted_take_drop n); [|exact Hx|exact Hy].
    apply StronglySorted_merge_sort; apply _.
Defined.

Definition demo_addr : SocketAddr := mk_sock (V4 (mk_v4 1 0 0 1)) 80.
Definition demo_ops : list (Z * cache_op) := [(5, OStore "a" [demo_addr]); (6, OStoreNegative "b"); (7, OLookup "a")].

Lemma cache_never_stale_witness :
  let '(c, written) := run_ops demo_ops (with_ttl 30 10) ∅ in
  (size (inner c) <= DNS_CACHE_MAX_ENTRIES)%nat
  /\ match (lookup_status 100 "a" c).2 with
     | Positive a => exists e, written !! "a" = Some e /\ addrs e = a /\ negative e = false /\ 100 < expires_at_ms e
     | Negative => exists e, written !! "a" = Some e /\ negative e = true /\ 100 < expires_at_ms e
     | Miss => True
     end.
Proof.
  destruct (run_ops demo_ops (with_ttl 30 10) ∅) as [c written] eqn:E.
  exact (cache_never_stale demo_ops 30 10 c written 100 "a" E).
Defined.

Lemma max_entries_large : (3 <= DNS_CACHE_MAX_ENTRIES)%nat.
Proof. Local Transparent DNS_CACHE_MAX_ENTRIES. unfold DNS_CACHE_MAX_ENTRIES. lia. Qed.

Lemma cache_keeps_valid_witness :
  (lookup_status 100 "b" (run_ops demo_ops (with_ttl 30 10) ∅).1).2 = Negative.
Proof.
  pose proof max_entries_large as Hmax.
  refine (cache_keeps_valid demo_ops 30 10 _ (run_ops demo_ops (with_ttl 30 10) ∅).2 100 "b" (mk_entry [] 10006 true) _ _ _ _ _ _).
  - by destruct (run_ops _ _ _).
  - cbn; lia.
  - cbn [within_capacity demo_ops apply_op spec_op with_ttl default_ttl_secs Z.eqb].
    repeat split; (etransitivity; [|exact Hmax]); vm_compute; lia.
  - cbn; lia.
  - vm_compute. reflexivity.
  - cbn; lia.
Defined.
