(* ===== verification/Health.v ===== *)
(** * Health: the per-target health tracker and the health-check scheduler

    src/src/route/health_tracker.rs (rise/fall counting around the circuit
    breaker) and the tick of the loop of src/src/proxy/health.rs. *)
From S2P Require Import Prelude CircuitBreaker.
Local Open Scope Z_scope.
Local Open Scope rust_scope.

Record TargetHealthTracker := mk_tracker {
  circuit_breaker : CircuitBreaker;
  is_healthy : bool;
  consecutive_failures : Z;
  consecutive_successes : Z;
}.

Definition tracker_new : TargetHealthTracker := mk_tracker cb_new true 0 0.
Definition tracker_with_config (config : CircuitBreakerConfig) : TargetHealthTracker :=
  mk_tracker (with_config config) true 0 0.

Definition record_health_check_success (rise : Z) (self : TargetHealthTracker) : TargetHealthTracker :=
  if is_healthy self then mk_tracker (circuit_breaker self) true 0 (consecutive_successes self)
  else
    let successes := consecutive_successes self +w 1 in
    mk_tracker (circuit_breaker self) (if rise <=? successes then true else is_healthy self) 0 successes.

Definition record_health_check_failure (fall : Z) (self : TargetHealthTracker) : TargetHealthTracker :=
  if negb (is_healthy self) then mk_tracker (circuit_breaker self) false (consecutive_failures self) 0
  else
    let failures := consecutive_failures self +w 1 in
    mk_tracker (circuit_breaker self) (if fall <=? failures then false else is_healthy self) failures 0.

Definition is_probe_healthy (self : TargetHealthTracker) : bool := is_healthy self.

(** ** The scheduler: src/src/proxy/health.rs *)

Record HealthCheckConfig := mk_hc {
  hc_interval : Z; (* nanoseconds *)
  hc_timeout : Z;
  hc_fall : Z;
  hc_rise : Z;
  hc_path : string;
  hc_tls_skip_verify : bool;
}.
#[export] Instance HealthCheckConfig_eq_dec : EqDecision HealthCheckConfig.
Proof. solve_decision. Defined.

Definition HealthCheckConfig_default : HealthCheckConfig := mk_hc (15 * 1000000000) (5 * 1000000000) 3 2 "/"%string false.

Definition DISABLED_GUARD : Z := 1000000000.

(** What the loop keeps between ticks. *)
Record Scheduler := mk_sched { checker : HealthCheckConfig; disabled : bool; ticker_period : Z }.

Definition period_of (c : HealthCheckConfig) : Z := if hc_interval c =? 0 then DISABLED_GUARD else hc_interval c.

Definition scheduler_start (hc_config : HealthCheckConfig) : Scheduler :=
  mk_sched hc_config (hc_interval hc_config =? 0) (period_of hc_config).

(** One turn of the loop after its tick, with the configuration just read:
    the new state, whether the ticker was replaced, and whether the targets
    are probed this round (with [checker]'s settings). *)
Definition scheduler_tick (new_hc_config : HealthCheckConfig) (s : Scheduler) : Scheduler * bool * bool :=
  let new_disabled := hc_interval new_hc_config =? 0 in
  let new_ticker_period := period_of new_hc_config in
  let reset := negb (new_ticker_period =? ticker_period s) in
  let period := if reset then new_ticker_period else ticker_period s in
  let dis := if bool_decide (new_disabled <> disabled s) then new_disabled else disabled s in
  if dis then (mk_sched (checker s) dis period, reset, false)
  else
    let chk := if bool_decide (new_hc_config <> checker s) then new_hc_config else checker s in
    (mk_sched chk dis period, reset, true).

(** ** Hysteresis *)

Definition record_probe (rise fall : Z) (t : TargetHealthTracker) (ok : bool) : TargetHealthTracker :=
  if ok then record_health_check_success rise t else record_health_check_failure fall t.
Definition probe_history (rise fall : Z) (h : list bool) (t : TargetHealthTracker) : TargetHealthTracker :=
  fold_left (record_probe rise fall) h t.

(** [run] equal results in a row somewhere in the history *)
Definition has_run (b : bool) (n : nat) (h : list bool) : Prop := exists h1 h2, h = h1 ++ repeat b n ++ h2.

(** The number of results [b] at the end of the history. *)
Definition trailing (b : bool) (h : list bool) : nat :=
  fold_left (fun n x => if Bool.eqb x b then S n else O) h O.

Lemma repeat_S_snoc {A} (b : A) n : repeat b (S n) = repeat b n ++ [b].
Proof. cbn. apply repeat_cons. Qed.

Lemma trailing_snoc b h x : trailing b (h ++ [x]) = if Bool.eqb x b then S (trailing b h) else O.
Proof. unfold trailing. by rewrite fold_left_app. Qed.

Lemma trailing_run b h : exists h1, h = h1 ++ repeat b (trailing b h).
Proof.
  induction h as [|x h IH] using rev_ind; [by exists []|]. rewrite trailing_snoc.
  destruct (Bool.eqb x b) eqn:E; [|exists (h ++ [x]); by rewrite app_nil_r].
  apply eqb_prop in E as ->. destruct IH as [h1 IH]. exists h1.
  rewrite IH at 1. rewrite <- app_assoc. f_equal. by rewrite repeat_S_snoc.
Qed.

Lemma trailing_lt b n h : ~ has_run b n h -> (trailing b h < n)%nat.
Proof.
  intros Hno. destruct (decide (trailing b h < n)%nat) as [|Hge]; [done|]. destruct Hno.
  destruct (trailing_run b h) as [h1 E]. exists (h1 ++ repeat b (trailing b h - n)), [].
  rewrite app_nil_r, <- app_assoc, <- repeat_app. rewrite E at 1. f_equal. f_equal. lia.
Qed.

Lemma has_run_snoc b n h x : has_run b n h -> has_run b n (h ++ [x]).
Proof. intros (h1 & h2 & ->). exists h1, (h2 ++ [x]). by rewrite <- !app_assoc. Qed.

(** A new run at the end of a history is the trailing one. *)
Lemma has_run_snoc_inv b n h x :
  (0 < n)%nat -> has_run b n (h ++ [x]) -> has_run b n h \/ (n <= trailing b (h ++ [x]))%nat.
Proof.
  intros Hn (h1 & h2 & E). destruct h2 as [|y h2 _] using rev_ind.
  - right. rewrite app_nil_r in E. rewrite E. clear E Hn. induction n as [|n IH]; [lia|].
    rewrite repeat_S_snoc, app_assoc, trailing_snoc, Bool.eqb_reflx. lia.
  - left. rewrite !app_assoc in E. apply app_inj_tail in E as [-> _]. exists h1, h2. by rewrite <- app_assoc.
Qed.

(** Trailing successes come after any failure. *)
Lemma suffix_after_failure l1 l2 m n l3 :
  l1 ++ repeat true n = l2 ++ repeat false (S m) ++ l3 -> exists l4, l3 = l4 ++ repeat true n.
Proof.
  rewrite app_assoc. intros E. apply app_eq_app in E as [l [[_ E]|[E1 E2]]]; [by exists l|].
  destruct l as [|x l _] using rev_ind; [by exists []|]. exfalso.
  rewrite repeat_S_snoc, !app_assoc in E1. apply app_inj_tail in E1 as [_ <-].
  assert (Hin : In false (repeat true n)) by (rewrite E2, !in_app_iff; left; right; by left).
  by apply repeat_spec in Hin.
Qed.

Section hysteresis.
Context (rise fall : nat) (Hrise : (0 < rise)%nat) (Hfall : (0 < fall)%nat).
Context (Hr : Z.of_nat rise < 2 ^ 63) (Hf : Z.of_nat fall < 2 ^ 63).
Abbreviation after := (probe_history (Z.of_nat rise) (Z.of_nat fall)).

Lemma after_snoc h x t : after (h ++ [x]) t = record_probe (Z.of_nat rise) (Z.of_nat fall) (after h t) x.
Proof. unfold probe_history. by rewrite fold_left_app. Qed.

(** The counters while the target is healthy, and while it is not. *)
Definition tracker_inv (h : list bool) (t : TargetHealthTracker) : Prop :=
  (is_healthy t = true /\ consecutive_failures t = Z.of_nat (trailing false h) /\ (trailing false h < fall)%nat
   /\ forall h1 h2, h = h1 ++ repeat false fall ++ h2 -> has_run true rise h2)
  \/ (is_healthy t = false
      /\ exists h1 h2, h = h1 ++ repeat false fall ++ h2 /\ ~ has_run true rise h2
         /\ consecutive_successes t = Z.of_nat (trailing true h2)).

Lemma inc_small (n m : nat) : (n < m)%nat -> Z.of_nat m < 2 ^ 63 -> Z.of_nat n +w 1 = Z.of_nat (S n).
Proof. intros. rewrite wrapping_add_small; [lia|]. unfold is_u64. lia. Qed.

Lemma no_run_nil : ~ has_run true rise [].
Proof. intros (h1 & h2 & E). apply (f_equal (@List.length bool)) in E. rewrite !length_app, repeat_length in E. cbn in E. lia. Qed.

(** A run of failures before a success ends before it. *)
Lemma run_before_success h h1 h2 :
  h ++ [true] = h1 ++ repeat false fall ++ h2 -> exists h3, h2 = h3 ++ [true] /\ h = h1 ++ repeat false fall ++ h3.
Proof.
  intros E. destruct h2 as [|y h2 _] using rev_ind.
  - destruct fall as [|n]; [lia|]. rewrite repeat_S_snoc, app_nil_r, app_assoc in E. by apply app_inj_tail in E as [_ [=]].
  - rewrite !app_assoc in E. apply app_inj_tail in E as [E <-]. exists h2. split; [done|]. by rewrite E, <- app_assoc.
Qed.

(** The successes at the end come after any run of failures. *)
Lemma successes_after_run h1 h2 h1' h2' :
  h1 ++ repeat false fall ++ h2 = h1' ++ repeat false fall ++ h2' -> exists h4, h2' = h4 ++ repeat true (trailing true h2).
Proof.
  intros E. destruct (trailing_run true h2) as [h3 E3]. rewrite E3 in E. destruct fall as [|m]; [lia|].
  apply (suffix_after_failure (h1 ++ repeat false (S m) ++ h3) h1' m). by rewrite <- !app_assoc in *.
Qed.

Lemma tracker_inv_step h t x :
  tracker_inv h t -> tracker_inv (h ++ [x]) (record_probe (Z.of_nat rise) (Z.of_nat fall) t x).
Proof.
  intros [(Hh & Hcf & Hlt & Hrec)|(Hh & h1 & h2 & E & Hno & Hcs)]; destruct x; cbn [record_probe].
  - left. unfold record_health_check_success. rewrite Hh, trailing_snoc. cbn. split_and!; try done.
    intros h1 h2 (h3 & -> & E)%run_before_success. by apply has_run_snoc, (Hrec h1).
  - unfold record_health_check_failure. rewrite Hh, Hcf, (inc_small _ fall) by done. cbn [negb].
    destruct (Z.leb_spec (Z.of_nat fall) (Z.of_nat (S (trailing false h)))).
    + right. split; [done|]. destruct (trailing_run false h) as [h1 E]. exists h1, []. split_and!.
      * rewrite E at 1. rewrite app_nil_r, <- app_assoc. f_equal.
        replace fall with (S (trailing false h)) by lia. by rewrite repeat_S_snoc.
      * apply no_run_nil.
      * done.
    + left. rewrite trailing_snoc. cbn [Bool.eqb]. split_and!; try done; [lia|].
      intros h1 h2 E. destruct h2 as [|y h2 _] using rev_ind.
      * exfalso. assert (fall <= trailing false (h ++ [false]))%nat; [|rewrite trailing_snoc in *; cbn in *; lia].
        rewrite E, app_nil_r. clear. induction fall as [|n IH]; [lia|].
        rewrite repeat_S_snoc, app_assoc, trailing_snoc. cbn. lia.
      * rewrite !app_assoc in E. apply app_inj_tail in E as [-> _]. apply has_run_snoc, (Hrec h1). by rewrite <- app_assoc.
  - unfold record_health_check_success. rewrite Hh, Hcs, (inc_small _ rise) by (done || by apply trailing_lt).
    pose proof (trailing_lt _ _ _ Hno) as Hlt.
    destruct (Z.leb_spec (Z.of_nat rise) (Z.of_nat (S (trailing true h2)))).
    + left. cbn. rewrite trailing_snoc. cbn. split_and!; try done. intros h1' h2' (h3 & -> & E')%run_before_success.
      rewrite E in E'. destruct (successes_after_run _ _ _ _ E') as [h4 ->]. exists h4, []. rewrite app_nil_r, <- app_assoc. f_equal.
      replace rise with (S (trailing true h2)) by lia. by rewrite repeat_S_snoc.
    + right. split; [done|]. exists h1, (h2 ++ [true]). split_and!.
      * by rewrite E, <- !app_assoc.
      * intros Hrun. apply has_run_snoc_inv in Hrun as [?|Hrun]; [done| |done]. rewrite trailing_snoc in Hrun. cbn in *. lia.
      * cbn. by rewrite trailing_snoc.
  - right. unfold record_health_check_failure. rewrite Hh. cbn. split; [done|]. exists h1, (h2 ++ [false]). split_and!.
    + by rewrite E, <- !app_assoc.
    + intros Hrun. apply has_run_snoc_inv in Hrun as [?|Hrun]; [done| |done]. rewrite trailing_snoc in Hrun. cbn in *. lia.
    + by rewrite trailing_snoc.
Qed.

Lemma tracker_inv_after cb h : tracker_inv h (after h (mk_tracker cb true 0 0)).
Proof.
  induction h as [|x h IH] using rev_ind.
  - left. cbn. split_and!; try done. intros h1 h2 E. destruct fall; [lia|]. by destruct h1.
  - rewrite after_snoc. by apply tracker_inv_step.
Qed.
End hysteresis.

(** rise/fall hysteresis. After any sequence of probe results, a target
    that started healthy is unhealthy exactly when some [fall] consecutive
    failures have not been followed by [rise] consecutive successes. *)
Theorem unhealthy_iff rise fall cb h :
  (0 < rise)%nat -> (0 < fall)%nat -> Z.of_nat rise < 2 ^ 63 -> Z.of_nat fall < 2 ^ 63 ->
  is_probe_healthy (probe_history (Z.of_nat rise) (Z.of_nat fall) h (mk_tracker cb true 0 0)) = false
  <-> exists h1 h2, h = h1 ++ repeat false fall ++ h2 /\ ~ has_run true rise h2.
Proof.
  intros Hrise Hfall Hr Hf. unfold is_probe_healthy.
  destruct (tracker_inv_after rise fall Hrise Hfall Hr Hf cb h) as [(-> & _ & _ & Hrec)|(-> & h1 & h2 & E & Hno & _)].
  - split; [done|]. intros (h1 & h2 & E & Hno). destruct Hno. by eapply Hrec.
  - split; [|done]. intros _. by exists h1, h2.
Qed.

Lemma unhealthy_iff_witness :
  is_probe_healthy (probe_history (Z.of_nat 2) (Z.of_nat 3) [false; false; false; true; false; true] tracker_new) = false
  /\ (is_probe_healthy (probe_history (Z.of_nat 2) (Z.of_nat 3) [false; false; false; true; false; true]
        (mk_tracker cb_new true 0 0)) = false
      <-> exists h1 h2, [false; false; false; true; false; true] = h1 ++ repeat false 3 ++ h2 /\ ~ has_run true 2 h2).
Proof. split; [reflexivity|]. apply unhealthy_iff; lia. Defined.

Lemma scheduler_tick_spec c s :
  let '(s', reset, probes) := scheduler_tick c s in
  ticker_period s' = period_of c /\ disabled s' = (hc_interval c =? 0)
  /\ probes = negb (hc_interval c =? 0) /\ (probes = true -> checker s' = c)
  /\ (reset = true <-> ticker_period s <> period_of c).
Proof.
  unfold scheduler_tick.
  set (dis := if bool_decide _ then _ else _).
  assert (Hdis : dis = (hc_interval c =? 0)).
  { unfold dis. destruct (bool_decide_reflect ((hc_interval c =? 0) <> disabled s)); [done|].
    destruct (hc_interval c =? 0), (disabled s); naive_solver. }
  rewrite Hdis.
  destruct (Z.eqb_spec (period_of c) (ticker_period s)) as [E|E], (Z.eqb_spec (hc_interval c) 0); cbn;
    split_and!; try done; try (by intros; congruence); try (by split; congruence);
    intros _; destruct (bool_decide_reflect (c <> checker s)) as [|Hn]; try done;
    (destruct (decide (c = checker s)); [congruence|by destruct Hn]).
Qed.

(** the scheduler follows the configuration it reads: after every tick
    the ticker period is the configured interval (the one-second guard while
    the interval is zero), probing happens exactly when the interval is not
    zero, and a round that probes does so with the settings just read. *)
Theorem scheduler_follows_config configs s0 c :
  let '(s, _, _) := fold_left (fun '(s, _, _) c => scheduler_tick c s) configs (scheduler_start s0, false, false) in
  let '(s', reset, probes) := scheduler_tick c s in
  ticker_period s' = period_of c /\ disabled s' = (hc_interval c =? 0)
  /\ probes = negb (hc_interval c =? 0) /\ (probes = true -> checker s' = c)
  /\ (reset = true <-> ticker_period s <> period_of c).
Proof.
  destruct (fold_left _ configs _) as [[s r] p]. apply scheduler_tick_spec.
Qed.
