(* ===== verification/Stats.v ===== *)
(** * Stats: shared cells and the target statistics registry

    src/src/route/target_stats.rs. The counters, health trackers, statistics
    and token buckets of a target are [Arc]s: cells of a [Heap], named by
    locations. The registry holds [Weak] references to them, so that a table
    rebuilt from new definitions finds the cells of the old one. *)
From S2P Require Import Prelude F64 CircuitBreaker Health RateLimit.
Local Open Scope Z_scope.
Local Open Scope rust_scope.

Record TargetStats := mk_target_stats {
  requests_total : Z;
  errors_total : Z;
  latency_sum_us : Z;
  bytes_total : Z;
  last_access : Z;
}.
Definition TargetStats_default : TargetStats := mk_target_stats 0 0 0 0 0.

(** [record_request], [now_secs] the monotonic clock in seconds *)
Definition record_request (now_secs latency_us bytes : Z) (is_error : bool) (self : TargetStats) : TargetStats :=
  mk_target_stats (requests_total self +w 1) (if is_error then errors_total self +w 1 else errors_total self)
    (latency_sum_us self +w latency_us) (bytes_total self +w bytes) now_secs.

Definition error_rate (self : TargetStats) : f64 :=
  if requests_total self =? 0 then f64_zero
  else f64_mul (f64_div (f64_of_Z (errors_total self)) (f64_of_Z (requests_total self))) (f64_of_Z 100).

Definition avg_latency_us (self : TargetStats) : Z :=
  if requests_total self =? 0 then 0 else latency_sum_us self / requests_total self.

(** ** The heap of shared cells *)

Definition loc : Type := positive.

Record Heap := mk_heap {
  next_loc : loc;
  counters : gmap loc Z; (* active connections and round-robin counters *)
  trackers : gmap loc TargetHealthTracker;
  target_stats : gmap loc TargetStats;
  buckets : gmap loc TokenBucket;
}.
Definition heap_empty : Heap := mk_heap 1%positive ∅ ∅ ∅ ∅.

Definition alloc_counter (v : Z) (h : Heap) : loc * Heap :=
  (next_loc h, mk_heap (Pos.succ (next_loc h)) (<[next_loc h := v]> (counters h)) (trackers h) (target_stats h) (buckets h)).
Definition alloc_tracker (v : TargetHealthTracker) (h : Heap) : loc * Heap :=
  (next_loc h, mk_heap (Pos.succ (next_loc h)) (counters h) (<[next_loc h := v]> (trackers h)) (target_stats h) (buckets h)).
Definition alloc_stats (v : TargetStats) (h : Heap) : loc * Heap :=
  (next_loc h, mk_heap (Pos.succ (next_loc h)) (counters h) (trackers h) (<[next_loc h := v]> (target_stats h)) (buckets h)).
Definition alloc_bucket (v : TokenBucket) (h : Heap) : loc * Heap :=
  (next_loc h, mk_heap (Pos.succ (next_loc h)) (counters h) (trackers h) (target_stats h) (<[next_loc h := v]> (buckets h))).

Definition set_counter (l : loc) (v : Z) (h : Heap) : Heap :=
  mk_heap (next_loc h) (<[l := v]> (counters h)) (trackers h) (target_stats h) (buckets h).
Definition set_tracker (l : loc) (v : TargetHealthTracker) (h : Heap) : Heap :=
  mk_heap (next_loc h) (counters h) (<[l := v]> (trackers h)) (target_stats h) (buckets h).
Definition set_stats (l : loc) (v : TargetStats) (h : Heap) : Heap :=
  mk_heap (next_loc h) (counters h) (trackers h) (<[l := v]> (target_stats h)) (buckets h).
Definition set_bucket (l : loc) (v : TokenBucket) (h : Heap) : Heap :=
  mk_heap (next_loc h) (counters h) (trackers h) (target_stats h) (<[l := v]> (buckets h)).

(** Reading a cell; every location a target holds is allocated, the default
    is never the answer for one (see [Table.v]). *)
Definition get_counter (l : loc) (h : Heap) : Z := default 0 (counters h !! l).
Definition get_tracker (l : loc) (h : Heap) : TargetHealthTracker := default tracker_new (trackers h !! l).
Definition get_stats (l : loc) (h : Heap) : TargetStats := default TargetStats_default (target_stats h !! l).
Definition get_bucket (l : loc) (h : Heap) : TokenBucket := default bucket_new (buckets h !! l).

(** ** The registry *)

Record TargetStatsRegistry := mk_registry {
  active_connections : gmap string loc;
  stats : gmap string loc;
  edge_stats : gmap string loc;
  health_trackers : gmap string loc;
  rate_limiters : gmap string loc;
}.
Definition registry_new : TargetStatsRegistry := mk_registry ∅ ∅ ∅ ∅ ∅.

Definition REGISTRY_PRUNE_THRESHOLD : Z := 512.

(** A [Weak] reference upgrades while some target still holds the cell: [live]
    is the set of cells held. *)
Definition prune_dead (live : gset loc) (entries : gmap string loc) : gmap string loc :=
  filter (fun kl => kl.2 ∈ live) entries.

(** The body the five lookups share: upgrade, else prune when large, create
    and register. *)
Definition entry_for (live : gset loc) (create : Heap -> loc * Heap) (key : string) (entries : gmap string loc) (h : Heap)
  : loc * gmap string loc * Heap :=
  match entries !! key ≫= (fun l => if decide (l ∈ live) then Some l else None) with
  | Some l => (l, entries, h)
  | None =>
      let entries := if REGISTRY_PRUNE_THRESHOLD <? Z.of_nat (size entries) then prune_dead live entries else entries in
      let '(l, h) := create h in
      (l, <[key := l]> entries, h)
  end.

Definition active_connections_for (live : gset loc) (key : string) (r : TargetStatsRegistry) (h : Heap) : loc * TargetStatsRegistry * Heap :=
  let '(l, m, h) := entry_for live (alloc_counter 0) key (active_connections r) h in
  (l, mk_registry m (stats r) (edge_stats r) (health_trackers r) (rate_limiters r), h).

Definition stats_for (live : gset loc) (key : string) (r : TargetStatsRegistry) (h : Heap) : loc * TargetStatsRegistry * Heap :=
  let '(l, m, h) := entry_for live (alloc_stats TargetStats_default) key (stats r) h in
  (l, mk_registry (active_connections r) m (edge_stats r) (health_trackers r) (rate_limiters r), h).

Definition edge_stats_for (live : gset loc) (key : string) (r : TargetStatsRegistry) (h : Heap) : loc * TargetStatsRegistry * Heap :=
  let '(l, m, h) := entry_for live (alloc_stats TargetStats_default) key (edge_stats r) h in
  (l, mk_registry (active_connections r) (stats r) m (health_trackers r) (rate_limiters r), h).

Definition new_tracker (cb_config : option CircuitBreakerConfig) : TargetHealthTracker :=
  match cb_config with Some c => tracker_with_config c | None => tracker_new end.

Definition health_tracker_for (live : gset loc) (key : string) (cb_config : option CircuitBreakerConfig)
    (r : TargetStatsRegistry) (h : Heap) : loc * TargetStatsRegistry * Heap :=
  let '(l, m, h) := entry_for live (alloc_tracker (new_tracker cb_config)) key (health_trackers r) h in
  (l, mk_registry (active_connections r) (stats r) (edge_stats r) m (rate_limiters r), h).

Definition rate_limiter_for (live : gset loc) (key : string) (r : TargetStatsRegistry) (h : Heap) : loc * TargetStatsRegistry * Heap :=
  let '(l, m, h) := entry_for live (alloc_bucket bucket_new) key (rate_limiters r) h in
  (l, mk_registry (active_connections r) (stats r) (edge_stats r) (health_trackers r) m, h).

Definition clear_health_trackers (r : TargetStatsRegistry) : TargetStatsRegistry :=
  mk_registry (active_connections r) (stats r) (edge_stats r) ∅ (rate_limiters r).

(** ** Properties of the shared lookup body *)

(** [h'] extends [h]: the cells of [h] are still there, with their values
    (the token buckets, which a rebuild may reconfigure, apart). *)
Definition heap_ext (h h' : Heap) : Prop :=
  (next_loc h <= next_loc h')%positive
  /\ forall l, (l < next_loc h)%positive ->
     counters h' !! l = counters h !! l /\ trackers h' !! l = trackers h !! l /\ target_stats h' !! l = target_stats h !! l.

#[export] Instance heap_ext_refl : Reflexive heap_ext.
Proof. intros h. split; [lia|done]. Qed.
#[export] Instance heap_ext_trans : Transitive heap_ext.
Proof.
  intros h1 h2 h3 [Hn1 H1] [Hn2 H2]. split; [lia|]. intros l Hl.
  destruct (H1 l Hl) as (? & ? & ?), (H2 l ltac:(lia)) as (? & ? & ?). split_and!; congruence.
Qed.

Lemma heap_ext_values h h' l :
  heap_ext h h' -> (l < next_loc h)%positive ->
  get_counter l h' = get_counter l h /\ get_tracker l h' = get_tracker l h /\ get_stats l h' = get_stats l h.
Proof.
  intros [_ Hx] Hl. destruct (Hx l Hl) as (E1 & E2 & E3). 
  exact (conj (f_equal (default 0) E1) (conj (f_equal (default tracker_new) E2) (f_equal (default TargetStats_default) E3))).
Qed.

(** The allocation functions give the next location and extend the heap. *)
Definition alloc_ok (create : Heap -> loc * Heap) : Prop :=
  forall h, (create h).1 = next_loc h /\ next_loc (create h).2 = Pos.succ (next_loc h) /\ heap_ext h (create h).2.

Ltac solve_alloc :=
  intros h; split_and!; [reflexivity|reflexivity|]; split; cbn; [lia|];
  intros l Hl; rewrite ?lookup_insert_ne by lia; split_and!; reflexivity.

Lemma alloc_counter_ok v : alloc_ok (alloc_counter v).
Proof. solve_alloc. Qed.
Lemma alloc_tracker_ok v : alloc_ok (alloc_tracker v).
Proof. solve_alloc. Qed.
Lemma alloc_stats_ok v : alloc_ok (alloc_stats v).
Proof. solve_alloc. Qed.
Lemma alloc_bucket_ok v : alloc_ok (alloc_bucket v).
Proof. solve_alloc. Qed.
#[export] Hint Resolve alloc_counter_ok alloc_tracker_ok alloc_stats_ok alloc_bucket_ok : rust.

Lemma set_bucket_ext l v h : heap_ext h (set_bucket l v h).
Proof. split; [cbn; lia|done]. Qed.
#[export] Hint Resolve set_bucket_ext : rust.

(** One of the registry's maps: distinct keys have distinct cells, all of
    them allocated. *)
Record entries_ok (entries : gmap string loc) (h : Heap) : Prop := {
  entries_inj : forall k1 k2 l, entries !! k1 = Some l -> entries !! k2 = Some l -> k1 = k2;
  entries_bound : forall k l, entries !! k = Some l -> (l < next_loc h)%positive;
}.

Lemma entries_ok_ext entries h h' : heap_ext h h' -> entries_ok entries h -> entries_ok entries h'.
Proof. intros [Hn _] [Hi Hb]. split; [done|]. intros k l E. specialize (Hb _ _ E). lia. Qed.

(** What a lookup does to its map: the key is registered, live entries
    stay, nothing but the key is added. *)
Definition entries_step (live : gset loc) (key : string) (l : loc) (entries entries' : gmap string loc) : Prop :=
  entries' !! key = Some l
  /\ (forall k l0, entries !! k = Some l0 -> l0 ∈ live -> entries' !! k = Some l0).

Lemma entry_for_spec live create key entries h :
  alloc_ok create -> entries_ok entries h ->
  let '(l, entries', h') := entry_for live create key entries h in
  entries_ok entries' h' /\ heap_ext h h' /\ entries_step live key l entries entries'.
Proof.
  intros Hcreate Hok. unfold entry_for. set (large := REGISTRY_PRUNE_THRESHOLD <? _).
  set (pruned := if large then prune_dead live entries else entries).
  assert (Hp : forall k l, pruned !! k = Some l -> entries !! k = Some l).
  { intros k l. subst pruned. destruct large; [|done]. by intros [? _]%map_lookup_filter_Some. }
  assert (Hp' : forall k l, entries !! k = Some l -> l ∈ live -> pruned !! k = Some l).
  { intros k l E Hl. subst pruned. destruct large; [by apply map_lookup_filter_Some|done]. }
  assert (Hnew : (forall l, entries !! key = Some l -> l ∉ live) ->
    let '(l, h') := create h in
    entries_ok (<[key := l]> pruned) h' /\ heap_ext h h' /\ entries_step live key l entries (<[key := l]> pruned)).
  { intros Hdead. destruct (Hcreate h) as (El & En & Hext). destruct (create h) as [l h']. cbn [fst snd] in *. subst l.
    destruct Hok as [Hinj Hbound].
    assert (Hfresh : forall k, pruned !! k = Some (next_loc h) -> False) by (intros k E%Hp%Hbound; lia).
    split; [split|split; [done|split]].
    - intros k1 k2 l. destruct (decide (k1 = key)) as [->|], (decide (k2 = key)) as [->|];
        rewrite ?lookup_insert_eq, ?lookup_insert_ne by done; intros E1 E2; simplify_eq; try done; try (by exfalso; eapply Hfresh).
      apply (Hinj k1 k2 l); by apply Hp.
    - intros k l. destruct (decide (k = key)) as [->|]; [rewrite lookup_insert_eq; intros [= <-]; lia|].
      rewrite lookup_insert_ne by done. intros E%Hp%Hbound. lia.
    - by rewrite lookup_insert_eq.
    - intros k l E Hl. destruct (decide (k = key)) as [->|]; [by apply Hdead in E|]. rewrite lookup_insert_ne by done. by apply Hp'. }
  destruct (entries !! key) as [l0|] eqn:E; cbn; [destruct (decide (l0 ∈ live))|].
  - split; [done|]. split; [done|]. by split.
  - specialize (Hnew ltac:(intros l [= ->]; done)). destruct (create h). exact Hnew.
  - specialize (Hnew ltac:(done)). destruct (create h). exact Hnew.
Qed.

(** ** The invariant of the registry *)

Record registry_ok (r : TargetStatsRegistry) (h : Heap) : Prop := {
  ok_connections : entries_ok (active_connections r) h;
  ok_stats : entries_ok (stats r) h;
  ok_edge_stats : entries_ok (edge_stats r) h;
  ok_trackers : entries_ok (health_trackers r) h;
  ok_limiters : entries_ok (rate_limiters r) h;
}.

Lemma registry_ok_ext r h h' : heap_ext h h' -> registry_ok r h -> registry_ok r h'.
Proof. intros He []. by split; eapply entries_ok_ext. Qed.

Lemma registry_new_ok h : registry_ok registry_new h.
Proof. by split; split. Qed.

Lemma clear_health_trackers_ok r h : registry_ok r h -> registry_ok (clear_health_trackers r) h.
Proof. intros []. split; cbn; try done. Qed.
