(* ===== verification/Target.v ===== *)
(** * Target: an upstream backend

    src/src/route/target.rs: the target record with its shared cells, the URL
    pre-parsing, the SSRF checks of the address it resolves to, the connection
    slots, the rate limit and the option accessors. The [url] crate and the
    resolver are parameters. *)
From S2P Require Import Prelude Prog F64 RustStr StrFacts Net Routes CircuitBreaker Health RateLimit DnsCache Stats.
From Stdlib Require Import Ascii String.
Local Open Scope string_scope.
Local Open Scope Z_scope.
Local Open Scope rust_scope.

Inductive UpstreamProtocol := Http | Https | Grpc | Grpcs | Ws | Wss | Tcp.
#[export] Instance UpstreamProtocol_eq_dec : EqDecision UpstreamProtocol.
Proof. solve_decision. Defined.

Inductive ALPN := H1 | H2 | H2H1.

Definition from_scheme_or_proto (value : string) : option UpstreamProtocol :=
  let v := to_ascii_lowercase value in
  if String.eqb v "http" then Some Http
  else if String.eqb v "https" then Some Https
  else if String.eqb v "grpc" then Some Grpc
  else if String.eqb v "grpcs" then Some Grpcs
  else if String.eqb v "ws" then Some Ws
  else if String.eqb v "wss" then Some Wss
  else if String.eqb v "tcp" then Some Tcp
  else None.

Definition uses_tls (p : UpstreamProtocol) : bool := match p with Https | Grpcs | Wss => true | _ => false end.
Definition requires_http2 (p : UpstreamProtocol) : bool := match p with Grpc | Grpcs => true | _ => false end.
Definition is_websocket (p : UpstreamProtocol) : bool := match p with Ws | Wss => true | _ => false end.
Definition default_port (p : UpstreamProtocol) : option Z :=
  match p with
  | Http | Ws => Some 80
  | Https | Wss => Some 443
  | Grpc => Some 80
  | Grpcs => Some 443
  | Tcp => None
  end.
Definition preferred_alpn (p : UpstreamProtocol) : ALPN :=
  if requires_http2 p then H2 else if is_websocket p then H1 else H2H1.

(** What the program reads of a parsed URL. *)
Record Url := mk_url {
  url_scheme : string;
  url_host_str : option string;
  url_port : option Z;
  url_port_or_known_default : option Z;
}.

(** [url::Url::parse] *)
Class UrlParser := url_parse : string -> option Url.

Record Target := mk_target {
  service : string;
  url : string;
  fixed_weight : f64;
  weight : f64;
  tags : list string;
  opts : gmap string string;
  source : RouteSource;
  parsed_host : option string;
  parsed_port : option Z;
  parsed_tls : bool;
  parsed_protocol : UpstreamProtocol;
  active_connections : loc;
  health_tracker : loc;
  target_stats_loc : loc;
  edge_stats_loc : loc;
  rate_limiter : loc;
}.

Definition set_weight (w : f64) (t : Target) : Target :=
  mk_target (service t) (url t) (fixed_weight t) w (tags t) (opts t) (source t) (parsed_host t) (parsed_port t)
    (parsed_tls t) (parsed_protocol t) (active_connections t) (health_tracker t) (target_stats_loc t)
    (edge_stats_loc t) (rate_limiter t).
Definition set_fixed_weight (w : f64) (t : Target) : Target :=
  mk_target (service t) (url t) w (weight t) (tags t) (opts t) (source t) (parsed_host t) (parsed_port t)
    (parsed_tls t) (parsed_protocol t) (active_connections t) (health_tracker t) (target_stats_loc t)
    (edge_stats_loc t) (rate_limiter t).

Definition rate_limit_override (opts : gmap string string) : option (Z * Z) :=
  rate ← opts !! "ratelimit" ≫= parse_u64;
  Some (rate, default rate (opts !! "burst" ≫= parse_u64)).

(** [\u{1f}], the separator of the registry keys *)
Definition unit_sep : string := String (chr 31) "".

Definition rate_limiter_registry_key (url : string) (opts : gmap string string) : string :=
  match rate_limit_override opts with
  | Some (rate, burst) => url ++ unit_sep ++ "override:" ++ show_uint rate ++ ":" ++ show_uint burst
  | None => url ++ unit_sep ++ "global"
  end.

Section url_parsing.
Context `{UrlParser}.

(** [pre_parse] at clock reading [now_ns] *)
Definition pre_parse (now_ns : Z) (self : Target) (h : Heap) : Target * Heap :=
  let self :=
    match url_parse (url self) with
    | Some parsed =>
        let protocol :=
          match opts self !! "proto" ≫= from_scheme_or_proto with
          | Some p => p
          | None => default Http (from_scheme_or_proto (url_scheme parsed))
          end in
        let port :=
          match url_port parsed with
          | Some p => Some p
          | None => match default_port protocol with Some p => Some p | None => url_port_or_known_default parsed end
          end in
        mk_target (service self) (url self) (fixed_weight self) (weight self) (tags self) (opts self) (source self)
          (url_host_str parsed) port (uses_tls protocol) protocol (active_connections self) (health_tracker self)
          (target_stats_loc self) (edge_stats_loc self) (rate_limiter self)
    | None => self
    end in
  match rate_limit_override (opts self) with
  | Some (rate, burst) => (self, set_bucket (rate_limiter self) (configure now_ns rate burst (get_bucket (rate_limiter self) h)) h)
  | None => (self, h)
  end.

(** [Target::default]: five fresh cells *)
Definition target_default (h : Heap) : Target * Heap :=
  let '(c, h) := alloc_counter 0 h in
  let '(k, h) := alloc_tracker tracker_new h in
  let '(s, h) := alloc_stats TargetStats_default h in
  let '(e, h) := alloc_stats TargetStats_default h in
  let '(b, h) := alloc_bucket bucket_new h in
  (mk_target "" "" f64_zero f64_zero [] ∅ Static None None false Http c k s e b, h).

Definition with_active_connections (now_ns : Z) (svc u : string) (conns : loc) (h : Heap) : Target * Heap :=
  let '(d, h) := target_default h in
  pre_parse now_ns (mk_target svc u (fixed_weight d) (weight d) (tags d) (opts d) (source d) (parsed_host d) (parsed_port d)
    (parsed_tls d) (parsed_protocol d) conns (health_tracker d) (target_stats_loc d) (edge_stats_loc d) (rate_limiter d)) h.

Definition target_new (now_ns : Z) (svc u : string) (h : Heap) : Target * Heap :=
  let '(d, h) := target_default h in
  pre_parse now_ns (mk_target svc u (fixed_weight d) (weight d) (tags d) (opts d) (source d) (parsed_host d) (parsed_port d)
    (parsed_tls d) (parsed_protocol d) (active_connections d) (health_tracker d) (target_stats_loc d) (edge_stats_loc d)
    (rate_limiter d)) h.
End url_parsing.

(** ** SSRF protection *)

Definition opt_is_true (key : string) (self : Target) : bool :=
  match opts self !! key with Some v => String.eqb v "true" | None => false end.

Definition ssrf_skip_verify (self : Target) : bool := opt_is_true "ssrfskipverify" self.

Definition source_allows_private_upstreams (self : Target) : bool :=
  match source self with ConsulKv | ConsulService => true | Static => false end.

(** [to_lowercase] agrees with the ASCII one on these comparisons: no
    character outside ASCII has a lower case made of the letters compared. *)
Definition is_host_safe (self : Target) : bool :=
  match parsed_host self with
  | None => false
  | Some h =>
      let host := trim_brackets h in
      match parse_ip host with
      | Some ip =>
          if is_ip_always_blocked ip then false
          else if is_ip_rfc1918 ip then source_allows_private_upstreams self
          else true
      | None =>
          let lower := to_ascii_lowercase host in
          negb (String.eqb lower "localhost" || ends_with ".localhost" lower || ends_with ".local" lower)
      end
  end.

Definition upstream_host (self : Target) : string :=
  match parsed_host self with Some h => trim_brackets h | None => "127.0.0.1" end.

Definition upstream_port (self : Target) : Z :=
  match parsed_port self with
  | Some p => p
  | None => match default_port (parsed_protocol self) with Some p => p | None => 80 end
  end.

Inductive IoErrorKind := PermissionDenied | NotFound | OtherIo.
#[export] Instance IoErrorKind_eq_dec : EqDecision IoErrorKind.
Proof. solve_decision. Defined.

(** The check applied to every resolved address. *)
Definition addr_blocked (self : Target) (addr : SocketAddr) : bool :=
  negb (ssrf_skip_verify self)
  && (is_ip_always_blocked (sock_ip addr)
      || (negb (source_allows_private_upstreams self) && is_ip_rfc1918 (sock_ip addr))).

Definition cache_key (self : Target) : string := upstream_host self ++ ":" ++ show_uint (upstream_port self).

(** The name given to the resolver. *)
Definition addr_str (self : Target) : string :=
  let host := upstream_host self in
  if contains_char ":"%char host then "[" ++ host ++ "]:" ++ show_uint (upstream_port self)
  else host ++ ":" ++ show_uint (upstream_port self).

Section resolve.
Context `{SelectNth}.

(** [resolve_upstream_addr] up to the resolver call: an answer, or [None] to
    ask the resolver. *)
Definition resolve_cached (now_ms : Z) (self : Target) (cache : DnsCache) : DnsCache * option (result SocketAddr IoErrorKind) :=
  if negb (is_host_safe self) && negb (ssrf_skip_verify self) then (cache, Some (Err PermissionDenied))
  else
    let '(cache, outcome) := lookup_status now_ms (cache_key self) cache in
    match outcome with
    | Positive (addr :: _) =>
        if addr_blocked self addr then (dns_remove (cache_key self) cache, None) else (cache, Some (Ok addr))
    | Positive [] => (cache, None)
    | Negative => (cache, Some (Err NotFound))
    | Miss => (cache, None)
    end.

(** The rest of it, given the resolver's answer for [addr_str]. *)
Definition resolve_answer (now_ms : Z) (answer : result (list SocketAddr) IoErrorKind) (self : Target) (cache : DnsCache)
  : DnsCache * result SocketAddr IoErrorKind :=
  match answer with
  | Err e =>
      ((if decide (e = NotFound) then store_negative now_ms (cache_key self) cache else cache), Err e)
  | Ok [] => (cache, Err NotFound)
  | Ok (resolved :: rest) =>
      if addr_blocked self resolved then (cache, Err PermissionDenied)
      else
        let addr_list := resolved :: List.filter (fun a => negb (addr_blocked self a)) rest in
        (dns_store now_ms (cache_key self) addr_list cache, Ok resolved)
  end.

(** Without other calls in between; [lookup_host] is the resolver. *)
Definition resolve_upstream_addr (now_ms now_ms' : Z) (lookup_host : string -> result (list SocketAddr) IoErrorKind)
    (self : Target) (cache : DnsCache) : DnsCache * result SocketAddr IoErrorKind :=
  let '(cache, r) := resolve_cached now_ms self cache in
  match r with
  | Some r => (cache, r)
  | None => resolve_answer now_ms' (lookup_host (addr_str self)) self cache
  end.
End resolve.

(** ** Connection slots *)

(** The counter, and how many slots have been taken and given back. *)
Definition fetch_add (n : Z) : prog Z Z := access (fun c => (c +w n, c)).
Definition fetch_sub (n : Z) : prog Z Z := access (fun c => (c -w n, c)).

(** [compare_exchange_weak]: [spurious] failures are allowed. *)
Definition compare_exchange_weak (spurious : bool) (current new : Z) : prog Z (result unit Z) :=
  access (fun c => if negb spurious && (c =? current) then (new, Ok tt) else (c, Err c)).

(** The retry loop of [try_acquire_connection_slot], [fuel] turns of it;
    [spurious] says which exchanges fail spuriously. *)
Fixpoint acquire_loop (fuel : nat) (spurious : nat -> bool) (max_connections current : Z) : prog Z (option bool) :=
  match fuel with
  | O => Ret None
  | S fuel' =>
      if max_connections <=? current then Ret (Some false)
      else
        let! r := compare_exchange_weak (spurious fuel') current (current +w 1) in
        match r with
        | Ok _ => Ret (Some true)
        | Err actual => acquire_loop fuel' spurious max_connections actual
        end
  end.

Definition try_acquire_connection_slot (fuel : nat) (spurious : nat -> bool) (max_connections : Z) : prog Z (option bool) :=
  if max_connections =? 0 then
    let! _ := fetch_add 1 in Ret (Some true)
  else
    let! current := load (fun c => c) in
    acquire_loop fuel spurious max_connections current.

Definition release_connection_slot : prog Z unit := let! _ := fetch_sub 1 in Ret tt.

(** Run alone, without spurious failures, two turns are enough. *)
Definition try_acquire_slot_at (max_connections conns : Z) : Z * bool :=
  let '(c, r) := run (try_acquire_connection_slot 2 (fun _ => false) max_connections) conns in (c, default false r).
Definition release_slot_at (conns : Z) : Z := (run release_connection_slot conns).1.

(** ** Rate limit *)

(** [try_acquire_rate_limit] at clock reading [now_ns] *)
Definition try_acquire_rate_limit (now_ns global_rate global_burst : Z) (self : Target) (h : Heap) : Heap * bool :=
  let l := rate_limiter self in
  let h :=
    match rate_limit_override (opts self) with
    | None =>
        if decide (configured_rate_burst (get_bucket l h) <> (global_rate, global_burst))
        then set_bucket l (configure now_ns global_rate global_burst (get_bucket l h)) h else h
    | Some _ => h
    end in
  let '(b, ok) := try_acquire_at now_ns (get_bucket l h) in
  (set_bucket l b h, ok).

(** ** Option accessors *)

Definition upstream_tls (self : Target) : bool := parsed_tls self.
Definition upstream_protocol (self : Target) : UpstreamProtocol := parsed_protocol self.
Definition strip_path (self : Target) : option string := opts self !! "strip".
Definition prepend_path (self : Target) : option string := opts self !! "prepend".
Definition tls_skip_verify (self : Target) : bool := opt_is_true "tlsskipverify" self.
Definition read_timeout_override (self : Target) : option string :=
  match opts self !! "readtimeout" with
  | Some s => if is_empty (trim s) then None else Some s
  | None => None
  end.

Definition header_matches (self : Target) : list (string * string) :=
  match opts self !! "header" with
  | Some v => omap (fun pair => split_once ":"%char (trim pair)) (split_on ","%char v)
  | None => []
  end.

(** Request headers: [get] of [http::HeaderMap] (the first value under a
    case-insensitive name), [None] when the value is not visible ASCII. *)
Definition Headers : Type := string -> option string.

Definition matches_headers (headers : Headers) (self : Target) : bool :=
  let constraints := header_matches self in
  match constraints with
  | [] => true
  | _ => forallb (fun '(name, expected) => match headers name with Some v => String.eqb v expected | None => false end) constraints
  end.

Definition is_tcp (self : Target) : bool := bool_decide (parsed_protocol self = Tcp).
Definition proxy_proto (self : Target) : bool := opt_is_true "pxyproto" self.
Definition is_https (self : Target) : bool := bool_decide (parsed_protocol self = Https).
Definition is_grpc (self : Target) : bool := match parsed_protocol self with Grpc | Grpcs => true | _ => false end.
Definition host_override (self : Target) : option string := opts self !! "host".

Definition upstream_authority (self : Target) : string :=
  match host_override self with
  | Some host => host
  | None =>
      let host := upstream_host self in
      let port := upstream_port self in
      let with_port := host ++ ":" ++ show_uint port in
      match default_port (parsed_protocol self) with
      | Some p => if p =? port then host else with_port
      | None => with_port
      end
  end.

(** ** SSRF: what an address that comes out satisfies *)

(** The policy: verification explicitly skipped for this target, or an
    address outside the always-blocked classes that is private only for
    targets that come from Consul. *)
Definition ssrf_policy (self : Target) (ip : IpAddr) : Prop :=
  opts self !! "ssrfskipverify" = Some "true"
  \/ (is_ip_always_blocked ip = false /\ (is_ip_rfc1918 ip = true -> source self = ConsulKv \/ source self = ConsulService)).

Lemma opt_is_true_spec key self : opt_is_true key self = true <-> opts self !! key = Some "true".
Proof.
  unfold opt_is_true. destruct (opts self !! key) as [v|]; [|split; congruence].
  rewrite String.eqb_eq. split; congruence.
Qed.

Lemma addr_blocked_spec self addr : addr_blocked self addr = false <-> ssrf_policy self (sock_ip addr).
Proof.
  unfold addr_blocked, ssrf_policy, source_allows_private_upstreams. rewrite <- opt_is_true_spec. fold (ssrf_skip_verify self).
  destruct (ssrf_skip_verify self), (is_ip_always_blocked _), (is_ip_rfc1918 _), (source self); cbn;
    intuition (discriminate || auto).
Qed.

Section resolve_props.
Context `{SelectNth}.

Lemma cached_address_allowed now self cache cache' addr :
  resolve_cached now self cache = (cache', Some (Ok addr)) -> ssrf_policy self (sock_ip addr).
Proof.
  intros Hr. apply addr_blocked_spec. unfold resolve_cached in Hr. destruct (_ && _); [done|].
  destruct (lookup_status now (cache_key self) cache) as [c [[|a l]| |]]; try done.
  destruct (addr_blocked self a) eqn:E; [done|]. by simplify_eq.
Qed.

Lemma answered_address_allowed now answer self cache cache' addr :
  resolve_answer now answer self cache = (cache', Ok addr) ->
  ssrf_policy self (sock_ip addr)
  /\ exists l, cache' = dns_store now (cache_key self) l cache /\ Forall (fun a => ssrf_policy self (sock_ip a)) l.
Proof.
  unfold resolve_answer. intros Hr. destruct answer as [[|a l]|e]; try done.
  destruct (addr_blocked self a) eqn:E; [done|]. simplify_eq. split; [by apply addr_blocked_spec|]. eexists. split; [done|].
  apply Forall_cons. split; [by apply addr_blocked_spec|]. apply Forall_forall. intros b Hb.
  rewrite list_elem_of_In, filter_In in Hb. destruct Hb as [_ Hb%negb_true_iff]. by apply addr_blocked_spec.
Qed.

(** C21: whatever the cache holds (another target may have stored it under
    another policy, or the name may have been rebound) and whatever the
    resolver answers, an address the balancer is about to connect to satisfies
    the policy of the target it is for; and every address it caches does. *)
Theorem resolved_address_allowed now answer self cache cache' addr :
  resolve_cached now self cache = (cache', Some (Ok addr)) \/ resolve_answer now answer self cache = (cache', Ok addr) ->
  ssrf_policy self (sock_ip addr)
  /\ (resolve_answer now answer self cache = (cache', Ok addr) ->
      exists l, cache' = dns_store now (cache_key self) l cache /\ Forall (fun a => ssrf_policy self (sock_ip a)) l).
Proof.
  intros Hr. split.
  - destruct Hr as [Hr|Hr]; [by eapply cached_address_allowed|by apply answered_address_allowed in Hr as [? _]].
  - by intros [_ ?]%answered_address_allowed.
Qed.

(** a target whose URL names a blocked address literally (in any notation
    the parser reads, brackets included), or a private one that does not come
    from Consul, is refused before the cache and the resolver are asked. *)
Theorem literal_blocked_host_refused now now' lookup_host self cache h ip :
  parsed_host self = Some h -> parse_ip (trim_brackets h) = Some ip -> ~ ssrf_policy self ip ->
  resolve_upstream_addr now now' lookup_host self cache = (cache, Err PermissionDenied).
Proof.
  intros Hh Hip Hpol. unfold resolve_upstream_addr, resolve_cached.
  assert (Hskip : ssrf_skip_verify self = false).
  { destruct (ssrf_skip_verify self) eqn:E; [|done]. apply opt_is_true_spec in E. destruct Hpol. by left. }
  assert (Hsafe : is_host_safe self = false).
  { unfold is_host_safe. rewrite Hh, Hip. unfold source_allows_private_upstreams.
    destruct (is_ip_always_blocked ip) eqn:E1; [done|]. destruct (is_ip_rfc1918 ip) eqn:E2.
    - destruct (source self) eqn:E3; [done|..]; destruct Hpol; right; auto.
    - destruct Hpol. right. split; [done|congruence]. }
  by rewrite Hsafe, Hskip.
Qed.
End resolve_props.

Definition demo_target (src : RouteSource) (h : string) (o : gmap string string) : Target :=
  mk_target "svc" "u" f64_zero f64_zero [] o src (Some h) (Some 80) false Http 1%positive 2%positive 3%positive 4%positive 5%positive.

Lemma resolved_address_allowed_witness :
  ssrf_policy (demo_target ConsulKv "backend" ∅) (V4 (mk_v4 10 0 0 7)).
Proof.
  pose (addr := mk_sock (V4 (mk_v4 10 0 0 7)) 80). pose (self := demo_target ConsulKv "backend" ∅).
  refine (proj1 (resolved_address_allowed 5 (Ok [addr; mk_sock (V4 (mk_v4 127 0 0 1)) 80]) self (with_ttl 30 10)
    (dns_store 5 (cache_key self) [addr] (with_ttl 30 10)) addr (or_intror _))).
  vm_compute. reflexivity.
Defined.

Lemma literal_blocked_host_refused_witness :
  resolve_upstream_addr 1 2 (fun _ => Ok []) (demo_target Static "[::ffff:169.254.169.254]" ∅) (with_ttl 30 10)
  = (with_ttl 30 10, Err PermissionDenied).
Proof.
  eapply (literal_blocked_host_refused 1 2); [reflexivity|vm_compute; reflexivity|].
  intros [Hs|[Hb _]]; [vm_compute in Hs|vm_compute in Hb]; discriminate.
Defined.

(** ** Connection slots under contention *)

(** A request: take a slot; if it got one, give it back at the end. *)
Definition slot_session (fuel : nat) (spurious : nat -> bool) (max_connections : Z) : prog Z unit :=
  let! r := try_acquire_connection_slot fuel spurious max_connections in
  match r with Some true => release_connection_slot | _ => Ret tt end.

Section slots.
Context (max : Z) (Hmax : 0 < max < 2 ^ 64).

(** The counter is the number of slots held, and within the limit. *)
Definition slots_inv (c : Z) (held : nat) : Prop := c = Z.of_nat held /\ c <= max.

Lemma acquire_loop_tok fuel spurious current :
  safe_tok slots_inv (fun r n => n = if decide (r = Some true) then 1%nat else 0%nat)
    (acquire_loop fuel spurious max current) 0.
Proof.
  revert current. induction fuel as [|fuel IH]; intros current; cbn [acquire_loop]; [done|].
  destruct (Z.leb_spec max current) as [Hle|Hlt]; [done|].
  cbn. intros c others [Hc Hcm]. destruct (negb (spurious fuel) && (c =? current)) eqn:E; cbn.
  - apply andb_true_iff in E as [_ E%Z.eqb_eq]. exists 1%nat. split; [|done].
    unfold slots_inv. subst current. rewrite wrapping_add_small by (unfold is_u64; lia). lia.
  - exists 0%nat. split; [done|apply IH].
Qed.

Lemma acquire_slot_tok fuel spurious :
  safe_tok slots_inv (fun r n => n = if decide (r = Some true) then 1%nat else 0%nat)
    (try_acquire_connection_slot fuel spurious max) 0.
Proof.
  unfold try_acquire_connection_slot. destruct (Z.eqb_spec max 0); [lia|].
  cbn. intros c others Hc. exists 0%nat. split; [done|]. apply acquire_loop_tok.
Qed.

Lemma release_slot_tok : safe_tok slots_inv (fun _ n => n = 0%nat) release_connection_slot 1.
Proof.
  cbn. intros c others [Hc Hcm]. exists 0%nat. split; [|done].
  unfold slots_inv. rewrite wrapping_sub_small by (unfold is_u64; lia). lia.
Qed.

Lemma slot_session_tok fuel spurious :
  safe_tok slots_inv (fun _ n => n = 0%nat) (slot_session fuel spurious max) 0.
Proof.
  unfold slot_session. eapply safe_tok_bind; [apply acquire_slot_tok|].
  intros [[]|] held ->; [rewrite decide_True by done; apply release_slot_tok|done..].
Qed.
End slots.

(** however many requests contend for the slots of a target, however
    their atomic accesses interleave and whichever exchanges fail spuriously,
    the connection counter never exceeds [max_connections] and never goes
    below zero, and it is back to zero when the requests are done: no slot is
    leaked and none is given twice. *)
Theorem slots_bounded max sessions c ps :
  0 < max < 2 ^ 64 ->
  clos_refl_trans_1n _ (pool_step (fun s s' => s = s'))
    (0, map (fun p => slot_session (fst p) (snd p) max) sessions) (c, ps) ->
  0 <= c <= max /\ (Forall (fun p => p = Ret tt) ps -> c = 0).
Proof.
  intros Hmax Hsteps.
  destruct (pool_tokens (slots_inv max) (fun _ n => n = 0%nat) _ _ _ (repeat 0%nat (List.length sessions))
              (fun s s' n E H => eq_rect s (fun s => slots_inv max s n) H s' E) Hsteps) as (ns & [Hc Hle] & Hps); cbn in *.
  - replace (sum_list (repeat 0%nat (List.length sessions))) with 0%nat; [unfold slots_inv; lia|].
    clear Hsteps. induction sessions; cbn; lia.
  - clear Hsteps. induction sessions as [|[f sp] l IH]; cbn; constructor; [|done]. by apply slot_session_tok.
  - split; [lia|]. intros Hdone. rewrite Hc.
    assert (sum_list ns = 0%nat); [|lia]. clear -Hdone Hps.
    induction Hps as [|p n ps ns Hp Hps IH]; [done|]. apply Forall_cons in Hdone as [-> Hdone]. cbn in *.
    rewrite Hp, IH by done. done.
Qed.

(** Alone, the slot loop admits exactly below the limit (zero is no
    limit), takes one slot when it admits and none when it does not, and never
    runs out of its two turns; releasing undoes acquiring. *)
Theorem slot_acquire_spec max c :
  is_u64 max -> is_u64 c -> c < 2 ^ 64 - 1 ->
  run (try_acquire_connection_slot 2 (fun _ => false) max) c
  = (if (max =? 0) || (c <? max) then (c + 1, Some true) else (c, Some false))
  /\ release_slot_at (c + 1) = c.
Proof.
  intros Hmax Hc Hlt. unfold is_u64 in *. split.
  - unfold try_acquire_connection_slot. destruct (Z.eqb_spec max 0) as [->|]; cbn [orb].
    + cbn. rewrite wrapping_add_small by (unfold is_u64; lia). done.
    + cbn. destruct (Z.leb_spec max c), (Z.ltb_spec c max); try lia; [done|].
      cbn. rewrite Z.eqb_refl, wrapping_add_small by (unfold is_u64; lia). done.
  - unfold release_slot_at. cbn. rewrite wrapping_sub_small by (unfold is_u64; lia). lia.
Qed.

Lemma slots_bounded_witness :
  exists c ps, c = 1
  /\ clos_refl_trans_1n _ (pool_step (fun s s' => s = s'))
       (0, map (fun p => slot_session (fst p) (snd p) 1) [(3%nat, (fun _ => false)); (3%nat, (fun _ => false))]) (c, ps)
  /\ (0 <= c <= 1 /\ (Forall (fun p => p = Ret tt) ps -> c = 0)).
Proof.
  assert (H : exists c ps, c = 1
    /\ clos_refl_trans_1n _ (pool_step (fun s s' => s = s'))
       (0, map (fun p => slot_session (fst p) (snd p) 1) [(3%nat, (fun _ => false)); (3%nat, (fun _ => false))]) (c, ps)).
  { eexists _, _. split.
    2: { eapply rt1n_trans; [exact (pool_access _ _ _ _ _ [] [_])|].
         eapply rt1n_trans; [exact (pool_access _ _ _ _ _ [_] [])|].
         eapply rt1n_trans; [exact (pool_access _ _ _ _ _ [] [_])|].
         eapply rt1n_trans; [exact (pool_access _ _ _ _ _ [_] [])|]. apply rt1n_refl. }
    vm_compute. reflexivity. }
  destruct H as (c & ps & Hc & Hs). exists c, ps. split; [exact Hc|]. split; [exact Hs|].
  exact (slots_bounded 1 [(3%nat, (fun _ => false)); (3%nat, (fun _ => false))] c ps ltac:(lia) Hs).
Defined.

Lemma slot_acquire_spec_witness :
  run (try_acquire_connection_slot 2 (fun _ => false) 3) 3 = (3, Some false) /\ release_slot_at (2 + 1) = 2.
Proof.
  split; [exact (proj1 (slot_acquire_spec 3 3 ltac:(unfold is_u64; lia) ltac:(unfold is_u64; lia) ltac:(lia)))|].
  exact (proj2 (slot_acquire_spec 3 2 ltac:(unfold is_u64; lia) ltac:(unfold is_u64; lia) ltac:(lia))).
Defined.

(** ** Registry keys of rate limiters *)

Definition sep_free (s : string) : bool := str_all (fun c => negb (Ascii.eqb c (chr 31))) s.

Lemma rsplit_sep_free s t :
  sep_free t = true -> rsplit_once (chr 31) (s ++ unit_sep ++ t) = Some (s, t).
Proof.
  intros Ht.
  assert (Hnone : rsplit_once (chr 31) t = None).
  { induction t as [|c t IH]; [done|]. unfold sep_free in Ht. cbn [str_all] in Ht. apply andb_true_iff in Ht as [Hc Ht].
    cbn [rsplit_once]. rewrite IH by done. apply negb_true_iff in Hc. by rewrite Hc. }
  induction s as [|c s IH].
  - rewrite app_nil_s. unfold unit_sep. rewrite app_cons_s, app_nil_s. cbn [rsplit_once].
    by rewrite Hnone, Ascii.eqb_refl.
  - rewrite app_cons_s. cbn [rsplit_once]. by rewrite IH.
Qed.

Lemma rate_limit_override_nonneg o r b : rate_limit_override o = Some (r, b) -> 0 <= r /\ 0 <= b.
Proof.
  unfold rate_limit_override. destruct (o !! "ratelimit") as [v|]; cbn; [|done].
  destruct (parse_u64 v) as [r'|] eqn:E; cbn; [|done]. intros [= <- <-].
  apply parse_u64_nonneg in E. split; [done|].
  destruct (o !! "burst") as [v'|]; cbn; [|done]. destruct (parse_u64 v') eqn:E'; cbn; [|done].
  by apply parse_u64_nonneg in E'.
Qed.

(** two targets share a token bucket exactly when both their URL and
    their rate-limit override agree: the registry key separates them whatever
    bytes the URL contains. *)
Theorem rate_limiter_key_inj u o u' o' :
  rate_limiter_registry_key u o = rate_limiter_registry_key u' o'
  <-> u = u' /\ rate_limit_override o = rate_limit_override o'.
Proof.
  split; [|by unfold rate_limiter_registry_key; intros [-> ->]]. unfold rate_limiter_registry_key.
  assert (Hkey : forall r b, sep_free ("override:" ++ show_uint r ++ ":" ++ show_uint b) = true).
  { intros r b. unfold sep_free. rewrite !str_all_app.
    by rewrite (digits_no_char (chr 31) (show_uint r)), (digits_no_char (chr 31) (show_uint b)) by (done || apply show_uint_digits). }
  intros E. apply (f_equal (rsplit_once (chr 31))) in E.
  destruct (rate_limit_override o) as [[r b]|] eqn:Eo, (rate_limit_override o') as [[r' b']|] eqn:Eo';
    rewrite !rsplit_sep_free in E by (done || apply Hkey); apply (inj Some), pair_equal_spec in E as [-> E];
    (split; [done|]); try done; try (by rewrite !app_cons_s in E).
  apply rate_limit_override_nonneg in Eo as [? ?], Eo' as [? ?].
  apply (f_equal (str_drop 9)) in E.
  change (str_drop 9 ("override:" ++ ?s)) with s in E.
  change (show_uint ?r ++ ":" ++ ?s) with (show_uint r ++ String ":"%char s) in E.
  apply (f_equal (split_once ":"%char)) in E.
  rewrite !split_once_app in E by (apply digits_no_char; [done|apply show_uint_digits]).
  injection E as Er Eb. apply show_uint_inj in Er, Eb; try done. by subst.
Qed.

(** ** A burst of zero *)

(** Calls at the given clock readings. *)
Fixpoint rate_limit_calls (times : list Z) (r b : Z) (self : Target) (h : Heap) : list bool :=
  match times with
  | [] => []
  | t :: times' =>
      let '(h', ok) := try_acquire_rate_limit t r b self h in ok :: rate_limit_calls times' r b self h'
  end.

(** a defect. With the global limit configured with [rate_limit_burst = 0]
    (which the configuration check accepts), the limiter of a target without
    an override admits every request: the bucket reports the burst it stored,
    at least one, which never equals the configured zero, so every call
    reconfigures the bucket, and reconfiguring an empty bucket fills it. *)
Theorem zero_burst_never_limits r times self h :
  params_ok r 0 -> rate_limit_override (opts self) = None -> tokens (get_bucket (rate_limiter self) h) = 0 ->
  (rate (get_bucket (rate_limiter self) h) = UNCONFIGURED \/ rate (get_bucket (rate_limiter self) h) = r * SCALE /\ burst (get_bucket (rate_limiter self) h) = SCALE) ->
  Forall (fun ok => ok = true) (rate_limit_calls times r 0 self h).
Proof.
  intros Hp Ho. pose proof Hp as (Hr0 & _ & Hr1 & _). revert h.
  induction times as [|t times IH]; intros h Ht Hb; [constructor|]. cbn [rate_limit_calls].
  unfold try_acquire_rate_limit. rewrite Ho.
  set (b := get_bucket (rate_limiter self) h) in *.
  assert (Hconf : configured_rate_burst b <> (r, 0)).
  { unfold configured_rate_burst. destruct Hb as [->|[Hb1 Hb2]]; [cbn; intros [=]; lia|].
    destruct (rate b =? UNCONFIGURED); [intros [=]; lia|]. rewrite Hb2.
    intros E. injection E as _ E. vm_compute in E. discriminate. }
  destruct (decide _) as [_|]; [|done].
  assert (Hget : forall v h, get_bucket (rate_limiter self) (set_bucket (rate_limiter self) v h) = v).
  { intros v h'. unfold get_bucket, set_bucket. cbn. by rewrite lookup_insert_eq. }
  rewrite Hget, try_acquire_at_eq.
  destruct (configure_rate_burst t r 0 b Hp) as [Hrate Hburst]. rewrite Hrate, Hburst. unfold SCALE, UNCONFIGURED in *.
  destruct (Z.eqb_spec (r * 1000000) 0); [lia|].
  set (b1 := configure t r 0 b) in *.
  assert (Ht1 : tokens b1 = 1000000).
  { unfold b1, configure. destruct (Z.eqb_spec r 0); [lia|]. cbn [tokens]. rewrite Ht. reflexivity. }
  unfold refill_consume.
  assert (Href : tokens (refill t (r * 1000000) (Z.max 0 1 * 1000000) b1) = 1000000
                 /\ rate (refill t (r * 1000000) (Z.max 0 1 * 1000000) b1) = r * 1000000
                 /\ burst (refill t (r * 1000000) (Z.max 0 1 * 1000000) b1) = 1000000).
  { unfold refill. cbv zeta. destruct (0 <? _); cbn [tokens rate burst]; [|rewrite Hburst; split_and!; try done; lia].
    rewrite Ht1. unfold saturating_add, u64_max. pose proof (wrap64_range (r * 1000000 * saturating_sub t (last_refill_ns b1) / 1000000000)).
    unfold is_u64 in *. rewrite Hburst. split_and!; [|done|lia]. destruct (Z.ltb_spec (Z.max 0 1 * 1000000)
      (Z.min (1000000 + wrap64 (r * 1000000 * saturating_sub t (last_refill_ns b1) / 1000000000)) (2 ^ 64 - 1))); lia. }
  destruct Href as (Ht2 & Hr2 & Hb2). unfold consume. rewrite Ht2. unfold SCALE. cbn [Z.ltb Z.compare Pos.compare Pos.compare_cont].
  constructor; [done|]. apply IH; rewrite Hget; cbn [tokens rate burst]; [done|]. right. by rewrite Hr2, Hb2.
Qed.

Lemma zero_burst_never_limits_witness :
  Forall (fun ok => ok = true)
    (rate_limit_calls [5; 5; 5; 6; 7; 1000] 1 0 (demo_target Static "1.0.0.1" ∅) (mk_heap 6%positive ∅ ∅ ∅ {[5%positive := bucket_new]})).
Proof.
  apply zero_burst_never_limits; [unfold params_ok, SCALE; lia|reflexivity|reflexivity|by left].
Defined.
