(* ===== verification/Weights.v ===== *)
(** * Weights: the slots of a route

    [Route::compute_weights] of src/src/route/table.rs: the weights of the
    targets, the slot list the pickers draw from, and its interleaving. *)
From S2P Require Import Prelude F64 Stats Target.
From Stdlib Require Import Floats.SpecFloat.
Local Open Scope Z_scope.
Local Open Scope rust_scope.

Definition is_fixed (t : Target) : bool := f64_lt f64_zero (fixed_weight t).

Definition f64_of_len {A} (l : list A) : f64 := f64_of_Z (Z.of_nat (length l)).

(** The [weight] of every target. *)
Definition assign_weights (targets : list Target) : list Target :=
  if existsb is_fixed targets then
    let total_fixed := f64_sum (map (fun t => if is_fixed t then fixed_weight t else f64_zero) targets) in
    let dynamic_count := f64_of_len (List.filter (fun t => f64_le (fixed_weight t) f64_zero) targets) in
    let remaining := f64_max (f64_sub f64_one total_fixed) f64_zero in
    let dynamic_weight := if f64_lt f64_zero dynamic_count then f64_div remaining dynamic_count else f64_zero in
    map (fun t => set_weight (if is_fixed t then fixed_weight t else dynamic_weight) t) targets
  else
    let w := f64_div f64_one (f64_of_len targets) in
    map (set_weight w) targets.

Definition slots : f64 := f64_of_Z 1000.

(** Slots of one target: its share of 1000, at least one for a positive
    weight. *)
Definition slot_count (w : f64) : nat :=
  let count := f64_to_usize (f64_round (f64_mul (f64_clamp w f64_zero (f64_of_Z 1000)) slots)) in
  if (count =? 0) && f64_lt f64_zero w then 1%nat else Z.to_nat count.

(** A slot is a clone of the [Arc] of the target at some index; two slots are
    the same pointer exactly when they come from the same index. *)
Definition indexed {A} (l : list A) : list (nat * A) := combine (seq 0 (length l)) l.

Definition grouped_slots (targets : list Target) : list (nat * Target) :=
  concat (map (fun it => repeat it (slot_count (weight it.2))) (indexed targets)).

(** Equal distribution, when every weight is zero. *)
Definition fallback_slots (targets : list Target) : list (nat * Target) :=
  let w := f64_div f64_one (f64_of_len targets) in
  let count := f64_to_usize (f64_round (f64_mul w slots)) in
  concat (map (fun it => repeat it (Z.to_nat (Z.max count 1))) (indexed targets)).

Definition initial_slots (targets : list Target) : list (nat * Target) :=
  match grouped_slots targets with
  | [] => fallback_slots targets
  | l => l
  end.

(** ** The interleaving *)

(** Runs of the same pointer, with their lengths. *)
Fixpoint group_runs (l : list (nat * Target)) : list (nat * Target * nat) :=
  match l with
  | [] => []
  | x :: l' =>
      match group_runs l' with
      | (y, c) :: rs => if (y.1 =? x.1)%nat then (x, S c) :: rs else (x, 1%nat) :: (y, c) :: rs
      | [] => [(x, 1%nat)]
      end
  end.

(** The scan for the group with the smallest position among those with
    slots left. *)
Fixpoint best_group_loop (g : nat) (remaining : list Z) (positions : list f64) (best_group : nat) (best_pos : f64) : nat :=
  match remaining, positions with
  | r :: remaining', p :: positions' =>
      if (0 <? r) && f64_lt p best_pos
      then best_group_loop (S g) remaining' positions' g p
      else best_group_loop (S g) remaining' positions' best_group best_pos
  | _, _ => best_group
  end.

Definition best_group (remaining : list Z) (positions : list f64) : nat :=
  best_group_loop 0 remaining positions 0 f64_MAX.

Definition stride (n : nat) (count : nat) : f64 :=
  if (0 <? count)%nat then f64_div (f64_of_Z (Z.of_nat n)) (f64_of_Z (Z.of_nat count)) else f64_MAX.

(** [steps] turns of the loop; [None] is the panic of an index out of
    range. *)
Fixpoint interleave_loop {A} (steps n : nat) (runs : list (A * nat)) (remaining : list Z) (positions : list f64) : option (list A) :=
  match steps with
  | O => Some []
  | S steps' =>
      let g := best_group remaining positions in
      match runs !! g, remaining !! g, positions !! g with
      | Some (t, c), Some r, Some p =>
          match interleave_loop steps' n runs (<[g := r -w 1]> remaining) (<[g := f64_add p (stride n c)]> positions) with
          | Some l => Some (t :: l)
          | None => None
          end
      | _, _, _ => None
      end
  end.

Definition start_position (total_remaining : nat) (count : nat) : f64 :=
  let group_total := f64_of_Z (Z.of_nat count) in
  if f64_lt f64_zero group_total
  then f64_mul (f64_div (f64_of_Z (Z.of_nat total_remaining)) group_total) f64_half
  else f64_MAX.

Definition interleave {A} (n : nat) (runs : list (A * nat)) : option (list A) :=
  let remaining := map (fun r => Z.of_nat r.2) runs in
  let total_remaining := sum_list (map snd runs) in
  let positions := map (fun r => start_position total_remaining r.2) runs in
  interleave_loop n n runs remaining positions.

(** [w_targets] for the weighted targets; the interleaving never panics (see
    [interleave_permutes]). *)
Definition weighted_slots (targets : list Target) : list Target :=
  let w := initial_slots targets in
  if (1 <? length targets)%nat then
    let runs := group_runs w in
    if (1 <? length runs)%nat then
      match interleave (length w) runs with
      | Some l => map snd l
      | None => map snd w
      end
    else map snd w
  else map snd w.

(** [compute_weights] on [targets]: the targets with their weights, and the
    slots. *)
Definition compute_weights (targets : list Target) : list Target * list Target :=
  match targets with
  | [] => ([], [])
  | _ => let targets := assign_weights targets in (targets, weighted_slots targets)
  end.

(** ** The interleaving is a permutation *)

Section interleaving.
Context {A : Type}.
Implicit Types (runs : list (A * nat)).

(** The slots still to be placed. *)
Definition left_over runs (remaining : list Z) : list A :=
  concat (zip_with (fun (r : A * nat) k => repeat r.1 (Z.to_nat k)) runs remaining).

(** A group that has been picked [k] times is at most [k + 1] strides of at
    most [2^52] along; positions are positive finite numbers. *)
Definition pos_bound (p : f64) (k : Z) : Prop := pos_fin p /\ fval p <= (k + 1) * 2 ^ (52 + 1074).

Definition group_ok (n : nat) (r : A * nat) (rem : Z) (p : f64) : Prop :=
  0 <= rem <= Z.of_nat r.2 /\ (0 < r.2 <= n)%nat /\ pos_bound p (Z.of_nat r.2 - rem).

Lemma best_group_loop_spec g remaining positions b bp :
  length positions = length remaining ->
  let res := best_group_loop g remaining positions b bp in
  res = b \/ exists i r p, res = (g + i)%nat /\ remaining !! i = Some r /\ positions !! i = Some p /\ 0 < r.
Proof.
  revert g positions b bp. induction remaining as [|r rem IH]; intros g [|p pos] b bp Hlen; cbn in *; try done; [by left|].
  injection Hlen as Hlen.
  destruct ((0 <? r) && f64_lt p bp) eqn:E.
  - apply andb_true_iff in E as [E%Z.ltb_lt _]. right.
    destruct (IH (S g) pos g p Hlen) as [->|(i & r' & p' & -> & Hr & Hp & Hpos)].
    + exists 0%nat, r, p. split_and!; done || lia.
    + exists (S i), r', p'. split_and!; done || lia.
  - destruct (IH (S g) pos b bp Hlen) as [->|(i & r' & p' & -> & Hr & Hp & Hpos)]; [by left|]. right.
    exists (S i), r', p'. split_and!; done || lia.
Qed.

(** Starting from [f64::MAX], the scan finds a group with slots left if there
    is one whose position is below [f64::MAX]. *)
Lemma best_group_loop_finds g remaining positions b i r p :
  length positions = length remaining -> remaining !! i = Some r -> positions !! i = Some p -> 0 < r -> f64_lt p f64_MAX = true ->
  exists j r' p', best_group_loop g remaining positions b f64_MAX = (g + j)%nat
    /\ remaining !! j = Some r' /\ positions !! j = Some p' /\ 0 < r'.
Proof.
  revert g positions b i. induction remaining as [|r0 rem IH]; intros g [|p0 pos] b i Hlen Hr Hp Hpos Hlt; try done.
  cbn in Hlen. injection Hlen as Hlen. cbn [best_group_loop].
  destruct ((0 <? r0) && f64_lt p0 f64_MAX) eqn:E.
  - apply andb_true_iff in E as [E%Z.ltb_lt _].
    destruct (best_group_loop_spec (S g) rem pos g p0 Hlen) as [->|(j & r' & p' & -> & ? & ? & ?)].
    + exists 0%nat, r0, p0. split_and!; done || lia.
    + exists (S j), r', p'. split_and!; done || lia.
  - destruct i as [|i]; cbn in Hr, Hp.
    + simplify_eq. apply Z.ltb_lt in Hpos. by rewrite Hpos, Hlt in E.
    + destruct (IH (S g) pos b i Hlen Hr Hp Hpos Hlt) as (j & r' & p' & -> & ? & ? & ?).
      exists (S j), r', p'. split_and!; done || lia.
Qed.

Lemma stride_bounds n c :
  (0 < c <= n)%nat -> Z.of_nat n < 2 ^ 52 -> pos_fin (stride n c) /\ fval (stride n c) <= 2 ^ (52 + 1074).
Proof.
  intros Hc Hn. unfold stride. destruct (Nat.ltb_spec 0 c); [|lia].
  destruct (f64_div_int_bounds (Z.of_nat n) (Z.of_nat c) 52) as (Hp & _ & Hle); [lia|lia|lia|lia|done].
Qed.

Lemma start_position_bound n c :
  (0 < c <= n)%nat -> Z.of_nat n < 2 ^ 52 -> pos_bound (start_position n c) 0.
Proof.
  intros Hc Hn. unfold start_position.
  destruct (f64_of_Z_bounds (Z.of_nat c)) as [Hcp Hcv]; [lia|].
  assert (f64_lt f64_zero (f64_of_Z (Z.of_nat c)) = true) as ->.
  { destruct Hcp as (m & e & -> & _). done. }
  destruct (f64_div_int_bounds (Z.of_nat n) (Z.of_nat c) 52) as (Hp & H1 & Hle); [lia|lia|lia|lia|].
  assert (HB : representable (2 ^ (51 + 1074))).
  { replace (2 ^ (51 + 1074)) with (1 * 2 ^ (51 + 1074)) by lia. apply representable_int; lia. }
  assert (E2 : 2 ^ (52 + 1074) = 2 * 2 ^ (51 + 1074)).
  { replace (52 + 1074) with (1 + (51 + 1074)) by lia. by rewrite Z.pow_add_r by lia. }
  destruct (f64_half_mul_bounds _ _ Hp H1 HB) as [Hq Hql]; [lia|].
  split; [done|]. pose proof (pow2_pos (51 + 1074)). lia.
Qed.

Lemma pos_bound_step n c p k :
  (0 < c <= n)%nat -> Z.of_nat n < 2 ^ 52 -> 0 <= k < Z.of_nat n -> pos_bound p k -> pos_bound (f64_add p (stride n c)) (k + 1).
Proof.
  intros Hc Hn Hk [Hp Hpv]. destruct (stride_bounds n c Hc Hn) as [Hs Hsv].
  apply f64_add_bounds; [done|done| |lia]. apply (representable_int (k + 1 + 1) 52); lia.
Qed.

Lemma pos_bound_lt_MAX n p k : pos_bound p k -> 0 <= k <= Z.of_nat n -> Z.of_nat n < 2 ^ 52 -> f64_lt p f64_MAX = true.
Proof. intros [Hp Hv] Hk Hn. apply (f64_lt_MAX p (k + 1)); [done|done|lia]. Qed.

Lemma left_over_step runs remaining g (t : A) c r :
  runs !! g = Some (t, c) -> remaining !! g = Some r -> 0 < r ->
  left_over runs remaining ≡ₚ t :: left_over runs (<[g := r - 1]> remaining).
Proof.
  revert runs g. induction remaining as [|r0 rem IH]; intros [|[t0 c0] runs] [|g] Hg Hr Hpos; try done; cbn in *.
  - simplify_eq. unfold left_over. cbn. replace (Z.to_nat r) with (S (Z.to_nat (r - 1))) by lia. done.
  - unfold left_over in *. cbn. rewrite (IH _ _ Hg Hr Hpos). symmetry. apply Permutation_middle.
Qed.

Definition groups_ok (n : nat) runs (remaining : list Z) (positions : list f64) : Prop :=
  length remaining = length runs /\ length positions = length runs
  /\ forall i x r p, runs !! i = Some x -> remaining !! i = Some r -> positions !! i = Some p -> group_ok n x r p.

Lemma left_over_positive runs remaining :
  length remaining = length runs -> left_over runs remaining <> [] -> exists i r, remaining !! i = Some r /\ 0 < r.
Proof.
  revert runs. induction remaining as [|r rem IH]; intros [|[t c] runs] Hlen Hne; try done.
  destruct (Z_lt_le_dec 0 r); [by exists 0%nat, r|].
  injection Hlen as Hlen. destruct (IH runs Hlen) as (i & r' & Hr & Hpos); [|by exists (S i), r'].
  unfold left_over in Hne. cbn in Hne. by replace (Z.to_nat r) with 0%nat in Hne by lia.
Qed.

Lemma groups_ok_step n runs remaining positions g t c r p :
  Z.of_nat n < 2 ^ 52 -> groups_ok n runs remaining positions ->
  runs !! g = Some (t, c) -> remaining !! g = Some r -> positions !! g = Some p -> 0 < r ->
  groups_ok n runs (<[g := r - 1]> remaining) (<[g := f64_add p (stride n c)]> positions).
Proof.
  intros Hn (Hl1 & Hl2 & Hok) Hg Hr Hp Hpos. split_and!; [by rewrite length_insert..|].
  intros i x r' p' Hx Hr' Hp'. destruct (decide (i = g)) as [->|Hne].
  - rewrite list_lookup_insert_eq in Hr' by (by eapply lookup_lt_Some).
    rewrite list_lookup_insert_eq in Hp' by (by eapply lookup_lt_Some). simplify_eq.
    destruct (Hok g _ _ _ Hg Hr Hp) as (Hrem & Hc & Hb). unfold group_ok. cbn [fst snd] in *.
    split; [lia|]. split; [done|]. replace (Z.of_nat c - (r - 1)) with (Z.of_nat c - r + 1) by lia.
    apply pos_bound_step; done || lia.
  - rewrite list_lookup_insert_ne in Hr' by done. rewrite list_lookup_insert_ne in Hp' by done. by eapply Hok.
Qed.

Lemma interleave_loop_permutes steps n runs remaining positions :
  Z.of_nat n < 2 ^ 52 -> groups_ok n runs remaining positions -> steps = length (left_over runs remaining) ->
  exists l, interleave_loop steps n runs remaining positions = Some l /\ l ≡ₚ left_over runs remaining.
Proof.
  intros Hn. revert remaining positions.
  induction steps as [|steps IH]; intros remaining positions Hok Hsteps; cbn [interleave_loop].
  - exists []. split; [done|]. symmetry in Hsteps. apply nil_length_inv in Hsteps. by rewrite Hsteps.
  - pose proof Hok as (Hl1 & Hl2 & Hgs).
    destruct (left_over_positive runs remaining Hl1) as (i & r0 & Hr0 & Hpos0); [by intros E; rewrite E in Hsteps|].
    assert (exists p0, positions !! i = Some p0) as [p0 Hp0].
    { apply lookup_lt_is_Some. rewrite Hl2, <- Hl1. by eapply lookup_lt_Some. }
    assert (exists x0, runs !! i = Some x0) as [x0 Hx0].
    { apply lookup_lt_is_Some. rewrite <- Hl1. by eapply lookup_lt_Some. }
    assert (Hlt : f64_lt p0 f64_MAX = true).
    { destruct (Hgs i _ _ _ Hx0 Hr0 Hp0) as (? & ? & Hb). apply (pos_bound_lt_MAX n _ _ Hb); [lia|done]. }
    destruct (best_group_loop_finds 0 remaining positions 0 i r0 p0) as (g & r & p & Hbest & Hr & Hp & Hpos);
      [congruence|done..|].
    unfold best_group. rewrite Hbest. cbn [Nat.add]. rewrite Hr, Hp.
    assert (exists x, runs !! g = Some x) as [[t c] Hg].
    { apply lookup_lt_is_Some. rewrite <- Hl1. by eapply lookup_lt_Some. }
    rewrite Hg. destruct (Hgs g _ _ _ Hg Hr Hp) as (Hrem & Hc & _). cbn in Hrem, Hc.
    rewrite wrapping_sub_small by (unfold is_u64; lia).
    pose proof (left_over_step runs remaining g t c r Hg Hr Hpos) as Hstep.
    destruct (IH (<[g := r - 1]> remaining) (<[g := f64_add p (stride n c)]> positions)) as (l & -> & Hl).
    + by apply (groups_ok_step n runs remaining positions g t c r p).
    + rewrite Hstep in Hsteps. cbn in Hsteps. lia.
    + exists (t :: l). split; [done|]. by rewrite Hl, <- Hstep.
Qed.

Definition run_slots runs : list A := concat (map (fun r => repeat r.1 r.2) runs).

Lemma left_over_start runs : left_over runs (map (fun r => Z.of_nat r.2) runs) = run_slots runs.
Proof.
  unfold left_over, run_slots. induction runs as [|[t c] runs IH]; [done|]. cbn. by rewrite Nat2Z.id, IH.
Qed.

Lemma run_slots_length runs : length (run_slots runs) = sum_list (map snd runs).
Proof. unfold run_slots. induction runs as [|[t c] runs IH]; [done|]. cbn. by rewrite length_app, repeat_length, IH. Qed.

Lemma run_count_le runs i x : runs !! i = Some x -> (x.2 <= sum_list (map snd runs))%nat.
Proof.
  revert i. induction runs as [|[t c] runs IH]; intros [|i] Hx; try done; cbn in *; [by simplify_eq/=; lia|].
  apply IH in Hx. lia.
Qed.

(** The loop places every slot exactly once, whatever the rounding. *)
Lemma interleave_permutes runs :
  Forall (fun r => 0 < r.2)%nat runs -> Z.of_nat (length (run_slots runs)) < 2 ^ 52 ->
  exists l, interleave (length (run_slots runs)) runs = Some l /\ l ≡ₚ run_slots runs.
Proof.
  intros Hpos Hn. unfold interleave. rewrite run_slots_length in *. set (n := sum_list (map snd runs)) in *.
  destruct (interleave_loop_permutes n n runs (map (fun r => Z.of_nat r.2) runs)
              (map (fun r => start_position n r.2) runs)) as (l & Hl & Hperm); [done| | |].
  - split_and!; [by rewrite length_map..|]. intros i x r p Hx Hr Hp.
    change (map ?f ?l) with (f <$> l) in Hr. change (map ?f ?l) with (f <$> l) in Hp.
    rewrite list_lookup_fmap, Hx in Hr. rewrite list_lookup_fmap, Hx in Hp. cbn in Hr, Hp. simplify_eq.
    assert (Hc : (0 < x.2 <= n)%nat).
    { split; [|by eapply run_count_le]. rewrite Forall_lookup in Hpos. by eapply (Hpos i). }
    split; [lia|]. split; [done|]. rewrite Z.sub_diag. by apply start_position_bound.
  - by rewrite left_over_start, run_slots_length.
  - exists l. split; [done|]. by rewrite Hperm, left_over_start.
Qed.
End interleaving.

(** ** The slots of a route *)

Lemma group_runs_pos l : Forall (fun r => 0 < r.2)%nat (group_runs l).
Proof.
  induction l as [|x l IH]; [done|]. cbn. destruct (group_runs l) as [|[y c] rs]; [by repeat constructor|].
  apply Forall_cons in IH as [Hc IH]. destruct (_ =? _)%nat; repeat constructor; cbn in *; done || lia.
Qed.

(** Two slots with the same index hold the same target. *)
Definition same_index (l : list (nat * Target)) : Prop := forall x y, x ∈ l -> y ∈ l -> x.1 = y.1 -> x = y.

Lemma group_runs_slots l : same_index l -> run_slots (group_runs l) = l.
Proof.
  induction l as [|x l IH]; [done|]. intros Hs. cbn.
  assert (IHl : run_slots (group_runs l) = l) by (apply IH; intros a b Ha Hb; apply Hs; by right).
  destruct (group_runs l) as [|[y c] rs] eqn:E.
  - unfold run_slots. cbn in *. by rewrite <- IHl.
  - destruct (Nat.eqb_spec y.1 x.1) as [Exy|].
    + assert (Hc : (0 < c)%nat) by (pose proof (group_runs_pos l) as Hp; rewrite E in Hp; by apply Forall_cons in Hp as [? _]).
      assert (y = x) as ->.
      { apply Hs; [right|by left|done]. rewrite <- IHl. unfold run_slots. cbn. destruct c; [lia|]. by left. }
      unfold run_slots in *. cbn in *. by rewrite IHl.
    + unfold run_slots in *. cbn in *. by rewrite IHl.
Qed.

Lemma indexed_lookup {A} (l : list A) x : x ∈ indexed l -> l !! x.1 = Some x.2.
Proof.
  unfold indexed. intros Hx.
  assert (Hgen : forall k (l : list A), x ∈ combine (seq k (length l)) l -> (k <= x.1)%nat /\ l !! (x.1 - k)%nat = Some x.2).
  { intros k l'. revert k. induction l' as [|a l' IH]; intros k Hin; cbn in Hin; [by apply elem_of_nil in Hin|].
    apply elem_of_cons in Hin as [->|Hin]; [cbn; by rewrite Nat.sub_diag|].
    apply IH in Hin as [Hle Hl]. split; [lia|]. by replace (x.1 - k)%nat with (S (x.1 - S k)) by lia. }
  apply Hgen in Hx as [_ Hx]. by rewrite Nat.sub_0_r in Hx.
Qed.

Lemma slots_same_index (f : nat * Target -> nat) (targets : list Target) :
  same_index (concat (map (fun it => repeat it (f it)) (indexed targets))).
Proof.
  assert (Hin : forall x, x ∈ concat (map (fun it => repeat it (f it)) (indexed targets)) -> targets !! x.1 = Some x.2).
  { intros x Hx. rewrite list_elem_of_In in Hx. apply in_concat in Hx as (l & Hl & Hx).
    apply in_map_iff in Hl as (it & <- & Hit). apply repeat_spec in Hx as ->. by apply indexed_lookup, list_elem_of_In. }
  intros [i t] [j u] Hx Hy E. apply Hin in Hx, Hy. cbn in *. subst. congruence.
Qed.

Lemma initial_slots_same_index targets : same_index (initial_slots targets).
Proof.
  unfold initial_slots. pose proof (slots_same_index (fun it => slot_count (weight it.2)) targets) as H.
  change (same_index (grouped_slots targets)) in H. destruct (grouped_slots targets) eqn:E; [|done].
  unfold fallback_slots. apply (slots_same_index (fun _ => _)).
Qed.

(** The interleaved list is a rearrangement of the slots. *)
Lemma weighted_slots_perm targets :
  Z.of_nat (length (initial_slots targets)) < 2 ^ 52 -> weighted_slots targets ≡ₚ map snd (initial_slots targets).
Proof.
  intros Hn. unfold weighted_slots. destruct (1 <? length targets)%nat; [|done].
  destruct (1 <? length (group_runs _))%nat; [|done].
  pose proof (group_runs_slots _ (initial_slots_same_index targets)) as Hrs.
  destruct (interleave_permutes (group_runs (initial_slots targets)) (group_runs_pos _)) as (l & Hl & Hp); [by rewrite Hrs|].
  rewrite Hrs in Hl, Hp. rewrite Hl. by rewrite Hp.
Qed.

Lemma map_snd_repeat (f : Target -> nat) k (l : list Target) :
  map snd (concat (map (fun it => repeat it (f it.2)) (combine (seq k (length l)) l)))
  = concat (map (fun t => repeat t (f t)) l).
Proof.
  revert k. induction l as [|t l IH]; intros k; [done|]. cbn [length seq combine map concat].
  rewrite map_app, IH. f_equal. cbn. by rewrite map_repeat.
Qed.

(** How many slots a target of the route has: its weighted share, or the
    equal share when no target has any. *)
Definition equal_share (targets : list Target) : nat :=
  Z.to_nat (Z.max (f64_to_usize (f64_round (f64_mul (f64_div f64_one (f64_of_len targets)) slots))) 1).
Definition slot_share (targets : list Target) (t : Target) : nat :=
  match grouped_slots targets with [] => equal_share targets | _ => slot_count (weight t) end.

Lemma initial_slots_snd targets :
  map snd (initial_slots targets) = concat (map (fun t => repeat t (slot_share targets t)) targets).
Proof.
  unfold initial_slots, slot_share. destruct (grouped_slots targets) eqn:E.
  - apply (map_snd_repeat (fun _ => _)).
  - rewrite <- E. apply (map_snd_repeat (fun t => slot_count (weight t))).
Qed.

Lemma f64_to_usize_nonneg x : 0 <= f64_to_usize x.
Proof.
  destruct x as [|[]| |[] m e]; cbn; try done. apply Z.min_glb; [|done].
  destruct (Z.leb_spec 0 e).
  - apply Z.mul_nonneg_nonneg; [lia|apply Z.pow_nonneg; lia].
  - apply Z.div_pos; [lia|apply Z.pow_pos_nonneg; lia].
Qed.

Lemma slot_count_positive w : f64_lt f64_zero w = true -> (0 < slot_count w)%nat.
Proof.
  intros Hw. unfold slot_count. rewrite Hw, andb_true_r. set (c := f64_to_usize _).
  pose proof (f64_to_usize_nonneg (f64_round (f64_mul (f64_clamp w f64_zero (f64_of_Z 1000)) slots))) as Hc. fold c in Hc.
  destruct (Z.eqb_spec c 0); lia.
Qed.

Lemma equal_share_positive targets : (0 < equal_share targets)%nat.
Proof. unfold equal_share. lia. Qed.

Lemma slots_nonempty targets :
  targets <> [] -> concat (map (fun t => repeat t (slot_share targets t)) targets) <> [].
Proof.
  intros Hne E. rewrite <- initial_slots_snd in E. apply map_eq_nil in E. unfold initial_slots in E.
  destruct (grouped_slots targets) eqn:Eg; [|done].
  unfold fallback_slots, indexed in E. destruct targets as [|t l]; [done|]. cbn [length seq combine map concat] in E.
  apply app_eq_nil in E as [E _]. destruct (Z.to_nat (Z.max _ 1)) eqn:En; [lia|done].
Qed.

(** The number of slots of a route stays far from what an index of 52 bits
    can count (each slot is a pointer: the address space holds fewer). *)
Definition slots_fit (targets : list Target) : Prop := Z.of_nat (length (initial_slots (assign_weights targets))) < 2 ^ 52.

Lemma assign_weights_map targets :
  exists f, assign_weights targets = map (fun t => set_weight (f t) t) targets.
Proof.
  unfold assign_weights. destruct (existsb is_fixed targets); [|by eexists (fun _ => _)].
  by eexists (fun t => if is_fixed t then fixed_weight t else _).
Qed.

Lemma compute_weights_perm targets :
  targets <> [] -> slots_fit targets ->
  let '(ts, w) := compute_weights targets in
  (exists f, ts = map (fun t => set_weight (f t) t) targets)
  /\ w ≡ₚ concat (map (fun t => repeat t (slot_share ts t)) ts)
  /\ w <> []
  /\ (forall t, t ∈ ts -> f64_lt f64_zero (weight t) = true -> t ∈ w).
Proof.
  intros Hne Hfit. unfold compute_weights, slots_fit in *. destruct targets as [|t0 targets]; [done|].
  set (l := t0 :: targets) in *. set (ts := assign_weights l) in *.
  destruct (assign_weights_map l) as [f Hf]. fold ts in Hf.
  assert (Hperm : weighted_slots ts ≡ₚ concat (map (fun t => repeat t (slot_share ts t)) ts)).
  { rewrite weighted_slots_perm by done. by rewrite initial_slots_snd. }
  split_and!; [by exists f|done| |].
  - intros E. rewrite E in Hperm. symmetry in Hperm. apply Permutation_nil_r in Hperm.
    apply slots_nonempty in Hperm; [done|]. by rewrite Hf.
  - intros t Ht Hw. rewrite Hperm. rewrite list_elem_of_In, in_concat. exists (repeat t (slot_share ts t)).
    split; [apply in_map_iff; exists t; split; [done|by apply list_elem_of_In]|].
    assert (Hpos : (0 < slot_share ts t)%nat).
    { unfold slot_share. destruct (grouped_slots ts); [apply equal_share_positive|by apply slot_count_positive]. }
    destruct (slot_share ts t); [lia|by left].
Qed.

(** Whatever the number of slots, only targets have slots. *)
Lemma interleave_loop_in {A} steps n (runs : list (A * nat)) remaining positions l x :
  interleave_loop steps n runs remaining positions = Some l -> x ∈ l -> exists c, (x, c) ∈ runs.
Proof.
  revert remaining positions l. induction steps as [|steps IH]; intros remaining positions l; cbn; [by intros [= <-] ?%elem_of_nil|].
  destruct (runs !! _) as [[t c]|] eqn:E; [|done]. destruct (remaining !! _); [|done]. destruct (positions !! _); [|done].
  destruct (interleave_loop _ _ _ _ _) as [l'|] eqn:El; [|done]. intros [= <-] [->|Hx]%elem_of_cons; [|by eapply IH].
  exists c. by eapply list_elem_of_lookup_2.
Qed.

Lemma group_runs_in l x c : (x, c) ∈ group_runs l -> x ∈ l.
Proof.
  revert c. induction l as [|y l IH]; intros c; cbn; [by intros ?%elem_of_nil|].
  destruct (group_runs l) as [|[z d] rs]; [intros [= -> _]%list_elem_of_singleton; by left|].
  destruct (_ =? _)%nat; intros [E|Hx]%elem_of_cons; try (injection E as -> _; by left); right.
  - apply (IH c). by right.
  - by apply (IH c).
Qed.

Lemma slots_of_in (f : nat * Target -> nat) ts x : x ∈ concat (map (fun it => repeat it (f it)) (indexed ts)) -> x.2 ∈ ts.
Proof.
  rewrite list_elem_of_In, in_concat. intros (l & (it & <- & Hit)%in_map_iff & Hx). apply repeat_spec in Hx as ->.
  apply list_elem_of_In. destruct it as [i t]. by apply (in_combine_r _ _ _ _ Hit).
Qed.

Lemma weighted_slots_in ts t : t ∈ weighted_slots ts -> t ∈ ts.
Proof.
  assert (Hi : forall x, x ∈ initial_slots ts -> x.2 ∈ ts).
  { intros x. unfold initial_slots. destruct (grouped_slots ts) as [|y l] eqn:E; [apply (slots_of_in (fun _ => _))|].
    rewrite <- E. apply (slots_of_in (fun it => slot_count (weight it.2))). }
  assert (Hm : forall l, (forall x, x ∈ l -> x ∈ initial_slots ts) -> t ∈ map snd l -> t ∈ ts).
  { intros l Hl (x & <- & Hx)%list_elem_of_In%in_map_iff. by apply Hi, Hl, list_elem_of_In. }
  unfold weighted_slots. destruct (1 <? _)%nat; [|by apply Hm]. destruct (1 <? _)%nat; [|by apply Hm].
  destruct (interleave _ _) as [l|] eqn:E; [|by apply Hm]. apply Hm. intros x Hx.
  destruct (interleave_loop_in _ _ _ _ _ _ _ E Hx) as [c Hc]. by eapply group_runs_in.
Qed.

Lemma weighted_slots_nonempty ts : ts <> [] -> weighted_slots ts <> [].
Proof.
  intros Hne. assert (Hi : initial_slots ts <> []).
  { intros E. apply (slots_nonempty ts Hne). rewrite <- initial_slots_snd. by rewrite E. }
  assert (Hm : map snd (initial_slots ts) <> []) by (by intros E%map_eq_nil).
  unfold weighted_slots. destruct (1 <? _)%nat; [|done]. destruct (1 <? _)%nat; [|done].
  destruct (interleave _ _) as [l|] eqn:E; [|done]. intros El%map_eq_nil. subst l.
  unfold interleave in E. destruct (length (initial_slots ts)) as [|n] eqn:En; [by apply nil_length_inv in En|].
  cbn in E. repeat (case_match; try done).
Qed.

Lemma compute_weights_nonempty targets : (compute_weights targets).1 <> [] -> (compute_weights targets).2 <> [].
Proof. unfold compute_weights. destruct targets as [|t0 ts]; [done|]. apply weighted_slots_nonempty. Qed.

Lemma compute_weights_slots targets t : t ∈ (compute_weights targets).2 -> t ∈ (compute_weights targets).1.
Proof. unfold compute_weights. destruct targets as [|t0 ts]; [done|]. apply weighted_slots_in. Qed.

(** C20: [compute_weights] gives every target exactly its share of slots: the
    interleaved slot list of a route is a rearrangement of [slot_share] copies
    of each target (the floating-point interleaving neither loses nor invents
    a slot, nor panics), it is never empty for a route with targets, a target
    of positive weight always has a slot, and nothing but the weight of a
    target changes. *)
Theorem compute_weights_shares targets :
  targets <> [] -> slots_fit targets ->
  let '(ts, w) := compute_weights targets in
  (exists f, ts = map (fun t => set_weight (f t) t) targets)
  /\ w ≡ₚ concat (map (fun t => repeat t (slot_share ts t)) ts)
  /\ w <> []
  /\ (forall t, t ∈ ts -> f64_lt f64_zero (weight t) = true -> t ∈ w).
Proof. apply compute_weights_perm. Qed.

(** Without fixed weights the split is equal: every target of the route
    has the same number of slots. *)
Theorem no_fixed_weight_equal_shares targets t u :
  existsb is_fixed targets = false ->
  t ∈ (compute_weights targets).1 -> u ∈ (compute_weights targets).1 ->
  slot_share (compute_weights targets).1 t = slot_share (compute_weights targets).1 u.
Proof.
  intros Hno. unfold compute_weights. destruct targets as [|t0 targets]; [cbn; intros H; by apply elem_of_nil in H|].
  set (l := t0 :: targets) in *. cbn [fst]. unfold assign_weights. rewrite Hno. intros Ht Hu.
  rewrite list_elem_of_In, in_map_iff in Ht, Hu. destruct Ht as (t' & <- & _), Hu as (u' & <- & _).
  unfold slot_share. by destruct (grouped_slots _).
Qed.

Definition demo (u : string) (fw : f64) : Target :=
  set_fixed_weight fw (mk_target "svc" u f64_zero f64_zero [] ∅ Routes.Static None None false Http 1%positive 2%positive 3%positive 4%positive 5%positive).

Lemma compute_weights_shares_witness :
  let targets := [demo "a" (f64_of_decimal false 7 (-1)); demo "b" (f64_of_decimal false 3 (-1))] in
  map (slot_share (compute_weights targets).1) (compute_weights targets).1 = [700; 300]%nat
  /\ let '(ts, w) := compute_weights targets in
     (exists f, ts = map (fun t => set_weight (f t) t) targets)
     /\ w ≡ₚ concat (map (fun t => repeat t (slot_share ts t)) ts)
     /\ w <> []
     /\ (forall t, t ∈ ts -> f64_lt f64_zero (weight t) = true -> t ∈ w).
Proof.
  split; [vm_compute; reflexivity|].
  apply (compute_weights_shares [demo "a" (f64_of_decimal false 7 (-1)); demo "b" (f64_of_decimal false 3 (-1))]);
    [discriminate|vm_compute; reflexivity].
Defined.

Lemma no_fixed_weight_equal_shares_witness :
  let targets := [demo "a" f64_zero; demo "b" f64_zero; demo "c" f64_zero] in
  let ts := (compute_weights targets).1 in
  slot_share ts (set_weight (f64_div f64_one (f64_of_Z 3)) (demo "a" f64_zero))
  = slot_share ts (set_weight (f64_div f64_one (f64_of_Z 3)) (demo "c" f64_zero)).
Proof.
  apply (no_fixed_weight_equal_shares [demo "a" f64_zero; demo "b" f64_zero; demo "c" f64_zero]);
    [reflexivity|left|right; right; left].
Defined.
