(* ===== verification/Table.v ===== *)
(** * Table: routes and the routing table

    src/src/route/table.rs apart from [Route::compute_weights] (see Weights):
    matchers, routes, the table with its lookups, the application of route
    definitions, and the building of a table from a list of definitions. The
    cells a target shares ([Arc]s) are locations of the heap of Stats. *)
From stdpp Require Import sorting.
From S2P Require Import Prelude F64 RustStr StrFacts Routes RateLimit CircuitBreaker Health Stats Target Weights.
From Stdlib Require Import Ascii String.
Local Open Scope string_scope.
Local Open Scope Z_scope.

Inductive MatcherKind := Prefix | CaseInsensitivePrefix | Glob | Exact.

Definition from_config (s : string) : MatcherKind :=
  if String.eqb s "prefix" || is_empty s then Prefix
  else if String.eqb s "iprefix" then CaseInsensitivePrefix
  else if String.eqb s "glob" then Glob
  else if String.eqb s "exact" then Exact
  else Prefix.

(** The [glob] crate: a compiled pattern, its compilation and its matching. *)
Class GlobCrate := {
  Pattern : Type;
  pattern_new : string -> option Pattern;
  pattern_matches : Pattern -> string -> bool;
}.

Section table.
Context `{GlobCrate}.

Record Route := mk_route {
  host : string;
  path : string;
  glob : option Pattern;
  targets : list Target;
  w_targets : list Target;
  rr_counter : loc;
}.

Definition route_new (hst pth : string) (h : Heap) : Route * Heap :=
  let '(l, h) := alloc_counter 0 h in
  (mk_route hst pth (pattern_new pth) [] [] l, h).

Definition set_targets (ts w : list Target) (r : Route) : Route :=
  mk_route (host r) (path r) (glob r) ts w (rr_counter r).

(** [Route::compute_weights] *)
Definition route_compute_weights (r : Route) : Route :=
  let '(ts, w) := compute_weights (targets r) in set_targets ts w r.

Definition same_target (t target : Target) : bool :=
  String.eqb (service t) (service target) && String.eqb (url t) (url target)
  && f64_eq (fixed_weight t) (fixed_weight target) && bool_decide (source t = source target).

Definition add_target (target : Target) (r : Route) : Route :=
  if existsb (fun t => same_target t target) (targets r) then r
  else set_targets (targets r ++ [target]) (w_targets r) r.

Definition has_tags (tgs : list string) (t : Target) : bool := forallb (fun tag => bool_decide (tag ∈ tags t)) tgs.

(** The closure of [remove_targets]: what is kept. *)
Definition target_retained (svc : string) (tgs : list string) (u : option string) (t : Target) : bool :=
  if negb (is_empty svc) && negb (String.eqb (service t) svc) then true
  else if negb (bool_decide (tgs = [])) && negb (has_tags tgs t) then true
  else match u with Some u => negb (String.eqb (url t) u) | None => false end.

Definition remove_targets (svc : string) (tgs : list string) (u : option string) (r : Route) : Route :=
  set_targets (List.filter (target_retained svc tgs u) (targets r)) (w_targets r) r.

Definition no_targets (r : Route) : bool := match targets r with [] => true | _ => false end.

Definition route_target_count (r : Route) : nat := List.length (targets r).

(** ** The table *)

(** [stats_registry] tells whether the table holds the registry; the registry
    itself is passed to the operations that use it. *)
Record Table := mk_table {
  routes : gmap string (list Route);
  stats_registry : bool;
  cb_config : option CircuitBreakerConfig;
  all_targets_cache : list Target;
}.

Definition table_new : Table := mk_table ∅ false None [].
Definition with_stats_registry : Table := mk_table ∅ true None [].
Definition with_cb_config (c : CircuitBreakerConfig) (t : Table) : Table :=
  mk_table (routes t) (stats_registry t) (Some c) (all_targets_cache t).
Definition set_routes (m : gmap string (list Route)) (t : Table) : Table :=
  mk_table m (stats_registry t) (cb_config t) (all_targets_cache t).

(** [haystack.get(..n)]: the index must not fall inside a character. *)
Definition is_char_boundary (n : nat) (s : string) : bool :=
  match str_drop n s with "" => (n =? String.length s)%nat | String c _ => (n =? 0)%nat || negb (in_range 128 191 c) end.

Definition starts_with_ignore_ascii_case (haystack needle : string) : bool :=
  let n := String.length needle in
  is_char_boundary n haystack && eq_ignore_ascii_case (str_take n haystack) needle.

(** The test of both matching loops. *)
Definition path_matches (matcher : MatcherKind) (p : string) (route : Route) : bool :=
  match matcher with
  | Prefix => starts_with (path route) p || String.eqb (path route) "/"
  | CaseInsensitivePrefix => starts_with_ignore_ascii_case p (path route) || String.eqb (path route) "/"
  | Glob => String.eqb (path route) "/" || match glob route with Some g => pattern_matches g p | None => false end
  | Exact => String.eqb p (path route)
  end.

Definition selects (matcher : MatcherKind) (p : string) (route : Route) : bool :=
  path_matches matcher p route && negb (no_targets route).

Definition find_matching_route (rs : list Route) (p : string) (matcher : MatcherKind) : option Route :=
  List.find (selects matcher p) rs.

Definition collect_matching_routes (rs : list Route) (p : string) (matcher : MatcherKind) (results : list Route) : list Route :=
  results ++ List.filter (selects matcher p) rs.

Definition lookup_route (t : Table) (hst p : string) (matcher : MatcherKind) : option Route :=
  let host_key := to_ascii_lowercase hst in
  match routes t !! host_key ≫= (fun rs => find_matching_route rs p matcher) with
  | Some route => Some route
  | None => routes t !! "" ≫= (fun rs => find_matching_route rs p matcher)
  end.

Definition matching_routes (t : Table) (hst p : string) (matcher : MatcherKind) : list Route :=
  let host_key := to_ascii_lowercase hst in
  let results := match routes t !! host_key with Some rs => collect_matching_routes rs p matcher [] | None => [] end in
  if negb (is_empty host_key) then
    match routes t !! "" with Some rs => collect_matching_routes rs p matcher results | None => results end
  else results.

(** ** The cells of a new target *)

Definition target_locs (t : Target) : gset loc :=
  {[ active_connections t; health_tracker t; target_stats_loc t; edge_stats_loc t; rate_limiter t ]}.

Definition all_targets_of (m : gmap string (list Route)) : list Target :=
  List.concat (map (fun kv => List.concat (map targets kv.2)) (map_to_list m)).

(** The cells the table keeps alive. *)
Definition table_locs (m : gmap string (list Route)) : gset loc := ⋃ (map target_locs (all_targets_of m)).

Section cells.
Context (live : gset loc) (t : Table).

Definition table_active_connections_for (key : string) (r : TargetStatsRegistry) (h : Heap) : loc * TargetStatsRegistry * Heap :=
  if stats_registry t then active_connections_for live key r h
  else let '(l, h) := alloc_counter 0 h in (l, r, h).

Definition table_stats_for (key : string) (r : TargetStatsRegistry) (h : Heap) : loc * TargetStatsRegistry * Heap :=
  if stats_registry t then stats_for live key r h
  else let '(l, h) := alloc_stats TargetStats_default h in (l, r, h).

Definition table_edge_stats_for (key : string) (r : TargetStatsRegistry) (h : Heap) : loc * TargetStatsRegistry * Heap :=
  if stats_registry t then edge_stats_for live key r h
  else let '(l, h) := alloc_stats TargetStats_default h in (l, r, h).

Definition table_health_tracker_for (key : string) (r : TargetStatsRegistry) (h : Heap) : loc * TargetStatsRegistry * Heap :=
  if stats_registry t then health_tracker_for live key (cb_config t) r h
  else let '(l, h) := alloc_tracker (new_tracker (cb_config t)) h in (l, r, h).

Definition table_rate_limiter_for (policy_key : string) (r : TargetStatsRegistry) (h : Heap) : loc * TargetStatsRegistry * Heap :=
  if stats_registry t then rate_limiter_for live policy_key r h
  else let '(l, h) := alloc_bucket bucket_new h in (l, r, h).
End cells.

(** ** Applying definitions *)

Definition def_host (def : RouteDef) : string := to_ascii_lowercase (src_host def).

Definition add_path (def : RouteDef) : string := if is_empty (src_path def) then "/" else "/" ++ src_path def.

Definition path_filter (def : RouteDef) : option string :=
  if is_empty (src_path def) then None else Some ("/" ++ src_path def).

Definition edge_stats_key (def : RouteDef) : string :=
  def_host def ++ unit_sep ++ add_path def ++ unit_sep ++ def_service def ++ unit_sep ++ def_dst def.

(** Replaces the first route of the path, if there is one. *)
Fixpoint update_path (p : string) (f : Route -> Route) (rs : list Route) : option (list Route) :=
  match rs with
  | [] => None
  | r :: rs' => if String.eqb (path r) p then Some (f r :: rs')
                else match update_path p f rs' with Some l => Some (r :: l) | None => None end
  end.

Context `{UrlParser}.

(** The target of an [add]: its cells from the registry (or new ones), its
    URL parsed. [base] are the cells held outside the table. *)
Definition add_def_target (now_ns : Z) (base : gset loc) (def : RouteDef) (t : Table) (r : TargetStatsRegistry) (h : Heap)
  : Target * TargetStatsRegistry * Heap :=
  let live := base ∪ table_locs (routes t) in
  let '(conns, r, h) := table_active_connections_for live t (def_dst def) r h in
  let '(tracker, r, h) := table_health_tracker_for live t (def_dst def) r h in
  let '(st, r, h) := table_stats_for live t (def_dst def) r h in
  let '(edge, r, h) := table_edge_stats_for live t (edge_stats_key def) r h in
  let '(limiter, r, h) := table_rate_limiter_for live t (rate_limiter_registry_key (def_dst def) (def_opts def)) r h in
  let '(target, h) :=
    pre_parse now_ns (mk_target (def_service def) (def_dst def) (def_weight def) f64_zero (def_tags def) (def_opts def)
                        (def_source def) None None false Http conns tracker st edge limiter) h in
  (target, r, h).

Definition apply_add (now_ns : Z) (base : gset loc) (def : RouteDef) (t : Table) (r : TargetStatsRegistry) (h : Heap)
  : Table * TargetStatsRegistry * Heap :=
  let '(target, r, h) := add_def_target now_ns base def t r h in
  let host_routes := default [] (routes t !! def_host def) in
  let add route := route_compute_weights (add_target target route) in
  match update_path (add_path def) add host_routes with
  | Some rs => (set_routes (<[def_host def := rs]> (routes t)) t, r, h)
  | None =>
      let '(route, h) := route_new (def_host def) (add_path def) h in
      (set_routes (<[def_host def := (host_routes ++ [add route])%list]> (routes t)) t, r, h)
  end.

Definition def_url (def : RouteDef) : option string := if is_empty (def_dst def) then None else Some (def_dst def).

Definition path_selected (p : option string) (r : Route) : bool :=
  match p with Some p => String.eqb (path r) p | None => true end.

(** One host list of a [del]: the selected routes lose the targets, and
    routes without targets are dropped. *)
Definition del_in_routes (def : RouteDef) (p : option string) (rs : list Route) : list Route :=
  List.filter (fun r => negb (no_targets r))
    (map (fun r => if path_selected p r
                   then route_compute_weights (remove_targets (def_service def) (def_tags def) (def_url def) r)
                   else r) rs).

(** The host of the definition: its list is updated, and removed when
    empty. *)
Definition del_in_host (def : RouteDef) (m : gmap string (list Route)) : gmap string (list Route) :=
  match m !! def_host def with
  | Some rs =>
      match del_in_routes def (path_filter def) rs with
      | [] => delete (def_host def) m
      | rs' => <[def_host def := rs']> m
      end
  | None => m
  end.

Definition apply_del (def : RouteDef) (t : Table) : Table :=
  if negb (bool_decide (def_tags def = [])) then
    if negb (is_empty (def_host def)) || match path_filter def with Some _ => true | None => false end
    then set_routes (del_in_host def (routes t)) t
    else set_routes (filter (fun kv => kv.2 <> []) (del_in_routes def None <$> routes t)) t
  else set_routes (del_in_host def (routes t)) t.

Definition weight_selected (def : RouteDef) (target : Target) : bool :=
  (is_empty (def_service def) || String.eqb (service target) (def_service def))
  && (bool_decide (def_tags def = []) || has_tags (def_tags def) target).

Definition weight_route (def : RouteDef) (r : Route) : Route :=
  let match_count := List.length (List.filter (weight_selected def) (targets r)) in
  if (match_count =? 0)%nat then r
  else
    let w := f64_div (def_weight def) (f64_of_Z (Z.of_nat match_count)) in
    route_compute_weights
      (set_targets (map (fun t => if weight_selected def t then set_fixed_weight w t else t) (targets r)) (w_targets r) r).

Definition apply_weight (def : RouteDef) (t : Table) : Table :=
  match routes t !! def_host def with
  | Some rs =>
      let update r := if String.eqb (path r) (add_path def) then weight_route def r else r in
      set_routes (<[def_host def := map update rs]> (routes t)) t
  | None => t
  end.

Definition apply (now_ns : Z) (base : gset loc) (def : RouteDef) (t : Table) (r : TargetStatsRegistry) (h : Heap)
  : Table * TargetStatsRegistry * Heap :=
  match cmd def with
  | Routes.Add => apply_add now_ns base def t r h
  | Routes.Del => (apply_del def t, r, h)
  | Routes.Weight => (apply_weight def t, r, h)
  end.

(** ** Building a table *)

(** The order of [sort_by]: longer paths first, then larger ones. *)
Definition specific_first (a b : Route) : bool :=
  match Nat.compare (String.length (path b)) (String.length (path a)) with
  | Lt => true
  | Gt => false
  | Eq => String.leb (path b) (path a)
  end.

Definition before (a b : Route) : Prop := specific_first a b = true.
#[local] Instance before_dec a b : Decision (before a b) := decide (specific_first a b = true).

Definition sort_routes (rs : list Route) : list Route := merge_sort before rs.

Fixpoint dedup_targets (seen : gset string) (ts : list Target) : list Target :=
  match ts with
  | [] => []
  | t :: ts' => if decide (url t ∈ seen) then dedup_targets seen ts' else t :: dedup_targets ({[url t]} ∪ seen) ts'
  end.

(** The iteration order of a [HashMap]: some order of its entries. *)
Class HashOrder := {
  iter_order : gmap string (list Route) -> list (string * list Route);
  iter_order_perm m : iter_order m ≡ₚ map_to_list m;
}.
Context `{HashOrder}.

Definition iter_targets (t : Table) : list (string * Route * Target) :=
  List.concat (map (fun kv => List.concat (map (fun r => map (fun tg => (kv.1, r, tg)) (targets r)) kv.2)) (iter_order (routes t))).

Definition finalize (t : Table) : Table :=
  let m := sort_routes <$> routes t in
  let ts := List.concat (map (fun kv => List.concat (map targets kv.2)) (iter_order m)) in
  mk_table m (stats_registry t) (cb_config t) (dedup_targets ∅ ts).

Fixpoint apply_all (now_ns : Z) (base : gset loc) (defs : list RouteDef) (t : Table) (r : TargetStatsRegistry) (h : Heap)
  : Table * TargetStatsRegistry * Heap :=
  match defs with
  | [] => (t, r, h)
  | def :: defs' => let '(t, r, h) := apply now_ns base def t r h in apply_all now_ns base defs' t r h
  end.

Definition from_definitions (now_ns : Z) (base : gset loc) (defs : list RouteDef) (h : Heap) : Table * Heap :=
  let '(t, _, h) := apply_all now_ns base defs table_new registry_new h in
  (finalize t, h).

Definition from_definitions_with_stats (now_ns : Z) (base : gset loc) (defs : list RouteDef)
    (config : option CircuitBreakerConfig) (r : TargetStatsRegistry) (h : Heap) : Table * TargetStatsRegistry * Heap :=
  let '(t, r, h) := apply_all now_ns base defs (mk_table ∅ true config []) r h in
  (finalize t, r, h).

(** ** Reading a table *)

Definition route_count (t : Table) : nat := sum_list (map (fun kv => List.length kv.2) (iter_order (routes t))).

Definition target_count (t : Table) : nat :=
  sum_list (map route_target_count (List.concat (map snd (iter_order (routes t))))).

Definition all_targets (t : Table) : list Target := all_targets_cache t.

Definition route_is_tcp (r : Route) : bool := negb (no_targets r) && forallb is_tcp (targets r).

Definition parse_listener_port (hst : string) : option Z := parse_u16 (rsplit_next ":"%char hst).

(** The inner loop: the first TCP route is kept, a second one only warns. *)
Fixpoint tcp_scan (matched : option Route) (rs : list Route) : option Route :=
  match rs with
  | [] => matched
  | r :: rs' =>
      if negb (route_is_tcp r) then tcp_scan matched rs'
      else match matched with
           | Some _ => matched
           | None => tcp_scan (Some r) rs'
           end
  end.

Definition lookup_tcp_route (t : Table) (listen_port : Z) : option Route :=
  let suffix := ":" ++ show_uint listen_port in
  match routes t !! suffix ≫= List.find route_is_tcp with
  | Some route => Some route
  | None =>
      fold_left (fun matched kv => if negb (ends_with suffix kv.1) then matched else tcp_scan matched kv.2)
        (iter_order (routes t)) None
  end.

Definition lookup_tcp_route_for_local_addr (t : Table) (local_addr : string) : option Route :=
  match routes t !! local_addr ≫= List.find route_is_tcp with
  | Some route => Some route
  | None => parse_listener_port local_addr ≫= lookup_tcp_route t
  end.

Definition lookup_tcp_sni_route (t : Table) (hst : string) : option Route :=
  routes t !! to_ascii_lowercase hst ≫= List.find (fun r => String.eqb (path r) "/" && route_is_tcp r).

Definition tcp_listener_ports (t : Table) : list Z :=
  let insert_port ports (kv : string * list Route) :=
    if negb (forallb route_is_tcp kv.2) then ports
    else match parse_listener_port kv.1 with Some port => {[port]} ∪ ports | None => ports end in
  merge_sort Z.le (elements (fold_left insert_port (iter_order (routes t)) (∅ : gset Z))).

Definition hosts (t : Table) : list string := (iter_order (routes t)).*1.
Definition get_routes (t : Table) (hst : string) : option (list Route) := routes t !! hst.
Definition all_routes (t : Table) : gmap string (list Route) := routes t.

(** ** The table as a function

    What a table holds, read as a function from host and path to targets,
    without the weights, which [compute_weights] recomputes. *)

Definition core (t : Target) : Target := set_weight f64_zero t.

Definition find_path (p : string) (rs : list Route) : option Route := List.find (fun r => String.eqb (path r) p) rs.

Definition contents (m : gmap string (list Route)) (k p : string) : list Target :=
  match m !! k ≫= find_path p with Some r => map core (targets r) | None => [] end.

(** Which host and path lists a [del] looks at. *)
Definition del_scope (def : RouteDef) (k p : string) : bool :=
  let everywhere := negb (bool_decide (def_tags def = [])) && is_empty (def_host def)
                    && match path_filter def with None => true | Some _ => false end in
  everywhere || (String.eqb k (def_host def) && match path_filter def with Some q => String.eqb p q | None => true end).

Definition reweigh (def : RouteDef) (ts : list Target) : list Target :=
  let w := f64_div (def_weight def) (f64_of_Z (Z.of_nat (List.length (List.filter (weight_selected def) ts)))) in
  map (fun t => if weight_selected def t then set_fixed_weight w t else t) ts.

(** What a definition makes of the function, [tg] being the target of an
    [add]. *)
Definition spec_apply (def : RouteDef) (tg : Target) (f : string -> string -> list Target) (k p : string) : list Target :=
  match cmd def with
  | Routes.Add =>
      if String.eqb k (def_host def) && String.eqb p (add_path def) && negb (existsb (fun t => same_target t tg) (f k p))
      then (f k p ++ [tg])%list else f k p
  | Routes.Del =>
      if del_scope def k p then List.filter (target_retained (def_service def) (def_tags def) (def_url def)) (f k p) else f k p
  | Routes.Weight =>
      if String.eqb k (def_host def) && String.eqb p (add_path def) then reweigh def (f k p) else f k p
  end.

(** Without the cells too, the target of an [add] depends on the definition
    only. *)
Definition erase (t : Target) : Target :=
  mk_target (service t) (url t) (fixed_weight t) f64_zero (tags t) (opts t) (source t) (parsed_host t) (parsed_port t)
    (parsed_tls t) (parsed_protocol t) 1%positive 1%positive 1%positive 1%positive 1%positive.

Definition def_target (def : RouteDef) : Target :=
  erase (pre_parse 0 (mk_target (def_service def) (def_dst def) (def_weight def) f64_zero (def_tags def) (def_opts def)
    (def_source def) None None false Http 1%positive 1%positive 1%positive 1%positive 1%positive) heap_empty).1.

Definition spec_table (defs : list RouteDef) : string -> string -> list Target :=
  fold_left (fun f def => spec_apply def (def_target def) f) defs (fun _ _ => []).

(** ** The invariant of a table *)

Record route_shape (key : string) (r : Route) : Prop := {
  shape_host : host r = key;
  shape_path : exists p, path r = "/" ++ p;
  shape_glob : glob r = pattern_new (path r);
  shape_weights : exists l, compute_weights l = (targets r, w_targets r);
}.

Definition route_ok (key : string) (r : Route) : Prop := route_shape key r /\ targets r <> [].

Record host_ok (key : string) (rs : list Route) : Prop := {
  ok_key : to_ascii_lowercase key = key;
  ok_nonempty : rs <> [];
  ok_paths : NoDup (map path rs);
  ok_routes : Forall (route_ok key) rs;
}.

Definition table_inv (m : gmap string (list Route)) : Prop := map_Forall host_ok m.

Lemma compute_weights_nil ts : (compute_weights ts).1 = [] <-> ts = [].
Proof.
  unfold compute_weights. destruct ts as [|t ts]; [done|]. cbn. destruct (assign_weights_map (t :: ts)) as [f ->]. done.
Qed.

Lemma route_compute_weights_shape key r :
  host r = key -> (exists p, path r = "/" ++ p) -> glob r = pattern_new (path r) -> route_shape key (route_compute_weights r).
Proof.
  intros. unfold route_compute_weights. destruct (compute_weights (targets r)) as [ts w] eqn:E.
  constructor; cbn; try done. by exists (targets r).
Qed.

Lemma route_compute_weights_path r : path (route_compute_weights r) = path r.
Proof. unfold route_compute_weights. by destruct (compute_weights _). Qed.

Lemma route_compute_weights_nil r : targets (route_compute_weights r) = [] <-> targets r = [].
Proof.
  unfold route_compute_weights. pose proof (compute_weights_nil (targets r)). by destruct (compute_weights _).
Qed.

Lemma route_compute_weights_core r : map core (targets (route_compute_weights r)) = map core (targets r).
Proof.
  unfold route_compute_weights, compute_weights. destruct (targets r) as [|t ts]; [done|].
  cbn [fst set_targets targets]. destruct (assign_weights_map (t :: ts)) as [f ->]. by rewrite map_map.
Qed.

(** Re-weighing a route after any change of its targets. *)
Lemma reweighed_shape key ts r : route_shape key r -> route_shape key (route_compute_weights (set_targets ts (w_targets r) r)).
Proof. intros []. by apply route_compute_weights_shape. Qed.

Lemma add_target_shape key t r : route_shape key r -> route_ok key (route_compute_weights (add_target t r)).
Proof.
  intros Hr. unfold add_target. destruct (existsb _ _) eqn:E.
  - split; [destruct Hr; by apply route_compute_weights_shape|]. rewrite route_compute_weights_nil.
    intros En. by rewrite En in E.
  - split; [by apply reweighed_shape|]. rewrite route_compute_weights_nil. cbn. by destruct (targets r).
Qed.

Lemma add_target_path t r : path (route_compute_weights (add_target t r)) = path r.
Proof. rewrite route_compute_weights_path. unfold add_target. by destruct (existsb _ _). Qed.

(** ** Lists of routes *)

Lemma find_path_None p rs : find_path p rs = None <-> p ∉ map path rs.
Proof.
  unfold find_path. induction rs as [|r rs IH]; cbn; [by split; [intros _ H'%elem_of_nil|]|].
  rewrite not_elem_of_cons. destruct (String.eqb_spec (path r) p) as [->|]; [by split; [|intros []]|].
  rewrite IH. split; [intros ?; by split; [apply not_eq_sym|]|by intros []].
Qed.

Lemma find_path_Some p rs r : find_path p rs = Some r -> r ∈ rs /\ path r = p.
Proof. intros H'. apply find_some in H' as [? ?%String.eqb_eq]. by rewrite list_elem_of_In. Qed.

Lemma find_path_elem p rs r : NoDup (map path rs) -> r ∈ rs -> path r = p -> find_path p rs = Some r.
Proof.
  induction rs as [|r0 rs IH]; intros Hnd Hr Hp; [by apply elem_of_nil in Hr|]. cbn in Hnd. apply NoDup_cons in Hnd as [Hr0 Hnd].
  cbn. apply elem_of_cons in Hr as [<-|Hr]; [by rewrite Hp, String.eqb_refl|].
  destruct (String.eqb_spec (path r0) p) as [E|]; [|by apply IH].
  contradict Hr0. rewrite E, <- Hp. apply list_elem_of_In, in_map. by apply list_elem_of_In.
Qed.

Lemma find_path_map p (f : Route -> Route) rs :
  (forall r, path (f r) = path r) -> find_path p (map f rs) = f <$> find_path p rs.
Proof. intros Hf. unfold find_path. induction rs as [|r rs IH]; cbn; [done|]. rewrite Hf. by destruct (String.eqb _ _). Qed.

Lemma find_path_perm p rs rs' : NoDup (map path rs) -> rs ≡ₚ rs' -> find_path p rs' = find_path p rs.
Proof.
  intros Hnd Hp. destruct (find_path p rs) as [r|] eqn:E.
  - apply find_path_Some in E as [Hr Hpath]. apply find_path_elem; [|by rewrite <- Hp|done].
    by rewrite <- (Permutation_map path Hp).
  - rewrite find_path_None in E |- *. by rewrite <- (Permutation_map path Hp).
Qed.

Lemma find_path_app_new p rs r : find_path (path r) rs = None -> find_path p (rs ++ [r])%list = if String.eqb p (path r) then Some r else find_path p rs.
Proof.
  unfold find_path. induction rs as [|r0 rs IH]; cbn [app List.find].
  - intros _. rewrite String.eqb_sym. done.
  - destruct (String.eqb_spec (path r0) (path r)) as [|Hne]; [done|]. intros E.
    destruct (String.eqb_spec (path r0) p) as [<-|]; [|by apply IH].
    by apply String.eqb_neq in Hne as ->.
Qed.

Lemma find_path_filter p (keep : Route -> bool) rs :
  NoDup (map path rs) ->
  find_path p (List.filter keep rs) = find_path p rs ≫= fun r => if keep r then Some r else None.
Proof.
  intros Hnd. unfold find_path. induction rs as [|r rs IH]; [done|]. cbn in Hnd. apply NoDup_cons in Hnd as [Hr Hnd].
  specialize (IH Hnd). cbn [List.filter List.find]. destruct (String.eqb_spec (path r) p) as [E|Hne]; cbn.
  - destruct (keep r); cbn; [by rewrite E, String.eqb_refl|]. rewrite IH. subst p.
    apply find_path_None in Hr. unfold find_path in Hr. by rewrite Hr.
  - destruct (keep r); cbn; [|done]. by apply String.eqb_neq in Hne as ->.
Qed.

Lemma update_path_Some p f rs l :
  (forall r, path (f r) = path r) -> update_path p f rs = Some l ->
  map path l = map path rs /\ (forall q, find_path q l = if String.eqb q p then f <$> find_path p rs else find_path q rs)
  /\ (forall P, Forall P rs -> (forall r, P r -> P (f r)) -> Forall P l).
Proof.
  intros Hf. unfold find_path. revert l. induction rs as [|r rs IH]; intros l E; [done|]. cbn in E |- *.
  destruct (String.eqb_spec (path r) p) as [Hp|Hp].
  - simplify_eq. split_and!; [cbn; by rewrite Hf| |].
    + intros q. cbn. rewrite Hf, String.eqb_sym. by destruct (String.eqb_spec q (path r)).
    + intros P HP HPf. apply Forall_cons in HP as [HP HPs]. constructor; [by apply HPf|done].
  - destruct (update_path p f rs) as [l'|]; [|done]. simplify_eq. destruct (IH _ eq_refl) as (Hm & Hfind & HP).
    split_and!; [cbn; by f_equal| |].
    + intros q. cbn. rewrite Hfind. destruct (String.eqb_spec (path r) q) as [<-|]; [|done].
      by apply String.eqb_neq in Hp as ->.
    + intros P HPs HPf. apply Forall_cons in HPs as [? ?]. constructor; [done|by apply HP].
Qed.

Lemma update_path_None p f rs : update_path p f rs = None -> find_path p rs = None.
Proof.
  unfold find_path. induction rs as [|r rs IH]; [done|]. cbn. destruct (String.eqb _ _); [done|].
  destruct (update_path p f rs); [done|]. by intros _; apply IH.
Qed.

Lemma update_path_is_Some p f rs r : find_path p rs = Some r -> exists l, update_path p f rs = Some l.
Proof.
  intros E. destruct (update_path p f rs) as [l|] eqn:E'; [by exists l|]. apply update_path_None in E'. congruence.
Qed.

Lemma NoDup_map_filter {A B} (f : A -> B) (keep : A -> bool) (l : list A) : NoDup (map f l) -> NoDup (map f (List.filter keep l)).
Proof.
  induction l as [|x l IH]; [done|]. cbn. intros [Hx Hnd]%NoDup_cons. destruct (keep x); [|by apply IH]. cbn. constructor; [|by apply IH].
  contradict Hx. apply list_elem_of_In, in_map_iff. apply list_elem_of_In, in_map_iff in Hx. destruct Hx as (y & E & [? _]%filter_In). by exists y.
Qed.

(** ** Each operation keeps the invariant and refines the function *)

Lemma pre_parse_erase now now' svc u fw w tgs o src c k s e b c' k' s' e' b' h h' :
  erase (pre_parse now (mk_target svc u fw w tgs o src None None false Http c k s e b) h).1
  = erase (pre_parse now' (mk_target svc u fw w tgs o src None None false Http c' k' s' e' b') h').1.
Proof.
  unfold pre_parse. cbn. destruct (url_parse u); cbn; by destruct (rate_limit_override o) as [[]|].
Qed.

Lemma add_def_target_erase now base def t r h : erase (add_def_target now base def t r h).1.1 = def_target def.
Proof.
  unfold add_def_target. destruct (table_active_connections_for _ _ _ _ _) as [[? ?] ?], (table_health_tracker_for _ _ _ _ _) as [[? ?] ?],
    (table_stats_for _ _ _ _ _) as [[? ?] ?], (table_edge_stats_for _ _ _ _ _) as [[? ?] ?], (table_rate_limiter_for _ _ _ _ _) as [[? ?] ?].
  destruct (pre_parse _ _ _) as [tg hh] eqn:E. cbn [fst]. unfold def_target. rewrite <- (f_equal fst E : _ = tg). apply pre_parse_erase.
Qed.

Lemma existsb_ext_map {A B} (f : A -> B) (p : B -> bool) l : existsb p (map f l) = existsb (fun x => p (f x)) l.
Proof. induction l as [|x l IH]; [done|]. cbn. by rewrite IH. Qed.

Lemma filter_map_swap {A} (f : A -> A) (p : A -> bool) l :
  (forall x, p (f x) = p x) -> map f (List.filter p l) = List.filter p (map f l).
Proof. intros Hp. induction l as [|x l IH]; [done|]. cbn. rewrite Hp. destruct (p x); cbn; by rewrite IH. Qed.

Lemma add_target_core target r :
  map core (targets (route_compute_weights (add_target target r)))
  = if existsb (fun t => same_target t (core target)) (map core (targets r)) then map core (targets r)
    else (map core (targets r) ++ [core target])%list.
Proof.
  rewrite route_compute_weights_core, (existsb_ext_map core (fun t => same_target t (core target))). unfold add_target.
  change (fun x => same_target (core x) (core target)) with (fun x => same_target x target).
  destruct (existsb _ _); [done|]. cbn. by rewrite map_app.
Qed.

Lemma weight_route_core def r : map core (targets (weight_route def r)) = reweigh def (map core (targets r)).
Proof.
  unfold weight_route, reweigh.
  rewrite <- (filter_map_swap core (weight_selected def)), length_map by done. set (n := List.length _).
  destruct (Nat.eqb_spec n 0) as [En|En].
  - symmetry. rewrite <- (map_id (map core (targets r))) at 2. apply map_ext_in. intros t Ht.
    apply in_map_iff in Ht as (t0 & <- & Ht0). destruct (weight_selected def (core t0)) eqn:E; [|done].
    subst n. apply nil_length_inv in En. assert (Hin : In t0 (List.filter (weight_selected def) (targets r))) by (by apply filter_In).
    by rewrite En in Hin.
  - rewrite route_compute_weights_core. cbn. rewrite !map_map. apply map_ext. intros t.
    change (weight_selected def (core t)) with (weight_selected def t). by destruct (weight_selected def t).
Qed.

Lemma weight_route_ok key def r : route_ok key r -> route_ok key (weight_route def r).
Proof.
  intros [Hs Hne]. unfold weight_route. destruct (_ =? 0)%nat; [done|].
  split; [by apply reweighed_shape|]. rewrite route_compute_weights_nil. cbn. by destruct (targets r).
Qed.

Lemma weight_route_path def r : path (weight_route def r) = path r.
Proof. unfold weight_route. destruct (_ =? 0)%nat; [done|]. by rewrite route_compute_weights_path. Qed.

Definition list_contents (rs : list Route) (p : string) : list Target :=
  match find_path p rs with Some r => map core (targets r) | None => [] end.

Lemma contents_list m k p : contents m k p = list_contents (default [] (m !! k)) p.
Proof. unfold contents, list_contents. by destruct (m !! k). Qed.

Lemma contents_insert m k rs k' p :
  contents (<[k := rs]> m) k' p = if String.eqb k' k then list_contents rs p else contents m k' p.
Proof.
  unfold contents. destruct (String.eqb_spec k' k) as [->|]; [by rewrite lookup_insert_eq|by rewrite lookup_insert_ne].
Qed.

Lemma to_ascii_lowercase_idem s : to_ascii_lowercase (to_ascii_lowercase s) = to_ascii_lowercase s.
Proof.
  induction s as [|c s IH]; [done|]. cbn. f_equal; [|exact IH]. destruct c as [[][][][][][][][]]; reflexivity.
Qed.

Lemma add_path_slash def : exists p, add_path def = "/" ++ p.
Proof. unfold add_path. destruct (is_empty _); [by exists ""|by eexists]. Qed.

(** What an [add] makes of one list of targets. *)
Definition added (target : Target) (ts : list Target) : list Target :=
  if existsb (fun t => same_target t target) ts then ts else (ts ++ [target])%list.

Lemma update_path_found p f rs l : update_path p f rs = Some l -> exists r, find_path p rs = Some r.
Proof.
  unfold find_path. revert l. induction rs as [|r rs IH]; intros l E; [done|]. cbn in *.
  destruct (String.eqb _ _); [by exists r|]. destruct (update_path p f rs); [|done]. by eapply IH.
Qed.

Lemma add_existing key target p hr rs :
  host_ok key hr -> update_path p (fun r => route_compute_weights (add_target target r)) hr = Some rs ->
  host_ok key rs
  /\ forall q, list_contents rs q = if String.eqb q p then added (core target) (list_contents hr q) else list_contents hr q.
Proof.
  intros [Hk Hne Hnd Hr] Eu. destruct (update_path_found _ _ _ _ Eu) as [r0 Hr0].
  destruct (update_path_Some _ _ _ _ (add_target_path target) Eu) as (Hm & Hf & HP). split.
  - split; [done| |by rewrite Hm|by apply (HP _ Hr); intros ? []; apply add_target_shape].
    intros ->. symmetry in Hm. by apply map_eq_nil in Hm.
  - intros q. unfold list_contents. rewrite Hf. destruct (String.eqb_spec q p) as [->|]; [|done].
    rewrite Hr0. cbn. by rewrite add_target_core.
Qed.

Lemma add_new key target p hr h :
  to_ascii_lowercase key = key -> (exists p', p = "/" ++ p') -> hr = [] \/ host_ok key hr -> find_path p hr = None ->
  let rs := (hr ++ [route_compute_weights (add_target target (route_new key p h).1)])%list in
  host_ok key rs
  /\ forall q, list_contents rs q = if String.eqb q p then added (core target) (list_contents hr q) else list_contents hr q.
Proof.
  intros Hk Hslash Hhr Hnew. cbn [route_new fst]. set (route := fst _).
  assert (Hs : route_shape key route) by (constructor; cbn; [done|done|done|by exists []]).
  pose proof (add_target_path target route : _ = p) as Hp. set (route' := route_compute_weights _) in *. split.
  - assert (Hl : NoDup (map path hr) /\ Forall (route_ok key) hr) by (destruct Hhr as [->|[]]; [by repeat constructor|done]).
    destruct Hl as [Hnd Hok]. split; [done|by destruct hr| |].
    + rewrite map_app. apply NoDup_app. split_and!; [done| |apply NoDup_singleton].
      intros q Hq. change (map path [route']) with [path route']. rewrite Hp. intros ->%list_elem_of_singleton. by apply find_path_None in Hnew.
    + apply Forall_app. split; [done|]. constructor; [by apply add_target_shape|constructor].
  - intros q. unfold list_contents. rewrite find_path_app_new by (by rewrite Hp). rewrite Hp.
    destruct (String.eqb_spec q p) as [->|]; [|done]. rewrite Hnew. unfold route'. by rewrite add_target_core.
Qed.

Lemma apply_add_spec now base def t r h :
  cmd def = Routes.Add -> table_inv (routes t) ->
  let t' := (apply_add now base def t r h).1.1 in
  table_inv (routes t')
  /\ forall k p, contents (routes t') k p = spec_apply def (core (add_def_target now base def t r h).1.1) (contents (routes t)) k p.
Proof.
  intros Hcmd Hinv. unfold apply_add. destruct (add_def_target now base def t r h) as [[target r1] h1]. cbn [fst].
  set (hr := default [] (routes t !! def_host def)).
  assert (Hhr : hr = [] \/ host_ok (def_host def) hr).
  { subst hr. destruct (routes t !! def_host def) eqn:Eh; cbn; [right; by apply Hinv|by left]. }
  assert (Hgoal : forall rs t', routes t' = <[def_host def := rs]> (routes t) ->
    (host_ok (def_host def) rs /\ forall q, list_contents rs q
       = if String.eqb q (add_path def) then added (core target) (list_contents hr q) else list_contents hr q) ->
    table_inv (routes t') /\ forall k p, contents (routes t') k p = spec_apply def (core target) (contents (routes t)) k p).
  { intros rs t' -> [Hok Hcont]. split; [by apply map_Forall_insert_2|]. intros k p. unfold spec_apply. rewrite Hcmd, contents_insert.
    destruct (String.eqb_spec k (def_host def)) as [->|]; [|done]. rewrite Hcont, contents_list. unfold added. fold hr.
    destruct (String.eqb_spec p (add_path def)), (existsb _ _); done. }
  destruct (update_path _ _ hr) as [rs|] eqn:Eu.
  - apply (Hgoal rs); [done|]. eapply add_existing; [|exact Eu]. by destruct Hhr as [E|]; [rewrite E in Eu|].
  - eapply Hgoal; [done|]. apply add_new; [apply to_ascii_lowercase_idem|apply add_path_slash|done|by eapply update_path_None].
Qed.

Definition deleted (def : RouteDef) (ts : list Target) : list Target :=
  List.filter (target_retained (def_service def) (def_tags def) (def_url def)) ts.

Lemma del_in_routes_spec key def pf rs :
  host_ok key rs ->
  (del_in_routes def pf rs = [] \/ host_ok key (del_in_routes def pf rs))
  /\ forall p, list_contents (del_in_routes def pf rs) p
     = if match pf with Some q => String.eqb p q | None => true end then deleted def (list_contents rs p) else list_contents rs p.
Proof.
  intros [Hk Hne Hnd Hr]. unfold del_in_routes.
  set (g := fun r => if path_selected pf r then _ else r).
  assert (Hg : forall r, path (g r) = path r) by (intros r; unfold g; destruct (path_selected pf r); [by rewrite route_compute_weights_path|done]).
  assert (Hm : map path (map g rs) = map path rs) by (rewrite map_map; by apply map_ext). split.
  - destruct (List.filter _ _) as [|r1 l1] eqn:Ef; [by left|right]. rewrite <- Ef. split; [done|by rewrite Ef| |].
    + apply NoDup_map_filter. by rewrite Hm.
    + apply Forall_forall. intros r Hin. apply list_elem_of_In, filter_In in Hin as [Hin Hnt].
      apply in_map_iff in Hin as (r0 & <- & Hr0). rewrite Forall_forall in Hr. destruct (Hr r0) as [Hs ?]; [by apply list_elem_of_In|].
      split; [unfold g; destruct (path_selected pf r0); [by apply reweighed_shape|done]|].
      intros E. unfold no_targets in Hnt. by rewrite E in Hnt.
  - intros p. unfold list_contents. rewrite find_path_filter by (by rewrite Hm). rewrite find_path_map by done.
    destruct (find_path p rs) as [r|] eqn:Ef; cbn; [|unfold deleted; cbn; by destruct (match pf with Some _ => _ | None => _ end)].
    apply find_path_Some in Ef as [_ Hp]. replace (match pf with Some q => String.eqb p q | None => true end) with (path_selected pf r)
      by (unfold path_selected; by rewrite Hp).
    assert (Hgr : map core (targets (g r)) = if path_selected pf r then deleted def (map core (targets r)) else map core (targets r)).
    { unfold g. destruct (path_selected pf r); [|done]. rewrite route_compute_weights_core. by apply filter_map_swap. }
    rewrite <- Hgr. unfold no_targets. by destruct (targets (g r)) eqn:E; cbn; [|rewrite E].
Qed.

Lemma del_in_host_spec def m :
  table_inv m ->
  table_inv (del_in_host def m)
  /\ forall k p, contents (del_in_host def m) k p
     = if String.eqb k (def_host def) && match path_filter def with Some q => String.eqb p q | None => true end
       then deleted def (contents m k p) else contents m k p.
Proof.
  intros Hinv. unfold del_in_host. destruct (m !! def_host def) as [rs|] eqn:E.
  - destruct (del_in_routes_spec (def_host def) def (path_filter def) rs) as [Hok Hcont]; [by apply Hinv|].
    set (rs' := del_in_routes def (path_filter def) rs) in *.
    assert (Hm' : forall k p, contents (match rs' with [] => delete (def_host def) m | r :: l => <[def_host def := r :: l]> m end) k p
                  = if String.eqb k (def_host def) then list_contents rs' p else contents m k p).
    { intros k p. destruct rs' as [|r rs'']; [|apply contents_insert]. unfold contents.
      destruct (String.eqb_spec k (def_host def)) as [->|]; [by rewrite lookup_delete_eq|by rewrite lookup_delete_ne]. }
    split; [destruct rs'; [by apply map_Forall_delete|destruct Hok; [done|by apply map_Forall_insert_2]]|].
    intros k p. rewrite Hm'. destruct (String.eqb_spec k (def_host def)) as [->|]; [|done].
    rewrite Hcont, contents_list, E. done.
  - split; [done|]. intros k p. destruct (String.eqb_spec k (def_host def)) as [->|]; [|done].
    unfold contents. rewrite E. by destruct (match path_filter def with Some _ => _ | None => _ end).
Qed.

Lemma del_everywhere_spec def m :
  table_inv m ->
  let m' := filter (fun kv => kv.2 <> []) (del_in_routes def None <$> m) in
  table_inv m' /\ forall k p, contents m' k p = deleted def (contents m k p).
Proof.
  intros Hinv m'. split.
  - intros k rs [(rs0 & <- & Hrs0)%lookup_fmap_Some Hne]%map_lookup_filter_Some. cbn in Hne.
    destruct (del_in_routes_spec k def None rs0) as [[|] _]; [by apply Hinv|done|done].
  - intros k p. rewrite !contents_list. subst m'. rewrite map_lookup_filter, lookup_fmap.
    destruct (m !! k) as [rs|] eqn:E; [|done]. destruct (del_in_routes_spec k def None rs) as [_ Hc]; [by apply Hinv|]. specialize (Hc p). cbn in Hc |- *.
    rewrite <- Hc. unfold guard. destruct (decide _) as [|Hn]; [done|]. cbn. destruct (del_in_routes def None rs); [done|by destruct Hn].
Qed.

Lemma apply_del_spec tg def t :
  cmd def = Routes.Del -> table_inv (routes t) ->
  table_inv (routes (apply_del def t))
  /\ forall k p, contents (routes (apply_del def t)) k p = spec_apply def tg (contents (routes t)) k p.
Proof.
  intros Hcmd Hinv. unfold apply_del, spec_apply, del_scope. rewrite Hcmd.
  destruct (negb (bool_decide (def_tags def = []))); cbn [andb orb]; [|by apply del_in_host_spec].
  destruct (is_empty (def_host def)), (path_filter def) eqn:Ep; cbn [negb andb orb];
    (try by apply del_everywhere_spec);
    destruct (del_in_host_spec def (routes t) Hinv) as [Hi Hc]; rewrite Ep in Hc; done.
Qed.

Lemma apply_weight_spec tg def t :
  cmd def = Routes.Weight -> table_inv (routes t) ->
  table_inv (routes (apply_weight def t))
  /\ forall k p, contents (routes (apply_weight def t)) k p = spec_apply def tg (contents (routes t)) k p.
Proof.
  intros Hcmd Hinv. unfold apply_weight, spec_apply. rewrite Hcmd. destruct (routes t !! def_host def) as [rs|] eqn:E.
  - set (update := fun r => if String.eqb (path r) (add_path def) then weight_route def r else r).
    assert (Hup : forall r, path (update r) = path r) by (intros r; unfold update; destruct (String.eqb _ _); [apply weight_route_path|done]).
    destruct (Hinv _ _ E) as [Hk Hne Hnd Hr]. cbn [routes set_routes]. split.
    + apply map_Forall_insert_2; [|done]. split; [done|by destruct rs| |].
      * rewrite map_map. by rewrite (map_ext _ path Hup).
      * apply Forall_forall. intros r' (r & <- & Hin)%list_elem_of_In%in_map_iff. rewrite Forall_forall in Hr.
        apply list_elem_of_In in Hin. unfold update. destruct (String.eqb _ _); [apply weight_route_ok|]; by apply Hr.
    + intros k p. rewrite contents_insert. destruct (String.eqb_spec k (def_host def)) as [->|]; [|done].
      rewrite contents_list, E. cbn [default andb from_option id]. unfold list_contents. rewrite find_path_map by done.
      destruct (find_path p rs) as [r|] eqn:Ef; cbn; [|by destruct (String.eqb _ _)].
      apply find_path_Some in Ef as [_ Hp]. unfold update. rewrite Hp.
      destruct (String.eqb _ _); [apply weight_route_core|done].
  - split; [done|]. intros k p. destruct (String.eqb_spec k (def_host def)) as [->|]; [|done].
    unfold contents. rewrite E. by destruct (String.eqb _ _).
Qed.

Lemma apply_spec now base def t r h :
  table_inv (routes t) ->
  let t' := (apply now base def t r h).1.1 in
  table_inv (routes t')
  /\ forall k p, contents (routes t') k p = spec_apply def (core (add_def_target now base def t r h).1.1) (contents (routes t)) k p.
Proof.
  intros Hinv. unfold apply. destruct (cmd def) eqn:E;
    [by apply apply_add_spec|by apply apply_del_spec|by apply apply_weight_spec].
Qed.

(** ** Building *)

#[local] Instance before_total : Total before.
Proof.
  intros a b. unfold before, specific_first. rewrite (Nat.compare_antisym (String.length (path a))).
  destruct (Nat.compare (String.length (path a)) (String.length (path b))) eqn:E; cbn; [|by right|by left]. apply String.leb_total.
Qed.

Definition longer (a b : Route) : Prop := (String.length (path b) <= String.length (path a))%nat.

Lemma sort_routes_longer rs : StronglySorted longer (sort_routes rs).
Proof.
  apply Sorted_StronglySorted; [intros a b c; unfold longer; lia|].
  pose proof (Sorted_merge_sort before rs) as Hs. fold (sort_routes rs) in Hs. induction Hs as [|a l Hs IH Hd]; [constructor|].
  constructor; [done|]. destruct Hd as [|b l Hab]; constructor. unfold before, specific_first in Hab. unfold longer.
  destruct (Nat.compare_spec (String.length (path b)) (String.length (path a))); [lia|lia|done].
Qed.

Lemma sort_routes_perm rs : sort_routes rs ≡ₚ rs.
Proof. apply merge_sort_Permutation. Qed.

Lemma finalize_inv t : table_inv (routes t) -> table_inv (routes (finalize t)).
Proof.
  intros Hinv k rs. cbn. rewrite lookup_fmap_Some. intros (rs0 & <- & E). destruct (Hinv _ _ E) as [Hk Hne Hnd Hr].
  split; [done| | |by rewrite sort_routes_perm].
  - intros En. pose proof (sort_routes_perm rs0) as Hp. rewrite En in Hp. by apply Permutation_nil in Hp.
  - by rewrite (Permutation_map path (sort_routes_perm rs0)).
Qed.

Lemma finalize_contents t k p : table_inv (routes t) -> contents (routes (finalize t)) k p = contents (routes t) k p.
Proof.
  intros Hinv. unfold contents. cbn. rewrite lookup_fmap. destruct (routes t !! k) as [rs|] eqn:E; [|done]. cbn.
  destruct (Hinv _ _ E) as [_ _ Hnd _]. by rewrite (find_path_perm p rs) by (by rewrite ?sort_routes_perm).
Qed.

Lemma spec_apply_erase def tg f k p :
  map erase (spec_apply def tg f k p) = spec_apply def (erase tg) (fun k p => map erase (f k p)) k p.
Proof.
  unfold spec_apply. destruct (cmd def).
  - rewrite (existsb_ext_map erase (fun t => same_target t (erase tg))).
    change (fun x => same_target (erase x) (erase tg)) with (fun x => same_target x tg).
    destruct (_ && negb _); [|done]. by rewrite map_app.
  - destruct (del_scope def k p); [|done]. by apply filter_map_swap.
  - destruct (_ && _); [|done]. unfold reweigh. rewrite <- (filter_map_swap erase (weight_selected def)), length_map by done.
    rewrite !map_map. apply map_ext. intros t. change (weight_selected def (erase t)) with (weight_selected def t).
    by destruct (weight_selected def t).
Qed.

Definition erased_contents (m : gmap string (list Route)) (k p : string) : list Target := map erase (contents m k p).

Lemma apply_all_spec now base defs t r h :
  table_inv (routes t) ->
  let t' := (apply_all now base defs t r h).1.1 in
  table_inv (routes t')
  /\ forall f, (forall k p, erased_contents (routes t) k p = f k p) ->
     forall k p, erased_contents (routes t') k p = fold_left (fun f def => spec_apply def (def_target def) f) defs f k p.
Proof.
  revert t r h. induction defs as [|def defs IH]; intros t r h Hinv; [done|]. cbn.
  destruct (apply_spec now base def t r h Hinv) as [Hinv' Hc].
  pose proof (add_def_target_erase now base def t r h) as Htg. destruct (apply now base def t r h) as [[t1 r1] h1]. cbn in Hinv', Hc.
  destruct (IH t1 r1 h1 Hinv') as [Hinv2 Hc2]. split; [done|]. intros f Hf. apply Hc2. intros k p. unfold erased_contents.
  rewrite Hc, spec_apply_erase. change (erase (core ?x)) with (erase x). rewrite Htg.
  unfold spec_apply. by rewrite <- (Hf k p).
Qed.

Lemma from_definitions_contents now base defs config r h k p :
  erased_contents (routes (from_definitions_with_stats now base defs config r h).1.1) k p = spec_table defs k p.
Proof.
  unfold from_definitions_with_stats.
  destruct (apply_all_spec now base defs (mk_table ∅ true config []) r h) as [Hinv Hc]; [apply map_Forall_empty|].
  destruct (apply_all _ _ _ _ _ _) as [[t r'] h']. cbn [fst] in *. unfold erased_contents. rewrite finalize_contents by done. by apply Hc.
Qed.

(** C3: building a table from any list of definitions implements the
    specification [spec_table]: read as a function from host and path to
    targets, the hash map of route vectors (with its cloned and replaced
    routes, its pruning of empty routes and hosts and its final sort) holds
    exactly what folding the definitions over plain target lists gives. *)
Theorem built_table_refines now base defs config r h k p :
  erased_contents (routes (from_definitions_with_stats now base defs config r h).1.1) k p = spec_table defs k p.
Proof. apply from_definitions_contents. Qed.

Lemma from_definitions_wf now base defs config r h :
  let m := routes (from_definitions_with_stats now base defs config r h).1.1 in
  table_inv m /\ map_Forall (fun _ rs => StronglySorted longer rs) m.
Proof.
  cbn. unfold from_definitions_with_stats.
  destruct (apply_all_spec now base defs (mk_table ∅ true config []) r h) as [Hinv _]; [apply map_Forall_empty|].
  destruct (apply_all _ _ _ _ _ _) as [[t r'] h']. cbn [fst] in *. split; [by apply finalize_inv|].
  intros k rs (rs0 & <- & _)%lookup_fmap_Some. apply sort_routes_longer.
Qed.

(** Every target a route has, in its list or among its slots, is in the
    contents of the table under the route's host and path. *)
Lemma route_target_in_contents m key rs r t :
  table_inv m -> m !! key = Some rs -> r ∈ rs -> t ∈ targets r \/ t ∈ w_targets r ->
  host r = key /\ core t ∈ contents m key (path r).
Proof.
  intros Hinv Hk Hr Ht. destruct (Hinv _ _ Hk) as [_ _ Hnd Hok]. rewrite Forall_forall in Hok.
  destruct (Hok r Hr) as [[Hh _ _ [l Hw]] _]. split; [done|].
  assert (Hin : t ∈ targets r).
  { destruct Ht as [Ht|Ht]; [done|]. pose proof (compute_weights_slots l t) as Hs. rewrite Hw in Hs. by apply Hs. }
  unfold contents. rewrite Hk. cbn. rewrite (find_path_elem (path r) rs r) by done.
  apply list_elem_of_In, in_map. by apply list_elem_of_In.
Qed.

(** every table built from definitions is well formed: its hosts are
    lower case and have routes, the paths of a host are distinct and start
    with a slash, every route has targets, its glob is its path's and its slots
    are those [compute_weights] gives, and the routes of a host are sorted by
    decreasing path length. *)
Theorem built_table_wf now base defs config r h :
  let m := routes (from_definitions_with_stats now base defs config r h).1.1 in
  table_inv m /\ map_Forall (fun _ rs => StronglySorted longer rs) m.
Proof. apply from_definitions_wf. Qed.

(** ** Lookups *)

Lemma find_head {A} (f : A -> bool) l : List.find f l = hd_error (List.filter f l).
Proof. induction l as [|x l IH]; [done|]. cbn. by destruct (f x). Qed.

Lemma hd_error_app {A} (l l' : list A) : hd_error (l ++ l')%list = match hd_error l with Some x => Some x | None => hd_error l' end.
Proof. by destruct l. Qed.

(** [lookup_route] is the first of [matching_routes]: the proxy's lookup
    and its fallback for header constraints agree on which route comes
    first. *)
Theorem lookup_route_is_first_match t hst p m : lookup_route t hst p m = hd_error (matching_routes t hst p m).
Proof.
  unfold lookup_route, matching_routes, find_matching_route, collect_matching_routes.
  destruct (is_empty (to_ascii_lowercase hst)) eqn:Ee; cbn [negb].
  - destruct (to_ascii_lowercase hst); [|done]. destruct (routes t !! "") as [rs|]; cbn; [|done].
    rewrite find_head. by destruct (hd_error _).
  - destruct (routes t !! to_ascii_lowercase hst) as [rs|], (routes t !! "") as [rs'|]; cbn; rewrite ?find_head, ?hd_error_app; try done.
    by destruct (hd_error _).
Qed.

Definition routes_of (t : Table) (key : string) : list Route := default [] (routes t !! key).

Lemma strip_prefix_Some q s u : strip_prefix q s = Some u -> s = q ++ u.
Proof.
  revert s. induction q as [|c q IH]; intros s; cbn; [by intros [= ->]|]. destruct s as [|d s]; [done|].
  destruct (Ascii.eqb_spec c d) as [->|]; [|done]. intros E. apply IH in E. by subst.
Qed.

Lemma app_len_inj (a b u v : string) : String.length a = String.length b -> a ++ u = b ++ v -> a = b.
Proof.
  revert b. induction a as [|c a IH]; intros [|d b] Hl E; try done. autorewrite with str in E. injection E as -> E. f_equal.
  apply IH; [by injection Hl|done].
Qed.

Lemma sorted_find (sel : Route -> bool) rs r :
  StronglySorted longer rs -> List.find sel rs = Some r ->
  r ∈ rs /\ sel r = true /\ forall r', r' ∈ rs -> sel r' = true -> longer r r'.
Proof.
  intros Hs E. induction Hs as [|a l Hs IH Ha]; [done|]. cbn in E. destruct (sel a) eqn:Ea.
  - injection E as <-. split_and!; [by left|done|]. intros r' [->|Hr']%elem_of_cons _; [unfold longer; lia|].
    rewrite Forall_forall in Ha. by apply Ha.
  - destruct (IH E) as (Hr & Hsel & Hmax). split_and!; [by right|done|]. intros r' [->|Hr']%elem_of_cons Hsel'; [congruence|by apply Hmax].
Qed.

(** Two prefixes of one path have different lengths unless they are equal. *)
Lemma prefix_matches_distinct key rs p r r' :
  host_ok key rs -> r ∈ rs -> r' ∈ rs -> path_matches Prefix p r = true -> path_matches Prefix p r' = true ->
  String.length (path r) = String.length (path r') -> r = r'.
Proof.
  intros [_ _ Hnd Hok] Hr Hr' Hm Hm' Hl. rewrite Forall_forall in Hok.
  assert (Hp : path r = path r').
  { destruct (Hok _ Hr) as [[_ [q Hq] _ _] _], (Hok _ Hr') as [[_ [q' Hq'] _ _] _]. cbn [path_matches] in Hm, Hm'.
    assert (Hroot : forall u, String.length ("/" ++ u) = 1%nat -> "/" ++ u = "/") by (intros []; autorewrite with str; cbn; [done|lia]).
    apply orb_true_iff in Hm as [Hm|Hm%String.eqb_eq], Hm' as [Hm'|Hm'%String.eqb_eq];
      [|rewrite Hm', Hq in *; by apply Hroot|rewrite Hm, Hq' in *; symmetry; by apply Hroot|congruence].
    unfold starts_with in Hm, Hm'. destruct (strip_prefix (path r) p) as [u|] eqn:Eu; [|done].
    destruct (strip_prefix (path r') p) as [u'|] eqn:Eu'; [|done]. apply strip_prefix_Some in Eu, Eu'.
    apply (app_len_inj _ _ u u'); congruence. }
  pose proof (find_path_elem _ _ _ Hnd Hr eq_refl). pose proof (find_path_elem _ _ _ Hnd Hr' eq_refl). congruence.
Qed.

Lemma selects_nonempty key rs m p r : host_ok key rs -> r ∈ rs -> selects m p r = path_matches m p r.
Proof.
  intros [_ _ _ Hok] Hr. rewrite Forall_forall in Hok. destruct (Hok _ Hr) as [_ Hne]. unfold selects, no_targets.
  destruct (targets r); [done|]. by rewrite andb_true_r.
Qed.

(** The best match of one host list of a built table. *)
Definition best_match (t : Table) (key : string) (m : MatcherKind) (p : string) (r : Route) : Prop :=
  r ∈ routes_of t key /\ path_matches m p r = true
  /\ forall r', r' ∈ routes_of t key -> path_matches m p r' = true ->
       longer r r' /\ (m = Prefix -> r' <> r -> (String.length (path r') < String.length (path r))%nat).

Definition no_match (t : Table) (key : string) (m : MatcherKind) (p : string) : Prop :=
  forall r, r ∈ routes_of t key -> path_matches m p r = false.

Lemma find_best_match t key m p :
  table_inv (routes t) -> map_Forall (fun _ rs => StronglySorted longer rs) (routes t) ->
  match routes t !! key ≫= (fun rs => find_matching_route rs p m) with
  | Some r => best_match t key m p r
  | None => no_match t key m p
  end.
Proof.
  intros Hinv Hs. unfold find_matching_route, best_match, no_match, routes_of.
  destruct (routes t !! key) as [rs|] eqn:E; cbn; [|by intros r ?%elem_of_nil].
  pose proof (Hinv _ _ E) as Hok. destruct (List.find _ rs) as [r|] eqn:Ef.
  - apply sorted_find in Ef as (Hr & Hsel & Hmax); [|by apply (Hs key)]. erewrite selects_nonempty in Hsel by done.
    split_and!; [done|done|]. intros r' Hr' Hm'. assert (Hlong : longer r r') by (apply Hmax; [done|by erewrite selects_nonempty]).
    split; [done|]. intros -> Hne. unfold longer in Hlong. destruct (decide (String.length (path r') = String.length (path r))) as [El|]; [|lia].
    by eapply prefix_matches_distinct in El.
  - intros r Hr. erewrite <- selects_nonempty by done. apply (find_none _ _ Ef). by apply list_elem_of_In.
Qed.

(** C11: lookups in a table built from definitions take the most specific
    route: among the routes of the requested host (any letter case) that
    match, the longest path wins (strictly, for prefix matching), the routes
    without host are consulted only when none of the host's matches, and the
    lookup fails only when no route of either matches. *)
Theorem lookup_most_specific now base defs config r h hst p m :
  let t := (from_definitions_with_stats now base defs config r h).1.1 in
  let key := to_ascii_lowercase hst in
  match lookup_route t hst p m with
  | Some route => best_match t key m p route \/ no_match t key m p /\ best_match t "" m p route
  | None => no_match t key m p /\ no_match t "" m p
  end.
Proof.
  intros t key. destruct (from_definitions_wf now base defs config r h) as [Hinv Hs]. fold t in Hinv, Hs.
  pose proof (find_best_match t key m p Hinv Hs) as H1. pose proof (find_best_match t "" m p Hinv Hs) as H2.
  unfold lookup_route. fold key. destruct (routes t !! key ≫= _); [by left|].
  destruct (routes t !! "" ≫= _); [by right|done].
Qed.

(** ** TCP routes *)

Lemma tcp_scan_spec matched rs :
  tcp_scan matched rs = match matched with Some r => Some r | None => List.find route_is_tcp rs end.
Proof.
  revert matched. induction rs as [|r rs IH]; intros [m|]; try done; cbn; destruct (route_is_tcp r); cbn; try done; by rewrite IH.
Qed.

Lemma tcp_fold_spec suffix l matched :
  let res := fold_left (fun matched kv => if negb (ends_with suffix kv.1) then matched else tcp_scan matched kv.2) l matched in
  match res with
  | Some r => matched = Some r \/ exists kv, kv ∈ l /\ ends_with suffix kv.1 = true /\ r ∈ kv.2 /\ route_is_tcp r = true
  | None => matched = None /\ forall kv r, kv ∈ l -> ends_with suffix kv.1 = true -> r ∈ kv.2 -> route_is_tcp r = false
  end.
Proof.
  revert matched. induction l as [|kv l IH]; intros matched; cbn.
  - destruct matched; [by left|]. split; [done|]. by intros kv r ?%elem_of_nil.
  - specialize (IH (if negb (ends_with suffix kv.1) then matched else tcp_scan matched kv.2)). cbn in IH.
    destruct (fold_left _ l _) as [r|].
    + destruct IH as [Hm|(kv' & Hin & Hrest)]; [|right; exists kv'; split; [by right|done]].
      destruct (ends_with suffix kv.1) eqn:Es; cbn in Hm; [|by left]. rewrite tcp_scan_spec in Hm.
      destruct matched as [r'|]; [by left|]. apply find_some in Hm as [Hr Ht]. right. exists kv.
      split_and!; [by left|done|by apply list_elem_of_In|done].
    + destruct IH as [Hm Hall]. destruct (ends_with suffix kv.1) eqn:Es; cbn in Hm.
      * rewrite tcp_scan_spec in Hm. destruct matched; [done|]. split; [done|].
        intros kv' r [->|Hin]%elem_of_cons Hs Hr; [|by eapply Hall]. apply (find_none _ _ Hm). by apply list_elem_of_In.
      * split; [done|]. intros kv' r [->|Hin]%elem_of_cons Hs Hr; [congruence|by eapply Hall].
Qed.

(** a connection accepted on a port is routed to a TCP-only route of a
    host that ends with that port, the host [:port] first, and is left without
    route only when no such host has a TCP-only route. *)
Theorem lookup_tcp_route_spec t port :
  let suffix := ":" ++ show_uint port in
  match lookup_tcp_route t port with
  | Some r => route_is_tcp r = true
      /\ (r ∈ routes_of t suffix
          \/ (forall r', r' ∈ routes_of t suffix -> route_is_tcp r' = false)
             /\ exists key, ends_with suffix key = true /\ r ∈ routes_of t key)
  | None => forall key r, ends_with suffix key = true -> r ∈ routes_of t key -> route_is_tcp r = false
  end.
Proof.
  intros suffix. unfold lookup_tcp_route. fold suffix.
  assert (Hiter : forall kv, kv ∈ iter_order (routes t) <-> routes t !! kv.1 = Some kv.2).
  { intros [k rs]. rewrite iter_order_perm, elem_of_map_to_list. done. }
  assert (Hexact : match routes t !! suffix ≫= List.find route_is_tcp with
                   | Some r => r ∈ routes_of t suffix /\ route_is_tcp r = true
                   | None => forall r', r' ∈ routes_of t suffix -> route_is_tcp r' = false end).
  { unfold routes_of. destruct (routes t !! suffix) as [rs|]; cbn; [|by intros r ?%elem_of_nil].
    destruct (List.find _ rs) eqn:Ef; [apply find_some in Ef as [? ?]; by rewrite list_elem_of_In|].
    intros r' Hr'. apply (find_none _ _ Ef). by apply list_elem_of_In. }
  destruct (routes t !! suffix ≫= _) as [r|]; [split; [|left]; apply Hexact|].
  pose proof (tcp_fold_spec suffix (iter_order (routes t)) None) as Hfold. cbn in Hfold.
  destruct (fold_left _ _ _) as [r|].
  - destruct Hfold as [|([k rs] & Hin & Hs & Hr & Ht)]; [done|]. apply Hiter in Hin. cbn in *. split; [done|right]. split; [done|].
    exists k. unfold routes_of. by rewrite Hin.
  - intros key r Hs Hr. destruct Hfold as [_ Hall]. unfold routes_of in Hr. destruct (routes t !! key) as [rs|] eqn:E; [|by apply elem_of_nil in Hr].
    apply (Hall (key, rs)); [by apply Hiter|done|done].
Qed.

(** ** The targets probed *)

Lemma dedup_targets_spec seen ts :
  NoDup (map url (dedup_targets seen ts))
  /\ (forall t, t ∈ dedup_targets seen ts -> t ∈ ts /\ url t ∉ seen)
  /\ (forall t, t ∈ ts -> url t ∉ seen -> exists t', t' ∈ dedup_targets seen ts /\ url t' = url t).
Proof.
  revert seen. induction ts as [|t ts IH]; intros seen; cbn.
  - split_and!; [constructor|by intros t ?%elem_of_nil|by intros t ?%elem_of_nil].
  - destruct (decide (url t ∈ seen)) as [Hin|Hin]; cbn.
    + destruct (IH seen) as (Hnd & Hin1 & Hcov). split_and!; [done| |].
      * intros t' [? ?]%Hin1. split; [by right|done].
      * intros t' [->|Ht']%elem_of_cons Hn; [done|by apply Hcov].
    + destruct (IH ({[url t]} ∪ seen)) as (Hnd & Hin1 & Hcov). split_and!.
      * constructor; [|done]. intros Ht. apply list_elem_of_In, in_map_iff in Ht as (t' & Eu & Ht').
        apply list_elem_of_In, Hin1 in Ht' as [_ Hn]. apply Hn. rewrite Eu. apply elem_of_union. left. by apply elem_of_singleton.
      * intros t' [->|[? Hn]%Hin1]%elem_of_cons; [split; [by left|done]|]. split; [by right|]. intros Hs. apply Hn, elem_of_union. by right.
      * intros t' [->|Ht']%elem_of_cons Hn; [exists t; split; [by left|done]|].
        destruct (decide (url t' = url t)) as [E|E]; [exists t; split; [by left|done]|].
        destruct (Hcov t' Ht') as (t2 & ? & ?); [by intros [?%elem_of_singleton|]%elem_of_union|]. exists t2. split; [by right|done].
Qed.

(** the health checker probes every backend once: the targets of a built
    table are listed without repeating a URL, each is a target of some route,
    and every target's URL is listed. *)
Theorem all_targets_once now base defs config r h :
  let t := (from_definitions_with_stats now base defs config r h).1.1 in
  NoDup (map url (all_targets t))
  /\ (forall tg, tg ∈ all_targets t -> exists key route, route ∈ routes_of t key /\ tg ∈ targets route)
  /\ (forall key route tg, route ∈ routes_of t key -> tg ∈ targets route -> exists tg', tg' ∈ all_targets t /\ url tg' = url tg).
Proof.
  cbn. unfold from_definitions_with_stats. destruct (apply_all _ _ _ _ _ _) as [[t r'] h']. cbn [fst].
  unfold all_targets, finalize, routes_of. cbn [all_targets_cache routes]. set (m := sort_routes <$> routes t).
  set (ts := List.concat _). assert (Hts : forall tg, tg ∈ ts <-> exists key rs route, m !! key = Some rs /\ route ∈ rs /\ tg ∈ targets route).
  { intros tg. unfold ts. rewrite list_elem_of_In, in_concat. split.
    - intros (l & ([key rs] & <- & Hin)%in_map_iff & (l2 & (route & <- & Hr)%in_map_iff & Htg)%in_concat).
      exists key, rs, route. apply list_elem_of_In in Hin, Hr, Htg. split_and!; [|done|done].
      rewrite iter_order_perm in Hin. by apply elem_of_map_to_list in Hin.
    - intros (key & rs & route & Hm & Hr & Htg). exists (List.concat (map targets rs)). split.
      + apply in_map_iff. exists (key, rs). split; [done|]. apply list_elem_of_In. rewrite iter_order_perm. by apply elem_of_map_to_list.
      + apply in_concat. exists (targets route). apply list_elem_of_In in Hr, Htg. split; [by apply in_map|done]. }
  destruct (dedup_targets_spec ∅ ts) as (Hnd & Hin & Hcov). split_and!; [done| |].
  - intros tg [Htg _]%Hin. apply Hts in Htg as (key & rs & route & Hm & Hr & Ht). exists key, route. by rewrite Hm.
  - intros key route tg Hr Htg. apply Hcov; [|set_solver]. apply Hts. destruct (m !! key) as [rs|] eqn:E; [|by apply elem_of_nil in Hr].
    by exists key, rs, route.
Qed.
End table.

(** ** A concrete table *)

#[local] Instance no_glob : GlobCrate := {| Pattern := unit; pattern_new _ := None; pattern_matches _ _ := false |}.
#[local] Instance some_url : UrlParser := fun _ => None.
#[local] Instance list_order : HashOrder := {| iter_order m := map_to_list m; iter_order_perm m := Permutation_refl _ |}.

Definition demo_defs : list RouteDef :=
  [mk_def Routes.Add "a" "Ex.com/" "http://1.1.1.1/" f64_zero [] ∅ Routes.Static;
   mk_def Routes.Add "b" "ex.com/api/" "http://2.2.2.2/" f64_zero ["x"] ∅ Routes.Static;
   mk_def Routes.Add "c" "ex.com/api/" "http://3.3.3.3/" f64_zero [] ∅ Routes.Static;
   mk_def Routes.Del "b" "ex.com" "" f64_zero [] ∅ Routes.Static;
   mk_def Routes.Add "d" "/" "http://4.4.4.4/" f64_zero [] ∅ Routes.Static].

Definition demo_table : Table := (from_definitions_with_stats 0 ∅ demo_defs None registry_new heap_empty).1.1.

Example demo_lookups :
  map (fun hp => (map service ∘ targets) <$> lookup_route demo_table hp.1 hp.2 Prefix)
    [("EX.com", "/api/v1"); ("ex.com", "/ap"); ("other", "/api/")]
  = [Some ["c"]; Some ["a"]; Some ["d"]]
  /\ map url (all_targets demo_table) ≡ₚ ["http://1.1.1.1/"; "http://3.3.3.3/"; "http://4.4.4.4/"].
Proof. split; [vm_compute; reflexivity|]. vm_compute. solve_Permutation. Qed.
