(* ===== verification/Picker.v ===== *)
(** * Picker: target selection

    src/src/route/picker.rs: round robin over the slots of a route, random
    slot, least connections, and the choice by strategy name. *)
From S2P Require Import Prelude F64 RustStr StrFacts Stats Target Weights Table.
From Stdlib Require Import Floats.SpecFloat Ascii String.
Local Open Scope string_scope.
Local Open Scope Z_scope.

(** [RoundRobinPicker]: the counter is a cell of the heap. *)
Definition round_robin_pick (targets w_targets : list Target) (counter : loc) (h : Heap) : Heap * option Target :=
  match w_targets, targets with
  | [], _ | _, [] => (h, None)
  | _, _ =>
      let counter_val := get_counter counter h in
      let h := set_counter counter (wrapping_add counter_val 1) h in
      (h, w_targets !! Z.to_nat (counter_val mod Z.of_nat (List.length w_targets)))
  end.

(** [RandomPicker]; [random_range] stands for the generator: it gives an
    index below the bound. *)
Definition random_pick (random_range : nat -> nat) (w_targets : list Target) : option Target :=
  match w_targets with
  | [] => None
  | _ => w_targets !! random_range (List.length w_targets)
  end.

(** [best_score.is_none_or(|b| score < b)] *)
Definition better (score : Z) (best_score : option Z) : bool :=
  match best_score with None => true | Some b => score <? b end.

Definition lc_score (h : Heap) (target : Target) : Z :=
  f64_to_usize (f64_mul (f64_div (f64_of_Z (get_counter (active_connections target) h)) (weight target)) (f64_of_Z 1000000)).

(** One pass of [LeastConnectionsPicker] over the targets [skip] lets in. *)
Fixpoint lc_pass (skip : Target -> bool) (score : Target -> Z) (targets : list Target) (best : option (Target * Z)) : option (Target * Z) :=
  match targets with
  | [] => best
  | t :: targets' =>
      if skip t then lc_pass skip score targets' best
      else lc_pass skip score targets' (if better (score t) (snd <$> best) then Some (t, score t) else best)
  end.

Definition least_connections_pick (h : Heap) (targets : list Target) : option Target :=
  match targets with
  | [] => None
  | _ =>
      match lc_pass (fun t => f64_le (weight t) f64_zero) (lc_score h) targets None with
      | Some (t, _) => Some t
      | None => fst <$> lc_pass (fun _ => false) (fun t => get_counter (active_connections t) h) targets None
      end
  end.

Inductive Strategy := RoundRobin | Random | LeastConnections.

Definition create_picker (strategy : string) : Strategy :=
  if String.eqb strategy "round-robin" || String.eqb strategy "rr" || is_empty strategy then RoundRobin
  else if String.eqb strategy "random" || String.eqb strategy "rnd" then Random
  else if String.eqb strategy "least-connections" || String.eqb strategy "lc" then LeastConnections
  else RoundRobin.

Definition pick_target_by_strategy (random_range : nat -> nat) (strategy : string) (targets w_targets : list Target)
    (counter : loc) (h : Heap) : Heap * option Target :=
  if String.eqb strategy "round-robin" || String.eqb strategy "rr" || is_empty strategy
  then round_robin_pick targets w_targets counter h
  else if String.eqb strategy "random" || String.eqb strategy "rnd" then (h, random_pick random_range w_targets)
  else if String.eqb strategy "least-connections" || String.eqb strategy "lc" then (h, least_connections_pick h targets)
  else round_robin_pick targets w_targets counter h.

(** ** Round robin *)

(** [n] picks in a row. *)
Fixpoint picks (n : nat) (targets w_targets : list Target) (counter : loc) (h : Heap) : Heap * list (option Target) :=
  match n with
  | O => (h, [])
  | S n' =>
      let '(h, t) := round_robin_pick targets w_targets counter h in
      let '(h, ts) := picks n' targets w_targets counter h in
      (h, t :: ts)
  end.

(** A location the heap has a counter at. *)
Definition has_counter (l : loc) (h : Heap) : Prop := is_Some (counters h !! l).

Lemma get_set_counter l v h : get_counter l (set_counter l v h) = v.
Proof. unfold get_counter. cbn. by rewrite lookup_insert_eq. Qed.

Lemma picks_cycle n targets w l h :
  targets <> [] -> w <> [] -> 0 <= get_counter l h -> get_counter l h + Z.of_nat n < 2 ^ 64 ->
  (picks n targets w l h).2
  = map (fun i => w !! Z.to_nat ((get_counter l h + Z.of_nat i) mod Z.of_nat (List.length w))) (seq 0 n)
  /\ get_counter l (picks n targets w l h).1 = get_counter l h + Z.of_nat n.
Proof.
  intros Ht Hw. revert h. induction n as [|n IH]; intros h Hc Hn; [cbn; split; [done|lia]|].
  cbn [picks]. unfold round_robin_pick. destruct w as [|w0 w]; [done|]. destruct targets as [|t0 targets]; [done|].
  set (wl := w0 :: w) in *. set (tl := t0 :: targets) in *. set (c := get_counter l h) in *.
  assert (Ec : wrapping_add c 1 = c + 1) by (apply wrapping_add_small; unfold is_u64; lia). rewrite Ec.
  set (h1 := set_counter l (c + 1) h). assert (E1 : get_counter l h1 = c + 1) by apply get_set_counter.
  specialize (IH h1). rewrite E1 in IH. destruct IH as [Hp Hcnt]; [lia|lia|].
  destruct (picks n tl wl l h1) as [h2 ts]. cbn [snd fst] in *. split; [|lia].
  rewrite Hp. cbn [seq map]. f_equal; [by rewrite Z.add_0_r|]. rewrite <- seq_shift, map_map. apply map_ext.
  intros i. do 3 f_equal. lia.
Qed.

Lemma window_rotation {A} (w : list A) c :
  w <> [] -> 0 <= c ->
  let k := Z.to_nat (c mod Z.of_nat (List.length w)) in
  map (fun i => w !! Z.to_nat ((c + Z.of_nat i) mod Z.of_nat (List.length w))) (seq 0 (List.length w))
  = map Some (drop k w ++ take k w).
Proof.
  intros Hw Hc k. set (n := List.length w) in *. assert (Hn : 0 < Z.of_nat n) by (subst n; destruct w; [done|cbn; lia]).
  pose proof (Z.mod_pos_bound c (Z.of_nat n) Hn) as Hk. apply list_eq. intros i.
  rewrite !list_lookup_fmap. destruct (decide (i < n)%nat) as [Hi|Hi].
  - rewrite lookup_seq_lt by done. cbn [fmap option_fmap option_map Nat.add].
    assert (Hmod : (c + Z.of_nat i) mod Z.of_nat n = if decide (k + i < n)%nat then Z.of_nat (k + i) else Z.of_nat (k + i - n)).
    { rewrite <- Z.add_mod_idemp_l by lia. subst k. case_decide; [rewrite Z.mod_small by lia; lia|].
      symmetry. apply Z.mod_unique with (q := 1); lia. }
    rewrite Hmod. case_decide.
    + rewrite Nat2Z.id, lookup_app_l by (rewrite length_drop; fold n; lia). rewrite lookup_drop.
      destruct (lookup_lt_is_Some_2 w (k + i)) as [x ->]; [fold n; lia|done].
    + rewrite Nat2Z.id, lookup_app_r by (rewrite length_drop; fold n; lia). rewrite length_drop. fold n.
      rewrite lookup_take_lt by (subst k; lia). replace (i - (n - k))%nat with (k + i - n)%nat by (subst k; lia).
      destruct (lookup_lt_is_Some_2 w (k + i - n)) as [x ->]; [fold n; subst k; lia|done].
  - rewrite !lookup_ge_None_2; [done|rewrite length_app, length_drop, length_take; fold n; lia|rewrite length_seq; lia].
Qed.

(** round robin is fair: as many consecutive picks as the route has slots
    (before the 64-bit counter wraps) go through the slots once each, in order
    from wherever the counter stands, so each target is picked exactly as often
    as it has slots. *)
Theorem round_robin_cycle targets w l h :
  targets <> [] -> w <> [] -> 0 <= get_counter l h -> get_counter l h + Z.of_nat (List.length w) < 2 ^ 64 ->
  let k := Z.to_nat (get_counter l h mod Z.of_nat (List.length w)) in
  (picks (List.length w) targets w l h).2 = map Some (drop k w ++ take k w).
Proof.
  intros Ht Hw Hc Hn k. destruct (picks_cycle (List.length w) targets w l h) as [-> _]; [done..|]. by apply window_rotation.
Qed.

(** ** Least connections *)

Definition lc_best (skip : Target -> bool) (score : Target -> Z) (ts : list Target) (best : option (Target * Z)) : Prop :=
  match best with
  | Some (t, s) => t ∈ ts /\ skip t = false /\ s = score t /\ forall u, u ∈ ts -> skip u = false -> s <= score u
  | None => forall u, u ∈ ts -> skip u = true
  end.

Lemma lc_pass_spec skip score seen ts best :
  lc_best skip score seen best -> lc_best skip score (seen ++ ts) (lc_pass skip score ts best).
Proof.
  revert seen best. induction ts as [|t ts IH]; intros seen best Hb; cbn; [by rewrite app_nil_r|].
  replace (seen ++ t :: ts)%list with ((seen ++ [t]) ++ ts)%list by (by rewrite <- app_assoc).
  assert (Hin : forall u, u ∈ (seen ++ [t])%list <-> u ∈ seen \/ u = t) by (intros u; by rewrite elem_of_app, list_elem_of_singleton).
  destruct (skip t) eqn:Es; apply IH; clear IH.
  - destruct best as [[b s]|]; cbn in *.
    + destruct Hb as (? & ? & ? & Hmin). split_and!; [apply Hin; by left|done|done|].
      intros u [Hu| ->]%Hin Hs; [by apply Hmin|congruence].
    + intros u [Hu| ->]%Hin; [by apply Hb|done].
  - destruct best as [[b s]|]; cbn in *.
    + destruct Hb as (? & ? & Hs & Hmin). destruct (Z.ltb_spec (score t) s); cbn.
      * split_and!; [apply Hin; by right|done|done|]. intros u [Hu| ->]%Hin Hsk; [|lia]. specialize (Hmin u Hu Hsk). lia.
      * split_and!; [apply Hin; by left|done|done|]. intros u [Hu| ->]%Hin Hsk; [by apply Hmin|lia].
    + split_and!; [apply Hin; by right|done|done|]. intros u [Hu| ->]%Hin Hsk; [|lia]. apply Hb in Hu. congruence.
Qed.

Definition gets_traffic (t : Target) : bool := negb (f64_le (weight t) f64_zero).

Lemma least_connections_spec h targets :
  match least_connections_pick h targets with
  | Some t =>
      t ∈ targets
      /\ if existsb gets_traffic targets
         then gets_traffic t = true /\ forall u, u ∈ targets -> gets_traffic u = true -> lc_score h t <= lc_score h u
         else forall u, u ∈ targets -> get_counter (active_connections t) h <= get_counter (active_connections u) h
  | None => targets = []
  end.
Proof.
  unfold least_connections_pick. destruct targets as [|t0 targets]; [done|]. set (ts := t0 :: targets).
  pose proof (lc_pass_spec (fun t => f64_le (weight t) f64_zero) (lc_score h) [] ts None) as H1. cbn [app] in H1.
  pose proof (lc_pass_spec (fun _ => false) (fun t => get_counter (active_connections t) h) [] ts None) as H2. cbn [app] in H2.
  destruct (lc_pass _ (lc_score h) ts None) as [[t s]|].
  - destruct H1 as (Ht & Hw & -> & Hmin); [by intros u ?%elem_of_nil|]. split; [done|].
    replace (existsb gets_traffic ts) with true; [unfold gets_traffic; split; [by rewrite Hw|intros u Hu Hwu%negb_true_iff; by apply Hmin]|].
    symmetry. apply existsb_exists. exists t. rewrite <- list_elem_of_In. split; [done|]. unfold gets_traffic. by rewrite Hw.
  - assert (Hz : existsb gets_traffic ts = false).
    { apply not_true_iff_false. intros (u & Hu & Hg)%existsb_exists. apply list_elem_of_In, H1 in Hu; [|by intros v ?%elem_of_nil].
      unfold gets_traffic in Hg. by rewrite Hu in Hg. }
    rewrite Hz. destruct (lc_pass _ _ ts None) as [[t s]|]; cbn.
    + destruct H2 as (Ht & _ & -> & Hmin); [by intros u ?%elem_of_nil|]. split; [done|]. intros u Hu. by apply Hmin.
    + cbn in H2. specialize (H2 ltac:(by intros u ?%elem_of_nil) t0 ltac:(by left)). done.
Qed.

(** least connections takes, among the targets of positive weight, one
    with the lowest ratio of connections to weight; when no weight is positive,
    one with the fewest connections; and it fails only without targets. *)
Theorem least_connections_minimal h targets :
  match least_connections_pick h targets with
  | Some t =>
      t ∈ targets
      /\ if existsb gets_traffic targets
         then gets_traffic t = true /\ forall u, u ∈ targets -> gets_traffic u = true -> lc_score h t <= lc_score h u
         else forall u, u ∈ targets -> get_counter (active_connections t) h <= get_counter (active_connections u) h
  | None => targets = []
  end.
Proof. apply least_connections_spec. Qed.

(** ** Every strategy finds a target *)

Lemma w_targets_in l :
  l <> [] -> slots_fit l -> (compute_weights l).2 <> [] /\ forall t, t ∈ (compute_weights l).2 -> t ∈ (compute_weights l).1.
Proof.
  intros Hl Hfit. pose proof (compute_weights_perm l Hl Hfit) as Hs. destruct (compute_weights l) as [ts w]. destruct Hs as (_ & Hp & Hne & _).
  cbn. split; [done|]. intros t. rewrite Hp, list_elem_of_In, in_concat. intros (c & (u & <- & Hu)%in_map_iff & Hin).
  apply repeat_spec in Hin as ->. by apply list_elem_of_In.
Qed.

(** whatever the strategy name, picking from the targets and slots of a
    weighed route gives a target of the route. *)
Theorem pick_total random_range strategy l counter h :
  l <> [] -> slots_fit l -> (forall n, (0 < n)%nat -> (random_range n < n)%nat) -> 0 <= get_counter counter h ->
  exists t, (pick_target_by_strategy random_range strategy (compute_weights l).1 (compute_weights l).2 counter h).2 = Some t
            /\ t ∈ (compute_weights l).1.
Proof.
  intros Hl Hfit Hr Hc. destruct (w_targets_in l Hl Hfit) as [Hw Hin]. pose proof (compute_weights_nil l) as Hnil.
  destruct (compute_weights l) as [ts w]. cbn [fst snd] in *. assert (Hts : ts <> []) by (intros E; by apply Hnil in E).
  assert (Hlen : (0 < List.length w)%nat) by (destruct w; [done|cbn; lia]).
  assert (Hrr : exists t, (round_robin_pick ts w counter h).2 = Some t /\ t ∈ ts).
  { unfold round_robin_pick. destruct w as [|w0 w]; [done|]. destruct ts as [|t0 ts]; [done|]. cbn [snd].
    set (w' := w0 :: w) in *. set (i := Z.to_nat (get_counter counter h mod Z.of_nat (List.length w'))).
    destruct (lookup_lt_is_Some_2 w' i) as [x Hx]; [|exists x; split; [exact Hx|apply Hin; by eapply list_elem_of_lookup_2]].
    subst i. pose proof (Z.mod_pos_bound (get_counter counter h) (Z.of_nat (List.length w'))). lia. }
  unfold pick_target_by_strategy. destruct (_ || is_empty strategy); [done|]. destruct (_ || _); [|destruct (_ || _); [|done]].
  - cbn. unfold random_pick. destruct (lookup_lt_is_Some_2 w (random_range (List.length w))) as [x Hx]; [by apply Hr|].
    exists x. split; [by destruct w|]. apply Hin. by eapply list_elem_of_lookup_2.
  - cbn. pose proof (least_connections_spec h ts) as Hlc. destruct (least_connections_pick h ts) as [t|]; [|done].
    exists t. split; [done|]. apply Hlc.
Qed.

(** ** Concrete inputs *)

Definition demo_route : list Target := [demo "a" (f64_of_decimal false 7 (-1)); demo "b" (f64_of_decimal false 3 (-1))].
Definition demo_w : list Target := [demo "a" f64_zero; demo "b" f64_zero; demo "a" f64_zero].
Definition demo_heap : Heap := set_counter 1%positive 4 heap_empty.

Lemma round_robin_cycle_witness :
  map (fmap url) (picks 3 demo_route demo_w 1%positive demo_heap).2 = [Some "b"; Some "a"; Some "a"]
  /\ (picks (List.length demo_w) demo_route demo_w 1%positive demo_heap).2 = map Some (drop 1 demo_w ++ take 1 demo_w).
Proof.
  split; [vm_compute; reflexivity|].
  apply (round_robin_cycle demo_route demo_w 1%positive demo_heap); [discriminate|discriminate|vm_compute; discriminate|vm_compute; reflexivity].
Defined.

Lemma pick_total_witness :
  exists t, (pick_target_by_strategy (fun _ => 0%nat) "random" (compute_weights demo_route).1 (compute_weights demo_route).2 1%positive demo_heap).2 = Some t
            /\ t ∈ (compute_weights demo_route).1.
Proof.
  apply (pick_total (fun _ => 0%nat) "random" demo_route 1%positive demo_heap);
    [discriminate|vm_compute; reflexivity|intros n Hn; exact Hn|vm_compute; discriminate].
Defined.
