(* ===== verification/Registry.v ===== *)
(** * Registry: route sources and the managed table

    src/src/route/registry.rs, and [RouteTable] of src/src/route/table.rs:
    the definitions of the three sources, their merge, and the rebuilding and
    publishing of the table with the per-target cells it shares with the
    previous one. *)
From S2P Require Import Prelude F64 RustStr StrFacts Routes RateLimit CircuitBreaker Health Stats Target Weights Table.
From Stdlib Require Import Ascii String.
Local Open Scope string_scope.
Local Open Scope Z_scope.

(** ** RouteRegistry *)

Record RouteRegistry := mk_route_registry {
  static_routes : list RouteDef;
  kv_routes : list RouteDef;
  service_routes : list RouteDef;
}.

Definition route_registry_new : RouteRegistry := mk_route_registry [] [] [].
Definition set_static (defs : list RouteDef) (r : RouteRegistry) : RouteRegistry := mk_route_registry defs (kv_routes r) (service_routes r).
Definition update_kv (defs : list RouteDef) (r : RouteRegistry) : RouteRegistry := mk_route_registry (static_routes r) defs (service_routes r).
Definition update_services (defs : list RouteDef) (r : RouteRegistry) : RouteRegistry := mk_route_registry (static_routes r) (kv_routes r) defs.

Definition get_all (r : RouteRegistry) : list RouteDef := (static_routes r ++ kv_routes r ++ service_routes r)%list.

Definition registry_is_empty (r : RouteRegistry) : bool :=
  match static_routes r, kv_routes r, service_routes r with [], [], [] => true | _, _, _ => false end.

Definition set_source (src : RouteSource) (d : RouteDef) : RouteDef :=
  mk_def (cmd d) (def_service d) (def_src d) (def_dst d) (def_weight d) (def_tags d) (def_opts d) src.

Definition mark_sources (defs : list RouteDef) (src : RouteSource) : list RouteDef := map (set_source src) defs.

Section managed.
Context {G : GlobCrate} {U : UrlParser} {O : HashOrder}.

(** ** RouteTable: the published table, its registry and its configuration *)

Record RouteTable := mk_route_table {
  inner : Table;
  rt_stats_registry : TargetStatsRegistry;
  rt_cb_config : option CircuitBreakerConfig;
}.

Definition route_table_new : RouteTable := mk_route_table with_stats_registry registry_new None.
Definition rt_with_cb_config (c : CircuitBreakerConfig) (t : RouteTable) : RouteTable :=
  mk_route_table (inner t) (rt_stats_registry t) (Some c).
Definition get (t : RouteTable) : Table := inner t.
Definition swap (table : Table) (t : RouteTable) : RouteTable := mk_route_table table (rt_stats_registry t) (rt_cb_config t).
Definition set_cb_config (c : option CircuitBreakerConfig) (t : RouteTable) : RouteTable :=
  mk_route_table (inner t) (rt_stats_registry t) c.

(** The cells alive during a rebuild, besides those of the table under
    construction: the published table's, and [inflight], those held by
    requests and probes. *)
Definition held_cells (inflight : gset loc) (t : RouteTable) : gset loc := inflight ∪ table_locs (routes (inner t)).

(** [Table::from_definitions_with_stats] on the table's own registry. *)
Definition build (now_ns : Z) (inflight : gset loc) (defs : list RouteDef) (config : option CircuitBreakerConfig)
    (t : RouteTable) (h : Heap) : Table * RouteTable * Heap :=
  let '(table, r, h) := from_definitions_with_stats now_ns (held_cells inflight t) defs config (rt_stats_registry t) h in
  (table, mk_route_table (inner t) r (rt_cb_config t), h).

Definition apply_and_swap (now_ns : Z) (inflight : gset loc) (defs : list RouteDef) (t : RouteTable) (h : Heap) : RouteTable * Heap :=
  let '(table, t, h) := build now_ns inflight defs (rt_cb_config t) t h in
  (swap table t, h).

(** ** ManagedRouteTable: every operation runs under [update_lock] *)

Record ManagedRouteTable := mk_managed { route_table : RouteTable; registry : RouteRegistry }.

Definition managed_new : ManagedRouteTable := mk_managed route_table_new route_registry_new.
Definition new_with_cb_config (c : CircuitBreakerConfig) : ManagedRouteTable :=
  mk_managed (rt_with_cb_config c route_table_new) route_registry_new.

Definition rebuild_and_swap (now_ns : Z) (inflight : gset loc) (reg : RouteRegistry) (m : ManagedRouteTable) (h : Heap)
  : ManagedRouteTable * Heap :=
  let '(table, t, h) := build now_ns inflight (get_all reg) (rt_cb_config (route_table m)) (route_table m) h in
  (mk_managed (swap table t) reg, h).

Definition load_static (now_ns : Z) (inflight : gset loc) (defs : list RouteDef) (m : ManagedRouteTable) (h : Heap) : ManagedRouteTable * Heap :=
  rebuild_and_swap now_ns inflight (set_static (mark_sources defs Routes.Static) (registry m)) m h.

Definition append_static (now_ns : Z) (inflight : gset loc) (new_defs : list RouteDef) (m : ManagedRouteTable) (h : Heap) : ManagedRouteTable * Heap :=
  rebuild_and_swap now_ns inflight
    (set_static (static_routes (registry m) ++ mark_sources new_defs Routes.Static)%list (registry m)) m h.

Definition managed_update_kv (now_ns : Z) (inflight : gset loc) (defs : list RouteDef) (m : ManagedRouteTable) (h : Heap) : ManagedRouteTable * Heap :=
  rebuild_and_swap now_ns inflight (update_kv (mark_sources defs ConsulKv) (registry m)) m h.

Definition managed_update_services (now_ns : Z) (inflight : gset loc) (defs : list RouteDef) (m : ManagedRouteTable) (h : Heap) : ManagedRouteTable * Heap :=
  rebuild_and_swap now_ns inflight (update_services (mark_sources defs ConsulService) (registry m)) m h.

Definition reconfigure_circuit_breaker (now_ns : Z) (inflight : gset loc) (config : option CircuitBreakerConfig)
    (m : ManagedRouteTable) (h : Heap) : ManagedRouteTable * Heap :=
  let t := route_table m in
  let t := mk_route_table (inner t) (clear_health_trackers (rt_stats_registry t)) (rt_cb_config t) in
  let t := set_cb_config config t in
  let '(table, t, h) := build now_ns inflight (get_all (registry m)) config t h in
  (mk_managed (swap table t) (registry m), h).

(** ** The cells of a table built over a registry *)

(** Every target of the table holds the cells registered under its keys. *)
Record cells_registered (k p : string) (tg : Target) (r : TargetStatsRegistry) : Prop := {
  reg_connections : Stats.active_connections r !! url tg = Some (active_connections tg);
  reg_stats : stats r !! url tg = Some (target_stats_loc tg);
  reg_tracker : health_trackers r !! url tg = Some (health_tracker tg);
  reg_limiter : rate_limiters r !! rate_limiter_registry_key (url tg) (opts tg) = Some (rate_limiter tg);
  reg_edge : edge_stats r !! (k ++ unit_sep ++ p ++ unit_sep ++ service tg ++ unit_sep ++ url tg) = Some (edge_stats_loc tg);
}.

Definition all_registered (m : gmap string (list Route)) (r : TargetStatsRegistry) : Prop :=
  forall k p tg, tg ∈ contents m k p -> cells_registered k p tg r.

Lemma contents_locs m k p tg : tg ∈ contents m k p -> target_locs tg ⊆ table_locs m.
Proof.
  unfold contents, table_locs, all_targets_of. destruct (m !! k) as [rs|] eqn:E; cbn; [|by intros ?%elem_of_nil].
  destruct (find_path p rs) as [route|] eqn:Ef; [|by intros ?%elem_of_nil]. apply find_path_Some in Ef as [Hr _].
  intros (t0 & <- & Ht0)%list_elem_of_In%in_map_iff. intros l Hl. apply elem_of_union_list. exists (target_locs t0). split; [|done].
  apply list_elem_of_In, in_map, in_concat. exists (List.concat (map targets rs)). split.
  - apply in_map_iff. exists (k, rs). split; [done|]. by apply list_elem_of_In, elem_of_map_to_list.
  - apply in_concat. exists (targets route). split; [apply in_map; by apply list_elem_of_In|done].
Qed.

(** The registry step of one target's five lookups. *)
Record registry_step (live : gset loc) (r r' : TargetStatsRegistry) : Prop := {
  step_connections : forall k l, Stats.active_connections r !! k = Some l -> l ∈ live -> Stats.active_connections r' !! k = Some l;
  step_stats : forall k l, stats r !! k = Some l -> l ∈ live -> stats r' !! k = Some l;
  step_edge : forall k l, edge_stats r !! k = Some l -> l ∈ live -> edge_stats r' !! k = Some l;
  step_trackers : forall k l, health_trackers r !! k = Some l -> l ∈ live -> health_trackers r' !! k = Some l;
  step_limiters : forall k l, rate_limiters r !! k = Some l -> l ∈ live -> rate_limiters r' !! k = Some l;
}.

#[local] Instance registry_step_refl live : Reflexive (registry_step live).
Proof. intros r. by split. Qed.
#[local] Instance registry_step_trans live : Transitive (registry_step live).
Proof. intros r1 r2 r3 [] []. split; eauto. Qed.

(** Introduces the specification of the next lookup of a goal. *)
Ltac next_entry Hok :=
  match goal with
  | |- context [ entry_for ?live ?create ?key ?entries ?h ] =>
      let Hs := fresh "Hs" in
      assert (Hs := entry_for_spec live create key entries h ltac:(auto with rust) Hok);
      destruct (entry_for live create key entries h) as [[? ?] ?]
  end.

Lemma pre_parse_cells now tg h :
  let '(tg', h') := pre_parse now tg h in
  heap_ext h h' /\ url tg' = url tg /\ opts tg' = opts tg /\ service tg' = service tg
  /\ active_connections tg' = active_connections tg /\ health_tracker tg' = health_tracker tg
  /\ target_stats_loc tg' = target_stats_loc tg /\ edge_stats_loc tg' = edge_stats_loc tg /\ rate_limiter tg' = rate_limiter tg.
Proof.
  unfold pre_parse. destruct (url_parse (url tg)); cbn; destruct (rate_limit_override (opts tg)) as [[]|];
    split_and!; try reflexivity; apply set_bucket_ext.
Qed.

Lemma add_def_target_cells now base def t r h :
  stats_registry t = true -> registry_ok r h ->
  let '(tg, r', h') := add_def_target now base def t r h in
  registry_ok r' h' /\ heap_ext h h' /\ registry_step (base ∪ table_locs (routes t)) r r'
  /\ cells_registered (def_host def) (add_path def) (core tg) r'.
Proof.
  intros Ht [K1 K2 K3 K4 K5]. unfold add_def_target, table_active_connections_for, table_health_tracker_for, table_stats_for,
    table_edge_stats_for, table_rate_limiter_for. rewrite Ht. set (live := base ∪ _).
  unfold active_connections_for, health_tracker_for, stats_for, edge_stats_for, rate_limiter_for. cbn [Stats.active_connections stats edge_stats health_trackers rate_limiters].
  next_entry K1. destruct Hs as (? & E1 & ? & S1). cbn. pose proof (entries_ok_ext _ _ _ E1 K4) as K4'.
  next_entry K4'. destruct Hs as (? & E2 & ? & S2). cbn. pose proof (entries_ok_ext _ _ _ (transitivity E1 E2) K2) as K2'.
  next_entry K2'. destruct Hs as (? & E3 & ? & S3). cbn. pose proof (entries_ok_ext _ _ _ (transitivity (transitivity E1 E2) E3) K3) as K3'.
  next_entry K3'. destruct Hs as (? & E4 & ? & S4). cbn.
  pose proof (entries_ok_ext _ _ _ (transitivity (transitivity (transitivity E1 E2) E3) E4) K5) as K5'.
  next_entry K5'. destruct Hs as (? & E5 & ? & S5). cbn.
  match goal with |- context [ pre_parse now ?tg0 ?h0 ] => pose proof (pre_parse_cells now tg0 h0) as Hp; destruct (pre_parse now tg0 h0) as [tg h'] end.
  destruct Hp as (E6 & Hu & Ho & Hsv & Hc1 & Hc2 & Hc3 & Hc4 & Hc5). cbn in Hu, Ho, Hsv, Hc1, Hc2, Hc3, Hc4, Hc5. split; [|split; [|split]].
  - split; cbn; (eapply entries_ok_ext; [|eassumption]); repeat first [eassumption | etransitivity; [eassumption|]].
  - by repeat (etransitivity; [eassumption|]).
  - by split.
  - split; cbn; rewrite ?Hu, ?Ho, ?Hsv, ?Hc1, ?Hc2, ?Hc3, ?Hc4, ?Hc5; assumption.
Qed.

Lemma registry_step_weaken live live' r r' : live' ⊆ live -> registry_step live r r' -> registry_step live' r r'.
Proof. intros Hsub []. split; eauto. Qed.

Lemma registered_step live k p tg r r' :
  registry_step live r r' -> target_locs tg ⊆ live -> cells_registered k p tg r -> cells_registered k p tg r'.
Proof.
  unfold target_locs. intros [] Hsub []. split; eauto; match goal with f : forall k l, ?m !! k = _ -> _ |- _ => apply f; [done|set_solver] end.
Qed.

Lemma spec_apply_in def tg f k p t :
  t ∈ spec_apply def tg f k p ->
  (exists t0, t0 ∈ f k p /\ (t = t0 \/ exists w, t = set_fixed_weight w t0))
  \/ (cmd def = Routes.Add /\ k = def_host def /\ p = add_path def /\ t = tg).
Proof.
  unfold spec_apply. destruct (cmd def).
  - destruct (String.eqb_spec k (def_host def)), (String.eqb_spec p (add_path def)), (existsb _ _); cbn; try (by left; eauto).
    intros [?|?%list_elem_of_singleton]%elem_of_app; [by left; eauto|by right].
  - destruct (del_scope _ _ _); [|by left; eauto]. rewrite list_elem_of_In, filter_In, <- list_elem_of_In. intros [? _]. left; eauto.
  - destruct (_ && _); [|by left; eauto]. unfold reweigh. intros (t0 & <- & Ht0)%list_elem_of_In%in_map_iff. left. exists t0.
    rewrite list_elem_of_In. split; [done|]. destruct (weight_selected def t0); [by right; eexists|by left].
Qed.

(** What a sequence of steps over the registry keeps. *)
Record cells_inv (base : gset loc) (r0 : TargetStatsRegistry) (h0 : Heap) (t : Table) (r : TargetStatsRegistry) (h : Heap) : Prop := {
  ci_flag : stats_registry t = true;
  ci_table : table_inv (routes t);
  ci_registry : registry_ok r h;
  ci_heap : heap_ext h0 h;
  ci_step : registry_step base r0 r;
  ci_cells : all_registered (routes t) r;
}.

Lemma apply_flag now base def t r h : stats_registry (apply now base def t r h).1.1 = stats_registry t.
Proof.
  unfold apply, apply_add, apply_del, apply_weight. destruct (cmd def).
  - destruct (add_def_target _ _ _ _ _ _) as [[? ?] ?]. destruct (update_path _ _ _); [done|]. by destruct (route_new _ _ _).
  - repeat (case_match; try done).
  - by destruct (routes t !! _).
Qed.

Lemma apply_effect now base def t r h :
  stats_registry t = true -> registry_ok r h ->
  let '(_, r', h') := apply now base def t r h in
  registry_ok r' h' /\ heap_ext h h' /\ registry_step (base ∪ table_locs (routes t)) r r'
  /\ (cmd def = Routes.Add -> cells_registered (def_host def) (add_path def) (core (add_def_target now base def t r h).1.1) r').
Proof.
  intros Ht Hr. unfold apply. destruct (cmd def); [|(split; [done|split; [done|split; [done|intros ?; discriminate]]])..]. unfold apply_add.
  pose proof (add_def_target_cells now base def t r h Ht Hr) as Hs.
  destruct (add_def_target now base def t r h) as [[tg r'] h']. destruct Hs as (? & ? & ? & ?). cbn.
  destruct (update_path _ _ _); [by split_and!|]. pose proof (alloc_counter_ok 0 h') as (_ & _ & He).
  cbn in He |- *. split_and!; [eapply registry_ok_ext; [exact He|done]|etransitivity; [eassumption|exact He]|done|done].
Qed.

Lemma apply_cells now base def r0 h0 t r h :
  cells_inv base r0 h0 t r h ->
  let '(t', r', h') := apply now base def t r h in cells_inv base r0 h0 t' r' h'.
Proof.
  intros [Hf Hinv Hr Hh Hs Hcells]. pose proof (apply_flag now base def t r h) as Hflag.
  pose proof (apply_spec now base def t r h Hinv) as [Hinv' Hc]. pose proof (apply_effect now base def t r h Hf Hr) as He.
  destruct (apply now base def t r h) as [[t' r'] h']. cbn [fst] in *. destruct He as (Hr' & Hh' & Hs' & Hnew). split.
  - congruence.
  - done.
  - done.
  - by etransitivity.
  - etransitivity; [exact Hs|]. eapply registry_step_weaken; [|exact Hs']. apply union_subseteq_l.
  - intros k p tg Htg. rewrite Hc in Htg. apply spec_apply_in in Htg as [(t0 & Ht0 & Heq)|(? & -> & -> & ->)]; [|by apply Hnew].
    assert (Hreg : cells_registered k p t0 r').
    { eapply registered_step; [exact Hs'| |by apply Hcells]. intros l Hl. apply elem_of_union. right. by apply (contents_locs _ _ _ _ Ht0). }
    destruct Heq as [->|[w ->]]; [done|]. by destruct Hreg; split.
Qed.

Lemma apply_all_cells now base defs r0 h0 t r h :
  cells_inv base r0 h0 t r h ->
  let '(t', r', h') := apply_all now base defs t r h in cells_inv base r0 h0 t' r' h'.
Proof.
  revert t r h. induction defs as [|def defs IH]; intros t r h Hi; [exact Hi|]. cbn.
  pose proof (apply_cells now base def r0 h0 t r h Hi) as Hi'. destruct (apply now base def t r h) as [[t1 r1] h1]. by apply IH.
Qed.

Lemma from_definitions_cells now base defs config r h :
  registry_ok r h ->
  let '(t', r', h') := from_definitions_with_stats now base defs config r h in cells_inv base r h t' r' h'.
Proof.
  intros Hr. unfold from_definitions_with_stats.
  pose proof (apply_all_cells now base defs r h (mk_table ∅ true config []) r h) as Hi.
  destruct (apply_all _ _ _ _ _ _) as [[t r'] h']. destruct Hi as [Hf Hinv Hr' Hh Hs Hcells].
  - split; [done|apply map_Forall_empty|done|done|done|]. intros k p tg. unfold contents. cbn [routes]. rewrite lookup_empty. by intros ?%elem_of_nil.
  - split; [done|by apply finalize_inv|done|done|done|]. intros k p tg. rewrite finalize_contents by done. apply Hcells.
Qed.

(** ** Sequences of operations *)

Inductive managed_op :=
  | OpLoadStatic (defs : list RouteDef)
  | OpAppendStatic (defs : list RouteDef)
  | OpUpdateKv (defs : list RouteDef)
  | OpUpdateServices (defs : list RouteDef)
  | OpReconfigure (config : option CircuitBreakerConfig).

Definition managed_apply (now_ns : Z) (inflight : gset loc) (op : managed_op) (m : ManagedRouteTable) (h : Heap) : ManagedRouteTable * Heap :=
  match op with
  | OpLoadStatic defs => load_static now_ns inflight defs m h
  | OpAppendStatic defs => append_static now_ns inflight defs m h
  | OpUpdateKv defs => managed_update_kv now_ns inflight defs m h
  | OpUpdateServices defs => managed_update_services now_ns inflight defs m h
  | OpReconfigure config => reconfigure_circuit_breaker now_ns inflight config m h
  end.

(** What the operations mean for the three sources. *)
Definition spec_sources (op : managed_op) (s : list RouteDef * list RouteDef * list RouteDef) : list RouteDef * list RouteDef * list RouteDef :=
  let '(st, kv, svc) := s in
  match op with
  | OpLoadStatic defs => (mark_sources defs Routes.Static, kv, svc)
  | OpAppendStatic defs => ((st ++ mark_sources defs Routes.Static)%list, kv, svc)
  | OpUpdateKv defs => (st, mark_sources defs ConsulKv, svc)
  | OpUpdateServices defs => (st, kv, mark_sources defs ConsulService)
  | OpReconfigure _ => s
  end.

(** The system: an operation of the table, or traffic, which changes the
    values of cells but not which cells there are. *)
Inductive managed_step : ManagedRouteTable * Heap -> ManagedRouteTable * Heap -> Prop :=
  | step_op now_ns inflight op m h : managed_step (m, h) (managed_apply now_ns inflight op m h)
  | step_traffic m h h' : next_loc h' = next_loc h -> managed_step (m, h) (m, h').

Definition initial (s : ManagedRouteTable * Heap) : Prop :=
  s.1 = managed_new \/ exists c, s.1 = new_with_cb_config c.

Definition reachable (s : ManagedRouteTable * Heap) : Prop := exists s0, initial s0 /\ rtc managed_step s0 s.

Definition published (m : ManagedRouteTable) : Table := get (route_table m).

Record managed_inv (s : ManagedRouteTable * Heap) : Prop := {
  mi_registry : registry_ok (rt_stats_registry (route_table s.1)) s.2;
  mi_cells : all_registered (routes (published s.1)) (rt_stats_registry (route_table s.1));
  mi_contents : forall k p, erased_contents (routes (published s.1)) k p = spec_table (get_all (registry s.1)) k p;
}.

Lemma built_contents now base defs config r h k p :
  erased_contents (routes (from_definitions_with_stats now base defs config r h).1.1) k p = spec_table defs k p.
Proof. apply from_definitions_contents. Qed.

(** A rebuild over any registry of the published table's cells. *)
Lemma build_inv now inflight defs config t h :
  registry_ok (rt_stats_registry t) h ->
  let '(table, t', h') := build now inflight defs config t h in
  cells_inv (held_cells inflight t) (rt_stats_registry t) h table (rt_stats_registry t') h'
  /\ rt_cb_config t' = rt_cb_config t
  /\ forall k p, erased_contents (routes table) k p = spec_table defs k p.
Proof.
  intros Hr. unfold build. pose proof (from_definitions_cells now (held_cells inflight t) defs config (rt_stats_registry t) h Hr) as Hi.
  pose proof (built_contents now (held_cells inflight t) defs config (rt_stats_registry t) h) as Hc.
  destruct (from_definitions_with_stats _ _ _ _ _ _) as [[table r'] h']. by split_and!.
Qed.

(** The registry an operation starts its rebuild from. *)
Definition rebuild_start (op : managed_op) (r : TargetStatsRegistry) : TargetStatsRegistry :=
  match op with OpReconfigure _ => clear_health_trackers r | _ => r end.

Lemma managed_apply_spec now inflight op m h :
  registry_ok (rt_stats_registry (route_table m)) h ->
  let '(m', h') := managed_apply now inflight op m h in
  cells_inv (held_cells inflight (route_table m)) (rebuild_start op (rt_stats_registry (route_table m))) h (published m')
    (rt_stats_registry (route_table m')) h'
  /\ (static_routes (registry m'), kv_routes (registry m'), service_routes (registry m'))
     = spec_sources op (static_routes (registry m), kv_routes (registry m), service_routes (registry m))
  /\ forall k p, erased_contents (routes (published m')) k p = spec_table (get_all (registry m')) k p.
Proof.
  intros Hr. destruct op as [defs|defs|defs|defs|config]; cbn [managed_apply];
    unfold load_static, append_static, managed_update_kv, managed_update_services, reconfigure_circuit_breaker, rebuild_and_swap;
    match goal with |- context [ build now inflight ?defs ?config ?t ?h ] =>
      pose proof (build_inv now inflight defs config t h) as Hb; destruct (build now inflight defs config t h) as [[table t'] h'] end;
    (destruct Hb as (? & ? & ?); [first [exact Hr|by apply clear_health_trackers_ok]|]); by split_and!.
Qed.

Lemma registry_ok_next r h h' : next_loc h' = next_loc h -> registry_ok r h -> registry_ok r h'.
Proof.
  intros Hn. assert (He : forall e, entries_ok e h -> entries_ok e h') by (intros e [Hi Hb]; split; [done|by rewrite Hn]).
  intros []. split; by apply He.
Qed.

Lemma managed_inv_reachable s : reachable s -> managed_inv s.
Proof.
  intros (s0 & H0 & Hsteps).
  assert (Hi : managed_inv s0).
  { destruct s0 as [m0 h0], H0 as [E|[c E]]; cbn in E; subst m0; (split; cbn; [apply registry_new_ok| |by intros k p; unfold erased_contents, contents; rewrite lookup_empty]);
      intros k p tg; unfold contents; rewrite lookup_empty; by intros ?%elem_of_nil. }
  clear H0. induction Hsteps as [|s1 s2 s3 Hstep _ IH]; [done|]. apply IH. clear IH.
  destruct Hi as [Hr Hc Hs], Hstep as [now inflight op m h|m h h' Hn]; cbn in Hr, Hc, Hs.
  - pose proof (managed_apply_spec now inflight op m h Hr) as Ha. destruct (managed_apply now inflight op m h) as [m' h'].
    destruct Ha as ([] & _ & ?). by split.
  - split; [|done|done]. by apply (registry_ok_next _ h).
Qed.

(** ** Where a published target comes from *)

Lemma published_wf s : reachable s -> table_inv (routes (published s.1)).
Proof.
  intros (s0 & H0 & Hsteps).
  assert (Hi : managed_inv s0 /\ table_inv (routes (published s0.1))).
  { split; [apply managed_inv_reachable; exists s0; split; [done|apply rtc_refl]|].
    destruct s0 as [m0 h0], H0 as [E|[c E]]; cbn in E; subst m0; apply map_Forall_empty. }
  clear H0. induction Hsteps as [|s1 s2 s3 Hstep _ IH]; [apply Hi|]. apply IH. destruct Hi as [[Hr Hc Hs] Hw].
  destruct Hstep as [now inflight op m h|m h h' Hn]; cbn in *.
  - pose proof (managed_apply_spec now inflight op m h Hr) as Ha. destruct (managed_apply now inflight op m h) as [m' h'].
    destruct Ha as ([] & _ & ?). by split; [split|].
  - split; [|done]. split; [|done|done]. by apply (registry_ok_next _ h).
Qed.

(** The definitions of each source carry its mark. *)
Definition source_defs (src : RouteSource) (r : RouteRegistry) : list RouteDef :=
  match src with Routes.Static => static_routes r | ConsulKv => kv_routes r | ConsulService => service_routes r end.

Definition sources_marked (r : RouteRegistry) : Prop := forall src, Forall (fun d => def_source d = src) (source_defs src r).

Lemma mark_sources_marked defs src : Forall (fun d => def_source d = src) (mark_sources defs src).
Proof. apply Forall_fmap, Forall_true. done. Qed.

Lemma managed_apply_registry now inflight op m h :
  (static_routes (registry (managed_apply now inflight op m h).1), kv_routes (registry (managed_apply now inflight op m h).1),
   service_routes (registry (managed_apply now inflight op m h).1))
  = spec_sources op (static_routes (registry m), kv_routes (registry m), service_routes (registry m)).
Proof.
  destruct op; cbn [managed_apply];
    unfold load_static, append_static, managed_update_kv, managed_update_services, reconfigure_circuit_breaker, rebuild_and_swap;
    by destruct (build _ _ _ _ _ _) as [[? ?] ?].
Qed.

Lemma reachable_marked s : reachable s -> sources_marked (registry s.1).
Proof.
  intros (s0 & H0 & Hsteps).
  assert (Hi : sources_marked (registry s0.1)) by (destruct H0 as [->|[c ->]]; intros []; constructor).
  clear H0. induction Hsteps as [|s1 s2 s3 Hstep _ IH]; [done|]. apply IH.
  destruct Hstep as [now inflight op m h|m h h' Hn]; [|done]. cbn in Hi |- *. pose proof (managed_apply_registry now inflight op m h) as E.
  pose proof (Hi Routes.Static) as H1'. pose proof (Hi ConsulKv) as H2'. pose proof (Hi ConsulService) as H3'. cbn in H1', H2', H3'.
  destruct (managed_apply now inflight op m h) as [m' h']. cbn [fst] in *.
  destruct op; cbn in E; injection E as E1 E2 E3; intros []; cbn; rewrite ?E1, ?E2, ?E3; try done; try apply mark_sources_marked.
  apply Forall_app; split; [done|apply mark_sources_marked].
Qed.

Lemma spec_table_source defs k p t :
  t ∈ spec_table defs k p ->
  exists def w, def ∈ defs /\ cmd def = Routes.Add /\ k = def_host def /\ p = add_path def /\ t = set_fixed_weight w (def_target def).
Proof.
  unfold spec_table. assert (Hgo : forall f, (forall k p t, t ∈ f k p -> exists def w, def ∈ defs /\ cmd def = Routes.Add /\ k = def_host def
      /\ p = add_path def /\ t = set_fixed_weight w (def_target def)) -> forall rest, (forall d, d ∈ rest -> d ∈ defs) -> forall k p t,
      t ∈ fold_left (fun f def => spec_apply def (def_target def) f) rest f k p ->
      exists def w, def ∈ defs /\ cmd def = Routes.Add /\ k = def_host def /\ p = add_path def /\ t = set_fixed_weight w (def_target def)).
  { intros f Hf rest. revert f Hf. induction rest as [|d rest IH]; intros f Hf Hsub; [exact Hf|]. cbn [fold_left]. apply IH.
    - intros k' p' t' [(t0 & Ht0 & Ht)|(? & -> & -> & ->)]%spec_apply_in.
      + destruct (Hf _ _ _ Ht0) as (def & w & ? & ? & ? & ? & ->). destruct Ht as [->|[w' ->]]; [by exists def, w|by exists def, w'].
      + exists d, (fixed_weight (def_target d)). split_and!; [apply Hsub; by left|done..|by destruct (def_target d)].
    - intros d' Hd. apply Hsub. by right. }
  apply (Hgo (fun _ _ => []) (fun _ _ _ Hn => False_ind _ (not_elem_of_nil _ Hn)) defs). done.
Qed.

(** The definition a published target was made from: an [add] of the source
    the target is marked with, for the host and the path it is served under.
    Only its weight may have been changed since, by a [weight] command. *)
Record made_from (reg : RouteRegistry) (hst pth : string) (t : Target) (def : RouteDef) : Prop := {
  mf_def : def ∈ source_defs (source t) reg;
  mf_add : cmd def = Routes.Add;
  mf_host : def_host def = hst;
  mf_path : add_path def = pth;
  mf_service : service t = def_service def;
  mf_url : url t = def_dst def;
  mf_tags : tags t = def_tags def;
  mf_opts : opts t = def_opts def;
  mf_target : exists w, erase t = set_fixed_weight w (def_target def);
}.

Lemma def_target_fields def :
  service (def_target def) = def_service def /\ url (def_target def) = def_dst def /\ tags (def_target def) = def_tags def
  /\ opts (def_target def) = def_opts def /\ source (def_target def) = def_source def.
Proof.
  unfold def_target, pre_parse. cbn [opts url]. destruct (url_parse _); destruct (rate_limit_override _) as [[]|]; by split_and!.
Qed.

Lemma published_target_source m h key r t :
  reachable (m, h) -> r ∈ routes_of (published m) key -> t ∈ targets r \/ t ∈ w_targets r ->
  host r = key /\ exists def, made_from (registry m) (host r) (path r) t def.
Proof.
  intros Hreach Hr Ht. pose proof (published_wf _ Hreach) as Hw. cbn in Hw. unfold routes_of in Hr.
  destruct (routes (published m) !! key) as [rs|] eqn:Ek; [|by apply elem_of_nil in Hr].
  destruct (route_target_in_contents _ _ _ _ _ Hw Ek Hr Ht) as [Hh Hc]. split; [done|].
  assert (He : erase t ∈ spec_table (get_all (registry m)) key (path r)).
  { rewrite <- (mi_contents _ (managed_inv_reachable _ Hreach)). unfold erased_contents.
    apply list_elem_of_In, in_map_iff. exists (core t). by rewrite <- list_elem_of_In. }
  apply spec_table_source in He as (def & w & Hd & Hadd & Hk & Hp & E).
  destruct (def_target_fields def) as (F1 & F2 & F3 & F4 & F5). exists def. rewrite Hh.
  assert (Hs : source t = def_source def) by (rewrite <- F5; apply (f_equal source E)).
  split; try done.
  - rewrite Hs. pose proof (reachable_marked _ Hreach) as Hm. unfold get_all in Hd. cbn in Hm.
    apply elem_of_app in Hd as [Hd|Hd]; [|apply elem_of_app in Hd as [Hd|Hd]].
    + specialize (Hm Routes.Static). rewrite Forall_forall in Hm. by rewrite (Hm _ Hd).
    + specialize (Hm ConsulKv). rewrite Forall_forall in Hm. by rewrite (Hm _ Hd).
    + specialize (Hm ConsulService). rewrite Forall_forall in Hm. by rewrite (Hm _ Hd).
  - rewrite <- F1. apply (f_equal service E).
  - rewrite <- F2. apply (f_equal url E).
  - rewrite <- F3. apply (f_equal tags E).
  - rewrite <- F4. apply (f_equal opts E).
  - by exists w.
Qed.

Lemma target_locs_in tg l :
  l ∈ target_locs tg <-> l = active_connections tg \/ l = health_tracker tg \/ l = target_stats_loc tg
                         \/ l = edge_stats_loc tg \/ l = rate_limiter tg.
Proof. unfold target_locs. rewrite !elem_of_union, !elem_of_singleton. tauto. Qed.

(** The operations of a history, from the oldest. *)
Inductive history : list managed_op -> ManagedRouteTable * Heap -> Prop :=
  | history_initial s : initial s -> history [] s
  | history_op ops now_ns inflight op m h :
      history ops (m, h) -> history (ops ++ [op]) (managed_apply now_ns inflight op m h)
  | history_traffic ops m h h' : history ops (m, h) -> next_loc h' = next_loc h -> history ops (m, h').

Lemma history_reachable ops s : history ops s -> reachable s.
Proof.
  induction 1 as [s Hs|ops now inflight op m h _ (s0 & ? & ?)|ops m h h' _ (s0 & ? & ?) Hn]; [by exists s|..].
  all: exists s0; split; [done|]; eapply rtc_r; [done|by constructor].
Qed.

(** After a history each source holds what its operations left there, and the
    published table is the one the sources specify. *)
Lemma sources_served ops m h :
  history ops (m, h) ->
  let '(st, kv, svc) := fold_left (fun s op => spec_sources op s) ops ([], [], []) in
  static_routes (registry m) = st /\ kv_routes (registry m) = kv /\ service_routes (registry m) = svc
  /\ forall k p, erased_contents (routes (published m)) k p = spec_table (st ++ kv ++ svc)%list k p.
Proof.
  intros Hist. pose proof (managed_inv_reachable _ (history_reachable _ _ Hist)) as [_ _ Hc]. cbn in Hc.
  assert (Hsrc : (static_routes (registry m), kv_routes (registry m), service_routes (registry m))
                 = fold_left (fun s op => spec_sources op s) ops ([], [], [])).
  { clear Hc. remember (m, h) as s eqn:E. change m with (m, h).1. rewrite <- E. clear m h E.
    induction Hist as [s [->|[c ->]]|ops now inflight op m h Hist IH|ops m h h' _ IH Hn]; [done|done| |done].
    rewrite fold_left_app. cbn [fold_left]. rewrite <- IH. destruct (managed_inv_reachable _ (history_reachable _ _ Hist)) as [Hr _ _].
    pose proof (managed_apply_spec now inflight op m h Hr) as Ha. destruct (managed_apply now inflight op m h) as [m' h']. apply Ha. }
  rewrite <- Hsrc. split_and!; [done|done|done|]. exact Hc.
Qed.

(** C7: the sources are isolated and the published table always serves their
    merge: after any history of loads, updates, reconfigurations and traffic,
    each source holds what the last operations on that source alone left there
    (marked with the source), and the published table is the one the static,
    then the KV, then the service definitions specify. *)
Theorem managed_table_serves_sources ops m h :
  history ops (m, h) ->
  let '(st, kv, svc) := fold_left (fun s op => spec_sources op s) ops ([], [], []) in
  static_routes (registry m) = st /\ kv_routes (registry m) = kv /\ service_routes (registry m) = svc
  /\ forall k p, erased_contents (routes (published m)) k p = spec_table (st ++ kv ++ svc)%list k p.
Proof. apply sources_served. Qed.

Definition is_reconfigure (op : managed_op) : bool := match op with OpReconfigure _ => true | _ => false end.

Lemma rebuild_start_fields op r :
  Stats.active_connections (rebuild_start op r) = Stats.active_connections r /\ stats (rebuild_start op r) = stats r
  /\ edge_stats (rebuild_start op r) = edge_stats r /\ rate_limiters (rebuild_start op r) = rate_limiters r
  /\ (is_reconfigure op = false -> health_trackers (rebuild_start op r) = health_trackers r).
Proof. by destruct op. Qed.

(** C8: a rebuild keeps the state of the targets that stay: when a target of
    the published table has the URL of a target of the table it replaces, it
    has the same connection counter and statistics, with their values, the same
    rate limiter if the rate-limit policy is the same, the same edge statistics
    if the route and the service are the same, and, unless the circuit breaker
    was reconfigured, the same health tracker with its breaker. *)
Theorem rebuild_keeps_cells now inflight op m h k p tg k' p' tg' :
  reachable (m, h) ->
  let '(m', h') := managed_apply now inflight op m h in
  tg ∈ contents (routes (published m)) k p -> tg' ∈ contents (routes (published m')) k' p' -> url tg' = url tg ->
  active_connections tg' = active_connections tg
  /\ get_counter (active_connections tg') h' = get_counter (active_connections tg) h
  /\ target_stats_loc tg' = target_stats_loc tg
  /\ get_stats (target_stats_loc tg') h' = get_stats (target_stats_loc tg) h
  /\ (rate_limiter_registry_key (url tg') (opts tg') = rate_limiter_registry_key (url tg) (opts tg) -> rate_limiter tg' = rate_limiter tg)
  /\ (k' = k -> p' = p -> service tg' = service tg -> edge_stats_loc tg' = edge_stats_loc tg)
  /\ (is_reconfigure op = false -> health_tracker tg' = health_tracker tg /\ get_tracker (health_tracker tg') h' = get_tracker (health_tracker tg) h).
Proof.
  intros Hreach. destruct (managed_inv_reachable _ Hreach) as [Hr Hcells _]. cbn in Hr, Hcells.
  pose proof (managed_apply_spec now inflight op m h Hr) as Ha. destruct (managed_apply now inflight op m h) as [m' h'].
  destruct Ha as ([_ _ _ Hext Hstep Hcells'] & _ & _). intros Htg Htg' Hu.
  assert (Hlive : target_locs tg ⊆ held_cells inflight (route_table m)).
  { unfold held_cells. intros l Hl. apply elem_of_union. right. by apply (contents_locs _ _ _ _ Htg). }
  specialize (Hcells _ _ _ Htg). specialize (Hcells' _ _ _ Htg'). destruct Hcells as [C1 C2 C3 C4 C5], Hcells' as [D1 D2 D3 D4 D5].
  assert (Hin : forall l, l = active_connections tg \/ l = target_stats_loc tg \/ l = health_tracker tg \/ l = rate_limiter tg \/ l = edge_stats_loc tg ->
                l ∈ held_cells inflight (route_table m)) by (intros l Hl; apply Hlive, target_locs_in; tauto).
  destruct Hstep as [S1 S2 S3 S4 S5]. destruct Hr as [R1 R2 R3 R4 R5].
  destruct (rebuild_start_fields op (rt_stats_registry (route_table m))) as (F1 & F2 & F3 & F5 & F4).
  rewrite F1 in S1. rewrite F2 in S2. rewrite F3 in S3. rewrite F5 in S5. rewrite Hu in D1, D2, D3.
  assert (E1 : active_connections tg' = active_connections tg) by (specialize (S1 _ _ C1 (Hin (active_connections tg) ltac:(tauto))); congruence).
  assert (E2 : target_stats_loc tg' = target_stats_loc tg) by (specialize (S2 _ _ C2 (Hin (target_stats_loc tg) ltac:(tauto))); congruence).
  pose proof (entries_bound _ _ R1 _ _ C1) as B1. pose proof (entries_bound _ _ R2 _ _ C2) as B2. pose proof (entries_bound _ _ R4 _ _ C3) as B3.
  rewrite E1, E2. split; [done|]. split; [apply (heap_ext_values _ _ _ Hext B1)|]. split; [done|].
  split; [apply (heap_ext_values _ _ _ Hext B2)|]. split; [|split].
  - intros Ek. rewrite Ek in D4. specialize (S5 _ _ C4 (Hin (rate_limiter tg) ltac:(tauto))). congruence.
  - intros -> -> Es. rewrite Hu, Es in D5. specialize (S3 _ _ C5 (Hin (edge_stats_loc tg) ltac:(tauto))). congruence.
  - intros Hop. rewrite (F4 Hop) in S4. specialize (S4 _ _ C3 (Hin (health_tracker tg) ltac:(tauto))).
    assert (E3 : health_tracker tg' = health_tracker tg) by congruence.
    rewrite E3. split; [done|]. apply (heap_ext_values _ _ _ Hext B3).
Qed.

(** in every reachable table two targets share a connection counter
    exactly when they have the same URL (so the limit on connections is per
    backend, over all its routes), and likewise their health tracker and their
    statistics. *)
Theorem cells_shared_iff_same_url m h k p tg k' p' tg' :
  reachable (m, h) -> tg ∈ contents (routes (published m)) k p -> tg' ∈ contents (routes (published m)) k' p' ->
  (active_connections tg = active_connections tg' <-> url tg = url tg')
  /\ (health_tracker tg = health_tracker tg' <-> url tg = url tg')
  /\ (target_stats_loc tg = target_stats_loc tg' <-> url tg = url tg').
Proof.
  intros Hreach Htg Htg'. destruct (managed_inv_reachable _ Hreach) as [[R1 R2 _ R4 _] Hcells _]. cbn in *.
  destruct (Hcells _ _ _ Htg) as [C1 C2 C3 _ _], (Hcells _ _ _ Htg') as [D1 D2 D3 _ _].
  split_and!; (split; [intros E|intros E; congruence]).
  - rewrite E in C1. by eapply (entries_inj _ _ R1).
  - rewrite E in C3. by eapply (entries_inj _ _ R4).
  - rewrite E in C2. by eapply (entries_inj _ _ R2).
Qed.
End managed.

(** ** Concrete inputs *)

#[local] Instance no_glob : GlobCrate := {| Pattern := unit; pattern_new _ := None; pattern_matches _ _ := false |}.
#[local] Instance some_url : UrlParser := fun _ => None.
#[local] Instance list_order : HashOrder := {| iter_order m := map_to_list m; iter_order_perm m := Permutation_refl _ |}.

Definition demo_add (svc src dst : string) : RouteDef := mk_def Routes.Add svc src dst f64_zero [] ∅ Routes.Static.

Definition demo_state : ManagedRouteTable * Heap :=
  let '(m, h) := managed_apply 5 ∅ (OpLoadStatic [demo_add "a" "h/" "http://x/"; demo_add "b" "h/b" "http://y/"]) managed_new heap_empty in
  managed_apply 6 ∅ (OpUpdateKv [demo_add "c" "k/" "http://x/"]) m h.

Lemma demo_history : history [OpLoadStatic [demo_add "a" "h/" "http://x/"; demo_add "b" "h/b" "http://y/"]; OpUpdateKv [demo_add "c" "k/" "http://x/"]] demo_state.
Proof.
  unfold demo_state. destruct (managed_apply 5 ∅ _ managed_new heap_empty) as [m h] eqn:E.
  apply (history_op [_]). rewrite <- E. apply (history_op []). apply history_initial. by left.
Qed.


Definition target_at (s : ManagedRouteTable * Heap) (k p : string) : Target :=
  default (mk_target "" "" f64_zero f64_zero [] ∅ Routes.Static None None false Http 1%positive 1%positive 1%positive 1%positive 1%positive)
    (contents (routes (published s.1)) k p !! 0%nat).

Lemma let_pair {A B} (P : A -> B -> Prop) (x : A * B) : (let '(a, b) := x in P a b) -> P x.1 x.2.
Proof. by destruct x. Qed.

Lemma target_at_in s k p :
  match contents (routes (published s.1)) k p with [] => false | _ => true end = true ->
  target_at s k p ∈ contents (routes (published s.1)) k p.
Proof. unfold target_at. destruct (contents _ k p) as [|t l]; [done|]. intros _. by left. Qed.

Definition demo_next : ManagedRouteTable * Heap :=
  managed_apply 9 ∅ (OpLoadStatic [demo_add "z" "new/" "http://x/"]) demo_state.1 demo_state.2.

Lemma demo_reachable : reachable (demo_state.1, demo_state.2).
Proof. rewrite <- surjective_pairing. exact (history_reachable _ _ demo_history). Qed.

Lemma managed_table_serves_sources_witness :
  map (fun kp => map url (contents (routes (published demo_state.1)) kp.1 kp.2)) [("h", "/"); ("h", "/b"); ("k", "/"); ("k", "/b")]
  = [["http://x/"]; ["http://y/"]; ["http://x/"]; []]
  /\ map def_service (static_routes (registry demo_state.1)) = ["a"; "b"] /\ map def_source (kv_routes (registry demo_state.1)) = [ConsulKv]
  /\ static_routes (registry demo_state.1) = mark_sources [demo_add "a" "h/" "http://x/"; demo_add "b" "h/b" "http://y/"] Routes.Static.
Proof.
  split; [vm_compute; reflexivity|]. split; [vm_compute; reflexivity|]. split; [vm_compute; reflexivity|].
  pose proof demo_history as Hh. rewrite (surjective_pairing demo_state) in Hh.
  exact (proj1 (managed_table_serves_sources _ demo_state.1 demo_state.2 Hh)).
Defined.

Lemma rebuild_keeps_cells_witness :
  let tg := target_at demo_state "k" "/" in
  let tg' := target_at demo_next "new" "/" in
  service tg = "c" /\ service tg' = "z" /\ active_connections tg' = active_connections tg.
Proof.
  split; [vm_compute; reflexivity|]. split; [vm_compute; reflexivity|].
  pose proof (let_pair _ _ (rebuild_keeps_cells 9 ∅ (OpLoadStatic [demo_add "z" "new/" "http://x/"]) demo_state.1 demo_state.2 "k" "/"
    (target_at demo_state "k" "/") "new" "/" (target_at demo_next "new" "/") demo_reachable)) as Ht. cbv beta in Ht.
  exact (proj1 (Ht (target_at_in demo_state "k" "/" ltac:(vm_compute; reflexivity)) (target_at_in demo_next "new" "/" ltac:(vm_compute; reflexivity))
    ltac:(vm_compute; reflexivity))).
Defined.

Lemma cells_shared_iff_same_url_witness :
  let tg := target_at demo_state "h" "/" in
  let tg' := target_at demo_state "k" "/" in
  url tg = "http://x/" /\ (active_connections tg = active_connections tg' <-> url tg = url tg').
Proof.
  split; [vm_compute; reflexivity|].
  refine (proj1 (cells_shared_iff_same_url demo_state.1 demo_state.2 "h" "/" _ "k" "/" _ demo_reachable
    (target_at_in demo_state "h" "/" _) (target_at_in demo_state "k" "/" _))); vm_compute; reflexivity.
Defined.
