(* ===== verification/RoundRobin.v ===== *)
(** * RoundRobin: the counters of the routes

    Every rebuild of the table (src/src/route/table.rs) gives its routes
    round-robin counters of their own. In the model all counters are cells of
    one heap; here is why a route's counter is never the connection counter of
    a backend, in any table of any history, so that picking a target cannot
    disturb the accounting of connections. *)
From S2P Require Import Prelude F64 RustStr StrFacts Routes RateLimit CircuitBreaker Health Stats Target Weights Table Registry.
From Stdlib Require Import Ascii String.
Local Open Scope string_scope.
Local Open Scope Z_scope.

Section roundrobin.
Context {G : GlobCrate} {U : UrlParser} {O : HashOrder}.

(** [x] is the counter of a route. *)
Definition rr_in (m : gmap string (list Route)) (x : loc) : Prop :=
  exists key rs, m !! key = Some rs /\ x ∈ map rr_counter rs.

(** [x] is the connection counter of a backend. *)
Definition registered (r : TargetStatsRegistry) (x : loc) : Prop := exists u, Stats.active_connections r !! u = Some x.

(** ** What changes a list of routes keeps its counters *)

Lemma compute_weights_rr r : rr_counter (route_compute_weights r) = rr_counter r.
Proof. unfold route_compute_weights. by destruct (compute_weights _). Qed.

Lemma add_target_rr t r : rr_counter (route_compute_weights (add_target t r)) = rr_counter r.
Proof. rewrite compute_weights_rr. unfold add_target. by destruct (existsb _ _). Qed.

Lemma weight_route_rr def r : rr_counter (weight_route def r) = rr_counter r.
Proof. unfold weight_route. destruct (_ =? _)%nat; [done|]. by rewrite compute_weights_rr. Qed.

Lemma update_path_rr p f rs l : (forall r, rr_counter (f r) = rr_counter r) -> update_path p f rs = Some l -> map rr_counter l = map rr_counter rs.
Proof.
  intros Hf. revert l. induction rs as [|r rs IH]; intros l; cbn; [done|]. destruct (String.eqb _ _).
  - intros [= <-]. cbn. by rewrite Hf.
  - destruct (update_path p f rs) as [l'|]; [|done]. intros [= <-]. cbn. by rewrite (IH l').
Qed.

Lemma del_in_routes_rr def p rs x : x ∈ map rr_counter (del_in_routes def p rs) -> x ∈ map rr_counter rs.
Proof.
  rewrite !list_elem_of_In, !in_map_iff. unfold del_in_routes. intros (r & <- & [(r0 & <- & Hr)%in_map_iff _]%filter_In).
  exists r0. split; [|done]. destruct (path_selected p r0); [|done]. by rewrite compute_weights_rr.
Qed.

Lemma rr_in_insert key rs m x : rr_in (<[key := rs]> m) x -> x ∈ map rr_counter rs \/ rr_in m x.
Proof.
  intros (k & rs' & [[<- <-]|[_ E]]%lookup_insert_Some & Hx); [by left|right]. by exists k, rs'.
Qed.

Lemma rr_in_default key m x : x ∈ map rr_counter (default [] (m !! key)) -> rr_in m x.
Proof. destruct (m !! key) as [rs|] eqn:E; cbn; [by exists key, rs|by intros ?%elem_of_nil]. Qed.

Lemma apply_del_rr def t x : rr_in (routes (apply_del def t)) x -> rr_in (routes t) x.
Proof.
  assert (Hh : rr_in (del_in_host def (routes t)) x -> rr_in (routes t) x).
  { unfold del_in_host. destruct (routes t !! def_host def) as [rs|] eqn:E; [|done].
    pose proof (del_in_routes_rr def (path_filter def) rs x) as Hd. destruct (del_in_routes _ _ rs) as [|r0 rs'].
    - intros (k & rs' & [_ Hk]%lookup_delete_Some & Hx). by exists k, rs'.
    - intros [Hx|Hx]%rr_in_insert; [|done]. exists (def_host def), rs. split; [done|by apply Hd]. }
  unfold apply_del. destruct (negb _); [|done]. destruct (_ || _); [done|].
  intros (k & rs & [Hk _]%map_lookup_filter_Some & Hx). cbn in Hk. rewrite lookup_fmap_Some in Hk. destruct Hk as (rs0 & <- & Hk).
  exists k, rs0. split; [done|]. by apply del_in_routes_rr in Hx.
Qed.

Lemma apply_weight_rr def t x : rr_in (routes (apply_weight def t)) x -> rr_in (routes t) x.
Proof.
  unfold apply_weight. destruct (routes t !! def_host def) as [rs|] eqn:E; [|done]. cbn. intros [Hx|Hx]%rr_in_insert; [|done].
  exists (def_host def), rs. split; [done|]. rewrite map_map in Hx. erewrite map_ext in Hx; [exact Hx|]. intros r. cbn.
  destruct (String.eqb _ _); [apply weight_route_rr|done].
Qed.

(** ** Cells of their own *)

Lemma add_def_target_registered now base def t r h x :
  stats_registry t = true -> registered (add_def_target now base def t r h).1.2 x -> registered r x \/ (next_loc h <= x)%positive.
Proof.
  intros Ht. unfold add_def_target, table_active_connections_for, table_health_tracker_for, table_stats_for, table_edge_stats_for,
    table_rate_limiter_for. rewrite Ht. unfold active_connections_for, health_tracker_for, stats_for, edge_stats_for, rate_limiter_for.
  assert (He : forall live key l m h', entry_for live (alloc_counter 0) key (Stats.active_connections r) h = (l, m, h') ->
            forall u, m !! u = Some x -> registered r x \/ (next_loc h <= x)%positive).
  { intros live key l m h'. unfold entry_for. destruct (_ ≫= _); [intros [= _ <- _] u Hu; left; by exists u|].
    cbn. intros [= _ <- _] u [[_ <-]|[_ Hu]]%lookup_insert_Some; [right; lia|left]. exists u.
    destruct (_ <? _); [|done]. by apply map_lookup_filter_Some in Hu as [? _]. }
  destruct (entry_for _ (alloc_counter 0) _ _ h) as [[l m] h'] eqn:E. specialize (He _ _ _ _ _ E). cbn.
  repeat match goal with |- context [ entry_for ?live ?create ?key ?entries ?h0 ] => destruct (entry_for live create key entries h0) as [[? ?] ?]; cbn end.
  match goal with |- context [ pre_parse now ?tg0 ?h0 ] => destruct (pre_parse now tg0 h0) as [tg h''] end.
  cbn. intros [u Hu]. by eapply He.
Qed.

(** The routes of a table under construction since the cell [n0]. *)
Definition apart (n0 : loc) (t : Table) (r : TargetStatsRegistry) (h : Heap) : Prop :=
  forall x, rr_in (routes t) x -> (n0 <= x < next_loc h)%positive /\ ~ registered r x.

Lemma registered_bound r h x : registry_ok r h -> registered r x -> (x < next_loc h)%positive.
Proof. intros [[_ Hb] _ _ _ _] [u Hu]. by apply (Hb u). Qed.

Lemma heap_ext_next h h' : heap_ext h h' -> (next_loc h <= next_loc h')%positive.
Proof. by intros [Hn _]. Qed.

Lemma apply_apart now base def n0 t r h :
  stats_registry t = true -> registry_ok r h -> (n0 <= next_loc h)%positive -> apart n0 t r h ->
  let '(t', r', h') := apply now base def t r h in apart n0 t' r' h'.
Proof.
  intros Ht Hr Hn Hap. unfold apply. destruct (cmd def).
  - unfold apply_add. pose proof (add_def_target_cells now base def t r h Ht Hr) as Hc.
    pose proof (fun x => add_def_target_registered now base def t r h x Ht) as Hreg.
    destruct (add_def_target now base def t r h) as [[tg r'] h']. destruct Hc as (Hr' & Hext%heap_ext_next & _). cbn [fst snd] in Hreg.
    assert (Hold : forall x, rr_in (routes t) x -> (n0 <= x < next_loc h')%positive /\ ~ registered r' x).
    { intros x [Hb Hx]%Hap. split; [lia|]. intros [Hx'|Hx']%Hreg; [done|lia]. }
    destruct (update_path _ _ _) as [rs|] eqn:Eu.
    + intros x. cbn. intros [Hx|Hx]%rr_in_insert; apply Hold; [|done].
      rewrite (update_path_rr _ _ _ _ (add_target_rr tg) Eu) in Hx. by eapply rr_in_default.
    + unfold route_new, alloc_counter. cbv beta zeta iota. intros x [Hx|Hx]%rr_in_insert.
      * rewrite map_app in Hx. apply elem_of_app in Hx as [Hx%rr_in_default|Hx]; [destruct (Hold x Hx); split; [cbn; lia|done]|].
        apply list_elem_of_singleton in Hx as ->. rewrite add_target_rr. cbn. split; [lia|].
        intros Hx%(registered_bound _ _ _ Hr'). lia.
      * destruct (Hold x Hx). split; [cbn; lia|done].
  - intros x Hx%apply_del_rr. by apply Hap.
  - intros x Hx%apply_weight_rr. by apply Hap.
Qed.

Lemma apply_all_apart now base defs n0 t r h :
  stats_registry t = true -> registry_ok r h -> (n0 <= next_loc h)%positive -> apart n0 t r h ->
  let '(t', r', h') := apply_all now base defs t r h in apart n0 t' r' h'.
Proof.
  revert t r h. induction defs as [|def defs IH]; intros t r h Ht Hr Hn Hap; [done|]. cbn.
  pose proof (apply_apart now base def n0 t r h Ht Hr Hn Hap) as Hap'. pose proof (apply_flag now base def t r h) as Hf.
  pose proof (apply_effect now base def t r h Ht Hr) as He.
  destruct (apply now base def t r h) as [[t1 r1] h1]. destruct He as (Hr1 & Hext%heap_ext_next & _). cbn in Hf.
  apply IH; [congruence|done|lia|done].
Qed.

Lemma from_definitions_apart now base defs config r h :
  registry_ok r h ->
  let '(t', r', h') := from_definitions_with_stats now base defs config r h in apart (next_loc h) t' r' h'.
Proof.
  intros Hr. unfold from_definitions_with_stats.
  pose proof (apply_all_apart now base defs (next_loc h) (mk_table ∅ true config []) r h eq_refl Hr ltac:(lia)) as Hap.
  destruct (apply_all _ _ _ _ _ _) as [[t r'] h']. intros x (k & rs & (rs0 & <- & Hk)%lookup_fmap_Some & Hx).
  apply Hap; [by intros y (? & ? & E & _)|]. exists k, rs0. split; [done|].
  by rewrite (Permutation_map rr_counter (sort_routes_perm rs0)) in Hx.
Qed.

(** ** In every history *)

Lemma managed_apply_apart now inflight op m h :
  registry_ok (rt_stats_registry (route_table m)) h ->
  let '(m', h') := managed_apply now inflight op m h in
  apart (next_loc h) (published m') (rt_stats_registry (route_table m')) h'.
Proof.
  intros Hr.
  assert (Hb : forall defs config t, registry_ok (rt_stats_registry t) h ->
            let '(table, t', h') := build now inflight defs config t h in apart (next_loc h) table (rt_stats_registry t') h').
  { intros defs config t Ht. unfold build. pose proof (from_definitions_apart now (held_cells inflight t) defs config _ h Ht) as Hf.
    by destruct (from_definitions_with_stats _ _ _ _ _ _) as [[table r'] h']. }
  destruct op as [defs|defs|defs|defs|config]; cbn [managed_apply];
    unfold load_static, append_static, managed_update_kv, managed_update_services, reconfigure_circuit_breaker, rebuild_and_swap;
    match goal with |- context [ build now inflight ?defs ?config ?t ?h ] =>
      specialize (Hb defs config t); destruct (build now inflight defs config t h) as [[table t'] h'] end;
    (apply Hb; first [exact Hr|by apply clear_health_trackers_ok]).
Qed.

Lemma reachable_apart m h : reachable (m, h) -> apart 1%positive (published m) (rt_stats_registry (route_table m)) h.
Proof.
  intros (s0 & H0 & Hsteps). remember (m, h) as s eqn:E. revert E.
  assert (Hi : reachable s0 /\ apart 1%positive (published s0.1) (rt_stats_registry (route_table s0.1)) s0.2).
  { split; [exists s0; split; [done|apply rtc_refl]|]. intros x (k & rs & Hk & _).
    destruct s0 as [m0 h0], H0 as [E|[cb E]]; cbn in E; subst m0; cbn in Hk; by rewrite lookup_empty in Hk. }
  clear H0. enough (Hg : apart 1%positive (published s.1) (rt_stats_registry (route_table s.1)) s.2) by (by intros ->).
  induction Hsteps as [|s1 s2 s3 Hstep _ IH]; [apply Hi|]. apply IH. clear IH. destruct Hi as [Hre Hap].
  assert (Hre' : reachable s2) by (destruct Hre as (s0 & ? & ?); exists s0; split; [done|by eapply rtc_r]). split; [done|].
  destruct Hstep as [now inflight op m1 h1|m1 h1 h2 Hn]; cbn in *.
  - pose proof (managed_apply_apart now inflight op m1 h1 (mi_registry _ (managed_inv_reachable _ Hre))) as Ha.
    destruct (managed_apply now inflight op m1 h1) as [m2 h2]. intros x Hx%Ha. cbn. split; [lia|apply Hx].
  - intros x Hx%Hap. by rewrite Hn.
Qed.

Lemma rr_in_routes t key r : r ∈ routes_of t key -> rr_in (routes t) (rr_counter r).
Proof.
  unfold routes_of. destruct (routes t !! key) as [rs|] eqn:E; [|by intros ?%elem_of_nil]. intros Hr. exists key, rs. split; [done|].
  apply list_elem_of_In, in_map. by apply list_elem_of_In.
Qed.
End roundrobin.
