(* ===== verification/Http.v ===== *)
(** * Http: what the proxy reads from and writes into requests

    src/src/proxy/handler/protocol.rs, rewrite.rs (the URI) and forwarded.rs:
    host extraction, protocol detection, gRPC errors, path rewriting and the
    forwarding headers. *)
From S2P Require Import Prelude F64 RustStr StrFacts Net Stats Target.
From Stdlib Require Import Ascii String.
Local Open Scope string_scope.
Local Open Scope Z_scope.

(** ** Requests *)

(** A header map: values under lower-case names, in order. *)
Definition HeaderMap : Type := list (string * string).

Record Uri := mk_uri { uri_authority : option string; uri_path : string; uri_query : option string }.

Record RequestHeader := mk_request { uri : Uri; headers : HeaderMap }.

Definition header_get (name : string) (h : HeaderMap) : option string :=
  snd <$> List.find (fun kv => String.eqb kv.1 (to_ascii_lowercase name)) h.

Definition remove_header (name : string) (h : HeaderMap) : HeaderMap :=
  List.filter (fun kv => negb (String.eqb kv.1 (to_ascii_lowercase name))) h.

(** [insert_header]: every value of the name is replaced. *)
Definition insert_header (name value : string) (h : HeaderMap) : HeaderMap :=
  (remove_header name h ++ [(to_ascii_lowercase name, value)])%list.

(** [HeaderValue::to_str]: visible ASCII (and tabs) only. *)
Definition visible (c : ascii) : bool := in_range 32 126 c || (byte c =? 9).
Definition to_str (v : string) : option string := if str_any (fun c => negb (visible c)) v then None else Some v.

Definition header_str (name : string) (h : HeaderMap) : option string := header_get name h ≫= to_str.

(** The headers as [matches_headers] reads them. *)
Definition headers_fn (h : HeaderMap) : Headers := fun name => header_str name h.

(** ** protocol.rs *)

Definition host_header_of (header : RequestHeader) : string :=
  match header_str "host" (headers header) with
  | Some h => if is_empty h then default "" (uri_authority (uri header)) else h
  | None => default "" (uri_authority (uri header))
  end.

(** [&s[a..b]]: a panic when the range is not one. *)
Definition str_slice (a b : nat) (s : string) : option string :=
  if (a <=? b)%nat && (b <=? String.length s)%nat then Some (str_take (b - a) (str_drop a s)) else None.

(** [parse_host_from_header] on the header's value; [None] is a panic. *)
Definition strip_port (host_header : string) : option string :=
  match str_find "]:" host_header with
  | Some bracket_end => str_slice 1 bracket_end host_header
  | None =>
      match rsplit_once ":"%char host_header with
      | Some (before_colon, after_colon) =>
          if negb (contains_char ":"%char before_colon) && match parse_u16 after_colon with Some _ => true | None => false end
          then Some before_colon else Some host_header
      | None => Some host_header
      end
  end.

Definition parse_host_from_header (header : RequestHeader) : option string := strip_port (host_header_of header).

Definition extract_host_path (header : RequestHeader) : option (string * string) :=
  host ← parse_host_from_header header; Some (host, uri_path (uri header)).

Definition is_websocket_upgrade (header : RequestHeader) : bool :=
  match header_get "upgrade" (headers header) with Some v => eq_ignore_ascii_case v "websocket" | None => false end.

Definition content_type_matches (content_type prefix : string) : bool :=
  let content_type := trim content_type in
  let n := String.length prefix in
  (n <=? String.length content_type)%nat
  && eq_ignore_ascii_case (str_take n content_type) prefix
  && match str_drop n content_type with
     | "" => true
     | String c _ => Ascii.eqb c ";"%char || Ascii.eqb c " "%char || Ascii.eqb c (chr 9) || Ascii.eqb c "+"%char
     end.

Definition is_sse_request (header : RequestHeader) : bool :=
  match header_str "accept" (headers header) with
  | Some accept => existsb (fun media => content_type_matches media "text/event-stream") (split_on ","%char accept)
  | None => false
  end.

Definition is_grpc_content_type (content_type : string) : bool := content_type_matches content_type "application/grpc".

Definition is_grpc_web_content_type (content_type : string) : bool :=
  starts_with "application/grpc-web" (to_ascii_lowercase (trim content_type)).

Definition is_grpc_request (header : RequestHeader) : bool :=
  match header_str "content-type" (headers header) with Some v => is_grpc_content_type v | None => false end.

Definition is_grpc_web_request (header : RequestHeader) : bool :=
  match header_str "content-type" (headers header) with Some v => is_grpc_web_content_type v | None => false end.

Definition count_char (c : ascii) (s : string) : nat := (List.length (split_on c s) - 1)%nat.

Definition sni_hostname (authority : string) : string :=
  let authority :=
    match strip_prefix "http://" authority with
    | Some a => a
    | None => default authority (strip_prefix "https://" authority)
    end in
  if starts_with "[" authority then
    match str_find "]" authority with
    | Some e => str_take (e - 1) (str_drop 1 authority)
    | None => authority
    end
  else if (1 <? count_char ":"%char authority)%nat then authority
  else
    match rsplit_once ":"%char authority with
    | Some (host, port) => match parse_u16 port with Some _ => host | None => authority end
    | None => authority
    end.

Definition grpc_status_for_http_status (status : Z) : string :=
  if status =? 400 then "3" else if status =? 401 then "16" else if status =? 403 then "7"
  else if status =? 404 then "12" else if status =? 408 then "4" else if status =? 429 then "8"
  else if status =? 499 then "1" else if status =? 500 then "13" else if status =? 501 then "12"
  else if status =? 502 then "14" else if status =? 503 then "14" else if status =? 504 then "4"
  else "2".

Definition hex_digit (n : Z) : ascii := if n <? 10 then chr (48 + n) else chr (55 + n).

(** The first pass: ASCII control characters become spaces. *)
Fixpoint blank_controls (s : string) : string :=
  match s with "" => "" | String c s' => String (if is_ascii_control c then " "%char else c) (blank_controls s') end.

Fixpoint percent_encode (s : string) : string :=
  match s with
  | "" => ""
  | String c s' =>
      if (byte c =? 32) || (in_range 33 126 c && negb (byte c =? 37)) then String c (percent_encode s')
      else String "%"%char (String (hex_digit (Z.shiftr (byte c) 4)) (String (hex_digit (Z.land (byte c) 15)) (percent_encode s')))
  end.

Definition sanitize_grpc_message (message : string) : string := percent_encode (blank_controls message).

(** ** rewrite.rs *)

Definition is_valid_grpc_path (path : string) : bool :=
  match List.filter (fun segment => negb (is_empty segment)) (split_on "/"%char path) with
  | [service; method] => negb (is_empty service) && negb (is_empty method)
  | _ => false
  end.

Definition prepend_path_prefix (prefix path : string) : string :=
  let trimmed_prefix := trim_end_char "/"%char prefix in
  let trimmed_path := trim_start_char "/"%char path in
  match is_empty trimmed_prefix, is_empty trimmed_path with
  | true, true => "/"
  | true, false => "/" ++ trimmed_path
  | false, true => if starts_with "/" trimmed_prefix then trimmed_prefix ++ "/" else "/" ++ trimmed_prefix ++ "/"
  | false, false =>
      if starts_with "/" trimmed_prefix then trimmed_prefix ++ "/" ++ trimmed_path
      else "/" ++ trimmed_prefix ++ "/" ++ trimmed_path
  end.

(** The path with the target's [strip] and [prepend] applied, [None] when
    neither applies. *)
Definition rewritten_path (original_path : string) (target : Target) : option string :=
  let stripped :=
    strip ← strip_path target;
    new_path ← strip_prefix strip original_path;
    Some (if is_empty new_path then "/" else if starts_with "/" new_path then new_path else "/" ++ new_path) in
  match prepend_path target with
  | Some prepend => Some (prepend_path_prefix prepend (default original_path stripped))
  | None => stripped
  end.

(** [str::parse::<http::Uri>] *)
Class UriParser := uri_parse : string -> option Uri.

Definition rewrite_upstream_uri `{UriParser} (u : Uri) (target : Target) : option Uri :=
  final_path ← rewritten_path (uri_path u) target;
  if is_grpc target && negb (is_valid_grpc_path final_path) then Some u
  else uri_parse (match uri_query u with Some query => final_path ++ "?" ++ query | None => final_path end).

(** ** forwarded.rs *)

(** Every value inserted was read with [to_str] or printed from an address,
    so the insertions do not fail. *)
Definition append_forwarded_headers (downstream : RequestHeader) (upstream : HeaderMap) (downstream_is_tls : bool)
    (peer_addr : option string) (trusted_proxies : list CidrRange) : HeaderMap :=
  let host := default "" (header_str "host" (headers downstream)) in
  let peer_ip := default "" peer_addr in
  let trusted := is_trusted_proxy peer_ip trusted_proxies in
  let forwarded_for :=
    if trusted then
      match header_str "x-forwarded-for" (headers downstream) with
      | Some existing => if negb (is_empty peer_ip) then existing ++ ", " ++ peer_ip else existing
      | None => peer_ip
      end
    else peer_ip in
  let upstream := if negb (is_empty forwarded_for) then insert_header "X-Forwarded-For" forwarded_for upstream else upstream in
  let upstream :=
    match (if trusted then header_str "cf-connecting-ip" (headers downstream) else None) with
    | Some cf_ip => insert_header "CF-Connecting-IP" cf_ip upstream
    | None => remove_header "cf-connecting-ip" upstream
    end in
  let upstream := if negb (is_empty host) then insert_header "X-Forwarded-Host" host upstream else upstream in
  let own_scheme := if downstream_is_tls then "https" else "http" in
  let scheme := if trusted then default own_scheme (header_str "x-forwarded-proto" (headers downstream)) else own_scheme in
  insert_header "X-Forwarded-Proto" scheme upstream.

(** ** gRPC messages *)

Definition hex_value (c : ascii) : Z := if byte c <? 65 then byte c - 48 else byte c - 55.

(** What a gRPC client does with a message: [%XX] back to bytes. *)
Fixpoint percent_decode (s : string) : string :=
  match s with
  | "" => ""
  | String c s' =>
      if Ascii.eqb c "%"%char then
        match s' with
        | String a (String b s'') => String (chr (hex_value a * 16 + hex_value b)) (percent_decode s'')
        | _ => s
        end
      else String c (percent_decode s')
  end.

Definition grpc_printable (c : ascii) : bool := in_range 32 126 c.

Lemma encode_char c :
  if (byte c =? 32) || (in_range 33 126 c && negb (byte c =? 37)) then Ascii.eqb c "%"%char = false /\ grpc_printable c = true
  else let a := hex_digit (Z.shiftr (byte c) 4) in let b := hex_digit (Z.land (byte c) 15) in
       chr (hex_value a * 16 + hex_value b) = c /\ grpc_printable a = true /\ grpc_printable b = true.
Proof. destruct c as [[][][][][][][][]]; vm_compute; auto. Qed.

(** the gRPC error message a client reads back is the message itself with
    its control characters blanked, whatever bytes it holds; the header value
    itself is printable ASCII. *)
Theorem grpc_message_roundtrip message :
  percent_decode (sanitize_grpc_message message) = blank_controls message
  /\ str_any (fun c => negb (grpc_printable c)) (sanitize_grpc_message message) = false.
Proof.
  unfold sanitize_grpc_message. induction (blank_controls message) as [|c s [IH1 IH2]]; [done|].
  cbn [percent_encode]. pose proof (encode_char c) as Hc.
  destruct ((byte c =? 32) || (in_range 33 126 c && negb (byte c =? 37))).
  - destruct Hc as [Hp Hv]. cbn. by rewrite Hp, IH1, Hv, IH2.
  - destruct Hc as (Hd & Ha & Hb). cbn [percent_decode str_any]. rewrite Hd, IH1, Ha, Hb, IH2. done.
Qed.

(** ** Host extraction *)

Lemma starts_with_app p s : starts_with p s = true <-> exists u, s = p ++ u.
Proof.
  unfold starts_with. revert s. induction p as [|c p IH]; intros s; cbn; [split; [by exists s|done]|].
  destruct s as [|d s]; [split; [done|by intros [u E]]|]. destruct (Ascii.eqb_spec c d) as [->|Hne].
  - rewrite IH. autorewrite with str. split; intros [u E]; exists u; autorewrite with str in *; congruence.
  - split; [done|]. intros [u E]. autorewrite with str in E. congruence.
Qed.

Lemma str_find_from_bound p s i k : str_find_from i p s = Some k -> (i <= k <= i + String.length s)%nat.
Proof.
  revert i. induction s as [|c s IH]; intros i; cbn; destruct (starts_with p _); intros E; simplify_eq; try lia.
  apply IH in E. lia.
Qed.

(** extracting the host panics (an index out of range) exactly on the
    hosts that start with a closing bracket and a colon, and on no other
    request. *)
Theorem host_extraction_panics_iff host_header :
  strip_port host_header = None <-> exists rest, host_header = "]:" ++ rest.
Proof.
  rewrite <- starts_with_app. unfold strip_port. destruct (str_find "]:" host_header) as [k|] eqn:Ef.
  - unfold str_find in Ef. pose proof (str_find_from_bound _ _ _ _ Ef) as Hk. unfold str_slice.
    destruct host_header as [|c s]; [cbn in Ef; simplify_eq|]. cbn [str_find_from] in Ef.
    destruct (starts_with "]:" (String c s)).
    + injection Ef as <-. done.
    + apply str_find_from_bound in Ef. replace (1 <=? k)%nat with true by (symmetry; apply Nat.leb_le; lia).
      replace (k <=? String.length (String c s))%nat with true by (symmetry; apply Nat.leb_le; lia). done.
  - assert (Hn : starts_with "]:" host_header = false).
    { unfold str_find in Ef. destruct host_header; cbn [str_find_from] in Ef; by destruct (starts_with "]:" _). }
    rewrite Hn. split; [|done]. repeat case_match; done.
Qed.

(** ** Forwarding headers *)

Definition header_values (name : string) (h : HeaderMap) : list string :=
  map snd (List.filter (fun kv => String.eqb kv.1 name) h).

Lemma header_values_insert name name' v h :
  header_values name (insert_header name' v h)
  = if String.eqb (to_ascii_lowercase name') name then [v] else header_values name h.
Proof.
  unfold header_values, insert_header, remove_header. rewrite List.filter_app, map_app.
  destruct (String.eqb_spec (to_ascii_lowercase name') name) as [E|Hne].
  - rewrite <- E. cbn. rewrite String.eqb_refl. cbn. replace (List.filter _ (List.filter _ h)) with (@nil (string * string)); [done|].
    induction h as [|kv h IH]; [done|]. cbn. destruct (String.eqb_spec kv.1 (to_ascii_lowercase name')) as [E'|E']; cbn; [done|].
    apply String.eqb_neq in E' as ->. done.
  - cbn. apply String.eqb_neq in Hne as Hne'. rewrite Hne'. rewrite app_nil_r. f_equal.
    induction h as [|kv h IH]; [done|]. cbn. destruct (String.eqb_spec kv.1 (to_ascii_lowercase name')) as [E'|E']; cbn.
    + rewrite E', Hne'. done.
    + by destruct (String.eqb _ name); rewrite IH.
Qed.

Lemma header_values_remove name name' h :
  header_values name (remove_header name' h) = if String.eqb (to_ascii_lowercase name') name then [] else header_values name h.
Proof.
  pose proof (header_values_insert name name' "" h) as Hi. unfold insert_header, header_values in *. rewrite List.filter_app, map_app in Hi.
  cbn in Hi. destruct (String.eqb _ name); cbn in Hi; [|by rewrite app_nil_r in Hi].
  apply (f_equal (@List.length string)) in Hi. rewrite length_app in Hi. cbn in Hi.
  apply nil_length_inv. lia.
Qed.

Lemma forwarded_values downstream upstream tls ip trusted :
  ip <> "" -> is_trusted_proxy ip trusted = false ->
  let out := append_forwarded_headers downstream upstream tls (Some ip) trusted in
  header_values "x-forwarded-for" out = [ip]
  /\ header_values "cf-connecting-ip" out = []
  /\ header_values "x-forwarded-proto" out = [if tls then "https" else "http"].
Proof.
  intros Hip Htr. unfold append_forwarded_headers. cbn [default from_option id]. rewrite Htr.
  replace (is_empty ip) with false by (by destruct ip). cbn [negb].
  split_and!; destruct (negb (is_empty _)); repeat (rewrite header_values_insert || rewrite header_values_remove); reflexivity.
Qed.

(** C39: a client that is not a trusted proxy cannot forge its identity: the
    upstream request carries its address as the only [X-Forwarded-For], no
    [CF-Connecting-IP], and the scheme of the connection itself, whatever the
    client sent. *)
Theorem untrusted_identity_not_forwarded downstream upstream tls ip trusted :
  ip <> "" -> is_trusted_proxy ip trusted = false ->
  let out := append_forwarded_headers downstream upstream tls (Some ip) trusted in
  header_values "x-forwarded-for" out = [ip]
  /\ header_values "cf-connecting-ip" out = []
  /\ header_values "x-forwarded-proto" out = [if tls then "https" else "http"].
Proof. apply forwarded_values. Qed.

Lemma untrusted_identity_not_forwarded_witness :
  header_values "x-forwarded-for"
    (append_forwarded_headers (mk_request (mk_uri None "/" None) [("x-forwarded-for", "6.6.6.6")]) [("x-forwarded-for", "6.6.6.6"); ("cf-connecting-ip", "6.6.6.6")]
       true (Some "9.9.9.9") [mk_cidr (V4 (mk_v4 10 0 0 0)) 8]) = ["9.9.9.9"].
Proof. apply untrusted_identity_not_forwarded; [discriminate|vm_compute; reflexivity]. Defined.

(** The address of the peer is not always known: then what the client sent
    stays, trusted or not. *)
Example unknown_peer_keeps_forged_header :
  header_values "x-forwarded-for"
    (append_forwarded_headers (mk_request (mk_uri None "/" None) [("x-forwarded-for", "6.6.6.6")]) [("x-forwarded-for", "6.6.6.6")] true None [])
  = ["6.6.6.6"].
Proof. reflexivity. Qed.

(** ** Rewritten paths *)

Lemma prepend_absolute prefix path : starts_with "/" (prepend_path_prefix prefix path) = true.
Proof.
  unfold prepend_path_prefix. destruct (is_empty (trim_end_char _ _)) eqn:Ep, (is_empty (trim_start_char _ _)); try done.
  all: destruct (starts_with "/" (trim_end_char _ _)) eqn:Es; [|done].
  all: apply starts_with_app in Es as [u ->]; done.
Qed.

(** a rewritten path is absolute, whatever the [strip] and [prepend]
    options of the target and the path requested. *)
Theorem rewritten_path_absolute original target p :
  rewritten_path original target = Some p -> starts_with "/" p = true.
Proof.
  unfold rewritten_path. destruct (prepend_path target) as [prepend|]; [intros [= <-]; apply prepend_absolute|].
  destruct (strip_path target) as [strip|]; [|done]. cbn. destruct (strip_prefix strip original) as [q|]; [|done]. cbn.
  intros [= <-]. destruct (is_empty q); [done|]. destruct (starts_with "/" q) eqn:E; done.
Qed.

Lemma rewritten_path_absolute_witness :
  rewritten_path "/api/v1/x" (demo_target Routes.Static "h" (<["strip" := "/api"]> (<["prepend" := "base/"]> ∅))) = Some "/base/v1/x"
  /\ starts_with "/" "/base/v1/x" = true.
Proof.
  split; [vm_compute; reflexivity|].
  apply (rewritten_path_absolute "/api/v1/x" (demo_target Routes.Static "h" (<["strip" := "/api"]> (<["prepend" := "base/"]> ∅)))).
  vm_compute; reflexivity.
Defined.
