(* ===== verification/Upstream.v ===== *)
(** * Upstream: the request path

    src/src/proxy/handler/upstream.rs and access.rs: choosing a target among
    the routes that match, admission (circuit breaker, rate limit, connection
    slot), address resolution, and the accounting when the request ends, after
    one attempt or after those the framework makes again. A request is a
    [prog] over the state the proxy's threads share, so requests
    are run alone or interleaved; reading the slots of several targets inside
    one pick, and the rate-limit step of one target, are single accesses (the
    bucket's own accesses are interleaved in RateLimit.v). *)
From S2P Require Import Prelude F64 RustStr StrFacts Net Prog Routes RateLimit CircuitBreaker DnsCache Health Stats Target Weights Table Picker Http.
From Stdlib Require Import Ascii String.
Local Open Scope string_scope.
Local Open Scope Z_scope.
Local Open Scope rust_scope.

(** The fields of [ProxyConfig] the request path reads. *)
Record ProxyOptions := mk_options {
  matcher : string;
  strategy : string;
  circuit_breaker_enabled : bool;
  no_route_status : Z;
  rate_limit_per_target : Z;
  rate_limit_burst : Z;
  max_connections : Z;
}.

(** Global counters of the metrics the path bumps, and the gauge of active
    connections (an [AtomicI64]). *)
Record ProxyCounters := mk_counters {
  cb_open_total : Z;
  cb_reopen_total : Z;
  cb_close_total : Z;
  fastfail_total : Z;
  rate_limit_rejected_total : Z;
  active_gauge : Z;
}.

Inductive ErrorType := HTTPStatus (code : Z) | ConnectTimedout | ConnectRefused | ConnectNoRoute | InvalidHTTPHeader | OtherError.

(** [HttpPeer::new]: where the request goes. *)
Record Peer := mk_peer { peer_addr : SocketAddr; peer_tls : bool; peer_host : string }.

Section upstream.
Context `{GlobCrate} `{SelectNth}.

(** What all requests share: the published table, the cells, the
    configuration, the DNS cache and the clock. *)
Record ProxyState := mk_proxy {
  px_table : Table;
  px_heap : Heap;
  px_config : ProxyOptions;
  px_dns : DnsCache;
  px_now_ns : Z;
  px_counters : ProxyCounters;
}.

Definition set_heap (h : Heap) (s : ProxyState) : ProxyState :=
  mk_proxy (px_table s) h (px_config s) (px_dns s) (px_now_ns s) (px_counters s).
Definition set_dns (d : DnsCache) (s : ProxyState) : ProxyState :=
  mk_proxy (px_table s) (px_heap s) (px_config s) d (px_now_ns s) (px_counters s).
Definition set_counters (c : ProxyCounters) (s : ProxyState) : ProxyState :=
  mk_proxy (px_table s) (px_heap s) (px_config s) (px_dns s) (px_now_ns s) c.

Definition proxy_ms (s : ProxyState) : Z := px_now_ns s / 1000000.
Definition proxy_secs (s : ProxyState) : Z := px_now_ns s / 1000000000.

Definition P (A : Type) : Type := prog ProxyState A.

(** A target's circuit breaker, with the clock and the counters it uses. *)
Definition get_cb (t : Target) (s : ProxyState) : World :=
  mk_world (proxy_ms s) (circuit_breaker (get_tracker (health_tracker t) (px_heap s)))
    (cb_open_total (px_counters s)) (cb_reopen_total (px_counters s)) (cb_close_total (px_counters s)).

Definition put_cb (t : Target) (w : World) (s : ProxyState) : ProxyState :=
  let k := get_tracker (health_tracker t) (px_heap s) in
  let k' := mk_tracker (cb w) (is_healthy k) (consecutive_failures k) (consecutive_successes k) in
  let c := px_counters s in
  set_counters (mk_counters (open_total w) (reopen_total w) (close_total w) (fastfail_total c) (rate_limit_rejected_total c) (active_gauge c))
    (set_heap (set_tracker (health_tracker t) k' (px_heap s)) s).

Definition on_cb {A} (t : Target) (m : M A) : P A := zoom (get_cb t) (put_cb t) m.

Definition get_slots (t : Target) (s : ProxyState) : Z := get_counter (active_connections t) (px_heap s).
Definition put_slots (t : Target) (v : Z) (s : ProxyState) : ProxyState :=
  set_heap (set_counter (active_connections t) v (px_heap s)) s.
Definition on_slots {A} (t : Target) (m : prog Z A) : P A := zoom (get_slots t) (put_slots t) m.

Definition probe_healthy (t : Target) : P bool := load (fun s => is_probe_healthy (get_tracker (health_tracker t) (px_heap s))).

Definition pick (rnd : nat -> nat) (strat : string) (targets w_targets : list Target) (rr : loc) : P (option Target) :=
  access (fun s => let '(h, t) := pick_target_by_strategy rnd strat targets w_targets rr (px_heap s) in (set_heap h s, t)).

(** [a && b] with [b] evaluated only when needed. *)
Definition and_then (a : P bool) (b : P bool) : P bool := let! x := a in (if x then b else Ret false).

Fixpoint filter_prog (f : Target -> P bool) (ts : list Target) : P (list Target) :=
  match ts with
  | [] => Ret []
  | t :: ts' => let! keep := f t in (let! rest := filter_prog f ts' in Ret (if keep then t :: rest else rest))
  end.

(** ** lookup_target *)

Definition any_header_constraint (route : Route) : bool :=
  existsb (fun t => match opts t !! "header" with Some _ => true | None => false end) (targets route).

(** The targets of a route a request may use, and their slots; [None] to go
    on with the next route. *)
Definition route_choice (headers : Headers) (route : Route) : option (list Target * list Target) :=
  if match w_targets route with [] => true | _ => false end then None
  else if any_header_constraint route then
    match List.filter (matches_headers headers) (targets route) with
    | [] => None
    | matching =>
        match List.filter (matches_headers headers) (w_targets route) with
        | [] => Some (matching, matching)
        | matching_w => Some (matching, matching_w)
        end
    end
  else Some (targets route, w_targets route).

(** Whether the target picked can be used. *)
Definition usable (cb_enabled : bool) (t : Target) : P bool :=
  let! healthy := probe_healthy t in
  (if negb healthy then Ret false else if negb cb_enabled then Ret true else on_cb t can_accept_request).

Definition usable_fallback (picked t : Target) : P bool :=
  if String.eqb (url t) (url picked) then Ret false
  else and_then (probe_healthy t) (on_cb t can_accept_request).

(** One candidate route; [None] continues with the next one. *)
Definition try_route (rnd1 rnd2 : nat -> nat) (strat : string) (cb_enabled : bool) (headers : Headers) (route : Route) : P (option Target) :=
  match route_choice headers route with
  | None => Ret None
  | Some (ts, w_list) =>
      let! picked := pick rnd1 strat ts w_list (rr_counter route) in
      match picked with
      | None => Ret None
      | Some target =>
          let! ok := usable cb_enabled target in
          if ok then Ret (Some target)
          else
            let! healthy_fallbacks := filter_prog (usable_fallback target) ts in
            match healthy_fallbacks with
            | [] => Ret None
            | _ => pick rnd2 strat healthy_fallbacks healthy_fallbacks (rr_counter route)
            end
      end
  end.

(** The loop over the candidate routes; [rnd] gives the random indices, one
    function per pick. *)
Fixpoint lookup_in_routes (rnd : nat -> nat -> nat) (strat : string) (cb_enabled : bool) (headers : Headers) (i : nat)
    (candidate_routes : list Route) : P (option Target) :=
  match candidate_routes with
  | [] => Ret None
  | route :: rest =>
      let! r := try_route (rnd i) (rnd (S i)) strat cb_enabled headers route in
      match r with Some t => Ret (Some t) | None => lookup_in_routes rnd strat cb_enabled headers (S (S i)) rest end
  end.

Definition lookup_target (rnd : nat -> nat -> nat) (hst p : string) (m : MatcherKind) (strat : string) (cb_enabled : bool)
    (headers : Headers) : P (option Target) :=
  let! table := load px_table in
  lookup_in_routes rnd strat cb_enabled headers 0 (matching_routes table hst p m).

(** ** select_upstream_peer *)

Section admission.
Context (fuel : nat) (spurious : nat -> bool).

(** [allow_request], with [fuel] turns of its loop; two are enough without
    interference (see [breaker_refines_spec]). *)
Definition allow (t : Target) : P bool := let! r := on_cb t (allow_request fuel) in Ret (default false r).

Definition inline_fallback (picked : Target) (headers : Headers) (any_header : bool) (t : Target) : P bool :=
  if String.eqb (url t) (url picked) then Ret false
  else
    let! healthy := probe_healthy t in
    (if negb healthy then Ret false
     else if negb (negb any_header || matches_headers headers t) then Ret false
     else allow t).

Fixpoint find_prog (f : Target -> P bool) (ts : list Target) : P (option Target) :=
  match ts with
  | [] => Ret None
  | t :: ts' => let! ok := f t in (if ok then Ret (Some t) else find_prog f ts')
  end.

Fixpoint inline_fallback_in (picked : Target) (headers : Headers) (candidate_routes : list Route) : P (option Target) :=
  match candidate_routes with
  | [] => Ret None
  | route :: rest =>
      if match w_targets route with [] => true | _ => false end then inline_fallback_in picked headers rest
      else
        let! fb := find_prog (inline_fallback picked headers (any_header_constraint route)) (targets route) in
        match fb with Some t => Ret (Some t) | None => inline_fallback_in picked headers rest end
  end.

Definition bump_fastfail : P unit :=
  store (fun s => let c := px_counters s in
    set_counters (mk_counters (cb_open_total c) (cb_reopen_total c) (cb_close_total c) (fastfail_total c +w 1) (rate_limit_rejected_total c) (active_gauge c)) s).
Definition bump_rate_rejected : P unit :=
  store (fun s => let c := px_counters s in
    set_counters (mk_counters (cb_open_total c) (cb_reopen_total c) (cb_close_total c) (fastfail_total c) (rate_limit_rejected_total c +w 1) (active_gauge c)) s).

(** The breaker's admission: the target itself, or an inline fallback. *)
Definition breaker_admission (config : ProxyOptions) (hst p : string) (headers : Headers) (target : Target) : P (option Target) :=
  if negb (circuit_breaker_enabled config) then Ret (Some target)
  else
    let! ok := allow target in
    if ok then Ret (Some target)
    else
      let! table := load px_table in
      inline_fallback_in target headers (matching_routes table hst p (from_config (matcher config))).

Definition rate_limit_step (config : ProxyOptions) (t : Target) : P bool :=
  access (fun s => let '(h, ok) := try_acquire_rate_limit (px_now_ns s) (rate_limit_per_target config) (rate_limit_burst config) t (px_heap s) in
                   (set_heap h s, ok)).

Definition abort_if_enabled (config : ProxyOptions) (t : Target) : P unit :=
  if circuit_breaker_enabled config then on_cb t abort_probe else Ret tt.

(** [resolve_upstream_addr]: the cache before and after the resolver call. *)
Definition resolve (lookup_host : string -> result (list SocketAddr) IoErrorKind) (t : Target) : P (result SocketAddr IoErrorKind) :=
  let! cached := access (fun s => let '(d, r) := resolve_cached (proxy_ms s) t (px_dns s) in (set_dns d s, r)) in
  match cached with
  | Some r => Ret r
  | None => access (fun s => let '(d, r) := resolve_answer (proxy_ms s) (lookup_host (addr_str t)) t (px_dns s) in (set_dns d s, r))
  end.

(** The request and what the outside answers it: its header, the random
    indices drawn and the resolver's answers. *)
Record Request := mk_req {
  rq_host : string;
  rq_path : string;
  rq_headers : Headers;
  rq_rnd : nat -> nat -> nat;
  rq_lookup_host : string -> result (list SocketAddr) IoErrorKind;
}.

(** [select_upstream_peer] under the configuration it loaded: what it
    assigns to [ctx.picked_target] ([None] when it fails before that), and the
    outcome. *)
Definition select_with (config : ProxyOptions) (rq : Request) : P (option Target * result Peer ErrorType) :=
  let kind := from_config (matcher config) in
  let! found := lookup_target (rq_rnd rq) (rq_host rq) (rq_path rq) kind (strategy config) (circuit_breaker_enabled config) (rq_headers rq) in
  match found with
  | None =>
      let! table := load px_table in
      Ret (None, Err (HTTPStatus (match matching_routes table (rq_host rq) (rq_path rq) kind with
                                           | [] => no_route_status config | _ => 503 end)))
  | Some target =>
      let! admitted := breaker_admission config (rq_host rq) (rq_path rq) (rq_headers rq) target in
      match admitted with
      | None => bump_fastfail;; Ret (None, Err (HTTPStatus 503))
      | Some target =>
          let! ok := rate_limit_step config target in
          if negb ok then abort_if_enabled config target;; bump_rate_rejected;; Ret (None, Err (HTTPStatus 429))
          else
            let! slot := on_slots target (try_acquire_connection_slot fuel spurious (max_connections config)) in
            if negb (default false slot) then abort_if_enabled config target;; Ret (None, Err (HTTPStatus 503))
            else
              let! addr := resolve (rq_lookup_host rq) target in
              match addr with
              | Ok a => Ret (Some target, Ok (mk_peer a (upstream_tls target) (upstream_host target)))
              | Err PermissionDenied => Ret (Some target, Err (HTTPStatus 403))
              | Err _ => Ret (Some target, Err ConnectNoRoute)
              end
      end
  end.

Definition select_upstream_peer (rq : Request) : P (option Target * result Peer ErrorType) :=
  let! config := load px_config in select_with config rq.
End admission.

(** ** access.rs *)

Definition response_status (ctx_status : Z) (error : option ErrorType) : Z :=
  if 0 <? ctx_status then ctx_status
  else match error with
       | Some (HTTPStatus code) => code
       | Some ConnectTimedout => 504
       | Some ConnectRefused => 502
       | Some ConnectNoRoute => 502
       | Some InvalidHTTPHeader => 502
       | Some OtherError => 502
       | None => 200
       end.

Definition should_record_target_error (status : Z) (error : option ErrorType) : bool :=
  (500 <=? status)
  || match error with Some ConnectTimedout => true | Some ConnectRefused => true | Some ConnectNoRoute => true | _ => false end.

Definition write_proxy_error_status (error : ErrorType) : Z :=
  match error with
  | HTTPStatus code => code
  | ConnectTimedout => 504
  | ConnectRefused => 502
  | ConnectNoRoute => 502
  | InvalidHTTPHeader => 502
  | OtherError => 502
  end.

Definition record_stats (get_loc : Target -> loc) (t : Target) (latency_us bytes : Z) (is_error : bool) : P unit :=
  store (fun s => set_heap (set_stats (get_loc t) (record_request (proxy_secs s) latency_us bytes is_error (get_stats (get_loc t) (px_heap s))) (px_heap s)) s).

(** [record_access_log], its effect on the target. *)
Definition record_access_log (picked_target : option Target) (ctx_status : Z) (error : option ErrorType) (latency_us bytes : Z) : P unit :=
  match picked_target with
  | None => Ret tt
  | Some target =>
      on_slots target release_connection_slot;;
      let is_error := should_record_target_error (response_status ctx_status error) error in
      record_stats target_stats_loc target latency_us bytes is_error;;
      record_stats edge_stats_loc target latency_us bytes is_error;;
      let! config := load px_config in
      if circuit_breaker_enabled config
      then (if is_error then on_cb target record_error else on_cb target record_success)
      else Ret tt
  end.

(** ** A request, from its context to its log *)

(** [metrics.connect()] and [metrics.disconnect()]: the gauge requests and
    TCP connections share. *)
Definition move_gauge (by_ : Z) : P unit :=
  store (fun s => let c := px_counters s in
    set_counters (mk_counters (cb_open_total c) (cb_reopen_total c) (cb_close_total c) (fastfail_total c) (rate_limit_rejected_total c)
                    (wrap_i64 (active_gauge c + by_))) s).
Definition gauge_connect : P unit := move_gauge 1.
Definition gauge_disconnect : P unit := move_gauge (-1).

(** What comes of sending the request to a peer: the status the upstream
    answered (0 for none), the error, whether the framework tries the request
    again after it, and the bytes the upstream sent. *)
Record Exchange := mk_exchange { ex_status : Z; ex_error : option ErrorType; ex_retry : bool; ex_bytes : Z }.

(** What the outside makes of one call of [upstream_peer] for a request: the
    turns of its loops, the indices drawn, the resolver's answers and the
    exchange with the peer. *)
Record Attempt := mk_attempt {
  at_fuel : nat;
  at_spurious : nat -> bool;
  at_rnd : nat -> nat -> nat;
  at_lookup_host : string -> result (list SocketAddr) IoErrorKind;
  at_send : Peer -> Exchange;
}.

(** A request, its first attempt and those the framework makes at most when
    the exchange before failed. *)
Record RequestRun := mk_run { run_host : string; run_path : string; run_headers : Headers; run_first : Attempt; run_retries : list Attempt }.

Definition request_of (r : RequestRun) (a : Attempt) : Request :=
  mk_req (run_host r) (run_path r) (run_headers r) (at_rnd a) (at_lookup_host a).

(** The fields of [ProxyCtx] that stay from one attempt to the next. *)
Record RequestCtx := mk_request_ctx { rc_picked : option Target; rc_status : Z; rc_bytes : Z }.

Definition assign_picked (assigned picked : option Target) : option Target := match assigned with Some t => Some t | None => picked end.

(** [response_filter] and [upstream_response_body_filter] during an exchange. *)
Definition after_exchange (ex : Exchange) (c : RequestCtx) : RequestCtx :=
  mk_request_ctx (rc_picked c) (if ex_status ex =? 0 then rc_status c else ex_status ex) (rc_bytes c +w ex_bytes ex).

(** [logging]; [start] is when the context was made. The counters of requests
    and the line written are in Lifecycle.v. *)
Definition log_request (start : Z) (error : option ErrorType) (c : RequestCtx) : P unit :=
  let! now := load px_now_ns in
  gauge_disconnect;;
  record_access_log (rc_picked c) (rc_status c) error (wrap64 (Z.max (now - start) 0 / 1000)) (rc_bytes c).

(** What one call of [upstream_peer] assigned and answered. *)
Definition Selection : Type := option Target * result Peer ErrorType.

(** The framework calls [upstream_peer], sends the request to the peer, and
    begins again when the exchange failed and it chooses to; it does not when
    [upstream_peer] itself failed. A later call assigns [ctx.picked_target]
    over what an earlier one did. The request with all its selections. *)
Fixpoint serve_from (r : RequestRun) (start : Z) (c : RequestCtx) (a : Attempt) (retries : list Attempt) : P (list Selection) :=
  let! sel := select_upstream_peer (at_fuel a) (at_spurious a) (request_of r a) in
  let c := mk_request_ctx (assign_picked sel.1 (rc_picked c)) (rc_status c) (rc_bytes c) in
  match sel.2 with
  | Err e => log_request start (Some e) c;; Ret [sel]
  | Ok peer =>
      let ex := at_send a peer in
      let c := after_exchange ex c in
      match ex_error ex, ex_retry ex, retries with
      | Some _, true, next :: rest => let! later := serve_from r start c next rest in Ret (sel :: later)
      | e, _, _ => log_request start e c;; Ret [sel]
      end
  end.

Definition serve_request (r : RequestRun) : P (list Selection) :=
  gauge_connect;;
  let! start := load px_now_ns in
  serve_from r start (mk_request_ctx None 0 0) (run_first r) (run_retries r).

Lemma matching_routes_in t hst p m r :
  r ∈ matching_routes t hst p m -> targets r <> [] /\ exists key, r ∈ routes_of t key.
Proof.
  unfold matching_routes, collect_matching_routes, routes_of.
  assert (Hf : forall rs, r ∈ List.filter (selects m p) rs -> r ∈ rs /\ targets r <> []).
  { intros rs. rewrite list_elem_of_In, filter_In, <- list_elem_of_In. intros [Hr Hs]. split; [done|]. unfold selects, no_targets in Hs.
    intros E. rewrite E, andb_false_r in Hs. done. }
  intros Hr. assert (Hin : exists key, r ∈ List.filter (selects m p) (default [] (routes t !! key))).
  { destruct (negb (is_empty (to_ascii_lowercase hst))), (routes t !! to_ascii_lowercase hst) as [rs|] eqn:E1,
      (routes t !! "") as [rs'|] eqn:E2; cbn [app] in Hr; rewrite ?elem_of_app in Hr.
    all: repeat match goal with H : _ \/ _ |- _ => destruct H as [H|H] end; try (by apply elem_of_nil in Hr);
      first [exists (to_ascii_lowercase hst); rewrite E1; exact Hr|exists ""; rewrite E2; exact Hr]. }
  destruct Hin as [key [Hin Hne]%Hf]. split; [done|by exists key].
Qed.

(** ** Slots are conserved *)

Section slots.
Context (l : loc) (max : Z) (Hmax : 0 < max < 2 ^ 64).

(** No route counts its round robin in the cell [l]. *)
Definition rr_apart (t : Table) : Prop := forall key r, r ∈ routes_of t key -> rr_counter r <> l.

(** [l] counts the [n] slots held; the limit is [max]. *)
Record slots_state (s : ProxyState) (n : nat) : Prop := {
  ss_slots : slots_inv max (get_counter l (px_heap s)) n;
  ss_max : max_connections (px_config s) = max;
  ss_apart : rr_apart (px_table s);
}.

Lemma slots_state_heap s h n : get_counter l h = get_counter l (px_heap s) -> slots_state s n -> slots_state (set_heap h s) n.
Proof. intros E []. split; [cbn; by rewrite E|done|done]. Qed.

Lemma frames_cb {A} t (m : M A) : frames slots_state (on_cb t m).
Proof. apply frames_zoom. intros w s n []. by split. Qed.

Lemma get_set_counter_ne l' v h : l' <> l -> get_counter l (set_counter l' v h) = get_counter l h.
Proof. intros Hne. unfold get_counter. cbn. by rewrite lookup_insert_ne by done. Qed.

Lemma frames_pick rnd strat ts w rr : rr <> l -> frames slots_state (pick rnd strat ts w rr).
Proof.
  intros Hrr. apply frames_access. intros s n Hs.
  assert (E : get_counter l (pick_target_by_strategy rnd strat ts w rr (px_heap s)).1 = get_counter l (px_heap s)).
  { unfold pick_target_by_strategy, round_robin_pick. repeat (case_match; try done); cbn; by apply get_set_counter_ne. }
  destruct (pick_target_by_strategy rnd strat ts w rr (px_heap s)) as [h t]. by apply slots_state_heap.
Qed.

Lemma frames_filter (f : Target -> P bool) ts : (forall t, frames slots_state (f t)) -> frames slots_state (filter_prog f ts).
Proof.
  intros Hf. induction ts as [|t ts IH]; cbn; [done|]. apply frames_bind; [done|]. intros keep.
  apply frames_bind; [done|]. done.
Qed.

Lemma frames_find (f : Target -> P bool) ts : (forall t, frames slots_state (f t)) -> frames slots_state (find_prog f ts).
Proof.
  intros Hf. induction ts as [|t ts IH]; cbn; [done|]. apply frames_bind; [done|]. by intros [].
Qed.

Lemma frames_usable cb t : frames slots_state (usable cb t).
Proof.
  apply frames_bind; [apply frames_load|]. intros healthy. destruct healthy, cb; cbn [negb]; try done. apply frames_cb.
Qed.

Lemma frames_usable_fallback picked t : frames slots_state (usable_fallback picked t).
Proof.
  unfold usable_fallback. destruct (String.eqb _ _); [done|]. apply frames_bind; [apply frames_load|]. intros []; [apply frames_cb|done].
Qed.

Lemma frames_try rnd1 rnd2 strat cb headers r :
  rr_counter r <> l -> frames slots_state (try_route rnd1 rnd2 strat cb headers r).
Proof.
  intros Hr. unfold try_route. destruct (route_choice headers r) as [[ts w]|]; [|done].
  apply frames_bind; [by apply frames_pick|]. intros [t|]; [|done].
  apply frames_bind; [apply frames_usable|]. intros []; [done|].
  apply frames_bind; [apply frames_filter; intros u; apply frames_usable_fallback|]. intros [|u us]; [done|by apply frames_pick].
Qed.

Lemma frames_lookup rnd strat cb headers i rs :
  Forall (fun r => rr_counter r <> l) rs -> frames slots_state (lookup_in_routes rnd strat cb headers i rs).
Proof.
  revert i. induction rs as [|r rs IH]; intros i Hrs; [done|]. apply Forall_cons in Hrs as [Hr Hrs]. cbn [lookup_in_routes].
  apply frames_bind; [by apply frames_try|]. intros [t|]; [done|by apply IH].
Qed.

Lemma matching_routes_apart t hst p m : rr_apart t -> Forall (fun r => rr_counter r <> l) (matching_routes t hst p m).
Proof.
  intros Hap. apply Forall_forall. intros r [_ [key Hr]]%matching_routes_in. by apply (Hap key).
Qed.

Lemma frames_lookup_target rnd hst p m strat cb headers : frames slots_state (lookup_target rnd hst p m strat cb headers).
Proof. cbn. intros s n Hs. split; [done|]. apply frames_lookup, matching_routes_apart, Hs. Qed.

Lemma frames_allow fuel t : frames slots_state (allow fuel t).
Proof. apply frames_bind; [apply frames_cb|done]. Qed.

Lemma frames_inline fuel picked headers rs : frames slots_state (inline_fallback_in fuel picked headers rs).
Proof.
  induction rs as [|r rs IH]; [done|]. cbn [inline_fallback_in]. destruct (match w_targets r with [] => true | _ => false end); [done|].
  apply frames_bind; [|by intros []]. apply frames_find. intros t. unfold inline_fallback. destruct (String.eqb _ _); [done|].
  apply frames_bind; [apply frames_load|]. intros healthy. destruct healthy; cbn [negb]; [|done].
  destruct (negb _); [done|]. apply frames_allow.
Qed.

Lemma frames_admission fuel config hst p headers t : frames slots_state (breaker_admission fuel config hst p headers t).
Proof.
  unfold breaker_admission. destruct (negb _); [done|]. apply frames_bind; [apply frames_allow|]. intros []; [done|].
  apply frames_bind; [apply frames_load|]. intros table. apply frames_inline.
Qed.

Lemma frames_abort config t : frames slots_state (abort_if_enabled config t).
Proof. unfold abort_if_enabled. destruct (circuit_breaker_enabled config); [apply frames_cb|done]. Qed.

Lemma frames_rate config t : frames slots_state (rate_limit_step config t).
Proof.
  apply frames_access. intros s n Hs.
  assert (E : get_counter l (try_acquire_rate_limit (px_now_ns s) (rate_limit_per_target config) (rate_limit_burst config) t (px_heap s)).1
              = get_counter l (px_heap s)).
  { unfold try_acquire_rate_limit. destruct (try_acquire_at _ _) as [b ok]. cbn. by repeat case_match. }
  destruct (try_acquire_rate_limit _ _ _ _ _) as [h ok]. by apply slots_state_heap.
Qed.

Lemma frames_counters (f : ProxyState -> ProxyCounters) : frames slots_state (store (fun s => set_counters (f s) s)).
Proof. cbn. intros s n []. split; [by split|done]. Qed.

Lemma frames_resolve lookup_host t : frames slots_state (resolve lookup_host t).
Proof.
  apply frames_bind; [|intros [r|]; [done|]]; apply frames_access; intros s n [].
  - destruct (resolve_cached _ _ _). by split.
  - destruct (resolve_answer _ _ _ _). by split.
Qed.

Lemma frames_stats f t lat bytes e : frames slots_state (record_stats f t lat bytes e).
Proof. cbn. intros s n []. split; [by split|done]. Qed.

(** The tokens a request holds for the target it picked. *)
Definition slot_of (picked : option Target) : nat :=
  match picked with Some t => if decide (active_connections t = l) then 1%nat else 0%nat | None => 0%nat end.

Lemma safe_tok_frames_bind {A B} (m : P A) (f : A -> P B) (Q : B -> nat -> Prop) n :
  frames slots_state m -> (forall a, safe_tok slots_state Q (f a) n) -> safe_tok slots_state Q (bind m f) n.
Proof.
  intros Hm Hf. eapply safe_tok_bind; [by apply frames_safe_tok|]. intros a n' ->. apply Hf.
Qed.

Lemma slots_put t : active_connections t = l -> forall s n v n', slots_state s n -> slots_inv max v n' -> slots_state (put_slots t v s) n'.
Proof. intros El s n v n' [] Hv. split; [|done|done]. unfold put_slots. cbn. by rewrite El, get_set_counter. Qed.

Lemma acquire_tok fuel spurious t :
  safe_tok slots_state (fun r n => n = if decide (r = Some true) then slot_of (Some t) else 0%nat)
    (on_slots t (try_acquire_connection_slot fuel spurious max)) 0.
Proof.
  cbn [slot_of]. destruct (decide (active_connections t = l)) as [El|Hne].
  - eapply safe_tok_zoom; [|by apply slots_put|by apply acquire_slot_tok]. intros s n []. unfold get_slots. by rewrite El.
  - eapply safe_tok_weaken; [|apply frames_safe_tok, frames_zoom].
    + intros r n ->. by case_decide.
    + intros v s n Hs. apply slots_state_heap; [by apply get_set_counter_ne|done].
Qed.

Lemma release_tok t : safe_tok slots_state (fun _ n => n = 0%nat) (on_slots t release_connection_slot) (slot_of (Some t)).
Proof.
  cbn [slot_of]. destruct (decide (active_connections t = l)) as [El|Hne].
  - eapply safe_tok_zoom; [|by apply slots_put|by apply release_slot_tok]. intros s n []. unfold get_slots. by rewrite El.
  - apply frames_safe_tok, frames_zoom. intros v s n Hs. apply slots_state_heap; [by apply get_set_counter_ne|done].
Qed.

Lemma select_with_tok fuel spurious config rq :
  max_connections config = max ->
  safe_tok slots_state (fun r n => n = slot_of r.1) (select_with fuel spurious config rq) 0.
Proof.
  intros Hm.
  apply safe_tok_frames_bind; [apply frames_lookup_target|]. intros [t|]; [|apply safe_tok_frames_bind; [apply frames_load|done]].
  apply safe_tok_frames_bind; [apply frames_admission|]. intros [t'|]; [|apply safe_tok_frames_bind; [apply frames_counters|done]].
  apply safe_tok_frames_bind; [apply frames_rate|]. intros [].
  2: { apply safe_tok_frames_bind; [apply frames_abort|]. intros _. apply safe_tok_frames_bind; [apply frames_counters|done]. }
  cbn [negb]. rewrite Hm. eapply safe_tok_bind; [apply acquire_tok|]. intros r n Hn.
  destruct r as [[]|]; cbn [default from_option id negb].
  - rewrite decide_True in Hn by done. subst n. apply safe_tok_frames_bind; [apply frames_resolve|]. by intros [a|[]].
  - rewrite decide_False in Hn by done. subst n. apply safe_tok_frames_bind; [apply frames_abort|done].
  - rewrite decide_False in Hn by done. subst n. apply safe_tok_frames_bind; [apply frames_abort|done].
Qed.

Lemma select_tok fuel spurious rq :
  safe_tok slots_state (fun r n => n = slot_of r.1) (select_upstream_peer fuel spurious rq) 0.
Proof. intros s others Hs. exists 0%nat. split; [exact Hs|]. apply select_with_tok, Hs. Qed.

Lemma record_tok picked st e lat bytes :
  safe_tok slots_state (fun _ n => n = 0%nat) (record_access_log picked st e lat bytes) (slot_of picked).
Proof.
  destruct picked as [t|]; [|done]. cbn [record_access_log]. eapply safe_tok_bind; [apply release_tok|]. intros _ n ->.
  apply safe_tok_frames_bind; [apply frames_stats|]. intros _. apply safe_tok_frames_bind; [apply frames_stats|]. intros _.
  apply safe_tok_frames_bind; [apply frames_load|]. intros config.
  destruct (circuit_breaker_enabled config); [|done]. destruct (should_record_target_error _ _); apply frames_safe_tok, frames_cb.
Qed.

(** The slots a request took and never gave back: those of every target it
    picked but the last, [before] being what it had picked already. *)
Definition slots_of (picked : list Target) : nat := sum_list (map (fun t => slot_of (Some t)) picked).
Definition picked_targets (sels : list Selection) : list Target := omap fst sels.
Definition lost_slots (sels : list Selection) : nat := slots_of (removelast (picked_targets sels)).

Definition lost_from (before : option Target) (sels : list Selection) : nat :=
  slots_of (removelast (option_list before ++ picked_targets sels)).

Lemma log_tok start e c : safe_tok slots_state (fun _ n => n = 0%nat) (log_request start e c) (slot_of (rc_picked c)).
Proof.
  apply safe_tok_frames_bind; [apply frames_load|]. intros now. apply safe_tok_frames_bind; [apply frames_counters|]. intros _. apply record_tok.
Qed.

Lemma lost_from_one before (sel : Selection) : lost_from before [sel] = match sel.1 with Some _ => slot_of before | None => 0%nat end.
Proof. unfold lost_from, slots_of, picked_targets. destruct before, sel as [[u|] o]; cbn; lia. Qed.

Lemma lost_from_cons before (sel : Selection) sels :
  lost_from before (sel :: sels)
  = ((match sel.1 with Some _ => slot_of before | None => 0 end) + lost_from (assign_picked sel.1 before) sels)%nat.
Proof.
  unfold lost_from, picked_targets, slots_of. destruct before, sel as [[u|] o]; cbn [omap list_omap fst option_list app assign_picked];
    done.
Qed.

(** What a selection keeps of the slots: those taken before stay held. *)
Lemma attempt_tok fuel spurious rq before k :
  safe_tok slots_state (fun sel n => n = (k + (match sel.1 with Some _ => slot_of before | None => 0 end) + slot_of (assign_picked sel.1 before))%nat)
    (select_upstream_peer fuel spurious rq) (k + slot_of before).
Proof.
  eapply safe_tok_weaken; [|replace (k + slot_of before)%nat with (k + slot_of before + 0)%nat by lia; apply safe_tok_extra, select_tok].
  cbn. intros [[t|] o] n (n0 & -> & ->); cbn; lia.
Qed.

Lemma serve_from_tok r start c a retries k :
  safe_tok slots_state (fun sels n => n = (k + lost_from (rc_picked c) sels)%nat) (serve_from r start c a retries) (k + slot_of (rc_picked c)).
Proof.
  revert c a k. induction retries as [|next rest IH]; intros c a k; cbn [serve_from]; (eapply safe_tok_bind; [apply attempt_tok|]);
    intros sel n ->; set (lost := match sel.1 with Some _ => slot_of (rc_picked c) | None => 0%nat end).
  all: assert (Hlog : forall e c', rc_picked c' = assign_picked sel.1 (rc_picked c) ->
    safe_tok slots_state (fun sels n => n = (k + lost_from (rc_picked c) sels)%nat) (bind (log_request start e c') (fun _ => Ret [sel]))
      (k + lost + slot_of (assign_picked sel.1 (rc_picked c)))).
  1,3: intros e c' <-; eapply safe_tok_bind; [apply safe_tok_extra, log_tok|]; intros _ n (n0 & -> & ->); cbn [safe_tok];
    rewrite lost_from_one; unfold lost; lia.
  - destruct sel.2 as [peer|e]; [|by apply Hlog]. generalize (at_send a peer) as ex. intros [st [] [] bytes]; by apply Hlog.
  - destruct sel.2 as [peer|e]; [|by apply Hlog]. generalize (at_send a peer) as ex. intros [st [] [] bytes]; try by apply Hlog.
    cbn [ex_error ex_retry]. match goal with |- safe_tok _ _ (bind (serve_from _ _ ?c' _ _) _) _ => eapply safe_tok_bind; [exact (IH c' next (k + lost)%nat)|] end.
    intros later n ->. cbn [safe_tok after_exchange rc_picked]. rewrite lost_from_cons. fold lost. lia.
Qed.

(** A request ends holding exactly the slots it lost. *)
Lemma serve_tok r : safe_tok slots_state (fun sels n => n = lost_slots sels) (serve_request r) 0.
Proof.
  apply safe_tok_frames_bind; [apply frames_counters|]. intros _. apply safe_tok_frames_bind; [apply frames_load|]. intros start.
  exact (serve_from_tok r start (mk_request_ctx None 0 0) (run_first r) (run_retries r) 0).
Qed.
End slots.

(** ** What lookup_target answers, run alone *)

(** Two states that breakers and health probes cannot tell apart. *)
Record same_view (s s' : ProxyState) : Prop := {
  sv_trackers : forall k, get_tracker k (px_heap s') = get_tracker k (px_heap s);
  sv_now : px_now_ns s' = px_now_ns s;
  sv_counters : px_counters s' = px_counters s;
}.

#[local] Instance same_view_refl : Reflexive same_view.
Proof. by intros s. Qed.
#[local] Instance same_view_trans : Transitive same_view.
Proof. intros s1 s2 s3 [] []. split; congruence. Qed.

Lemma same_view_cb t s s' : same_view s s' -> get_cb t s' = get_cb t s.
Proof. intros [Ht Hn Hc]. unfold get_cb, proxy_ms. by rewrite Ht, Hn, Hc. Qed.

(** Methods that only read. *)
Fixpoint read_only {A} (m : M A) : Prop :=
  match m with
  | Ret _ => True
  | Access act k => (forall w, (act w).1 = w) /\ forall b, read_only (k b)
  end.

Lemma read_only_bind {A B} (m : M A) (f : A -> M B) : read_only m -> (forall a, read_only (f a)) -> read_only (bind m f).
Proof. induction m as [a|C act k IH]; cbn; intros Hm Hf; [done|]. destruct Hm as [Hw Hk]. split; [done|]. intros b. by apply IH. Qed.

Lemma read_only_load {B} (get : World -> B) : read_only (load get).
Proof. done. Qed.

Lemma can_accept_read_only : read_only can_accept_request.
Proof.
  apply read_only_bind; [apply read_only_load|]. intros st. cbv zeta. repeat (case_match; try exact I).
  - unfold recovery_elapsed, ld, monotonic_elapsed_ms. do 3 (apply read_only_bind; [apply read_only_load|intros ?]). exact I.
  - apply read_only_bind; [apply read_only_load|]. intros max. case_match; [|done]. apply read_only_bind; [apply read_only_load|done].
Qed.

Lemma get_tracker_set k v k' h : get_tracker k' (set_tracker k v h) = if decide (k' = k) then v else get_tracker k' h.
Proof. unfold get_tracker. cbn. case_decide as E; [by rewrite E, lookup_insert_eq|by rewrite lookup_insert_ne]. Qed.

Lemma put_get_cb t s : same_view s (put_cb t (get_cb t s) s).
Proof.
  unfold put_cb, get_cb. split; cbn; [|done|by destruct (px_counters s)].
  intros k. rewrite get_tracker_set. case_decide as E; [|done]. rewrite E. by destruct (get_tracker (health_tracker t) (px_heap s)).
Qed.

Lemma run_read_only {A} t (m : M A) s :
  read_only m -> same_view s (run (on_cb t m) s).1 /\ (run (on_cb t m) s).2 = (run m (get_cb t s)).2.
Proof.
  unfold on_cb. revert s. induction m as [a|B act k IH]; intros s Hm; [done|]. destruct Hm as [Hw Hk]. cbn.
  pose proof (Hw (get_cb t s)) as Ew. destruct (act (get_cb t s)) as [w b]. cbn in Ew. subst w.
  destruct (IH b (put_cb t (get_cb t s) s) (Hk b)) as [Hv Hr]. split; [by etransitivity; [apply put_get_cb|]|].
  by rewrite Hr, (same_view_cb t _ _ (put_get_cb t s)).
Qed.

(** A target requests may go to: healthy for the active checks and, when
    [cb] asks for it, for its breaker. *)
Definition acceptable (cb : bool) (s : ProxyState) (t : Target) : bool :=
  is_probe_healthy (get_tracker (health_tracker t) (px_heap s))
  && (negb cb || (run can_accept_request (get_cb t s)).2).

Lemma same_view_acceptable cb s s' t : same_view s s' -> acceptable cb s' t = acceptable cb s t.
Proof. intros Hv. unfold acceptable. rewrite (same_view_cb t _ _ Hv). by rewrite (sv_trackers _ _ Hv). Qed.

Lemma run_usable cb t s : same_view s (run (usable cb t) s).1 /\ (run (usable cb t) s).2 = acceptable cb s t.
Proof.
  unfold usable, acceptable. rewrite run_bind. cbn [probe_healthy load access run].
  destruct (is_probe_healthy _); cbn [negb andb]; [|done]. destruct cb; cbn [negb orb]; [|done].
  apply run_read_only, can_accept_read_only.
Qed.

Lemma run_usable_fallback picked t s :
  same_view s (run (usable_fallback picked t) s).1
  /\ (run (usable_fallback picked t) s).2 = negb (String.eqb (url t) (url picked)) && acceptable true s t.
Proof.
  unfold usable_fallback, acceptable, and_then. destruct (String.eqb _ _); [done|]. rewrite run_bind. cbn [probe_healthy load access run].
  destruct (is_probe_healthy _); cbn [negb andb orb]; [|done].
  apply run_read_only, can_accept_read_only.
Qed.

Lemma run_filter (f : Target -> P bool) (b : ProxyState -> Target -> bool) ts s :
  (forall t s, same_view s (run (f t) s).1 /\ (run (f t) s).2 = b s t) -> (forall t s s', same_view s s' -> b s' t = b s t) ->
  same_view s (run (filter_prog f ts) s).1 /\ (run (filter_prog f ts) s).2 = List.filter (b s) ts.
Proof.
  intros Hf Hb. revert s. induction ts as [|t ts IH]; intros s; [done|]. cbn. rewrite run_bind.
  destruct (Hf t s) as [Hv Hr]. destruct (run (f t) s) as [s1 keep]. cbn in Hv, Hr. subst keep. rewrite run_bind.
  destruct (IH s1) as [Hv1 Hr1]. destruct (run (filter_prog f ts) s1) as [s2 rest]. cbn in Hv1, Hr1 |- *. subst rest.
  split; [by etransitivity|]. rewrite (List.filter_ext (b s1) (b s)) by (intros u; by apply Hb). by destruct (b s t).
Qed.

(** Indices drawn below the bound. *)
Definition rnd_ok (rnd : nat -> nat -> nat) : Prop := forall i n, (0 < n)%nat -> (rnd i n < n)%nat.

Lemma run_pick rnd strat ts w rr s :
  ts <> [] -> w <> [] -> (forall n, (0 < n)%nat -> (rnd n < n)%nat) ->
  let '(s', r) := run (pick rnd strat ts w rr) s in
  same_view s s' /\ exists t, r = Some t /\ (t ∈ ts \/ t ∈ w).
Proof.
  intros Hts Hw Hr. unfold pick. cbn [run access].
  assert (Hp : (forall k, get_tracker k (pick_target_by_strategy rnd strat ts w rr (px_heap s)).1 = get_tracker k (px_heap s))
               /\ exists t, (pick_target_by_strategy rnd strat ts w rr (px_heap s)).2 = Some t /\ (t ∈ ts \/ t ∈ w)).
  { assert (Hrr : (forall k, get_tracker k (round_robin_pick ts w rr (px_heap s)).1 = get_tracker k (px_heap s))
               /\ exists t, (round_robin_pick ts w rr (px_heap s)).2 = Some t /\ (t ∈ ts \/ t ∈ w)).
    { unfold round_robin_pick. destruct w as [|w0 w]; [done|]. destruct ts as [|t0 ts]; [done|]. split; [done|]. cbn [snd].
      set (w' := w0 :: w). set (i := Z.to_nat (get_counter rr (px_heap s) mod Z.of_nat (List.length w'))).
      destruct (lookup_lt_is_Some_2 w' i) as [x Hx]; [|exists x; split; [exact Hx|right; by eapply list_elem_of_lookup_2]].
      subst i. pose proof (Z.mod_pos_bound (get_counter rr (px_heap s)) (Z.of_nat (List.length w'))). cbn [List.length w'] in *. lia. }
    unfold pick_target_by_strategy. destruct (_ || is_empty strat); [done|]. destruct (_ || _); [|destruct (_ || _); [|done]].
    - split; [done|]. unfold random_pick. destruct (lookup_lt_is_Some_2 w (rnd (List.length w))) as [x Hx]; [apply Hr; destruct w; [done|cbn; lia]|].
      exists x. split; [by destruct w|]. right. by eapply list_elem_of_lookup_2.
    - split; [done|]. cbn. pose proof (least_connections_spec (px_heap s) ts) as Hlc. destruct (least_connections_pick _ ts) as [t|]; [|done].
      exists t. split; [done|left; apply Hlc]. }
  destruct (pick_target_by_strategy _ _ _ _ _ _) as [h t]. cbn in Hp. destruct Hp as [Hk Ht]. by split; [split|].
Qed.

(** What a request can get from a route. *)
Definition route_offers (headers : Headers) (route : Route) (t : Target) : Prop :=
  (t ∈ targets route \/ t ∈ w_targets route) /\ (any_header_constraint route = true -> matches_headers headers t = true).

Lemma route_choice_spec headers route ts w :
  route_choice headers route = Some (ts, w) ->
  w <> [] /\ (targets route <> [] -> ts <> []) /\ (forall t, t ∈ ts \/ t ∈ w -> route_offers headers route t)
  /\ (forall t, t ∈ targets route -> (any_header_constraint route = true -> matches_headers headers t = true) -> t ∈ ts)
  /\ forall t, t ∈ ts -> t ∈ targets route.
Proof.
  unfold route_choice. destruct (w_targets route) as [|w0 ws] eqn:Ew; [done|]. rewrite <- Ew.
  assert (Hf : forall l t, t ∈ List.filter (matches_headers headers) l <-> t ∈ l /\ matches_headers headers t = true).
  { intros l t. by rewrite !list_elem_of_In, filter_In. }
  unfold route_offers. destruct (any_header_constraint route).
  - destruct (List.filter _ (targets route)) as [|m ms] eqn:Em; [done|]. rewrite <- Em.
    destruct (List.filter _ (w_targets route)) as [|mw mws] eqn:Emw; intros [= <- <-]; [|rewrite <- Emw];
      (split; [by rewrite ?Em, ?Emw|split; [by rewrite Em|split_and!]]); intros t; rewrite ?Hf; tauto.
  - intros [= <- <-]. split; [by rewrite Ew|]. split; [done|]. split_and!; intuition congruence.
Qed.

Lemma route_choice_none headers route :
  route_choice headers route = None ->
  forall t, t ∈ targets route -> w_targets route <> [] -> (any_header_constraint route = true -> matches_headers headers t = true) -> False.
Proof.
  unfold route_choice. destruct (w_targets route) as [|w0 ws]; [done|]. destruct (any_header_constraint route); [|done].
  destruct (List.filter _ (targets route)) as [|m ms] eqn:Ef; [|by case_match]. intros _ t Ht _ Hh.
  assert (Hin : In t (List.filter (matches_headers headers) (targets route))) by (apply filter_In; rewrite <- list_elem_of_In; auto).
  by rewrite Ef in Hin.
Qed.

(** Targets of a route with the same URL share their health tracker (see
    [cells_shared_iff_same_url]). *)
Definition shared_trackers (route : Route) : Prop :=
  forall t u, (t ∈ targets route \/ t ∈ w_targets route) -> (u ∈ targets route \/ u ∈ w_targets route) ->
  url t = url u -> health_tracker t = health_tracker u.

Lemma acceptable_shared cb s t u : health_tracker t = health_tracker u -> acceptable cb s t = acceptable cb s u.
Proof. intros E. unfold acceptable, get_cb. by rewrite E. Qed.

Lemma acceptable_stronger cb s t : acceptable true s t = true -> acceptable cb s t = true.
Proof. unfold acceptable. intros [-> Hc]%andb_true_iff. cbn in *. by rewrite Hc, orb_true_r. Qed.

Definition lookup_answer (cb : bool) (headers : Headers) (s : ProxyState) (rs : list Route) (r : option Target) : Prop :=
  match r with
  | Some t => (exists route, route ∈ rs /\ route_offers headers route t) /\ acceptable cb s t = true
  | None => forall route t, route ∈ rs -> t ∈ targets route -> w_targets route <> [] ->
                (any_header_constraint route = true -> matches_headers headers t = true) -> acceptable true s t = false
  end.

(** No target of a route is acceptable: what the fallback search found. *)
Lemma no_fallback s s1 ts picked :
  same_view s s1 -> acceptable true s1 picked = false ->
  (forall t, t ∈ ts -> url t = url picked -> health_tracker t = health_tracker picked) ->
  List.filter (fun t => negb (String.eqb (url t) (url picked)) && acceptable true s1 t) ts = [] ->
  forall t, t ∈ ts -> acceptable true s t = false.
Proof.
  intros Hv Hp Hshare Hnil t Ht. rewrite <- (same_view_acceptable true s s1 t Hv).
  destruct (String.eqb_spec (url t) (url picked)) as [Eu|Hne]; [by rewrite (acceptable_shared true s1 t picked) by auto|].
  destruct (acceptable true s1 t) eqn:Ea; [|done]. exfalso.
  assert (Hin : In t (List.filter (fun t => negb (String.eqb (url t) (url picked)) && acceptable true s1 t) ts)).
  { apply filter_In. rewrite <- list_elem_of_In. split; [done|]. rewrite Ea. by apply String.eqb_neq in Hne as ->. }
  by rewrite Hnil in Hin.
Qed.

Lemma unusable_refused cb s t : acceptable cb s t = false -> acceptable true s t = false.
Proof. intros E. destruct (acceptable true s t) eqn:E'; [|done]. apply (acceptable_stronger cb) in E'. congruence. Qed.

Lemma try_route_spec rnd1 rnd2 strat cb headers route s :
  (forall n, (0 < n)%nat -> (rnd1 n < n)%nat) -> (forall n, (0 < n)%nat -> (rnd2 n < n)%nat) ->
  shared_trackers route -> targets route <> [] ->
  let '(s', r) := run (try_route rnd1 rnd2 strat cb headers route) s in
  same_view s s'
  /\ match r with
     | Some t => route_offers headers route t /\ acceptable cb s t = true
     | None => forall t, t ∈ targets route -> w_targets route <> [] ->
                 (any_header_constraint route = true -> matches_headers headers t = true) -> acceptable true s t = false
     end.
Proof.
  intros Hr1 Hr2 Hsh Hne. unfold try_route. destruct (route_choice headers route) as [[ts w]|] eqn:Ec.
  2: { split; [done|]. intros t Ht Hw Hh. exfalso. by apply (route_choice_none headers route Ec t). }
  destruct (route_choice_spec _ _ _ _ Ec) as (Hw & Hts & Hoff & Hcomp & Hsub). specialize (Hts Hne).
  rewrite run_bind. pose proof (run_pick rnd1 strat ts w (rr_counter route) s Hts Hw Hr1) as Hp.
  destruct (run (pick _ _ _ _ _) s) as [s1 r]. destruct Hp as (Hv1 & picked & -> & Hpicked).
  rewrite run_bind. destruct (run_usable cb picked s1) as [Hv2 Hu]. destruct (run (usable cb picked) s1) as [s2 ok]. cbn in Hv2, Hu. subst ok.
  assert (Hv12 : same_view s s2) by (by etransitivity).
  destruct (acceptable cb s1 picked) eqn:Ea; [split; [done|]; split; [by apply Hoff|by rewrite <- (same_view_acceptable cb s s1)]|].
  rewrite run_bind.
  destruct (run_filter (usable_fallback picked) (fun s t => negb (String.eqb (url t) (url picked)) && acceptable true s t) ts s2) as [Hv3 Hf];
    [intros; apply run_usable_fallback|intros; by rewrite (same_view_acceptable true s0 s')|].
  destruct (run (filter_prog _ ts) s2) as [s3 fbs]. cbn in Hv3, Hf. assert (Hv13 : same_view s s3) by (by etransitivity).
  destruct fbs as [|f0 fs].
  - split; [done|]. intros t Ht _ Hh. apply (no_fallback s s2 ts picked); [done| | |done|by apply Hcomp].
    + rewrite (same_view_acceptable true s1 s2) by done. by eapply unusable_refused.
    + intros u Hu Eu. apply Hsh; [left; by apply Hsub|apply (Hoff picked Hpicked)|done].
  - pose proof (run_pick rnd2 strat (f0 :: fs) (f0 :: fs) (rr_counter route) s3 ltac:(done) ltac:(done) Hr2) as Hp.
    destruct (run (pick _ _ _ _ _) s3) as [s4 r]. destruct Hp as (Hv4 & f & -> & Hfin). split; [by etransitivity|].
    assert (Hin : In f (f0 :: fs)) by (apply list_elem_of_In; tauto). rewrite Hf in Hin. apply filter_In in Hin as [Hin Hacc].
    apply andb_true_iff in Hacc as [_ Hacc]. split; [apply Hoff; left; by apply list_elem_of_In|].
    apply acceptable_stronger. by rewrite <- (same_view_acceptable true s s2).
Qed.

Lemma lookup_in_routes_spec rnd strat cb headers i rs s :
  rnd_ok rnd -> Forall (fun r => shared_trackers r /\ targets r <> []) rs ->
  lookup_answer cb headers s rs (run (lookup_in_routes rnd strat cb headers i rs) s).2.
Proof.
  intros Hrnd. revert i s. induction rs as [|route rs IH]; intros i s Hsh; [by intros r t ?%elem_of_nil|].
  apply Forall_cons in Hsh as [[Hsh Hne] Hrs]. cbn [lookup_in_routes]. rewrite run_bind.
  pose proof (try_route_spec (rnd i) (rnd (S i)) strat cb headers route s (Hrnd i) (Hrnd (S i)) Hsh Hne) as Ht.
  destruct (run (try_route _ _ _ _ _ _) s) as [s1 [t|]]; destruct Ht as [Hv Ht]; cbn.
  - destruct Ht as [Ho Ha]. split; [exists route; split; [by left|done]|done].
  - specialize (IH (S (S i)) s1 Hrs). destruct (run _ s1).2 as [t|]; cbn in *.
    + destruct IH as [(r & Hr & Ho) Ha]. split; [exists r; split; [by right|done]|]. by rewrite (same_view_acceptable _ _ _ _ Hv) in Ha.
    + intros r t [->|Hr]%elem_of_cons Htt Hw Hh; [by apply Ht|]. rewrite <- (same_view_acceptable true _ _ t Hv). by eapply IH.
Qed.

(** C2: a request is sent to a target only if it is one the request may use
    (of a route that matches, satisfying its header constraints), that is
    healthy for the active checks and, with the circuit breaker enabled, whose
    breaker accepts requests; and when the lookup fails no target of any
    matching route that satisfies the header constraints is healthy with an
    accepting breaker: the lookup never gives up while there is one. *)
Theorem lookup_target_sound_complete rnd hst p m strat cb headers s :
  rnd_ok rnd -> (forall key r, r ∈ routes_of (px_table s) key -> shared_trackers r) ->
  lookup_answer cb headers s (matching_routes (px_table s) hst p m) (run (lookup_target rnd hst p m strat cb headers) s).2.
Proof.
  intros Hrnd Hsh. apply lookup_in_routes_spec; [done|]. apply Forall_forall. intros r Hr.
  apply matching_routes_in in Hr as [Hne [key Hr]]. split; [by eapply Hsh|done].
Qed.

Lemma routes_of_forall t (Q : Route -> Prop) :
  map_Forall (fun _ rs => Forall Q rs) (routes t) -> forall key r, r ∈ routes_of t key -> Q r.
Proof.
  intros Hall key r. unfold routes_of. destruct (routes t !! key) as [rs|] eqn:E; [|by intros ?%elem_of_nil].
  specialize (Hall _ _ E). rewrite Forall_forall in Hall. apply Hall.
Qed.

(** ** The accounting of refused requests *)

(** A request refused by the SSRF checks after its target was picked is
    accounted exactly as one the upstream answered: the breaker records a
    success although nothing was sent. *)
Lemma blocked_request_counts_as_success t lat bytes s :
  run (record_access_log (Some t) 0 (Some (HTTPStatus 403)) lat bytes) s = run (record_access_log (Some t) 200 None lat bytes) s.
Proof. reflexivity. Qed.
End upstream.

(** ** A concrete proxy *)

#[local] Instance no_glob : GlobCrate := {| Pattern := unit; pattern_new _ := None; pattern_matches _ _ := false |}.
#[local] Instance list_order : HashOrder := {| iter_order m := map_to_list m; iter_order_perm m := Permutation_refl _ |}.
(** Two targets of one route; each has cells of its own. *)
Definition demo_of (u : string) (l : loc) : Target :=
  mk_target "a" u f64_zero f64_zero [] ∅ Routes.Static (strip_prefix "http://" u) (Some 80) false Http
    l (l + 1)%positive (l + 2)%positive (l + 3)%positive (l + 4)%positive.
Definition demo_targets : list Target := [demo_of "http://1.1.1.1" 2%positive; demo_of "http://2.2.2.2" 7%positive].
Definition demo_table : Table :=
  mk_table {["ex.com" := [mk_route "ex.com" "/" None demo_targets demo_targets 1%positive]]} true None demo_targets.

Definition demo_heap : Heap := mk_heap 12%positive ∅ ∅ ∅ ∅.

Definition demo_proxy : ProxyState :=
  mk_proxy demo_table demo_heap (mk_options "prefix" "rr" true 404 0 0 1) (with_ttl 30 10) 1000000000 (mk_counters 0 0 0 0 0 0).

Definition demo_attempt (ex : Exchange) : Attempt :=
  mk_attempt 2 (fun _ => false) (fun _ _ => 0%nat) (fun a => if String.eqb a "1.1.1.1:80" then Ok [mk_sock (V4 (mk_v4 1 1 1 1)) 80] else Err NotFound)
    (fun _ => ex).
Definition demo_run : RequestRun := mk_run "ex.com" "/x" (fun _ => None) (demo_attempt (mk_exchange 200 None false 7)) [].

Definition demo_target : Target := demo_of "http://1.1.1.1" 2%positive.

Definition shared_in (r : Route) : Prop :=
  Forall (fun t => Forall (fun u => url t = url u -> health_tracker t = health_tracker u) (targets r ++ w_targets r)%list) (targets r ++ w_targets r)%list.

Lemma demo_shared : forall key r, r ∈ routes_of (px_table demo_proxy) key -> shared_trackers r.
Proof.
  assert (Hall : forall key r, r ∈ routes_of (px_table demo_proxy) key -> shared_in r).
  { intros key r Hr. refine (routes_of_forall (px_table demo_proxy) shared_in _ key r Hr). unfold shared_in.
    apply (bool_decide_unpack _). vm_compute. exact I. }
  intros key r Hr t u Ht Hu. specialize (Hall key r Hr). unfold shared_in in Hall. rewrite Forall_forall in Hall.
  specialize (Hall t ltac:(by apply elem_of_app)). rewrite Forall_forall in Hall. apply Hall. by apply elem_of_app.
Qed.

Lemma lookup_target_sound_complete_witness :
  url <$> (run (lookup_target (fun _ _ => 0%nat) "EX.com" "/x" Prefix "rr" true (fun _ => None)) demo_proxy).2 = Some "http://1.1.1.1"
  /\ lookup_answer true (fun _ => None) demo_proxy (matching_routes (px_table demo_proxy) "EX.com" "/x" Prefix)
       (run (lookup_target (fun _ _ => 0%nat) "EX.com" "/x" Prefix "rr" true (fun _ => None)) demo_proxy).2.
Proof.
  split; [vm_compute; reflexivity|].
  refine (lookup_target_sound_complete (fun _ _ => 0%nat) "EX.com" "/x" Prefix "rr" true (fun _ => None) demo_proxy _ demo_shared).
  intros i n Hn; exact Hn.
Defined.

(** The exchange over a reused connection fails and the framework tries again:
    the second selection overwrites the picked target, whose slot is never
    given back. *)
Definition retried_run : RequestRun :=
  mk_run "ex.com" "/x" (fun _ => None) (demo_attempt (mk_exchange 0 (Some OtherError) true 0)) [demo_attempt (mk_exchange 200 None false 7)].

Example retry_loses_a_slot :
  map (fun t => get_counter (active_connections t) (px_heap (run (serve_request retried_run) demo_proxy).1))
    (contents (routes (px_table demo_proxy)) "ex.com" "/") = [1; 0]
  /\ lost_slots (active_connections demo_target) (run (serve_request retried_run) demo_proxy).2 = 1%nat
  /\ map (fun t => get_counter (active_connections t) (px_heap (run (serve_request demo_run) demo_proxy).1))
    (contents (routes (px_table demo_proxy)) "ex.com" "/") = [0; 0].
Proof. vm_compute. split_and!; reflexivity. Qed.
