(* ===== verification/IpText.v ===== *)
(** * IpText: the characters of a textual IP address

    An address that [parse_ip] reads as IPv4 has dots and no colon, one that
    it reads as IPv6 has a colon; both are plain text. *)
From S2P Require Import Prelude RustStr StrFacts Net.
From Stdlib Require Import Ascii String.
Open Scope string_scope.
Open Scope Z_scope.

(** [s] is [t], all of whose characters satisfy [p], followed by [rest]. *)
Definition reads (p : ascii -> bool) (s t rest : string) : Prop := s = t ++ rest /\ str_all p t = true.

Definition v4_char (c : ascii) : bool := is_digit c || Ascii.eqb c "."%char.
Definition alnum (c : ascii) : bool := is_digit c || in_range 97 122 c || in_range 65 90 c.
Definition ip_char (c : ascii) : bool := alnum c || Ascii.eqb c "."%char || Ascii.eqb c ":"%char.

Lemma reads_nil p s : reads p s "" s.
Proof. by split. Qed.

Lemma reads_cons p c s t rest : p c = true -> reads p s t rest -> reads p (String c s) (String c t) rest.
Proof. intros Hc [-> Ht]. split; [by rewrite app_cons_s|]. cbn. by rewrite Hc. Qed.

Lemma reads_app p s t rest t' rest' : reads p s t rest -> reads p rest t' rest' -> reads p s (t ++ t') rest'.
Proof. intros [-> Ht] [-> Ht']. split; [by rewrite app_assoc_s|]. by rewrite str_all_app, Ht, Ht'. Qed.

Lemma reads_impl (p q : ascii -> bool) s t rest : (forall c, p c = true -> q c = true) -> reads p s t rest -> reads q s t rest.
Proof. intros Hpq [-> Ht]. split; [done|]. by eapply str_all_impl. Qed.

Lemma digit_of_char radix c d : digit_of radix c = Some d -> alnum c = true /\ (radix <= 10 -> is_digit c = true).
Proof.
  unfold digit_of, alnum, in_range. destruct (is_digit c) eqn:E; [done|].
  destruct ((97 <=? byte c) && _) eqn:E1; [|destruct ((65 <=? byte c) && _) eqn:E2; [|done]].
  - intros H. split; [done|]. destruct (byte c - 87 <? radix) eqn:E3; [|done]. bool_simpl. lia.
  - intros H. split; [done|]. destruct (byte c - 55 <? radix) eqn:E3; [|done]. bool_simpl. lia.
Qed.

Lemma read_digits_reads radix m n acc s v k rest p :
  (forall c d, digit_of radix c = Some d -> p c = true) ->
  read_digits radix m n acc s = Some (v, k, rest) -> exists t, reads p s t rest.
Proof.
  intros Hp. revert n acc. induction s as [|c s IH]; intros n acc H; cbn in H.
  - simplify_eq. exists "". apply reads_nil.
  - destruct (digit_of radix c) eqn:E; [|simplify_eq; exists ""; apply reads_nil].
    destruct (m <=? n)%nat; [done|]. destruct (IH _ _ H) as [t Ht]. exists (String c t). apply reads_cons; [by eapply Hp|done].
Qed.

Lemma read_number_reads radix m max z s v rest p :
  (forall c d, digit_of radix c = Some d -> p c = true) ->
  read_number radix m max z s = Some (v, rest) -> exists t, reads p s t rest.
Proof.
  intros Hp. unfold read_number. destruct (read_digits radix m 0 0 s) as [[[r k] rest']|] eqn:E; [|done].
  intros H. assert (rest' = rest) as <- by (repeat case_match; by simplify_eq). by eapply read_digits_reads.
Qed.

Lemma read_octet_reads s v rest : read_octet s = Some (v, rest) -> exists t, reads is_digit s t rest.
Proof. apply read_number_reads. intros c d H. by apply (digit_of_char 10 c d H). Qed.

Lemma read_separator_reads {A} (p : ascii -> bool) c i (inner : reader A) s a rest :
  p c = true -> (0 < i)%nat -> (forall s a rest, inner s = Some (a, rest) -> exists t, reads p s t rest) ->
  read_separator c i inner s = Some (a, rest) -> exists t, reads p s (String c t) rest.
Proof.
  intros Hc Hi Hinner. unfold read_separator, read_given_char. apply Nat.ltb_lt in Hi as ->.
  destruct s as [|b s]; [done|]. destruct (Ascii.eqb b c) eqn:E; [|done]. apply Ascii.eqb_eq in E as ->.
  intros H. destruct (Hinner _ _ _ H) as [t Ht]. exists t. by apply reads_cons.
Qed.

Lemma digit_v4 c : is_digit c = true -> v4_char c = true.
Proof. unfold v4_char. by intros ->. Qed.

Lemma v4_ip c : v4_char c = true -> ip_char c = true.
Proof. unfold v4_char, ip_char, alnum. intros [-> | ->]%orb_true_iff; by rewrite ?orb_true_r. Qed.

Lemma read_ipv4_reads s a rest :
  read_ipv4_addr s = Some (a, rest) -> exists t, reads v4_char s t rest /\ contains_char "." t = true.
Proof.
  assert (Hd : forall s a rest, read_octet s = Some (a, rest) -> exists t, reads v4_char s t rest).
  { intros ??? [t Ht]%read_octet_reads. exists t. eapply reads_impl; [apply digit_v4|done]. }
  unfold read_ipv4_addr. destruct (read_octet s) as [[x1 s1]|] eqn:E1; [|done].
  destruct (read_separator "." 1 _ s1) as [[x2 s2]|] eqn:E2; [|done].
  destruct (read_separator "." 2 _ s2) as [[x3 s3]|] eqn:E3; [|done].
  destruct (read_separator "." 3 _ s3) as [[x4 s4]|] eqn:E4; [|done]. intros [= <- <-].
  apply Hd in E1 as [t1 R1]. apply (read_separator_reads v4_char) in E2 as [t2 R2]; [|done|lia|done].
  apply (read_separator_reads v4_char) in E3 as [t3 R3]; [|done|lia|done].
  apply (read_separator_reads v4_char) in E4 as [t4 R4]; [|done|lia|done].
  exists (t1 ++ (String "." t2) ++ (String "." t3) ++ String "." t4). split.
  - repeat (eapply reads_app; [done|]). done.
  - clear. unfold contains_char. induction t1 as [|c t1 IH]; [done|]. rewrite app_cons_s. cbn. rewrite IH. by rewrite orb_true_r.
Qed.

(** The groups of an IPv6 address: a group that is not the first follows a
    colon. *)
Lemma read_groups_reads left i s gs v4 rest :
  read_groups left i s = (gs, v4, rest) ->
  exists t, reads ip_char s t rest /\ ((0 < i)%nat /\ gs <> [] \/ (2 < List.length gs)%nat -> contains_char ":" t = true).
Proof.
  revert i s gs v4 rest. induction left as [|left IH]; intros i s gs v4 rest H; cbn [read_groups] in H.
  { simplify_eq. exists "". split; [apply reads_nil|]. intros [[_ ?]|?]; [done|cbn in *; lia]. }
  assert (H4 : forall s a rest, read_ipv4_addr s = Some (a, rest) -> exists t, reads ip_char s t rest).
  { intros ??? (t & Ht & _)%read_ipv4_reads. exists t. eapply reads_impl; [apply v4_ip|done]. }
  assert (H6 : forall s a rest, read_number 16 4 65535 true s = Some (a, rest) -> exists t, reads ip_char s t rest).
  { intros s' a rest'. apply read_number_reads. intros c d Hd%digit_of_char. unfold ip_char. by destruct Hd as [-> _]. }
  destruct (if (0 <? left)%nat then _ else _) as [[a s']|] eqn:E4.
  - simplify_eq. destruct (0 <? left)%nat; [|done]. destruct i as [|i].
    + destruct (H4 _ _ _ E4) as [t Ht]. exists t. split; [done|]. intros [[? _]|?]; [lia|cbn in *; lia].
    + apply (read_separator_reads ip_char) in E4 as [t Ht]; [|done|lia|done]. by exists (String ":" t).
  - destruct (read_separator ":" i (read_number 16 4 65535 true) s) as [[g s']|] eqn:E6; [|simplify_eq; exists ""; split; [apply reads_nil|intros [[_ ?]|?]; [done|cbn in *; lia]]].
    destruct (read_groups left (S i) s') as [[gs' v4'] s''] eqn:Er. simplify_eq.
    destruct (IH _ _ _ _ _ Er) as (t' & Ht' & Hc').
    assert (exists t, reads ip_char s t s' /\ ((0 < i)%nat -> contains_char ":" t = true)) as (t & Ht & Hc).
    { destruct i as [|i].
      - destruct (H6 _ _ _ E6) as [t Ht]. exists t. split; [done|lia].
      - apply (read_separator_reads ip_char) in E6 as [t Ht]; [|done|lia|done]. by exists (String ":" t). }
    exists (t ++ t'). split; [by eapply reads_app|]. intros Hgs.
    assert (Happ : forall t t', contains_char ":" t = true \/ contains_char ":" t' = true -> contains_char ":" (t ++ t') = true).
    { clear. unfold contains_char. intros t t'. induction t as [|c t IH]; cbn [str_any]; [by intros [|]|].
      rewrite app_cons_s. cbn [str_any]. destruct (Ascii.eqb ":" c); [done|]. cbn. done. }
    apply Happ. destruct i as [|i]; [|left; apply Hc; lia]. right. apply Hc'. left. split; [lia|].
    destruct Hgs as [[? _]|Hgs]; [lia|]. destruct gs'; [cbn in *; lia|done].
Qed.

Lemma read_ipv6_reads s a rest :
  read_ipv6_addr s = Some (a, rest) -> exists t, reads ip_char s t rest /\ contains_char ":" t = true.
Proof.
  unfold read_ipv6_addr. destruct (read_groups 8 0 s) as [[head v4] s1] eqn:E1.
  apply read_groups_reads in E1 as (t & Ht & Hc).
  destruct (List.length head =? 8)%nat eqn:El.
  - intros [= <- <-]. exists t. split; [done|]. apply Hc. right. bool_simpl. lia.
  - destruct v4; [done|]. unfold read_given_char. destruct s1 as [|c1 s1]; [done|].
    destruct (Ascii.eqb c1 ":") eqn:Ec1; [|done]. apply Ascii.eqb_eq in Ec1 as ->.
    destruct s1 as [|c2 s1]; [done|]. destruct (Ascii.eqb c2 ":") eqn:Ec2; [|done]. apply Ascii.eqb_eq in Ec2 as ->.
    destruct (read_groups _ 0 s1) as [[tail v4] s4] eqn:E2. apply read_groups_reads in E2 as (t2 & Ht2 & _).
    intros [= <- <-]. exists (t ++ String ":" (String ":" t2)). split.
    + eapply reads_app; [done|]. apply reads_cons; [done|]. by apply reads_cons.
    + clear. unfold contains_char. induction t as [|c t IH]; [done|]. rewrite app_cons_s. cbn. rewrite IH. by rewrite orb_true_r.
Qed.

Lemma contains_all c p s : p c = false -> str_all p s = true -> contains_char c s = false.
Proof.
  intros Hc. unfold contains_char. induction s as [|a s IH]; cbn; [done|]. intros [Ha Hs]%andb_true_iff.
  rewrite IH by done. destruct (Ascii.eqb c a) eqn:E; [|done]. apply Ascii.eqb_eq in E as ->. congruence.
Qed.

Lemma parse_ip_text s ip :
  parse_ip s = Some ip ->
  s <> "" /\ str_all plain s = true
  /\ (contains_char "." s && negb (contains_char ":" s)) = match ip with V4 _ => true | V6 _ => false end.
Proof.
  assert (Hplain : forall c, ip_char c = true -> plain c = true).
  { intros c. unfold ip_char, alnum, plain, is_digit, in_range. intros H. apply andb_true_iff. rewrite !Z.leb_le.
    or_cases; bool_simpl; try lia; repeat match goal with X : Ascii.eqb _ _ = true |- _ => apply Ascii.eqb_eq in X as -> end; split; by vm_compute. }
  unfold parse_ip. destruct (read_ipv4_addr s) as [[a rest]|] eqn:E4.
  - apply read_ipv4_reads in E4 as (t & [-> Ht] & Hc). destruct rest; [|done]. intros [= <-].
    rewrite app_nil_r_s, Hc, (contains_all ":" v4_char) by done. split_and!; [by destruct t| |done].
    eapply str_all_impl; [|done]. intros c Hv. by apply Hplain, v4_ip.
  - destruct (read_ipv6_addr s) as [[a rest]|] eqn:E6; [|done].
    apply read_ipv6_reads in E6 as (t & [-> Ht] & Hc). destruct rest; [|done]. intros [= <-].
    rewrite app_nil_r_s, Hc, andb_false_r. split_and!; [by destruct t| |done]. by eapply str_all_impl.
Qed.
