(* ===== verification/Config.v ===== *)
(** * Config: durations, keepalive specifications and validation

    Models src/src/config (mod.rs, defaults.rs, parse.rs, validation.rs) and
    src/src/proxy/keepalive.rs. A [Duration] is its number of nanoseconds.
    The [OnceLock] behind [parsed_timeouts] caches a function of the
    configuration that holds it and has no state of its own here. The parser
    of header names is that of the crate [http]: a parameter. *)
From S2P Require Import Prelude RustStr StrFacts Net IpText.
From Stdlib Require Import String Ascii.
Open Scope string_scope.
Open Scope Z_scope.

(** ** The configuration *)

Definition Duration : Type := Z.
Definition from_millis (n : Z) : Duration := n * 1000000.
Definition from_secs (n : Z) : Duration := n * 1000000000.
(** [Duration::MAX] *)
Definition duration_max : Duration := 18446744073709551615 * 1000000000 + 999999999.

Record AdminUser := mk_admin_user { username : string; password : string }.

Record ServerConfig := mk_server {
  server_listen : string;
  admin_listen : string;
  admin_users : list AdminUser;
  admin_token : string;
  workers : Z;
  drain_timeout : string;
}.

Record ConsulConfig := mk_consul {
  address : string;
  scheme_ : string;
  token : string;
  kv_prefix : string;
  tag_prefix : string;
  poll_interval : string;
  service_discovery : bool;
  kv_watching : bool;
  service_whitelist : list string;
  service_blacklist : list string;
  graceful_shutdown : bool;
  include_warning : bool;
}.

Record ProxyConfig := mk_proxy_config {
  strategy : string;
  matcher : string;
  request_id_header : string;
  no_route_status : Z;
  connect_timeout : string;
  read_timeout : string;
  write_timeout : string;
  idle_timeout : string;
  enable_h2c : bool;
  upstream_h2_max_streams : Z;
  upstream_h2_ping_interval : string;
  pool_size : Z;
  dns_cache_ttl : Z;
  dns_negative_cache_ttl : Z;
  max_connections : Z;
  trusted_proxies : list string;
  circuit_breaker_enabled : bool;
  circuit_breaker_error_threshold : Z;
  circuit_breaker_window_size : Z;
  circuit_breaker_recovery_timeout : Z;
  circuit_breaker_half_open_max : Z;
  health_check_interval : string;
  health_check_timeout : string;
  health_check_fall : Z;
  health_check_rise : Z;
  rate_limit_per_target : Z;
  rate_limit_burst : Z;
  health_check_path : string;
  health_check_tls_skip_verify : bool;
  upstream_tcp_keepalive : string;
  upstream_user_timeout : string;
  downstream_tcp_keepalive : string;
  stream_read_timeout : string;
}.

Record LoggingConfig := mk_logging { level : string; format : string }.

Record TcpConfig := mk_tcp { tcp_mode : string; tcp_listen : string; refresh : string }.

Record TlsConfig := mk_tls {
  tls_source : string;
  cert_path : string;
  key_path : string;
  tls_listen : string;
  consul_cert_prefix : string;
  strict_sni : bool;
  require_initial_snapshot : bool;
  client_auth : string;
  client_ca_source : string;
  client_ca_path : string;
  client_ca_consul_prefix : string;
  client_ca_upgrade_cn : string;
  ocsp_stapling_enabled : bool;
  http2 : bool;
}.

Record Config := mk_config {
  server : ServerConfig;
  consul : ConsulConfig;
  proxy : ProxyConfig;
  logging : LoggingConfig;
  tls : TlsConfig;
  tls_listeners : list TlsConfig;
  tcp : TcpConfig;
}.

(** ** Defaults *)

Definition default_admin_listen : string := "127.0.0.1:9998".
Definition default_admin_token : string := "".
Definition default_admin_users : list AdminUser := [].
Definition default_drain_timeout : string := "30s".
Definition default_consul_address : string := "127.0.0.1:8500".
Definition default_consul_scheme : string := "http".
Definition default_kv_prefix : string := "/sentirum-lb/routes".
Definition default_tag_prefix : string := "urlprefix-".
Definition default_poll_interval : string := "0s".
Definition default_true : bool := true.
Definition default_dns_cache_ttl : Z := 30.
Definition default_dns_negative_cache_ttl : Z := 10.
Definition default_circuit_breaker_error_threshold : Z := 50.
Definition default_circuit_breaker_window_size : Z := 100.
Definition default_circuit_breaker_recovery_timeout : Z := 30.
Definition default_circuit_breaker_half_open_max : Z := 3.
Definition default_upstream_tcp_keepalive : string := "15s,5s,3".
Definition default_upstream_user_timeout : string := "30s".
Definition default_downstream_tcp_keepalive : string := "15s,5s,3".
Definition default_stream_read_timeout : string := "3600s".
Definition default_strategy : string := "round-robin".
Definition default_matcher : string := "prefix".
Definition default_request_id_header : string := "X-Request-ID".
Definition default_no_route_status : Z := 404.
Definition default_connect_timeout : string := "5s".
Definition default_read_timeout : string := "30s".
Definition default_write_timeout : string := "30s".
Definition default_idle_timeout : string := "120s".
Definition default_upstream_h2_max_streams : Z := 128.
Definition default_pool_size : Z := 128.
Definition default_max_connections : Z := 10000.
Definition default_health_check_interval : string := "15s".
Definition default_health_check_timeout : string := "5s".
Definition default_health_check_fall : Z := 3.
Definition default_health_check_rise : Z := 2.
Definition default_rate_limit_burst : Z := 100.
Definition default_health_check_path : string := "/".
Definition default_tcp_refresh : string := "5s".
Definition default_log_level : string := "info".
Definition default_log_format : string := "json".
Definition default_tls_consul_cert_prefix : string := "/fabio/cert".
Definition default_tls_http2 : bool := true.

(** The value serde gives to a configuration that sets no optional field. *)
Definition default_ConsulConfig : ConsulConfig :=
  mk_consul default_consul_address default_consul_scheme "" default_kv_prefix default_tag_prefix default_poll_interval default_true default_true
    [] [] default_true false.

Definition default_ServerConfig (listen : string) : ServerConfig :=
  mk_server listen default_admin_listen default_admin_users default_admin_token 0 default_drain_timeout.

Definition default_ProxyConfig : ProxyConfig :=
  mk_proxy_config default_strategy default_matcher default_request_id_header default_no_route_status default_connect_timeout
    default_read_timeout default_write_timeout default_idle_timeout false default_upstream_h2_max_streams "" default_pool_size
    default_dns_cache_ttl default_dns_negative_cache_ttl default_max_connections [] true default_circuit_breaker_error_threshold
    default_circuit_breaker_window_size default_circuit_breaker_recovery_timeout default_circuit_breaker_half_open_max
    default_health_check_interval default_health_check_timeout default_health_check_fall default_health_check_rise 0
    default_rate_limit_burst default_health_check_path false default_upstream_tcp_keepalive default_upstream_user_timeout
    default_downstream_tcp_keepalive default_stream_read_timeout.

Definition default_LoggingConfig : LoggingConfig := mk_logging default_log_level default_log_format.
Definition default_TcpConfig : TcpConfig := mk_tcp "" "" default_tcp_refresh.
Definition default_TlsConfig : TlsConfig :=
  mk_tls "" "" "" "" default_tls_consul_cert_prefix false false "" "" "" "" "" false true.

(** ** parse.rs *)

(** [u64::checked_mul] *)
Definition checked_mul (a b : Z) : option Z := if a * b <=? u64_max then Some (a * b) else None.

Definition parse_optional_duration (s : string) : option Duration :=
  let s := trim s in
  if is_empty s then None
  else if ends_with "ms" s then from_millis <$> parse_u64 (trim_end_str "ms" s)
  else if ends_with "s" s then from_secs <$> parse_u64 (trim_end_char "s"%char s)
  else if ends_with "m" s then
    m ← parse_u64 (trim_end_char "m"%char s); from_secs <$> checked_mul m 60
  else if ends_with "h" s then
    h ← parse_u64 (trim_end_char "h"%char s); from_secs <$> checked_mul h 3600
  else None.

Definition parse_duration (s : string) : Duration :=
  match parse_optional_duration (trim s) with Some d => d | None => 0 end.

Record ParsedKeepalive := mk_keepalive { idle : Duration; interval : Duration; count : Z; user_timeout : Duration }.

Definition ParsedKeepalive_parse (spec user_timeout : string) : option ParsedKeepalive :=
  let spec := trim spec in
  if is_empty spec then None
  else
    match map trim (split_on ","%char spec) with
    | [p0; p1; p2] =>
        match parse_optional_duration p0, parse_optional_duration p1, parse_usize p2 with
        | Some idle, Some interval, Some count =>
            if 0 <? count
            then Some (mk_keepalive idle interval count
                         (match parse_optional_duration user_timeout with Some d => d | None => 0 end))
            else None
        | _, _, _ => None
        end
    | _ => None
    end.

Record ParsedProxyTimeouts := mk_timeouts {
  connect : Duration;
  read : Duration;
  write : Duration;
  idle_ : Duration;
  h2_ping_interval : option Duration;
  stream_read : option Duration;
  upstream_keepalive : option ParsedKeepalive;
  downstream_keepalive : option ParsedKeepalive;
}.

Definition from_proxy_config (cfg : ProxyConfig) : ParsedProxyTimeouts :=
  mk_timeouts (parse_duration (connect_timeout cfg)) (parse_duration (read_timeout cfg)) (parse_duration (write_timeout cfg))
    (parse_duration (idle_timeout cfg)) (parse_optional_duration (upstream_h2_ping_interval cfg))
    (parse_optional_duration (stream_read_timeout cfg))
    (ParsedKeepalive_parse (upstream_tcp_keepalive cfg) (upstream_user_timeout cfg))
    (ParsedKeepalive_parse (downstream_tcp_keepalive cfg) "").

Definition parsed_timeouts (self : Config) : ParsedProxyTimeouts := from_proxy_config (proxy self).

(** ** keepalive.rs (Linux) *)

(** Pingora's [TcpKeepalive] and the field of [TcpSocketOptions] that is
    set. *)
Record TcpKeepalive := mk_tcp_keepalive { ka_idle : Duration; ka_interval : Duration; ka_count : Z; ka_user_timeout : Duration }.

Definition to_pingora (ka : ParsedKeepalive) : TcpKeepalive :=
  mk_tcp_keepalive (idle ka) (interval ka) (count ka) (user_timeout ka).

Definition downstream_socket_options (config : Config) : option (option TcpKeepalive) :=
  ka ← downstream_keepalive (parsed_timeouts config); Some (Some (to_pingora ka)).

(** ** validation.rs *)



Definition push (e : string) (errors : list string) : list string := (errors ++ [e])%list.
Definition push_if (b : bool) (e : string) (errors : list string) : list string := if b then push e errors else errors.

Definition is_none_or {A} (p : A -> bool) (o : option A) : bool := match o with Some a => p a | None => true end.
Definition is_zero (d : Duration) : bool := d =? 0.

Definition validate_duration_field (name value : string) (allow_zero : bool) (errors : list string) : list string :=
  let trimmed := trim value in
  if is_empty trimmed then push (name ++ " must not be empty") errors
  else
    match parse_optional_duration trimmed with
    | Some duration =>
        if allow_zero || negb (is_zero duration) then errors
        else push (name ++ " must be > 0, got " ++ trimmed) errors
    | None => push (name ++ " has invalid duration '" ++ trimmed ++ "' (expected e.g. 150ms, 5s, 2m)") errors
    end.

Definition validate_keepalive_field (name value : string) (errors : list string) : list string :=
  let trimmed := trim value in
  if is_empty trimmed then errors
  else
    match map trim (split_on ","%char trimmed) with
    | [p0; p1; p2] =>
        push_if (is_none_or (fun c => negb (0 <? c)) (parse_usize p2)) (name ++ " count must be a positive integer, got '" ++ p2 ++ "'")
        (push_if (is_none_or is_zero (parse_optional_duration p1)) (name ++ " interval must be a positive duration, got '" ++ p1 ++ "'")
        (push_if (is_none_or is_zero (parse_optional_duration p0)) (name ++ " idle must be a positive duration, got '" ++ p0 ++ "'") errors))
    | _ => push (name ++ " must be 'idle,interval,count' (e.g. '15s,5s,3') or empty, got '" ++ trimmed ++ "'") errors
    end.

Definition validate_cidr (cidr : string) : result unit string :=
  let cidr := trim cidr in
  if is_empty cidr then Err "empty CIDR"
  else
    match split_once "/"%char cidr with
    | None => Err ("CIDR '" ++ cidr ++ "' missing '/' separator")
    | Some (ip, prefix_str) =>
        match parse_ip ip with
        | None => Err ("invalid IP '" ++ ip ++ "': invalid IP address syntax")
        | Some _ =>
            match parse_u8 prefix_str with
            | None => Err ("prefix '" ++ prefix_str ++ "' not a number")
            | Some prefix =>
                let ip_is_v4 := contains_char "."%char ip && negb (contains_char ":"%char ip) in
                let max_prefix := if ip_is_v4 then 32 else 128 in
                if max_prefix <? prefix
                then Err ("prefix " ++ show_uint prefix ++ " > " ++ show_uint max_prefix ++ " for " ++ (if ip_is_v4 then "IPv4" else "IPv6"))
                else Ok tt
            end
        end
    end.

(** [str::parse::<http::header::HeaderName>()] succeeds. *)
Class HeaderNames := header_name_ok : string -> bool.

Definition one_of (s : string) (l : list string) : bool := existsb (String.eqb s) l.

Definition validate_durations (self : Config) (errors : list string) : list string :=
  let p := proxy self in
  let optional name value errors := if negb (is_empty (trim value)) then validate_duration_field name value true errors else errors in
  let errors := validate_duration_field "server.drain_timeout" (drain_timeout (server self)) false errors in
  let errors := validate_duration_field "consul.poll_interval" (poll_interval (consul self)) true errors in
  let errors := validate_duration_field "proxy.connect_timeout" (connect_timeout p) true errors in
  let errors := validate_duration_field "proxy.read_timeout" (read_timeout p) true errors in
  let errors := validate_duration_field "proxy.write_timeout" (write_timeout p) true errors in
  let errors := validate_duration_field "proxy.idle_timeout" (idle_timeout p) true errors in
  let errors := optional "proxy.upstream_h2_ping_interval" (upstream_h2_ping_interval p) errors in
  let errors := validate_duration_field "proxy.health_check_interval" (health_check_interval p) true errors in
  let errors := validate_duration_field "proxy.health_check_timeout" (health_check_timeout p) true errors in
  let errors := validate_duration_field "tcp.refresh" (refresh (tcp self)) false errors in
  let errors := optional "proxy.stream_read_timeout" (stream_read_timeout p) errors in
  let errors := optional "proxy.upstream_user_timeout" (upstream_user_timeout p) errors in
  let errors := validate_keepalive_field "proxy.upstream_tcp_keepalive" (upstream_tcp_keepalive p) errors in
  validate_keepalive_field "proxy.downstream_tcp_keepalive" (downstream_tcp_keepalive p) errors.

Section validate.
Context {N : HeaderNames}.

Definition validate_proxy_fields (p : ProxyConfig) (errors : list string) : list string :=
  let errors := push_if (negb (one_of (matcher p) [""; "prefix"; "iprefix"; "glob"; "exact"]))
    ("proxy.matcher must be one of prefix|iprefix|glob|exact, got '" ++ matcher p ++ "'") errors in
  let errors := push_if (negb (one_of (strategy p) [""; "round-robin"; "rr"; "random"; "rnd"; "least-connections"; "lc"]))
    ("proxy.strategy must be one of round-robin|random|least-connections, got '" ++ strategy p ++ "'") errors in
  let errors := push_if (health_check_rise p =? 0) "proxy.health_check_rise must be >= 1" errors in
  let errors := push_if (health_check_fall p =? 0) "proxy.health_check_fall must be >= 1" errors in
  let errors := push_if (negb ((100 <=? no_route_status p) && (no_route_status p <=? 599)))
    ("proxy.no_route_status must be a valid HTTP status (100-599), got " ++ show_uint (no_route_status p)) errors in
  push_if (negb (is_empty (request_id_header p)) && negb (header_name_ok (request_id_header p)))
    ("proxy.request_id_header is not a valid HTTP header name: '" ++ request_id_header p ++ "'") errors.

Definition validate_limits (p : ProxyConfig) (errors : list string) : list string :=
  let errors := push_if (100 <? circuit_breaker_error_threshold p)
    ("circuit_breaker_error_threshold must be 0-100, got " ++ show_uint (circuit_breaker_error_threshold p)) errors in
  let errors := push_if (circuit_breaker_window_size p =? 0) "circuit_breaker_window_size must be > 0" errors in
  let errors := push_if (circuit_breaker_recovery_timeout p =? 0) "circuit_breaker_recovery_timeout must be > 0" errors in
  let errors := push_if (circuit_breaker_half_open_max p =? 0) "circuit_breaker_half_open_max must be > 0" errors in
  let errors := push_if (3600 <? dns_cache_ttl p)
    ("dns_cache_ttl should be <= 3600 (1 hour), got " ++ show_uint (dns_cache_ttl p) ++ " seconds") errors in
  push_if (300 <? dns_negative_cache_ttl p)
    ("dns_negative_cache_ttl should be <= 300 (5 min), got " ++ show_uint (dns_negative_cache_ttl p) ++ " seconds") errors.

Definition validate_cidrs (l : list string) (errors : list string) : list string :=
  fold_left (fun errors cidr =>
    match validate_cidr cidr with Err e => push ("Invalid CIDR '" ++ cidr ++ "': " ++ e) errors | Ok _ => errors end) l errors.

Definition validate_health_path (path : string) (errors : list string) : list string :=
  let errors := push_if (negb (starts_with "/" path)) ("health_check_path must start with '/', got '" ++ path ++ "'") errors in
  push_if (str_contains ".." path) ("health_check_path must not contain '..' (path traversal), got '" ++ path ++ "'") errors.

(** The checks [\[tls\]] and every additional listener share. *)
Definition validate_tls_fields (cert_error key_error : string) (t : TlsConfig) (errors : list string) : list string :=
  let errors := push_if (String.eqb (tls_source t) "file" && is_empty (cert_path t)) cert_error errors in
  push_if (String.eqb (tls_source t) "file" && is_empty (key_path t)) key_error errors.

Definition prefix_bad (t : TlsConfig) : bool := negb (is_empty (consul_cert_prefix t)) && negb (starts_with "/" (consul_cert_prefix t)).
Definition client_auth_bad (t : TlsConfig) : bool :=
  negb (is_empty (client_auth t)) && negb (String.eqb (client_auth t) "optional") && negb (String.eqb (client_auth t) "required").

Definition validate_tls (t : TlsConfig) (errors : list string) : list string :=
  let errors := validate_tls_fields "tls.cert_path required when tls.source='file'" "tls.key_path required when tls.source='file'" t errors in
  let errors := push_if (prefix_bad t) "tls.consul_cert_prefix must start with '/'" errors in
  push_if (client_auth_bad t) "tls.client_auth must be 'optional', 'required', or empty" errors.

(** Listener [i], [prev] the listeners before it. *)
Definition validate_listener (primary : TlsConfig) (prev : list TlsConfig) (i : nat) (listener : TlsConfig) (errors : list string) : list string :=
  let tag := "tls_listeners[" ++ show_uint (Z.of_nat i) ++ "]" in
  let errors := push_if (is_empty (trim (tls_listen listener))) (tag ++ ".listen is required for additional TLS listeners") errors in
  let errors := validate_tls_fields (tag ++ ".cert_path required when " ++ tag ++ ".source='file'")
    (tag ++ ".key_path required when " ++ tag ++ ".source='file'") listener errors in
  let errors := push_if (client_auth_bad listener) (tag ++ ".client_auth must be 'optional', 'required', or empty") errors in
  let errors := push_if (prefix_bad listener) (tag ++ ".consul_cert_prefix must start with '/'") errors in
  let errors := push_if (String.eqb (tls_listen listener) (tls_listen primary))
    (tag ++ ".listen '" ++ tls_listen listener ++ "' conflicts with primary [tls].listen") errors in
  foldl (fun errors jp => push_if (String.eqb (tls_listen listener) (tls_listen jp.2))
    (tag ++ ".listen '" ++ tls_listen listener ++ "' conflicts with tls_listeners[" ++ show_uint (Z.of_nat jp.1) ++ "].listen") errors)
    errors (imap pair prev).

Fixpoint validate_listeners (primary : TlsConfig) (prev rest : list TlsConfig) (errors : list string) : list string :=
  match rest with
  | [] => errors
  | l :: rest => validate_listeners primary (prev ++ [l])%list rest (validate_listener primary prev (List.length prev) l errors)
  end.

Definition validate (self : Config) : option string :=
  let errors := validate_durations self [] in
  let errors := validate_proxy_fields (proxy self) errors in
  let errors := validate_limits (proxy self) errors in
  let errors := validate_cidrs (trusted_proxies (proxy self)) errors in
  let errors := validate_health_path (health_check_path (proxy self)) errors in
  let errors := validate_tls (tls self) errors in
  let errors := validate_listeners (tls self) [] (tls_listeners self) errors in
  let errors := push_if (256 <? workers (server self))
    ("workers should be <= 256, got " ++ show_uint (workers (server self)) ++ " (consider 0 for auto)") errors in
  let errors := push_if (1000 <? upstream_h2_max_streams (proxy self))
    ("upstream_h2_max_streams should be <= 1000, got " ++ show_uint (upstream_h2_max_streams (proxy self))) errors in
  match errors with [] => None | _ => Some (str_join "; " errors) end.
End validate.

(** ** Durations *)

Lemma parse_digits_le max acc s z : acc <= max -> parse_digits max acc s = Some z -> z <= max.
Proof.
  revert acc. induction s as [|c s IH]; intros acc Hacc H; cbn in H; [by simplify_eq|].
  destruct (is_digit c); [|done]. destruct (_ <=? max) eqn:E; [|done]. bool_simpl. by apply IH in H.
Qed.

Lemma parse_u64_range s z : parse_u64 s = Some z -> 0 <= z <= u64_max.
Proof.
  intros H. split; [by apply parse_u64_nonneg in H|]. unfold parse_u64, parse_uint in H.
  destruct s as [|c s]; [done|].
  assert (exists s', parse_digits u64_max 0 s' = Some z) as [s' Hs'] by (repeat case_match; try done; eauto).
  eapply parse_digits_le; [|done]. unfold u64_max. lia.
Qed.

Lemma parse_duration_range s d : parse_optional_duration s = Some d -> 0 <= d <= from_secs u64_max.
Proof.
  unfold parse_optional_duration, from_millis, from_secs, checked_mul. intros H.
  repeat (case_match || (apply bind_Some in H as (? & ?%parse_u64_range & H))); try done; simplify_option_eq;
    repeat match goal with X : parse_u64 _ = Some _ |- _ => apply parse_u64_range in X end; bool_simpl; lia.
Qed.

(** A parsed duration always fits the 64-bit seconds of Rust's [Duration]:
    the conversions of the parser cannot overflow. *)
Theorem duration_bounds s d : parse_optional_duration s = Some d -> 0 <= d <= from_secs u64_max.
Proof. apply parse_duration_range. Qed.

Lemma duration_bounds_witness : parse_optional_duration "18446744073709551615s" = Some 18446744073709551615000000000 /\ 0 <= 18446744073709551615000000000 <= from_secs u64_max.
Proof. split; [reflexivity|]. apply (duration_bounds "18446744073709551615s"). reflexivity. Defined.

(** ** Printing and parsing a duration *)

Lemma ends_with_last c d t s : c <> d -> ends_with (t ++ String c "") (s ++ String d "") = false.
Proof.
  intros Hne. unfold ends_with. destruct (strip_suffix _ _) as [u|] eqn:E; [|done].
  apply strip_suffix_some in E. rewrite <- app_assoc_s in E. by apply str_app_inv_tail in E as [_ ->].
Qed.

Lemma trim_number n u : str_all plain u = true -> trim (show_uint n ++ u) = show_uint n ++ u.
Proof. intros Hu. apply trim_plain. by rewrite str_all_app, show_uint_plain, Hu. Qed.

Lemma number_nonempty n u : is_empty (show_uint n ++ u) = false.
Proof. pose proof (show_uint_nonempty n). by destruct (show_uint n). Qed.

(** A number followed by one of the units, as the parser sees it. *)
Lemma parse_number_unit n c :
  0 <= n <= u64_max -> is_digit c = false -> plain c = true -> c <> "s"%char ->
  parse_optional_duration (show_uint n ++ String c "") =
    (if Ascii.eqb c "m" then from_secs <$> checked_mul n 60
     else if Ascii.eqb c "h" then from_secs <$> checked_mul n 3600 else None)
  /\ parse_optional_duration (show_uint n ++ "s") = Some (from_secs n)
  /\ parse_optional_duration (show_uint n ++ "ms") = Some (from_millis n).
Proof.
  intros Hn Hd Hp Hs. pose proof (show_uint_digits n) as Hdig.
  assert (Hparse : forall u, parse_u64 (trim_end_char u (show_uint n ++ String u "")) = Some n \/ is_digit u = true).
  { intros u. destruct (is_digit u) eqn:Hu; [by right|left]. rewrite (trim_end_char_all is_digit) by done. by apply parse_show_uint. }
  unfold parse_optional_duration. rewrite !trim_number, !number_nonempty by (done || by cbn; rewrite Hp).
  split_and!.
  - rewrite (ends_with_last "s" c "m"), (ends_with_last "s" c "") by done.
    destruct (Ascii.eqb c "m") eqn:Em; [apply Ascii.eqb_eq in Em as ->|].
    { rewrite ends_with_app. by destruct (Hparse "m"%char) as [->|]. }
    apply Ascii.eqb_neq in Em. rewrite (ends_with_last "m" c "") by done.
    destruct (Ascii.eqb c "h") eqn:Eh; [apply Ascii.eqb_eq in Eh as ->|].
    { rewrite ends_with_app. by destruct (Hparse "h"%char) as [->|]. }
    apply Ascii.eqb_neq in Eh. by rewrite (ends_with_last "h" c "").
  - assert (ends_with "ms" (show_uint n ++ "s") = false) as ->.
    { unfold ends_with. destruct (strip_suffix _ _) as [u|] eqn:E; [|done]. apply strip_suffix_some in E.
      change "ms" with ("m" ++ "s") in E. rewrite <- app_assoc_s in E. apply str_app_inv_tail in E as [E _].
      rewrite E, str_all_app in Hdig. by rewrite andb_false_r in Hdig. }
    rewrite ends_with_app. by destruct (Hparse "s"%char) as [->|].
  - rewrite ends_with_app, trim_end_str_once; [|done|].
    + by unfold parse_u64; rewrite parse_show_uint.
    + by apply (ends_with_all is_digit "s" _ "m").
Qed.

(** Durations round trip: a number of milliseconds, seconds, minutes or
    hours printed with its unit parses to that duration, provided that it
    fits 64 bits of seconds, and is refused otherwise. *)
Theorem duration_roundtrip n :
  0 <= n <= u64_max ->
  parse_optional_duration (show_uint n ++ "ms") = Some (from_millis n)
  /\ parse_optional_duration (show_uint n ++ "s") = Some (from_secs n)
  /\ parse_optional_duration (show_uint n ++ "m") = (if n * 60 <=? u64_max then Some (from_secs (n * 60)) else None)
  /\ parse_optional_duration (show_uint n ++ "h") = (if n * 3600 <=? u64_max then Some (from_secs (n * 3600)) else None).
Proof.
  intros Hn. destruct (parse_number_unit n "m" Hn) as (Hm & Hs & Hms); [done..|].
  destruct (parse_number_unit n "h" Hn) as (Hh & _); [done..|].
  rewrite Hm, Hs, Hms, Hh. unfold checked_mul. split_and!; [done|done| |]; cbn [Ascii.eqb Bool.eqb]; by destruct (_ <=? _).
Qed.

Lemma duration_roundtrip_witness :
  parse_optional_duration "150ms" = Some 150000000 /\ parse_optional_duration (show_uint 150 ++ "ms") = Some (from_millis 150).
Proof. split; [reflexivity|]. apply (duration_roundtrip 150). unfold u64_max. lia. Defined.

(** ** Validation *)

(** A field that must hold a duration, and a positive one unless
    [allow_zero]. *)
Definition duration_ok (allow_zero : bool) (value : string) : Prop :=
  exists d, parse_optional_duration value = Some d /\ (allow_zero = false -> 0 < d).

Definition optional_duration_ok (value : string) : Prop := trim value = "" \/ duration_ok true value.

Definition keepalive_ok (value : string) : Prop :=
  trim value = "" \/
  exists p0 p1 p2 d0 d1 n, map trim (split_on ","%char (trim value)) = [p0; p1; p2]
    /\ parse_optional_duration p0 = Some d0 /\ 0 < d0 /\ parse_optional_duration p1 = Some d1 /\ 0 < d1
    /\ parse_usize p2 = Some n /\ 0 < n.

Definition tls_fields_ok (t : TlsConfig) : Prop :=
  (tls_source t = "file" -> cert_path t <> "" /\ key_path t <> "")
  /\ client_auth t ∈ [""; "optional"; "required"]
  /\ (consul_cert_prefix t = "" \/ starts_with "/" (consul_cert_prefix t) = true).

(** What a configuration must satisfy. *)
Record config_valid `{HeaderNames} (c : Config) : Prop := {
  cv_positive : Forall (duration_ok false) [drain_timeout (server c); refresh (tcp c)];
  cv_durations : Forall (duration_ok true)
    [poll_interval (consul c); connect_timeout (proxy c); read_timeout (proxy c); write_timeout (proxy c); idle_timeout (proxy c);
     health_check_interval (proxy c); health_check_timeout (proxy c)];
  cv_optional : Forall optional_duration_ok
    [upstream_h2_ping_interval (proxy c); stream_read_timeout (proxy c); upstream_user_timeout (proxy c)];
  cv_keepalive : Forall keepalive_ok [upstream_tcp_keepalive (proxy c); downstream_tcp_keepalive (proxy c)];
  cv_matcher : matcher (proxy c) ∈ [""; "prefix"; "iprefix"; "glob"; "exact"];
  cv_strategy : strategy (proxy c) ∈ [""; "round-robin"; "rr"; "random"; "rnd"; "least-connections"; "lc"];
  cv_nonzero : Forall (fun z => z <> 0)
    [health_check_rise (proxy c); health_check_fall (proxy c); circuit_breaker_window_size (proxy c);
     circuit_breaker_recovery_timeout (proxy c); circuit_breaker_half_open_max (proxy c)];
  cv_status : 100 <= no_route_status (proxy c) <= 599;
  cv_header : request_id_header (proxy c) = "" \/ header_name_ok (request_id_header (proxy c)) = true;
  cv_bounds : Forall (fun vb : Z * Z => vb.1 <= vb.2)
    [(circuit_breaker_error_threshold (proxy c), 100); (dns_cache_ttl (proxy c), 3600); (dns_negative_cache_ttl (proxy c), 300);
     (workers (server c), 256); (upstream_h2_max_streams (proxy c), 1000)];
  cv_cidrs : Forall (fun s => validate_cidr s = Ok tt) (trusted_proxies (proxy c));
  cv_path : starts_with "/" (health_check_path (proxy c)) = true /\ str_contains ".." (health_check_path (proxy c)) = false;
  cv_tls : Forall tls_fields_ok (tls c :: tls_listeners c);
  cv_listen : Forall (fun t => trim (tls_listen t) <> "") (tls_listeners c);
  cv_distinct : Forall (fun t => tls_listen t <> tls_listen (tls c)) (tls_listeners c) /\ NoDup (map tls_listen (tls_listeners c));
}.

(** Each check adds no error exactly when its field is acceptable. *)
Lemma push_if_nil b e errors : push_if b e errors = [] <-> errors = [] /\ b = false.
Proof.
  unfold push_if, push. destruct b; split; try naive_solver.
  - by intros []%app_nil.
Qed.

Lemma push_not_nil e errors : push e errors = [] <-> False.
Proof. unfold push. split; [by intros []%app_nil|done]. Qed.

Lemma validate_duration_field_nil name value allow_zero errors :
  validate_duration_field name value allow_zero errors = [] <-> errors = [] /\ duration_ok allow_zero value.
Proof.
  unfold validate_duration_field, duration_ok.
  assert (Htrim : parse_optional_duration (trim value) = parse_optional_duration value)
    by (unfold parse_optional_duration; by rewrite trim_idempotent).
  destruct (is_empty (trim value)) eqn:E.
  - rewrite push_not_nil. split; [done|]. intros (_ & d & Hd & _). unfold parse_optional_duration in Hd. by rewrite E in Hd.
  - rewrite Htrim. destruct (parse_optional_duration value) as [d|] eqn:Ed; [|rewrite push_not_nil; naive_solver].
    unfold is_zero. destruct allow_zero; cbn [orb].
    + split; [|tauto]. intros ->. split; [done|]. exists d. naive_solver.
    + destruct (d =? 0) eqn:Ez; cbn [negb].
      * rewrite push_not_nil. bool_simpl. split; [done|]. intros (_ & d' & [= <-] & Hp). specialize (Hp eq_refl). lia.
      * split; [|tauto]. intros ->. split; [done|]. exists d. split; [done|]. intros _. bool_simpl.
        apply parse_duration_range in Ed. lia.
Qed.

Lemma validate_optional_nil name value errors :
  (if negb (is_empty (trim value)) then validate_duration_field name value true errors else errors) = []
  <-> errors = [] /\ optional_duration_ok value.
Proof.
  unfold optional_duration_ok. destruct (is_empty (trim value)) eqn:E; cbn [negb].
  - apply is_empty_spec in E. tauto.
  - rewrite validate_duration_field_nil. split; [tauto|]. intros (-> & [H|H]); [by rewrite H in E|done].
Qed.

Lemma positive_field {A} (p : A -> Z) (o : option A) :
  is_none_or (fun a => negb (0 <? p a)) o = false <-> exists a, o = Some a /\ 0 < p a.
Proof.
  destruct o as [a|]; cbn; [|naive_solver]. rewrite negb_false_iff, Z.ltb_lt. split; [eauto|]. by intros (? & [= ->] & ?).
Qed.

Lemma positive_duration_field s :
  is_none_or is_zero (parse_optional_duration s) = false <-> exists d, parse_optional_duration s = Some d /\ 0 < d.
Proof.
  destruct (parse_optional_duration s) as [d|] eqn:E; cbn; [|naive_solver]. apply parse_duration_range in E.
  unfold is_zero. rewrite Z.eqb_neq. split; [intros; exists d; split; [done|lia]|]. intros (? & [= <-] & ?). lia.
Qed.

Lemma validate_keepalive_field_nil name value errors :
  validate_keepalive_field name value errors = [] <-> errors = [] /\ keepalive_ok value.
Proof.
  unfold validate_keepalive_field, keepalive_ok. destruct (is_empty (trim value)) eqn:E.
  { apply is_empty_spec in E. tauto. }
  assert (Hne : trim value <> "") by (intros H; by rewrite H in E).
  destruct (map trim (split_on ","%char (trim value))) as [|p0 [|p1 [|p2 [|p3 l]]]] eqn:El;
    try (rewrite push_not_nil; split; [done|]; intros (_ & [?|(?&?&?&?&?&?&Hp&_)]); [done|discriminate Hp]).
  rewrite !push_if_nil, !positive_duration_field, (positive_field (fun c => c)). split.
  - intros (((-> & (d0 & Hd0)) & (d1 & Hd1)) & (n & Hn)). split; [done|]. right. exists p0, p1, p2, d0, d1, n. naive_solver.
  - intros (-> & [?|(q0 & q1 & q2 & d0 & d1 & n & Hq & Hd)]); [done|]. injection Hq as <- <- <-. naive_solver.
Qed.

Lemma one_of_false s l : negb (one_of s l) = false <-> s ∈ l.
Proof.
  unfold one_of. rewrite negb_false_iff, existsb_exists. split.
  - intros (x & Hx & E). apply String.eqb_eq in E as ->. by apply list_elem_of_In.
  - intros H. exists s. split; [by apply list_elem_of_In|apply String.eqb_refl].
Qed.

Lemma validate_durations_nil c :
  validate_durations c [] = [] <->
    Forall (duration_ok false) [drain_timeout (server c); refresh (tcp c)]
    /\ Forall (duration_ok true)
        [poll_interval (consul c); connect_timeout (proxy c); read_timeout (proxy c); write_timeout (proxy c); idle_timeout (proxy c);
         health_check_interval (proxy c); health_check_timeout (proxy c)]
    /\ Forall optional_duration_ok [upstream_h2_ping_interval (proxy c); stream_read_timeout (proxy c); upstream_user_timeout (proxy c)]
    /\ Forall keepalive_ok [upstream_tcp_keepalive (proxy c); downstream_tcp_keepalive (proxy c)].
Proof.
  unfold validate_durations. cbv zeta. rewrite !validate_keepalive_field_nil.
  repeat (rewrite validate_optional_nil || rewrite validate_duration_field_nil). rewrite !Forall_cons, !Forall_nil. tauto.
Qed.

Section validation.
Context {N : HeaderNames}.

Lemma validate_proxy_fields_nil p errors :
  validate_proxy_fields p errors = [] <->
    errors = [] /\ matcher p ∈ [""; "prefix"; "iprefix"; "glob"; "exact"]
    /\ strategy p ∈ [""; "round-robin"; "rr"; "random"; "rnd"; "least-connections"; "lc"]
    /\ health_check_rise p <> 0 /\ health_check_fall p <> 0 /\ 100 <= no_route_status p <= 599
    /\ (request_id_header p = "" \/ header_name_ok (request_id_header p) = true).
Proof.
  unfold validate_proxy_fields. cbv zeta. rewrite !push_if_nil, !one_of_false, !Z.eqb_neq, negb_false_iff, andb_true_iff, !Z.leb_le.
  rewrite andb_false_iff, !negb_false_iff, is_empty_spec. tauto.
Qed.

Lemma validate_limits_nil p errors :
  validate_limits p errors = [] <->
    errors = [] /\ circuit_breaker_error_threshold p <= 100 /\ circuit_breaker_window_size p <> 0
    /\ circuit_breaker_recovery_timeout p <> 0 /\ circuit_breaker_half_open_max p <> 0
    /\ dns_cache_ttl p <= 3600 /\ dns_negative_cache_ttl p <= 300.
Proof. unfold validate_limits. cbv zeta. rewrite !push_if_nil, !Z.eqb_neq, !Z.ltb_ge. tauto. Qed.

Lemma validate_cidrs_nil l errors :
  validate_cidrs l errors = [] <-> errors = [] /\ Forall (fun s => validate_cidr s = Ok tt) l.
Proof.
  unfold validate_cidrs. revert errors. induction l as [|s l IH]; intros errors; cbn [fold_left].
  - rewrite Forall_nil. tauto.
  - rewrite IH, Forall_cons. destruct (validate_cidr s) as [[]|e]; [tauto|]. rewrite push_not_nil. naive_solver.
Qed.

Lemma validate_health_path_nil path errors :
  validate_health_path path errors = [] <-> errors = [] /\ starts_with "/" path = true /\ str_contains ".." path = false.
Proof. unfold validate_health_path. cbv zeta. rewrite !push_if_nil, negb_false_iff. tauto. Qed.

(** The checks of one TLS section. *)
Lemma tls_checks t :
  (String.eqb (tls_source t) "file" && is_empty (cert_path t) = false /\ String.eqb (tls_source t) "file" && is_empty (key_path t) = false)
  /\ client_auth_bad t = false /\ prefix_bad t = false <-> tls_fields_ok t.
Proof.
  unfold tls_fields_ok, client_auth_bad, prefix_bad.
  rewrite !andb_false_iff, !negb_false_iff, !String.eqb_neq, !is_empty_spec, !elem_of_cons, elem_of_nil, !String.eqb_eq.
  rewrite !is_empty_false.
  destruct (decide (tls_source t = "file")); tauto.
Qed.

Lemma validate_tls_nil t errors : validate_tls t errors = [] <-> errors = [] /\ tls_fields_ok t.
Proof. unfold validate_tls, validate_tls_fields. cbv zeta. rewrite !push_if_nil, <- tls_checks. tauto. Qed.

Lemma push_all_nil {A} (b : A -> bool) (e : A -> string) l errors :
  foldl (fun errors a => push_if (b a) (e a) errors) errors l = [] <-> errors = [] /\ Forall (fun a => b a = false) l.
Proof.
  revert errors. induction l as [|a l IH]; intros errors; cbn [foldl]; [rewrite Forall_nil; tauto|].
  rewrite IH, push_if_nil, Forall_cons. tauto.
Qed.

Lemma validate_listener_nil primary prev i l errors :
  validate_listener primary prev i l errors = [] <->
    errors = [] /\ tls_fields_ok l /\ trim (tls_listen l) <> "" /\ tls_listen l <> tls_listen primary
    /\ tls_listen l ∉ map tls_listen prev.
Proof.
  unfold validate_listener, validate_tls_fields. cbv zeta.
  rewrite (push_all_nil (fun jp : nat * TlsConfig => String.eqb (tls_listen l) (tls_listen jp.2))), !push_if_nil, <- tls_checks, String.eqb_neq.
  assert (Hprev : Forall (fun jp : nat * TlsConfig => String.eqb (tls_listen l) (tls_listen jp.2) = false) (imap pair prev)
                  <-> tls_listen l ∉ map tls_listen prev).
  { rewrite Forall_forall. split.
    - intros Hall Hin. apply list_elem_of_In, in_map_iff in Hin as (t & Et & [k Hk]%list_elem_of_In%list_elem_of_lookup_1).
      specialize (Hall (k, t)). rewrite elem_of_lookup_imap in Hall. specialize (Hall ltac:(eauto)). apply String.eqb_neq in Hall. cbn in Hall. by rewrite Et in Hall.
    - intros Hn [k t] (k' & t' & [= <- <-] & Hk)%elem_of_lookup_imap. apply String.eqb_neq. intros E. apply Hn. cbn in E. rewrite E.
      apply list_elem_of_In, in_map. by eapply list_elem_of_In, list_elem_of_lookup_2. }
  rewrite Hprev, is_empty_false. tauto.
Qed.

Lemma validate_listeners_nil primary prev rest errors :
  NoDup (map tls_listen prev) ->
  validate_listeners primary prev rest errors = [] <->
    errors = [] /\ Forall tls_fields_ok rest /\ Forall (fun t => trim (tls_listen t) <> "") rest
    /\ Forall (fun t => tls_listen t <> tls_listen primary) rest /\ NoDup (map tls_listen (prev ++ rest)%list).
Proof.
  revert prev errors. induction rest as [|l rest IH]; intros prev errors Hnd; cbn [validate_listeners].
  - rewrite app_nil_r, !Forall_nil. tauto.
  - assert (Happ : tls_listen l ∉ map tls_listen prev <-> NoDup (map tls_listen (prev ++ [l])%list)).
    { rewrite map_app, NoDup_app. cbn. split.
      - intros Hn. split_and!; [done| |apply NoDup_singleton]. intros x Hx ->%list_elem_of_singleton. done.
      - intros (_ & Hd & _) Hin. apply (Hd _ Hin). by apply list_elem_of_singleton. }
    rewrite !Forall_cons. split.
    + intros H. destruct (decide (tls_listen l ∈ map tls_listen prev)) as [Hin|Hn].
      * exfalso. assert (Hne : forall rest prev e, e <> [] -> validate_listeners primary prev rest e <> []).
        { clear. induction rest as [|x rest IH]; intros prev e He; cbn; [done|]. apply IH. by rewrite validate_listener_nil; intros (? & _). }
        apply (Hne _ _ _) in H; [done|]. rewrite validate_listener_nil. naive_solver.
      * apply IH in H as (H1 & ?); [|by apply Happ]. rewrite validate_listener_nil in H1. rewrite <- app_assoc in *. cbn in *. tauto.
    + intros (-> & H). replace (prev ++ l :: rest)%list with ((prev ++ [l]) ++ rest)%list in H by (by rewrite <- app_assoc).
      assert (Hnd' : NoDup (map tls_listen (prev ++ [l])%list)) by (destruct H as (_ & _ & _ & H); rewrite map_app in H; by apply NoDup_app in H as (? & _)).
      apply IH; [done|]. rewrite validate_listener_nil. pose proof (proj2 Happ Hnd'). tauto.
Qed.

Lemma validate_decides c : validate c = None <-> config_valid c.
Proof.
  unfold validate. cbv zeta.
  match goal with |- (match ?e with _ => _ end) = None <-> _ => assert (Hm : (match e with [] => None | _ => Some (str_join "; " e) end) = None <-> e = []) by (by destruct e) end.
  rewrite Hm, !push_if_nil, validate_listeners_nil, validate_tls_nil, validate_health_path_nil, validate_cidrs_nil, validate_limits_nil,
    validate_proxy_fields_nil, validate_durations_nil, !Z.ltb_ge by apply NoDup_nil_2.
  split.
  - intros H. split; try tauto; rewrite ?Forall_cons, ?Forall_nil; cbn [fst snd]; tauto.
  - intros [H1 H2 H3 H4 H5 H6 H7 H8 H9 H10 H11 H12 H13 H14 H15]. rewrite Forall_cons in H13.
    rewrite !Forall_cons in H7. rewrite !Forall_cons in H10. cbn [fst snd] in H10. tauto.
Qed.
(** C28: [validate] decides [config_valid]: it reports no error exactly on the
    configurations whose durations and keepalive specifications parse (and
    are positive where zero would be fatal), whose matcher, strategy, status,
    header name and limits are in range, whose CIDR ranges are well formed,
    and whose TLS listeners are complete and listen on distinct addresses. *)
Theorem validate_spec c : validate c = None <-> config_valid c.
Proof. apply validate_decides. Qed.
End validation.

(** ** A valid configuration at run time *)

(** The text of a range that [validate_cidr] accepts is one that
    [CidrRange::parse] reads, whatever white space is around it. *)
Lemma validated_cidr_parses s : validate_cidr s = Ok tt -> is_Some (CidrRange_parse s).
Proof.
  unfold validate_cidr. destruct (is_empty _); [done|]. destruct (split_once _ (trim s)) as [[ip p]|] eqn:Es; [|done].
  destruct (parse_ip ip) as [a|] eqn:Ea; [|done]. destruct (parse_u8 p) as [n|] eqn:Ep; [|done].
  destruct (parse_ip_text _ _ Ea) as (Hip & Hpip & ->). destruct (parse_uint_plain _ _ _ Ep) as (Hp & Hpp).
  intros Hmax. apply split_once_spec in Es as [Es Hno]. destruct (trim_decompose s) as (w & w' & Hs & Hb & _ & Hw & Hw').
  assert (Hsplit : split_once "/" s = Some (w ++ ip, p ++ w')).
  { rewrite Hs, Es. rewrite !app_assoc_s, app_cons_s, <- app_assoc_s. apply split_once_app.
    by rewrite str_all_app, Hno, andb_true_r, blank_no_char. }
  unfold CidrRange_parse. rewrite Hsplit.
  assert (trim (w ++ ip) = ip) as ->.
  { rewrite <- (app_nil_r_s (w ++ ip)), app_assoc_s. apply trim_around; try done. intros u. by rewrite app_nil_r_s. }
  assert (trim (p ++ w') = p) as ->.
  { rewrite <- (app_nil_s (p ++ w')). by apply trim_around. }
  rewrite Ea, Ep. destruct a; destruct (_ <? n); done.
Qed.

(** No range of a validated list is skipped. *)
Lemma validated_ranges_parse l :
  Forall (fun s => validate_cidr s = Ok tt) l -> List.length (parse_trusted_proxies l) = List.length l.
Proof.
  unfold parse_trusted_proxies. induction 1 as [|s l Hs _ IH]; [done|].
  destruct (validated_cidr_parses s Hs) as [r Hr]. cbn. rewrite Hr. cbn. by rewrite IH.
Qed.

(** The duration a field denotes. *)
Definition denotes (value : string) (d : Duration) : Prop := parse_optional_duration value = Some d.

(** The same of a field that may be left blank. *)
Definition denotes_or_blank (value : string) (d : option Duration) : Prop :=
  match d with Some d => denotes value d | None => trim value = "" end.

(** The keepalive that [spec] and the text of the user time-out ask for: none when [spec] is
    blank, else its three fields, all positive. *)
Definition keepalive_running (spec timeout_text : string) (ka : option ParsedKeepalive) : Prop :=
  match ka with
  | None => trim spec = ""
  | Some k =>
      exists p0 p1 p2, map trim (split_on ","%char (trim spec)) = [p0; p1; p2]
        /\ denotes p0 (idle k) /\ denotes p1 (interval k) /\ parse_usize p2 = Some (count k)
        /\ 0 < idle k /\ 0 < interval k /\ 0 < count k
        /\ (denotes timeout_text (user_timeout k) \/ (trim timeout_text = "" /\ user_timeout k = 0))
  end.

Lemma optional_duration_denotes value : optional_duration_ok value -> denotes_or_blank value (parse_optional_duration value).
Proof.
  intros [E|(d & Hd & _)]; [|by rewrite Hd]. unfold parse_optional_duration. by rewrite E.
Qed.

Lemma keepalive_ok_running spec u :
  keepalive_ok spec -> optional_duration_ok u -> keepalive_running spec u (ParsedKeepalive_parse spec u).
Proof.
  intros Hs Hu. unfold keepalive_ok, keepalive_running, ParsedKeepalive_parse in *. destruct (is_empty (trim spec)) eqn:E.
  { by apply is_empty_spec. }
  apply is_empty_false in E. destruct Hs as [?|(p0 & p1 & p2 & d0 & d1 & n & -> & H0 & ? & H1 & ? & H2 & Hn)]; [done|].
  rewrite H0, H1, H2, (proj2 (Z.ltb_lt 0 n) Hn). exists p0, p1, p2. split_and!; try done.
  apply optional_duration_denotes in Hu. unfold denotes_or_blank in Hu. cbn. destruct (parse_optional_duration u); [by left|by right].
Qed.

Lemma duration_ok_denotes az value : duration_ok az value -> denotes value (parse_duration value).
Proof.
  intros (d & Hd & _). unfold denotes, parse_duration.
  assert (parse_optional_duration (trim value) = Some d) as ->; [|done].
  rewrite <- Hd. unfold parse_optional_duration. by rewrite trim_idempotent.
Qed.

Lemma positive_denotes value : duration_ok false value -> 0 < parse_duration value.
Proof.
  intros H. pose proof (duration_ok_denotes _ _ H) as Hd. destruct H as (d & Hd' & Hp). unfold denotes in Hd.
  rewrite Hd' in Hd. injection Hd as <-. by apply Hp.
Qed.

(** ** Concrete configurations *)

#[local] Instance any_header : HeaderNames := fun s => negb (contains_char " "%char s).

Definition demo_config (listen refresh : string) (cidrs : list string) : Config :=
  let p := default_ProxyConfig in
  mk_config (default_ServerConfig ":9999") default_ConsulConfig
    (mk_proxy_config (strategy p) (matcher p) (request_id_header p) (no_route_status p) (connect_timeout p) (read_timeout p)
      (write_timeout p) (idle_timeout p) (enable_h2c p) (upstream_h2_max_streams p) (upstream_h2_ping_interval p) (pool_size p)
      (dns_cache_ttl p) (dns_negative_cache_ttl p) (max_connections p) cidrs (circuit_breaker_enabled p)
      (circuit_breaker_error_threshold p) (circuit_breaker_window_size p) (circuit_breaker_recovery_timeout p)
      (circuit_breaker_half_open_max p) (health_check_interval p) (health_check_timeout p) (health_check_fall p)
      (health_check_rise p) (rate_limit_per_target p) (rate_limit_burst p) (health_check_path p)
      (health_check_tls_skip_verify p) (upstream_tcp_keepalive p) (upstream_user_timeout p) (downstream_tcp_keepalive p)
      (stream_read_timeout p))
    default_LoggingConfig default_TlsConfig
    [mk_tls "" "" "" listen "/fabio/cert" false false "" "" "" "" "" false true] (mk_tcp "" "" refresh).

Example validate_ex :
  validate (demo_config ":9443" "5s" [" 10.0.0.0/8 "]) = None
  /\ validate (demo_config "" "0s" ["10.0.0.0/33"]) =
       Some "tcp.refresh must be > 0, got 0s; Invalid CIDR '10.0.0.0/33': prefix 33 > 32 for IPv4; tls_listeners[0].listen is required for additional TLS listeners; tls_listeners[0].listen '' conflicts with primary [tls].listen".
Proof. vm_compute. split; reflexivity. Qed.

