(* ===== verification/ClientCert.v ===== *)
(** * ClientCert: client certificates and the headers that carry them

    Models src/src/proxy/handler/client_cert.rs: the cache of certificate
    identities, the identity of a session and the [X-Client-Cert-*] headers.
    What the TLS library reports of a session ([SslDigest], the peer
    certificate and the result of its verification) is an input; the rules of
    the crate [http] for header values are a parameter. *)
From S2P Require Import Prelude RustStr StrFacts Net Http Upstream.
From Stdlib Require Import Ascii String.
Local Open Scope string_scope.
Local Open Scope Z_scope.

Record ClientCertIdentity := mk_identity {
  verified : bool;
  serial : option string;
  organization : option string;
  organizational_unit : option string;
  common_name : option string;
  subject : option string;
  sha256 : option string;
}.

(** ** hex_lower *)

Definition hex_lower_digit (n : Z) : ascii := if n <? 10 then chr (48 + n) else chr (87 + n).

Fixpoint hex_lower (bytes : list Z) : string :=
  match bytes with
  | [] => ""
  | b :: bytes => String (hex_lower_digit (Z.shiftr b 4)) (String (hex_lower_digit (Z.land b 15)) (hex_lower bytes))
  end.

(** ** The cache *)

Definition CLIENT_CERT_IDENTITY_CACHE_CAPACITY : nat := Z.to_nat 4096.

Record ClientCertIdentityCache := mk_cert_cache {
  entries : gmap string ClientCertIdentity;
  order : list string;
}.
Definition cert_cache_default : ClientCertIdentityCache := mk_cert_cache ∅ [].

(** The loop of [evict_if_needed] ends with the queue if not before. *)
Fixpoint evict_loop (capacity : nat) (es : gmap string ClientCertIdentity) (queue : list string) : ClientCertIdentityCache :=
  if (capacity <? size es)%nat then
    match queue with
    | [] => mk_cert_cache es []
    | oldest :: queue => evict_loop capacity (delete oldest es) queue
    end
  else mk_cert_cache es queue.

Definition evict_if_needed (capacity : nat) (self : ClientCertIdentityCache) : ClientCertIdentityCache :=
  evict_loop capacity (entries self) (order self).

(** [insert], with the capacity as an argument: the code's is
    [CLIENT_CERT_IDENTITY_CACHE_CAPACITY]. *)
Definition cache_insert (capacity : nat) (digest_hex : string) (ident : ClientCertIdentity) (self : ClientCertIdentityCache) :
    ClientCertIdentityCache :=
  match entries self !! digest_hex with
  | Some _ => self
  | None => evict_if_needed capacity (mk_cert_cache (<[digest_hex := ident]> (entries self)) (order self ++ [digest_hex])%list)
  end.

Definition cache_get (digest_hex : string) (self : ClientCertIdentityCache) : option ClientCertIdentity := entries self !! digest_hex.

(** ** Certificates *)

(** What the code reads of a certificate; [None] for a call that fails. *)
Record Cert := mk_cert {
  cert_sha256 : option (list Z);
  cert_serial : option string;
  cert_organization : option string;
  cert_organizational_unit : option string;
  cert_common_name : option string;
  cert_subject : string;
}.

(** The TLS digest of a session, and its live peer certificate with the
    result of [verify_result]. *)
Record SslDigest := mk_ssl_digest {
  cert_digest : list Z;
  serial_number : option string;
  digest_organization : option string;
}.
Record CertSession := mk_cert_session {
  ssl_digest : option SslDigest;
  peer_certificate : option (Cert * bool);
}.

Definition or_else {A} (a b : option A) : option A := match a with Some _ => a | None => b end.

Definition remember_verified_client_certificate (capacity : nat) (cert : Cert) (cache : ClientCertIdentityCache) : ClientCertIdentityCache :=
  match cert_sha256 cert with
  | None => cache
  | Some digest_bytes =>
      let digest_hex := hex_lower digest_bytes in
      cache_insert capacity digest_hex
        (mk_identity true (cert_serial cert) (cert_organization cert) (cert_organizational_unit cert) (cert_common_name cert)
          (Some (cert_subject cert)) (Some digest_hex)) cache
  end.

Definition cached_client_certificate_identity (digest : list Z) (cache : ClientCertIdentityCache) : option ClientCertIdentity :=
  match digest with
  | [] => None
  | _ => cache_get (hex_lower digest) cache
  end.

Definition is_nil {A} (l : list A) : bool := match l with [] => true | _ => false end.

(** [client_certificate_identity]: the identity, and the cache after. *)
Definition client_certificate_identity (capacity : nat) (session : CertSession) (cache : ClientCertIdentityCache) :
    ClientCertIdentityCache * option ClientCertIdentity :=
  match ssl_digest session with
  | None => (cache, None)
  | Some digest =>
      let present := negb (is_nil (cert_digest digest)) in
      let ident := mk_identity present (serial_number digest) (digest_organization digest) None None None
                        (if present then Some (hex_lower (cert_digest digest)) else None) in
      let '(has_full_cache, ident) :=
        match cached_client_certificate_identity (cert_digest digest) cache with
        | None => (false, ident)
        | Some cached =>
            (match common_name cached, subject cached with Some _, Some _ => true | _, _ => false end,
             mk_identity (verified cached || verified ident) (or_else (serial cached) (serial ident))
               (or_else (organization cached) (organization ident)) (organizational_unit cached) (common_name cached)
               (subject cached) (or_else (sha256 cached) (sha256 ident)))
        end in
      match (if has_full_cache then None else peer_certificate session) with
      | None => (cache, Some ident)
      | Some (cert, verify_ok) =>
          let cache := remember_verified_client_certificate capacity cert cache in
          (cache, Some (mk_identity verify_ok (serial ident) (or_else (cert_organization cert) (organization ident))
             (cert_organizational_unit cert) (cert_common_name cert) (Some (cert_subject cert))
             (or_else (hex_lower <$> cert_sha256 cert) (sha256 ident))))
      end
  end.

(** ** The headers *)

(** [HeaderValue::try_from] succeeds. *)
Class HeaderValues := header_value_ok : string -> bool.

Definition cert_header_names : list string :=
  ["X-Client-Cert-Verified"; "X-Client-Cert-Serial"; "X-Client-Cert-Organization"; "X-Client-Cert-Organizational-Unit";
   "X-Client-Cert-Common-Name"; "X-Client-Cert-Subject"; "X-Client-Cert-SHA256"].

Section headers.
Context {V : HeaderValues}.

Definition try_insert (name value : string) (h : HeaderMap) : result HeaderMap ErrorType :=
  if header_value_ok value then Ok (insert_header name value h) else Err InvalidHTTPHeader.

Definition then_insert (name : string) (value : option string) (r : result HeaderMap ErrorType) : result HeaderMap ErrorType :=
  match r, value with
  | Ok h, Some v => try_insert name v h
  | _, _ => r
  end.

Definition strip_cert_headers (upstream : HeaderMap) : HeaderMap := foldl (fun h name => remove_header name h) upstream cert_header_names.

Definition insert_identity (ident : ClientCertIdentity) (upstream : HeaderMap) : result HeaderMap ErrorType :=
  then_insert "X-Client-Cert-SHA256" (sha256 ident)
  (then_insert "X-Client-Cert-Subject" (subject ident)
  (then_insert "X-Client-Cert-Common-Name" (common_name ident)
  (then_insert "X-Client-Cert-Organizational-Unit" (organizational_unit ident)
  (then_insert "X-Client-Cert-Organization" (organization ident)
  (then_insert "X-Client-Cert-Serial" (serial ident)
  (try_insert "X-Client-Cert-Verified" "true" upstream)))))).

Definition append_client_certificate_headers (capacity : nat) (session : CertSession) (upstream : HeaderMap) (cache : ClientCertIdentityCache) :
    ClientCertIdentityCache * result HeaderMap ErrorType :=
  let upstream := strip_cert_headers upstream in
  let '(cache, ident) := client_certificate_identity capacity session cache in
  (cache, match ident with
          | None => Ok upstream
          | Some ident => if negb (verified ident) then Ok upstream else insert_identity ident upstream
          end).
End headers.

(** ** The cache is a bounded queue

    Specification: the identities in order of arrival, the oldest dropped
    beyond the capacity; a second identity for a digest is ignored. *)
Definition Fifo : Type := list (string * ClientCertIdentity).

Definition fifo_insert (capacity : nat) (k : string) (v : ClientCertIdentity) (l : Fifo) : Fifo :=
  if decide (k ∈ l.*1) then l else drop (S (List.length l) - capacity) (l ++ [(k, v)])%list.

Record cache_abs (capacity : nat) (c : ClientCertIdentityCache) (l : Fifo) : Prop := {
  ca_order : order c = l.*1;
  ca_entries : entries c = list_to_map l;
  ca_nodup : NoDup l.*1;
  ca_bound : (List.length l <= capacity)%nat;
}.

Lemma size_list_to_map (l : Fifo) : NoDup l.*1 -> size (list_to_map l : gmap string ClientCertIdentity) = List.length l.
Proof.
  induction l as [|[k v] l IH]; intros Hnd; cbn; [by rewrite map_size_empty|]. cbn in Hnd. apply NoDup_cons in Hnd as [Hk Hnd].
  rewrite map_size_insert_None by (by apply not_elem_of_list_to_map). by rewrite IH.
Qed.

Lemma evict_loop_spec capacity (l : Fifo) :
  NoDup l.*1 -> cache_abs capacity (evict_loop capacity (list_to_map l) l.*1) (drop (List.length l - capacity) l).
Proof.
  induction l as [|[k v] l IH]; intros Hnd.
  - rewrite drop_nil. cbn. replace (capacity <? 0)%nat with false by (symmetry; apply Nat.ltb_ge; lia). (split; [done|done|apply NoDup_nil_2|cbn; lia]).
  - pose proof (size_list_to_map _ Hnd) as Hs. cbn [fmap list_fmap fst] in *. cbn [evict_loop]. rewrite Hs.
    destruct (capacity <? _)%nat eqn:E; bool_simpl.
    + apply NoDup_cons in Hnd as [Hk Hnd]. cbn [list_to_map foldr curry]. rewrite delete_insert_id by (by apply not_elem_of_list_to_map).
      replace (drop _ ((k, v) :: l)) with (drop (List.length l - capacity) l); [by apply IH|].
      cbn [List.length] in *. by replace (S (List.length l) - capacity)%nat with (S (List.length l - capacity)) by lia.
    + replace (drop _ ((k, v) :: l)) with ((k, v) :: l) by (cbn [List.length] in *; by replace (S (List.length l) - capacity)%nat with 0%nat by lia). by split; try lia.
Qed.

Lemma cache_insert_spec capacity k v c l :
  cache_abs capacity c l -> cache_abs capacity (cache_insert capacity k v c) (fifo_insert capacity k v l).
Proof.
  intros [Ho He Hn Hb]. unfold cache_insert, fifo_insert. rewrite He. destruct (decide (k ∈ l.*1)) as [Hk|Hk].
  - destruct (list_to_map l !! k) eqn:E; [by split|]. by apply not_elem_of_list_to_map in E.
  - pose proof (proj1 (not_elem_of_list_to_map (M := gmap string) l k) Hk) as E. rewrite E. unfold evict_if_needed. cbn [entries order].
    assert (Hnd : NoDup (l ++ [(k, v)])%list.*1).
    { rewrite fmap_app. apply NoDup_app. split_and!; [done| |apply NoDup_singleton]. intros x Hx ->%list_elem_of_singleton. done. }
    replace (order c ++ [k])%list with (l ++ [(k, v)])%list.*1 by (by rewrite fmap_app, Ho).
    replace (<[k := v]> (list_to_map l)) with (list_to_map (l ++ [(k, v)])%list : gmap string ClientCertIdentity).
    2:{ rewrite list_to_map_app. cbn. rewrite <- insert_union_r by done. by rewrite map_union_empty. }
    replace (S (List.length l)) with (List.length (l ++ [(k, v)])%list) by (rewrite length_app; cbn; lia). by apply evict_loop_spec.
Qed.

(** The identity cache refines a bounded first-in first-out queue: after
    any sequence of insertions it holds exactly the queue's identities, at
    most its capacity of them, and a lookup answers what the queue holds. *)
Theorem cert_cache_refines_fifo capacity (ops : list (string * ClientCertIdentity)) :
  let c := foldl (fun c kv => cache_insert capacity kv.1 kv.2 c) cert_cache_default ops in
  let l := foldl (fun l kv => fifo_insert capacity kv.1 kv.2 l) [] ops in
  (List.length (order c) <= capacity)%nat /\ size (entries c) = List.length (order c)
  /\ forall digest v, cache_get digest c = Some v <-> (digest, v) ∈ l.
Proof.
  intros c l. assert (Habs : cache_abs capacity c l).
  { unfold c, l. assert (Hd : cache_abs capacity cert_cache_default []) by (split; [done|done|apply NoDup_nil_2|cbn; lia]).
    revert Hd. generalize cert_cache_default ([] : Fifo). induction ops as [|[k v] ops IH]; intros c0 l0 H; cbn; [done|].
    by apply IH, cache_insert_spec. }
  destruct Habs as [Ho He Hn Hb]. split_and!.
  - by rewrite Ho, length_fmap.
  - by rewrite He, size_list_to_map, Ho, length_fmap.
  - intros digest v. unfold cache_get. rewrite He. symmetry. by apply elem_of_list_to_map.
Qed.

(** ** Where a cached identity comes from *)

Lemma evict_loop_subset capacity queue (es : gmap string ClientCertIdentity) k v :
  entries (evict_loop capacity es queue) !! k = Some v -> es !! k = Some v.
Proof.
  revert es. induction queue as [|oldest queue IH]; intros es; cbn [evict_loop]; destruct (capacity <? size es)%nat; try done.
  intros [_ ?]%IH%lookup_delete_Some. done.
Qed.

Lemma cache_insert_provenance capacity k v cache k' v' :
  cache_get k' (cache_insert capacity k v cache) = Some v' -> cache_get k' cache = Some v' \/ (k' = k /\ v' = v).
Proof.
  unfold cache_get, cache_insert. destruct (entries cache !! k); [by left|]. unfold evict_if_needed. intros E%evict_loop_subset. cbn in E.
  apply lookup_insert_Some in E as [[<- <-]|[_ E]]; [by right|by left].
Qed.

(** ** Digests *)

Lemma hex_lower_digit_inj m n : 0 <= m < 16 -> 0 <= n < 16 -> hex_lower_digit m = hex_lower_digit n -> m = n.
Proof.
  intros Hm Hn. assert (Hr : forall k, 0 <= k < 16 -> k ∈ map Z.of_nat (seq 0 16)).
  { intros k Hk. apply list_elem_of_In, in_map_iff. exists (Z.to_nat k). split; [lia|]. apply in_seq. lia. }
  apply Hr in Hm. apply Hr in Hn. revert m Hm n Hn.
  assert (H : Forall (fun m => Forall (fun n => hex_lower_digit m = hex_lower_digit n -> m = n) (map Z.of_nat (seq 0 16))) (map Z.of_nat (seq 0 16))).
  { apply (bool_decide_unpack _). vm_compute. done. }
  rewrite Forall_forall in H. intros m Hm n Hn. specialize (H m Hm). rewrite Forall_forall in H. by apply H.
Qed.

(** Two digests never share a cache entry: the hexadecimal text that
    names a certificate determines its bytes. *)
Theorem hex_lower_inj a b : Forall is_u8 a -> Forall is_u8 b -> hex_lower a = hex_lower b -> a = b.
Proof.
  intros Ha. revert b. induction Ha as [|x a Hx Ha IH]; intros [|y b] Hb E; try done.
  apply Forall_cons in Hb as [Hy Hb]. cbn in E. injection E as Eh El E. f_equal; [|by apply IH].
  unfold is_u8 in *. rewrite !Z.shiftr_div_pow2 in Eh by lia.
  change 15 with (Z.ones 4) in El. rewrite !Z.land_ones in El by lia. change (2 ^ 4) with 16 in *.
  assert (x / 16 = y / 16) by (apply hex_lower_digit_inj; [Z.div_mod_to_equations; lia..|done]).
  assert (x mod 16 = y mod 16) by (apply hex_lower_digit_inj; [Z.div_mod_to_equations; lia..|done]). Z.div_mod_to_equations; lia.
Qed.

Lemma hex_lower_inj_witness : hex_lower [171; 5] = "ab05" /\ (hex_lower [171; 5] = hex_lower [171; 5] -> [171; 5] = [171; 5]).
Proof. split; [reflexivity|]. apply (hex_lower_inj [171; 5] [171; 5]); repeat constructor; unfold is_u8; lia. Defined.

(** ** The headers of an upstream request *)

Definition lower_names : list string := map to_ascii_lowercase cert_header_names.

Definition identity_values (ident : ClientCertIdentity) : list (string * option string) :=
  [("x-client-cert-verified", Some "true"); ("x-client-cert-serial", serial ident); ("x-client-cert-organization", organization ident);
   ("x-client-cert-organizational-unit", organizational_unit ident); ("x-client-cert-common-name", common_name ident);
   ("x-client-cert-subject", subject ident); ("x-client-cert-sha256", sha256 ident)].

Definition option_values (o : option string) : list string := match o with Some v => [v] | None => [] end.

Section header_props.
Context {V : HeaderValues}.

Lemma strip_values name upstream :
  header_values name (strip_cert_headers upstream) = if decide (name ∈ lower_names) then [] else header_values name upstream.
Proof.
  unfold strip_cert_headers, lower_names. generalize cert_header_names. intros l. revert upstream.
  induction l as [|n l IH]; intros upstream; cbn [foldl map]; [by rewrite decide_False by apply not_elem_of_nil|].
  rewrite IH, header_values_remove. destruct (String.eqb_spec (to_ascii_lowercase n) name) as [E|Hne].
  - assert (Hin : name ∈ to_ascii_lowercase n :: map to_ascii_lowercase l) by (rewrite E; by left).
    rewrite (decide_True _ _ Hin). by destruct (decide _).
  - destruct (decide (name ∈ map to_ascii_lowercase l)) as [Hi|Hi].
    + assert (Hin : name ∈ to_ascii_lowercase n :: map to_ascii_lowercase l) by (by right). by rewrite (decide_True _ _ Hin).
    + assert (Hin : name ∉ to_ascii_lowercase n :: map to_ascii_lowercase l) by (rewrite elem_of_cons; intros [E|]; [by destruct Hne|done]).
      by rewrite (decide_False _ _ Hin).
Qed.

(** The successive insertions, as a fold. *)
Definition inserted (h : HeaderMap) (l : list (string * option string)) : HeaderMap :=
  foldl (fun h nv => match nv.2 with Some v => insert_header nv.1 v h | None => h end) h l.

Definition named_values (ident : ClientCertIdentity) : list (string * option string) :=
  [("X-Client-Cert-Verified", Some "true"); ("X-Client-Cert-Serial", serial ident); ("X-Client-Cert-Organization", organization ident);
   ("X-Client-Cert-Organizational-Unit", organizational_unit ident); ("X-Client-Cert-Common-Name", common_name ident);
   ("X-Client-Cert-Subject", subject ident); ("X-Client-Cert-SHA256", sha256 ident)].

Lemma then_insert_ok name v r h : then_insert name v r = Ok h -> exists h', r = Ok h' /\ h = inserted h' [(name, v)].
Proof.
  unfold then_insert, try_insert. destruct r as [h'|]; [|done]. destruct v as [v|]; [|intros [= <-]; by exists h'].
  destruct (header_value_ok v); [|done]. intros [= <-]. by exists h'.
Qed.

Lemma insert_identity_ok ident upstream out :
  insert_identity ident upstream = Ok out -> out = inserted upstream (named_values ident).
Proof.
  unfold insert_identity. intros (h6 & (h5 & (h4 & (h3 & (h2 & (h1 & H1 & ->)%then_insert_ok & ->)%then_insert_ok & ->)%then_insert_ok & ->)%then_insert_ok & ->)%then_insert_ok & ->)%then_insert_ok.
  unfold try_insert in H1. destruct (header_value_ok "true"); [|done]. by injection H1 as <-.
Qed.

Lemma inserted_values name h l :
  NoDup (map (fun nv => to_ascii_lowercase nv.1) l) ->
  header_values name (inserted h l) =
    match List.find (fun nv => String.eqb (to_ascii_lowercase nv.1) name) l with
    | Some (_, Some v) => [v]
    | _ => header_values name h
    end.
Proof.
  revert h. induction l as [|[n v] l IH]; intros h Hnd; cbn [inserted foldl List.find map]; [done|].
  cbn in Hnd. apply NoDup_cons in Hnd as [Hn Hnd]. change (foldl _ ?x l) with (inserted x l). rewrite IH by done. cbn [fst snd].
  destruct (String.eqb_spec (to_ascii_lowercase n) name) as [E|Hne].
  - assert (List.find (fun nv => String.eqb (to_ascii_lowercase nv.1) name) l = None) as ->.
    { destruct (List.find _ l) as [[n' v']|] eqn:Ef; [|done]. apply find_some in Ef as [Hin Ef]. apply String.eqb_eq in Ef.
      exfalso. apply Hn. rewrite E, <- Ef. apply list_elem_of_In, in_map_iff. by exists (n', v'). }
    destruct v as [v|]; [|done]. by rewrite header_values_insert, E, String.eqb_refl.
  - apply String.eqb_neq in Hne. destruct v as [v|]; [|done]. by rewrite header_values_insert, Hne.
Qed.

Lemma inserted_value n v h l :
  NoDup (map (fun nv => to_ascii_lowercase nv.1) l) -> In (n, v) l ->
  header_values (to_ascii_lowercase n) (inserted h l) =
    match v with Some v => [v] | None => header_values (to_ascii_lowercase n) h end.
Proof.
  intros Hnd Hin. rewrite inserted_values by done.
  assert (List.find (fun nv => String.eqb (to_ascii_lowercase nv.1) (to_ascii_lowercase n)) l = Some (n, v)) as ->; [|done].
  induction l as [|[m w] l IH]; [done|]. cbn in Hnd. apply NoDup_cons in Hnd as [Hm Hnd]. cbn [List.find fst].
  destruct Hin as [[= -> ->]|Hin]; [by rewrite String.eqb_refl|].
  destruct (String.eqb_spec (to_ascii_lowercase m) (to_ascii_lowercase n)) as [E|Hne]; [|by apply IH].
  exfalso. apply Hm. rewrite E. apply list_elem_of_In, in_map_iff. by exists (n, v).
Qed.

Lemma cert_header_values capacity session upstream cache out :
  (append_client_certificate_headers capacity session upstream cache).2 = Ok out ->
  let ident := (client_certificate_identity capacity session cache).2 in
  (forall name, name ∉ lower_names -> header_values name out = header_values name upstream)
  /\ match ident with
     | Some id => if verified id then Forall (fun nv => header_values nv.1 out = option_values nv.2) (identity_values id)
                  else Forall (fun name => header_values name out = []) lower_names
     | None => Forall (fun name => header_values name out = []) lower_names
     end.
Proof.
  unfold append_client_certificate_headers. destruct (client_certificate_identity capacity session cache) as [cache' ident]. cbn [snd].
  assert (Hstripped : Ok (strip_cert_headers upstream) = Ok (E := ErrorType) out ->
            (forall name, name ∉ lower_names -> header_values name out = header_values name upstream)
            /\ Forall (fun name => header_values name out = []) lower_names).
  { intros [= <-]. split; [intros name Hn; by rewrite strip_values, decide_False|].
    apply Forall_forall. intros name Hn. by rewrite strip_values, decide_True. }
  destruct ident as [id|]; [|done]. destruct (verified id); cbn [negb]; [|done].
  intros ->%insert_identity_ok.
  assert (Hnd : NoDup (map (fun nv => to_ascii_lowercase nv.1) (named_values id))) by (apply (bool_decide_unpack _); vm_compute; done).
  split.
  - intros name Hn. rewrite inserted_values by done.
    destruct (List.find _ _) as [[n v]|] eqn:Ef; [|by rewrite strip_values, decide_False].
    exfalso. apply find_some in Ef as [Hin Ef]. apply String.eqb_eq in Ef. apply Hn. cbn in Ef. rewrite <- Ef.
    apply list_elem_of_In, in_map_iff. exists n. split; [done|]. cbn in Hin. unfold cert_header_names. cbn.
    repeat destruct Hin as [[= <- _]|Hin]; tauto.
  - apply Forall_forall. intros [n v] Hin. change (identity_values id) with (map (fun nv => (to_ascii_lowercase nv.1, nv.2)) (named_values id)) in Hin.
    apply list_elem_of_In, in_map_iff in Hin as ([n' v'] & [= <- <-] & Hin). cbn [fst snd].
    rewrite (inserted_value n' v') by done. destruct v' as [v|]; [done|].
    rewrite strip_values, decide_True; [done|]. unfold lower_names. apply list_elem_of_In, in_map.
    apply (in_map fst) in Hin. exact Hin.
Qed.

End header_props.

(** ** Whose identity it is

    The certificates of the history and those presented are [trusted]: each was
    verified in its handshake, so that [verify_result] is OK in every session
    that reaches the proxy, and a digest names one of them. *)
Section provenance.
Context {V : HeaderValues} (capacity : nat) (trusted : Cert -> Prop).
Context (digest_names : forall c c', trusted c -> trusted c' -> cert_sha256 c = cert_sha256 c' -> c = c').
Context (digest_bytes : forall c d, trusted c -> cert_sha256 c = Some d -> Forall is_u8 d).

(** A session in which the client presented [presented], as the TLS library
    reports it: its digest is that of the certificate, and the certificate
    itself can be read unless the session is an HTTP/2 stream. *)
Definition session_of (presented : option Cert) (s : CertSession) : Prop :=
  match ssl_digest s, presented with
  | None, None => True
  | None, Some _ => False
  | Some d, None => cert_digest d = [] /\ peer_certificate s = None
  | Some d, Some cert =>
      trusted cert /\ cert_digest d <> [] /\ cert_sha256 cert = Some (cert_digest d)
      /\ serial_number d = cert_serial cert /\ digest_organization d = cert_organization cert
      /\ (peer_certificate s = None \/ peer_certificate s = Some (cert, true))
  end.

(** What fills the cache: a handshake whose leaf was verified, and a request
    of a session. *)
Inductive CertEvent := LeafVerified (cert : Cert) | RequestServed (s : CertSession).

Definition cert_event (cache : ClientCertIdentityCache) (e : CertEvent) : ClientCertIdentityCache :=
  match e with
  | LeafVerified cert => remember_verified_client_certificate capacity cert cache
  | RequestServed s => (client_certificate_identity capacity s cache).1
  end.

Definition event_ok (e : CertEvent) : Prop :=
  match e with LeafVerified cert => trusted cert | RequestServed s => exists presented, session_of presented s end.

(** The identity of a certificate with digest [d]. *)
Definition identity_of (cert : Cert) (d : list Z) : ClientCertIdentity :=
  mk_identity true (cert_serial cert) (cert_organization cert) (cert_organizational_unit cert) (cert_common_name cert)
    (Some (cert_subject cert)) (Some (hex_lower d)).

Definition cache_trusted (cache : ClientCertIdentityCache) : Prop :=
  forall k v, cache_get k cache = Some v ->
    exists cert d, trusted cert /\ cert_sha256 cert = Some d /\ k = hex_lower d /\ v = identity_of cert d.

Lemma remember_trusted cert cache : trusted cert -> cache_trusted cache -> cache_trusted (remember_verified_client_certificate capacity cert cache).
Proof.
  intros Ht Hc k v. unfold remember_verified_client_certificate. destruct (cert_sha256 cert) as [d|] eqn:E; [|apply Hc].
  intros [Hk|[-> ->]]%cache_insert_provenance; [by apply Hc|]. by exists cert, d.
Qed.

Lemma identity_keeps_trusted presented s cache :
  session_of presented s -> cache_trusted cache -> cache_trusted (client_certificate_identity capacity s cache).1.
Proof.
  intros Hs Hc. unfold client_certificate_identity, session_of in *. destruct (ssl_digest s) as [d|]; [|done].
  destruct (match cached_client_certificate_identity _ _ with Some _ => _ | None => _ end) as [full ident].
  destruct presented as [cert|].
  - destruct Hs as (Ht & _ & _ & _ & _ & [E|E]); rewrite E; destruct full; try done. by apply remember_trusted.
  - destruct Hs as [_ E]. rewrite E. by destruct full.
Qed.

Lemma events_trusted events : Forall event_ok events -> cache_trusted (foldl cert_event cert_cache_default events).
Proof.
  assert (H0 : cache_trusted cert_cache_default) by (intros k v; unfold cache_get; cbn; by rewrite lookup_empty).
  intros He. revert H0. generalize cert_cache_default. induction He as [|e events He Hes IH]; intros c Hc; cbn [foldl]; [done|].
  apply IH. destruct e as [cert|s]; cbn [cert_event]; [by apply remember_trusted|]. destruct He as [presented Hs]. by eapply identity_keeps_trusted.
Qed.

(** What the cache holds for the digest of a trusted certificate is its
    identity. *)
Lemma cached_identity cache cert d v :
  cache_trusted cache -> trusted cert -> cert_sha256 cert = Some d ->
  cached_client_certificate_identity d cache = Some v -> v = identity_of cert d.
Proof.
  intros Hc Ht Hd. unfold cached_client_certificate_identity. destruct d as [|x d]; [done|].
  intros (cert' & d' & Ht' & Hd' & Hk & ->)%Hc. apply hex_lower_inj in Hk; [|by apply (digest_bytes cert)|by apply (digest_bytes cert')]. subst d'.
  by rewrite (digest_names cert cert') by congruence.
Qed.

Lemma or_else_same {A} (a : option A) : or_else a a = a.
Proof. by destruct a. Qed.

(** The identity of a session of a trusted certificate: all of the
    certificate's, or less where it cannot be read and is not cached. *)
Lemma session_identity cert s cache d :
  session_of (Some cert) s -> cache_trusted cache -> cert_sha256 cert = Some d ->
  exists ident, (client_certificate_identity capacity s cache).2 = Some ident
    /\ (ident = identity_of cert d
        \/ (peer_certificate s = None
            /\ ident = mk_identity true (cert_serial cert) (cert_organization cert) None None None (Some (hex_lower d)))).
Proof.
  intros Hs Hc Hd. unfold client_certificate_identity, session_of in *. destruct (ssl_digest s) as [dg|]; [|done].
  destruct Hs as (Ht & Hne & Ed & Es & Eo & Hp). rewrite Hd in Ed. injection Ed as ->. rewrite Es, Eo.
  assert (Hnil : is_nil (cert_digest dg) = false) by (by destruct (cert_digest dg)). rewrite Hnil. cbn [negb verified serial organization sha256].
  assert (Hlive : forall full ident, (full = true -> ident = identity_of cert (cert_digest dg)) ->
            serial ident = cert_serial cert -> organization ident = cert_organization cert ->
            (ident = identity_of cert (cert_digest dg)
             \/ ident = mk_identity true (cert_serial cert) (cert_organization cert) None None None (Some (hex_lower (cert_digest dg)))) ->
            exists ident', (match (if full : bool then None else peer_certificate s) with
                           | None => (cache, Some ident)
                           | Some (c, verify_ok) =>
                               (remember_verified_client_certificate capacity c cache,
                                Some (mk_identity verify_ok (serial ident) (or_else (cert_organization c) (organization ident))
                                        (cert_organizational_unit c) (cert_common_name c) (Some (cert_subject c))
                                        (or_else (hex_lower <$> cert_sha256 c) (sha256 ident))))
                           end).2 = Some ident'
              /\ (ident' = identity_of cert (cert_digest dg)
                  \/ (peer_certificate s = None
                      /\ ident' = mk_identity true (cert_serial cert) (cert_organization cert) None None None (Some (hex_lower (cert_digest dg)))))).
  { intros full ident Hf Hse Hor Hid. destruct full; [exists ident; split; [done|left; by apply Hf]|].
    destruct Hp as [E|E]; rewrite E.
    - exists ident. split; [done|]. destruct Hid; [by left|by right].
    - eexists. split; [done|]. left. rewrite Hse, Hor, Hd, or_else_same. done. }
  destruct (cached_client_certificate_identity (cert_digest dg) cache) as [v|] eqn:Ec.
  - apply (cached_identity cache cert) in Ec; [|done..]. subst v. cbn [identity_of common_name subject serial organization organizational_unit sha256 verified orb].
    rewrite !or_else_same.
    apply (Hlive (match cert_common_name cert with Some _ => true | None => false end) (identity_of cert (cert_digest dg))); try done; by left.
  - apply (Hlive false (mk_identity true (cert_serial cert) (cert_organization cert) None None None (Some (hex_lower (cert_digest dg))))); try done; by right.
Qed.

End provenance.

(** ** Concrete sessions *)

#[local] Instance any_value : HeaderValues := fun _ => true.

Definition demo_cert : Cert := mk_cert (Some [10; 11]) (Some "01") None None (Some "alice") "CN=alice".
Definition demo_session (ok : bool) : CertSession := mk_cert_session (Some (mk_ssl_digest [10; 11] (Some "01") None)) (Some (demo_cert, ok)).

Definition demo_trusted (c : Cert) : Prop := c = demo_cert.
Definition demo_stream : CertSession := mk_cert_session (Some (mk_ssl_digest [10; 11] (Some "01") None)) None.
Definition demo_out : HeaderMap :=
  [("a", "b"); ("x-client-cert-verified", "true"); ("x-client-cert-serial", "01"); ("x-client-cert-common-name", "alice");
   ("x-client-cert-subject", "CN=alice"); ("x-client-cert-sha256", "0a0b")].


(** The first request of a session whose certificate fails verification adds
    no header, but it caches the certificate as verified: the second request
    passes. *)
Example unverified_certificate_passes_second_time :
  let first := append_client_certificate_headers 2 (demo_session false) [] cert_cache_default in
  let second := append_client_certificate_headers 2 (demo_session false) [] first.1 in
  first.2 = Ok []
  /\ match second.2 with Ok h => header_values "x-client-cert-verified" h = ["true"] | Err _ => False end.
Proof. vm_compute. split; reflexivity. Qed.
