(* ===== verification/Peer.v ===== *)
(** * Peer: the connection to the upstream and the request sent over it

    Models [configure_peer_options] and [resolve_read_timeout] of
    src/src/proxy/handler/rewrite.rs, and [prepare_upstream_request] of
    src/src/proxy/handler/upstream.rs. *)
From S2P Require Import Prelude RustStr StrFacts Net Stats Target Config Http Upstream ClientCert.
From Stdlib Require Import Ascii String.
Local Open Scope string_scope.
Local Open Scope Z_scope.

(** ** Peer options *)

(** The fields of Pingora's [PeerOptions], and the [sni] of the peer, that the
    code sets. *)
Record PeerOptions := mk_peer_options {
  connection_timeout : option Duration;
  po_read_timeout : option Duration;
  po_write_timeout : option Duration;
  po_idle_timeout : option Duration;
  alpn : ALPN;
  tcp_keepalive : option TcpKeepalive;
  max_h2_streams : Z;
  po_h2_ping_interval : option Duration;
  verify_cert : bool;
  sni : string;
}.

Definition resolve_read_timeout (target : Target) (config : Config) (is_streaming : bool) : Duration :=
  let timeouts := parsed_timeouts config in
  let default_read := if is_streaming then default (read timeouts) (stream_read timeouts) else read timeouts in
  match read_timeout_override target with
  | Some raw => default default_read (parse_optional_duration raw)
  | None => default_read
  end.

Definition configure_peer_options (peer : PeerOptions) (target : Target) (config : Config) (is_streaming : bool) : PeerOptions :=
  let timeouts := parsed_timeouts config in
  let h2 := requires_http2 (parsed_protocol target) in
  mk_peer_options (Some (connect timeouts)) (Some (resolve_read_timeout target config is_streaming)) (Some (write timeouts))
    (Some (idle_ timeouts)) (preferred_alpn (parsed_protocol target))
    (match upstream_keepalive timeouts with Some ka => Some (to_pingora ka) | None => tcp_keepalive peer end)
    (if h2 then Z.max (upstream_h2_max_streams (proxy config)) 1 else max_h2_streams peer)
    (if h2 then h2_ping_interval timeouts else po_h2_ping_interval peer)
    (if upstream_tls target && tls_skip_verify target then false else verify_cert peer)
    (if upstream_tls target then sni_hostname (default (upstream_host target) (host_override target)) else sni peer).

(** ** prepare_upstream_request *)

Section prepare.
Context {V : HeaderValues} {P : UriParser} {N : HeaderNames}.

(** The session of a request: its header, its certificates and the address of
    the client as [client_ip_from_pingora_socket_addr] prints it. *)
Record Session := mk_session {
  req_header : RequestHeader;
  session_cert : CertSession;
  client_ip : option string;
}.

(** [insert_header] of a configured name. *)
Definition try_insert_named (name value : string) (h : HeaderMap) : result HeaderMap ErrorType :=
  if header_name_ok name then try_insert name value h else Err InvalidHTTPHeader.

(** [request_id]: the value [request_id_header_value] draws. *)
Definition prepare_upstream_request (capacity : nat) (request_id : string) (config : ProxyConfig) (session : Session) (upstream : RequestHeader)
    (picked_target : option Target) (trusted : list CidrRange) (cache : ClientCertIdentityCache) :
    ClientCertIdentityCache * result RequestHeader ErrorType :=
  let stamped := if negb (is_empty (request_id_header config)) then try_insert_named (request_id_header config) request_id (headers upstream)
                 else Ok (headers upstream) in
  match stamped with
  | Err e => (cache, Err e)
  | Ok h =>
      let tls := match ssl_digest (session_cert session) with Some _ => true | None => false end in
      let h := append_forwarded_headers (req_header session) h tls (client_ip session) trusted in
      let '(cache, certified) := append_client_certificate_headers capacity (session_cert session) h cache in
      (cache,
       match certified with
       | Err e => Err e
       | Ok h =>
           match picked_target with
           | None => Ok (mk_request (uri upstream) h)
           | Some target =>
               let u := default (uri upstream) (rewrite_upstream_uri (uri upstream) target) in
               if requires_http2 (parsed_protocol target) || match host_override target with Some _ => true | None => false end
               then match try_insert "Host" (upstream_authority target) h with
                    | Ok h => Ok (mk_request u h)
                    | Err e => Err e
                    end
               else Ok (mk_request u h)
           end
       end)
  end.
End prepare.

(** ** The read timeout of a request *)

Definition is_valid_duration (s : string) : bool := match parse_optional_duration s with Some _ => true | None => false end.

(** Precedence of the read timeout under a valid configuration: the
    target's [readtimeout] when it is a duration; otherwise, also for an
    override that does not parse, the streaming timeout for a streaming
    request when one is configured, and the plain one in every other case. *)
Theorem read_timeout_precedence `{HeaderNames} target config is_streaming :
  validate config = None ->
  denotes
    (match read_timeout_override target with
     | Some raw => if is_valid_duration raw then raw
                   else if is_streaming && negb (is_empty (trim (stream_read_timeout (proxy config)))) then stream_read_timeout (proxy config)
                   else read_timeout (proxy config)
     | None => if is_streaming && negb (is_empty (trim (stream_read_timeout (proxy config)))) then stream_read_timeout (proxy config)
               else read_timeout (proxy config)
     end)
    (resolve_read_timeout target config is_streaming).
Proof.
  intros Hvalid%validate_decides. unfold resolve_read_timeout, denotes.
  assert (Hread : parse_optional_duration (read_timeout (proxy config)) = Some (read (parsed_timeouts config))).
  { pose proof (cv_durations _ Hvalid) as Hd. rewrite !Forall_cons in Hd. apply (duration_ok_denotes true). tauto. }
  assert (Hdefault : parse_optional_duration
            (if is_streaming && negb (is_empty (trim (stream_read_timeout (proxy config)))) then stream_read_timeout (proxy config)
             else read_timeout (proxy config))
          = Some (if is_streaming then default (read (parsed_timeouts config)) (stream_read (parsed_timeouts config)) else read (parsed_timeouts config))).
  { destruct is_streaming; [|done]. cbn [andb]. change (stream_read (parsed_timeouts config)) with (parse_optional_duration (stream_read_timeout (proxy config))).
    destruct (is_empty (trim (stream_read_timeout (proxy config)))) eqn:E; cbn [negb].
    - unfold parse_optional_duration at 2. by rewrite E.
    - pose proof (cv_optional _ Hvalid) as Ho. rewrite !Forall_cons in Ho. destruct Ho as (_ & [Ho|(d & Hd & _)] & _).
      + apply is_empty_spec in Ho. congruence.
      + by rewrite Hd. }
  destruct (read_timeout_override target) as [raw|]; [|done]. unfold is_valid_duration.
  by destruct (parse_optional_duration raw) eqn:E.
Qed.

(** ** The identity of the client in the upstream request *)

Section prepared.
Context {V : HeaderValues} {P : UriParser} {N : HeaderNames}.

(** The stages of [prepare_upstream_request] that succeed. *)
Lemma prepare_ok capacity request_id config session upstream picked trusted cache out :
  (prepare_upstream_request capacity request_id config session upstream picked trusted cache).2 = Ok out ->
  exists h certified,
    (append_client_certificate_headers capacity (session_cert session)
       (append_forwarded_headers (req_header session) h (match ssl_digest (session_cert session) with Some _ => true | None => false end)
          (client_ip session) trusted) cache).2 = Ok certified
    /\ (headers out = certified \/ exists host, headers out = insert_header "Host" host certified).
Proof.
  unfold prepare_upstream_request. destruct (if negb _ then _ else _) as [h|]; [|done].
  destruct (append_client_certificate_headers _ _ _ _) as [cache' [certified|]] eqn:E; [|done]. cbn [snd]. intros Hout.
  exists h, certified. rewrite E. split; [done|].
  destruct picked as [target|]; [|injection Hout as <-; by left].
  destruct (requires_http2 _ || _); [|injection Hout as <-; by left].
  unfold try_insert in Hout. destruct (header_value_ok _); [|done]. injection Hout as <-. right. by eexists.
Qed.

(** The upstream request tells the truth about a client that is not a
    trusted proxy, whatever headers the client sent: its address, the scheme
    of its connection, no [CF-Connecting-IP], and of its certificate exactly
    the verified identity or nothing. *)
Theorem upstream_request_authentic capacity request_id config session upstream picked trusted cache out ip :
  client_ip session = Some ip -> ip <> "" -> is_trusted_proxy ip trusted = false ->
  (prepare_upstream_request capacity request_id config session upstream picked trusted cache).2 = Ok out ->
  header_values "x-forwarded-for" (headers out) = [ip]
  /\ header_values "cf-connecting-ip" (headers out) = []
  /\ header_values "x-forwarded-proto" (headers out) = [match ssl_digest (session_cert session) with Some _ => "https" | None => "http" end]
  /\ match (client_certificate_identity capacity (session_cert session) cache).2 with
     | Some id => if verified id then Forall (fun nv => header_values nv.1 (headers out) = option_values nv.2) (identity_values id)
                  else Forall (fun name => header_values name (headers out) = []) lower_names
     | None => Forall (fun name => header_values name (headers out) = []) lower_names
     end.
Proof.
  intros Hip Hne Htr (h & certified & Hc & Hout)%prepare_ok. rewrite Hip in Hc.
  assert (Hhost : forall name, name <> "host" -> header_values name (headers out) = header_values name certified).
  { intros name Hn. destruct Hout as [->|[host ->]]; [done|]. rewrite header_values_insert.
    by destruct (String.eqb_spec (to_ascii_lowercase "Host") name) as [<-|_]. }
  destruct (cert_header_values _ _ _ _ _ Hc) as [Hother Hcert].
  destruct (forwarded_values (req_header session) h (match ssl_digest (session_cert session) with Some _ => true | None => false end) ip trusted Hne Htr)
    as (Hf & Hcf & Hp).
  rewrite !Hhost by done. rewrite !Hother by (apply (bool_decide_unpack _); vm_compute; done). rewrite Hf, Hcf, Hp.
  split_and!; [done|done|by destruct (ssl_digest _)|].
  assert (Hnames : Forall (fun name => name <> "host") lower_names) by (apply (bool_decide_unpack _); vm_compute; done).
  rewrite Forall_forall in Hnames.
  assert (Hval : forall id nv, nv ∈ identity_values id -> nv.1 ∈ lower_names).
  { intros id nv Hnv. change lower_names with (map fst (identity_values id)). by apply list_elem_of_In, in_map, list_elem_of_In. }
  destruct (client_certificate_identity _ _ _).2 as [id|].
  - destruct (verified id).
    + rewrite Forall_forall in *. intros nv Hnv. rewrite Hhost by (by eapply Hnames, Hval). by apply Hcert.
    + rewrite Forall_forall in *. intros name Hn. rewrite Hhost by (by apply Hnames). by apply Hcert.
  - rewrite Forall_forall in *. intros name Hn. rewrite Hhost by (by apply Hnames). by apply Hcert.
Qed.
End prepared.

(** ** Concrete inputs *)

#[local] Instance any_value : HeaderValues := fun _ => true.
#[local] Instance any_header : HeaderNames := fun _ => true.
#[local] Instance no_uri : UriParser := fun _ => None.

Definition demo_target (o : gmap string string) : Target :=
  mk_target "a" "https://1.1.1.1" F64.f64_zero F64.f64_zero [] o Routes.Static (Some "1.1.1.1") (Some 443) true Https 1%positive 1%positive 1%positive 1%positive 1%positive.
Definition demo_cfg : Config :=
  mk_config (default_ServerConfig ":9999") default_ConsulConfig default_ProxyConfig default_LoggingConfig default_TlsConfig [] default_TcpConfig.

Lemma read_timeout_precedence_witness :
  resolve_read_timeout (demo_target {["readtimeout" := "30sec"]}) demo_cfg true = from_secs 3600
  /\ denotes "3600s" (resolve_read_timeout (demo_target {["readtimeout" := "30sec"]}) demo_cfg true).
Proof.
  split; [vm_compute; reflexivity|].
  refine (read_timeout_precedence (demo_target {["readtimeout" := "30sec"]}) demo_cfg true _). vm_compute. reflexivity.
Defined.

(** An override of zero is a duration: it is used as it is. *)
Example zero_override : resolve_read_timeout (demo_target {["readtimeout" := "0s"]}) demo_cfg false = 0.
Proof. vm_compute. reflexivity. Qed.

Example peer_options_ex :
  let p := configure_peer_options (mk_peer_options None None None None H1 None 1 None true "") (demo_target {["host" := "h.example:8443"; "tlsskipverify" := "true"]}) demo_cfg false in
  sni p = "h.example" /\ verify_cert p = false /\ alpn p = H2H1 /\ max_h2_streams p = 1 /\ connection_timeout p = Some (from_secs 5).
Proof. vm_compute. auto 10. Qed.

Definition demo_downstream : RequestHeader :=
  mk_request (mk_uri None "/" None) [("host", "h"); ("x-forwarded-for", "6.6.6.6"); ("x-client-cert-subject", "CN=root")].
Definition demo_out : RequestHeader :=
  mk_request (mk_uri None "/" None)
    [("host", "h"); ("x-request-id", "id"); ("x-forwarded-for", "9.9.9.9"); ("x-forwarded-host", "h"); ("x-forwarded-proto", "http")].

Lemma upstream_request_authentic_witness :
  header_values "x-forwarded-for" (headers demo_out) = ["9.9.9.9"].
Proof.
  exact (proj1 (upstream_request_authentic 2 "id" default_ProxyConfig (mk_session demo_downstream (mk_cert_session None None) (Some "9.9.9.9"))
    demo_downstream None [] cert_cache_default demo_out "9.9.9.9" eq_refl ltac:(discriminate) eq_refl ltac:(vm_compute; reflexivity))).
Defined.
