(* ===== verification/ClientHello.v ===== *)
(** * ClientHello: the server name of a TLS client hello

    Models [client_hello_buffer_size] and [read_server_name] of
    src/src/proxy/tcp.rs. Bytes are integers below 256. An index or a slice
    out of bounds panics: the parser is written with these failures, and
    proved free of them. *)
From S2P Require Import Prelude RustStr StrFacts Net.
From Stdlib Require Import Ascii String.
Local Open Scope string_scope.
Local Open Scope Z_scope.

Abbreviation Bytes := (list Z).

(** ** Checked indexing *)

Inductive outcome (A : Type) : Type :=
  | Done (a : A)
  | Panic
  | OutOfFuel.
Arguments Done {A} a.
Arguments Panic {A}.
Arguments OutOfFuel {A}.

Definition obind {A B} (m : outcome A) (f : A -> outcome B) : outcome B :=
  match m with Done a => f a | Panic => Panic | OutOfFuel => OutOfFuel end.
Notation "'let?' x ':=' m 'in' k" := (obind m (fun x => k)) (at level 10, x binder, k at level 200).

Definition index (data : Bytes) (i : nat) : outcome Z := match data !! i with Some b => Done b | None => Panic end.
Definition slice_from (n : nat) (data : Bytes) : outcome Bytes := if (n <=? List.length data)%nat then Done (drop n data) else Panic.
Definition slice_to (n : nat) (data : Bytes) : outcome Bytes := if (n <=? List.length data)%nat then Done (take n data) else Panic.

(** Two and three bytes as an integer. *)
Definition u16_be (a b : Z) : Z := Z.lor (Z.shiftl a 8) b.
Definition u24_be (a b c : Z) : Z := Z.lor (Z.lor (Z.shiftl a 16) (Z.shiftl b 8)) c.

(** ** String::from_utf8_lossy

    Every maximal prefix of an ill-formed sequence becomes U+FFFD. *)
Definition between (lo hi b : Z) : bool := (lo <=? b) && (b <=? hi).
Definition continuation (b : Z) : bool := between 128 191 b.
Definition replacement : Bytes := [239; 191; 189].

(** The second byte that may follow [b] in a sequence of three, of four. *)
Definition second3 (b b1 : Z) : bool :=
  if b =? 224 then between 160 191 b1 else if b =? 237 then between 128 159 b1 else between 225 239 b && continuation b1.
Definition second4 (b b1 : Z) : bool :=
  if b =? 240 then between 144 191 b1 else if b =? 244 then between 128 143 b1 else between 241 243 b && continuation b1.

Fixpoint utf8_lossy (bytes : Bytes) : Bytes :=
  match bytes with
  | [] => []
  | b :: r =>
      if b <? 128 then b :: utf8_lossy r
      else match r with
      | [] => replacement
      | b1 :: r1 =>
          if between 194 223 b then (if continuation b1 then b :: b1 :: utf8_lossy r1 else (replacement ++ utf8_lossy r)%list)
          else if between 224 239 b then
            (if second3 b b1 then
               match r1 with
               | b2 :: r2 => if continuation b2 then b :: b1 :: b2 :: utf8_lossy r2 else (replacement ++ utf8_lossy r1)%list
               | [] => replacement
               end
             else (replacement ++ utf8_lossy r)%list)
          else if between 240 244 b then
            (if second4 b b1 then
               match r1 with
               | b2 :: r2 =>
                   if continuation b2 then
                     match r2 with
                     | b3 :: r3 => if continuation b3 then b :: b1 :: b2 :: b3 :: utf8_lossy r3 else (replacement ++ utf8_lossy r2)%list
                     | [] => replacement
                     end
                   else (replacement ++ utf8_lossy r1)%list
               | [] => replacement
               end
             else (replacement ++ utf8_lossy r)%list)
          else (replacement ++ utf8_lossy r)%list
      end
  end.

Fixpoint string_of_bytes (b : Bytes) : string := match b with [] => "" | x :: b => String (chr x) (string_of_bytes b) end.

Definition from_utf8_lossy (bytes : Bytes) : string := string_of_bytes (utf8_lossy bytes).

(** ** client_hello_buffer_size *)

Definition client_hello_buffer_size (data : Bytes) : outcome (result Z string) :=
  if (List.length data <? 9)%nat then Done (Err "at least 9 bytes required to determine client hello length")
  else
    let? d0 := index data 0 in
    if negb (d0 =? 22) then Done (Err "not a TLS handshake")
    else
      let? d3 := index data 3 in
      let? d4 := index data 4 in
      let record_length := u16_be d3 d4 in
      if (record_length =? 0) || (16384 <? record_length) then Done (Err "invalid TLS record length")
      else
        let? d5 := index data 5 in
        if negb (d5 =? 1) then Done (Err "not a client hello")
        else
          let? d6 := index data 6 in
          let? d7 := index data 7 in
          let? d8 := index data 8 in
          let handshake_length := u24_be d6 d7 d8 in
          if (handshake_length =? 0) || (saturating_sub record_length 4 <? handshake_length)
          then Done (Err "invalid client hello length (fragmentation not implemented)")
          else Done (Ok (handshake_length + 9)).

(** ** read_server_name *)

(** The names of a server-name extension; [fuel] iterations. *)
Fixpoint names_loop (fuel : nat) (names : Bytes) : outcome (option string) :=
  match fuel with
  | O => OutOfFuel
  | S fuel =>
      match names with
      | [] => Done (Some "")
      | _ =>
          if (List.length names <? 3)%nat then Done None
          else
            let? name_type := index names 0 in
            let? l1 := index names 1 in
            let? l2 := index names 2 in
            let name_len := Z.to_nat (u16_be l1 l2) in
            let? names := slice_from 3 names in
            if (List.length names <? name_len)%nat then Done None
            else if name_type =? 0 then
              let? name := slice_to name_len names in
              Done (Some (to_ascii_lowercase (from_utf8_lossy name)))
            else
              let? names := slice_from name_len names in
              names_loop fuel names
      end
  end.

Definition read_names (fuel : nat) (names : Bytes) : outcome (option string) :=
  if (List.length names <? 2)%nat then Done None
  else
    let? l1 := index names 0 in
    let? l2 := index names 1 in
    let names_len := Z.to_nat (u16_be l1 l2) in
    let? names := slice_from 2 names in
    if negb (names_len =? List.length names)%nat then Done None else names_loop fuel names.

(** The extensions. *)
Fixpoint extensions_loop (fuel : nat) (data : Bytes) : outcome (option string) :=
  match fuel with
  | O => OutOfFuel
  | S fuel' =>
      match data with
      | [] => Done (Some "")
      | _ =>
          if (List.length data <? 4)%nat then Done None
          else
            let? e1 := index data 0 in
            let? e2 := index data 1 in
            let? l1 := index data 2 in
            let? l2 := index data 3 in
            let length := Z.to_nat (u16_be l1 l2) in
            let? data := slice_from 4 data in
            if (List.length data <? length)%nat then Done None
            else if u16_be e1 e2 =? 0 then let? names := slice_to length data in read_names fuel names
            else let? data := slice_from length data in extensions_loop fuel' data
      end
  end.

Definition read_server_name_with (fuel : nat) (client_hello_handshake_msg : Bytes) : outcome (option string) :=
  let data := client_hello_handshake_msg in
  if (List.length data <? 42)%nat then Done None
  else
    let? d38 := index data 38 in
    let session_id_len := Z.to_nat d38 in
    if (32 <? session_id_len)%nat || (List.length data <? 39 + session_id_len)%nat then Done None
    else
      let? data := slice_from (39 + session_id_len) data in
      if (List.length data <? 2)%nat then Done None
      else
        let? c1 := index data 0 in
        let? c2 := index data 1 in
        let cipher_suite_len := Z.to_nat (u16_be c1 c2) in
        if (cipher_suite_len mod 2 =? 1)%nat || (List.length data <? 2 + cipher_suite_len)%nat then Done None
        else
          let? data := slice_from (2 + cipher_suite_len) data in
          match data with
          | [] => Done None
          | _ =>
              let? m := index data 0 in
              let compression_methods_len := Z.to_nat m in
              if (List.length data <? 1 + compression_methods_len)%nat then Done None
              else
                let? data := slice_from (1 + compression_methods_len) data in
                match data with
                | [] => Done (Some "")
                | _ =>
                    if (List.length data <? 2)%nat then Done None
                    else
                      let? x1 := index data 0 in
                      let? x2 := index data 1 in
                      let extensions_length := Z.to_nat (u16_be x1 x2) in
                      let? data := slice_from 2 data in
                      if negb (extensions_length =? List.length data)%nat then Done None
                      else extensions_loop fuel data
                end
          end.

(** Each iteration of either loop drops bytes, so the length of the message
    bounds both. *)
Definition read_server_name (msg : Bytes) : outcome (option string) := read_server_name_with (S (List.length msg)) msg.

(** ** No panic, no endless loop *)

Definition halts {A} (m : outcome A) : Prop := exists a, m = Done a.

Lemma index_ok data i : (i < List.length data)%nat -> halts (index data i).
Proof. intros H. unfold index. destruct (data !! i) eqn:E; [by eexists|]. apply lookup_ge_None_1 in E. lia. Qed.

Lemma slice_from_ok n data : (n <= List.length data)%nat -> slice_from n data = Done (drop n data).
Proof. intros H. unfold slice_from. by rewrite (proj2 (Nat.leb_le _ _)). Qed.

Lemma slice_to_ok n data : (n <= List.length data)%nat -> slice_to n data = Done (take n data).
Proof. intros H. unfold slice_to. by rewrite (proj2 (Nat.leb_le _ _)). Qed.

Lemma halts_bind {A B} (m : outcome A) (f : A -> outcome B) : halts m -> (forall a, m = Done a -> halts (f a)) -> halts (obind m f).
Proof. intros [a ->] Hf. by apply Hf. Qed.

(** A step of the parser whose guards have been passed. *)
Ltac step :=
  match goal with
  | |- halts (Done _) => by eexists
  | |- halts (if ?b then _ else _) => destruct b eqn:?; bool_simpl
  | |- halts (obind (index _ _) _) => apply halts_bind; [apply index_ok; cbn [List.length] in *; lia|intros ? ?]
  | |- halts (obind (slice_from _ _) _) => rewrite slice_from_ok by (cbn [List.length] in *; lia); cbn [obind]
  | |- halts (obind (slice_to _ _) _) => rewrite slice_to_ok by (cbn [List.length] in *; lia); cbn [obind]
  | |- halts (match ?d with [] => _ | _ => _ end) => destruct d eqn:?
  | |- halts _ => progress cbv zeta
  end.

Lemma names_loop_halts fuel names : (List.length names < fuel)%nat -> halts (names_loop fuel names).
Proof.
  revert names. induction fuel as [|fuel IH]; intros names Hf; [lia|]. cbn [names_loop]. destruct names as [|b names]; [step|].
  repeat step. apply IH. rewrite length_drop, length_drop. cbn [List.length] in *. lia.
Qed.

Lemma read_names_halts fuel names : (List.length names < fuel)%nat -> halts (read_names fuel names).
Proof. intros Hf. unfold read_names. repeat step. apply names_loop_halts. rewrite length_drop. lia. Qed.

Lemma extensions_loop_halts fuel data : (List.length data < fuel)%nat -> halts (extensions_loop fuel data).
Proof.
  revert data. induction fuel as [|fuel IH]; intros data Hf; [lia|]. cbn [extensions_loop]. destruct data as [|b data]; [step|].
  repeat step.
  - apply read_names_halts. rewrite length_take, length_drop. cbn [List.length] in *. lia.
  - apply IH. rewrite length_drop, length_drop. cbn [List.length] in *. lia.
Qed.

Lemma read_server_name_halts fuel msg : (List.length msg < fuel)%nat -> halts (read_server_name_with fuel msg).
Proof.
  intros Hf. unfold read_server_name_with. repeat step.
  all: apply extensions_loop_halts; repeat match goal with X : drop _ _ = _ |- _ => apply (f_equal (@List.length Z)) in X; rewrite !length_drop in X end;
    rewrite ?length_drop; cbn [List.length] in *; lia.
Qed.

Lemma buffer_size_halts data : halts (client_hello_buffer_size data).
Proof. unfold client_hello_buffer_size. repeat step. Qed.

(** The client-hello parser always ends, and never indexes out of bounds:
    on every sequence of bytes, with any fuel above its length, it reports a
    name, the absence of one, or malformed input. The size check before it
    does not panic either. *)
Theorem server_name_parser_total data fuel :
  (List.length data < fuel)%nat ->
  (exists r, read_server_name_with fuel data = Done r) /\ (exists r, client_hello_buffer_size data = Done r).
Proof. intros Hf. split; [by apply read_server_name_halts|apply buffer_size_halts]. Qed.

Lemma server_name_parser_total_witness :
  (List.length [22; 3; 1] < 4)%nat /\ exists r, read_server_name_with 4 [22; 3; 1] = Done r.
Proof. split; [cbn; lia|]. apply (server_name_parser_total [22; 3; 1] 4). cbn. lia. Defined.

(** ** Parsing what a client sends *)

Definition be16 (n : nat) : Bytes := [Z.of_nat n / 256; Z.of_nat n mod 256].

(** An extension: the server names, or another one. *)
Inductive extension :=
  | ServerNames (names : list (Z * Bytes))
  | OtherExtension (type : nat) (body : Bytes).

Definition name_entry (n : Z * Bytes) : Bytes := n.1 :: be16 (List.length n.2) ++ n.2.
Definition name_list (names : list (Z * Bytes)) : Bytes := List.concat (map name_entry names).
Definition extension_body (e : extension) : Bytes :=
  match e with
  | ServerNames names => be16 (List.length (name_list names)) ++ name_list names
  | OtherExtension _ body => body
  end.
Definition extension_type (e : extension) : nat := match e with ServerNames _ => 0%nat | OtherExtension t _ => t end.
Definition extension_bytes (e : extension) : Bytes :=
  be16 (extension_type e) ++ be16 (List.length (extension_body e)) ++ extension_body e.
Definition extensions_bytes (es : list extension) : Bytes := List.concat (map extension_bytes es).

(** [head]: the handshake header, the version and the random bytes. *)
Definition client_hello (head session_id ciphers compression : Bytes) (es : list extension) : Bytes :=
  head ++ Z.of_nat (List.length session_id) :: session_id ++ be16 (List.length ciphers) ++ ciphers
  ++ Z.of_nat (List.length compression) :: compression ++ be16 (List.length (extensions_bytes es)) ++ extensions_bytes es.

(** The sizes fit their length fields, and only [ServerNames] has type 0. *)
Definition name_ok (n : Z * Bytes) : Prop := Z.of_nat (List.length n.2) < 65536.
Definition extension_ok (e : extension) : Prop :=
  Z.of_nat (List.length (extension_body e)) < 65536
  /\ match e with ServerNames names => Forall name_ok names | OtherExtension t _ => 0 < Z.of_nat t < 65536 end.

Fixpoint host_name (names : list (Z * Bytes)) : string :=
  match names with
  | [] => ""
  | (t, name) :: names => if t =? 0 then to_ascii_lowercase (from_utf8_lossy name) else host_name names
  end.
Fixpoint hello_server_name (es : list extension) : string :=
  match es with
  | [] => ""
  | ServerNames names :: _ => host_name names
  | OtherExtension _ _ :: es => hello_server_name es
  end.

Lemma u16_be_sum a b : 0 <= a -> 0 <= b < 256 -> u16_be a b = a * 256 + b.
Proof.
  intros Ha Hb. unfold u16_be. rewrite <- Z.add_nocarry_lor.
  - rewrite Z.shiftl_mul_pow2 by lia. done.
  - apply Z.bits_inj'. intros n Hn. rewrite Z.land_spec, Z.bits_0, Z.shiftl_spec by done.
    destruct (decide (n < 8)) as [Hlt|Hge]; [by rewrite Z.testbit_neg_r by lia|].
    rewrite (Z.bits_above_log2 b), andb_false_r; [done|lia|]. destruct (decide (b = 0)) as [->|]; [cbn; lia|].
    apply Z.log2_lt_pow2; [lia|]. assert (2 ^ 8 <= 2 ^ n) by (apply Z.pow_le_mono_r; lia). lia.
Qed.

Lemma be16_value n : Z.of_nat n < 65536 -> Z.to_nat (u16_be (Z.of_nat n / 256) (Z.of_nat n mod 256)) = n.
Proof. intros Hn. rewrite u16_be_sum by (Z.div_mod_to_equations; lia). Z.div_mod_to_equations; lia. Qed.

Lemma index_app pre x rest n : List.length pre = n -> index (pre ++ x :: rest) n = Done x.
Proof. intros <-. unfold index. by rewrite list_lookup_middle. Qed.

Lemma slice_from_app pre rest n : List.length pre = n -> slice_from n (pre ++ rest) = Done rest.
Proof. intros <-. rewrite slice_from_ok by (rewrite length_app; lia). by rewrite drop_app_length. Qed.

Lemma slice_to_app pre rest n : List.length pre = n -> slice_to n (pre ++ rest) = Done pre.
Proof. intros <-. rewrite slice_to_ok by (rewrite length_app; lia). by rewrite take_app_length. Qed.

Lemma slice_from_2 a b r : slice_from 2 (a :: b :: r) = Done r.
Proof. by apply (slice_from_app [a; b]). Qed.
Lemma slice_from_3 a b c r : slice_from 3 (a :: b :: c :: r) = Done r.
Proof. by apply (slice_from_app [a; b; c]). Qed.
Lemma slice_from_4 a b c d r : slice_from 4 (a :: b :: c :: d :: r) = Done r.
Proof. by apply (slice_from_app [a; b; c; d]). Qed.

Lemma guard_false (m n : nat) : (n <= m)%nat -> (m <? n)%nat = false.
Proof. apply Nat.ltb_ge. Qed.

Lemma names_loop_spec fuel names :
  Forall name_ok names -> (List.length (name_list names) < fuel)%nat -> names_loop fuel (name_list names) = Done (Some (host_name names)).
Proof.
  intros Hok. revert fuel. induction Hok as [|[t name] names Hn Hok IH]; intros [|fuel] Hf; try lia; [done|].
  change (name_list ((t, name) :: names)) with (t :: be16 (List.length name) ++ name ++ name_list names)%list in *.
  unfold be16 in *. cbn [app] in *. cbn [names_loop]. unfold name_ok in Hn. cbn [snd] in Hn.
  cbn [List.length] in Hf. rewrite length_app in Hf.
  rewrite guard_false by (cbn [List.length]; lia). cbn [index lookup list_lookup obind]. rewrite slice_from_3. cbn [obind].
  rewrite be16_value by done. rewrite guard_false by (rewrite length_app; lia). cbn [host_name]. destruct (t =? 0).
  - by rewrite slice_to_app.
  - rewrite slice_from_app by done. apply IH. lia.
Qed.

Lemma read_names_spec fuel names :
  Forall name_ok names -> Z.of_nat (List.length (name_list names)) < 65536 -> (List.length (name_list names) < fuel)%nat ->
  read_names fuel (be16 (List.length (name_list names)) ++ name_list names) = Done (Some (host_name names)).
Proof.
  intros Hok Hs Hf. unfold read_names, be16. cbn [app]. rewrite guard_false by (cbn [List.length]; lia).
  cbn [index lookup list_lookup obind]. rewrite slice_from_2. cbn [obind].
  rewrite be16_value, Nat.eqb_refl by done. by apply names_loop_spec.
Qed.

Lemma extensions_loop_spec fuel es :
  Forall extension_ok es -> (List.length (extensions_bytes es) < fuel)%nat ->
  extensions_loop fuel (extensions_bytes es) = Done (Some (hello_server_name es)).
Proof.
  intros Hok. revert fuel. induction Hok as [|e es [Hs He] Hok IH]; intros [|fuel] Hf; try lia; [done|].
  change (extensions_bytes (e :: es)) with (extension_bytes e ++ extensions_bytes es)%list in *. rewrite length_app in Hf.
  unfold extension_bytes in *. unfold be16 in *. rewrite <- !app_assoc in *. cbn [app] in *. cbn [List.length] in Hf.
  cbn [extensions_loop]. rewrite guard_false by (cbn [List.length]; lia). cbn [index lookup list_lookup obind].
  rewrite slice_from_4. cbn [obind]. rewrite be16_value by done. rewrite guard_false by (rewrite length_app; lia).
  destruct e as [names|t body]; cbn [extension_type extension_body hello_server_name] in *.
  - cbn [Z.of_nat u16_be]. change (u16_be (0 / 256) (0 mod 256) =? 0) with true. cbv iota.
    rewrite slice_to_app by done. cbn [obind]. unfold be16 in Hs, Hf. cbn [app List.length] in Hs, Hf. apply (read_names_spec (S fuel) names); [done|lia|lia].
  - pose proof (be16_value t ltac:(lia)) as Ht. destruct (u16_be _ _ =? 0) eqn:E; [bool_simpl; rewrite E in Ht; cbn in Ht; lia|].
    rewrite slice_from_app by done. cbn [obind]. apply IH. lia.
Qed.

Lemma slice_from_counted2 a b pre rest n : List.length pre = n -> slice_from (2 + n) (a :: b :: pre ++ rest)%list = Done rest.
Proof. intros H. apply (slice_from_app (a :: b :: pre)). cbn. by rewrite H. Qed.
Lemma slice_from_counted1 a pre rest n : List.length pre = n -> slice_from (1 + n) (a :: pre ++ rest)%list = Done rest.
Proof. intros H. apply (slice_from_app (a :: pre)). cbn. by rewrite H. Qed.

(** C24: Round trip of the server name: of a client hello whose fields fit
    their length prefixes the parser returns the host name of its first
    server-name extension in lower case, and the empty name when it has
    none, whatever the other fields and extensions are. *)
Theorem server_name_roundtrip head session_id ciphers compression es :
  List.length head = 38%nat -> (List.length session_id <= 32)%nat ->
  Z.of_nat (List.length ciphers) < 65536 -> Nat.Even (List.length ciphers) -> Z.of_nat (List.length compression) < 256 ->
  Z.of_nat (List.length (extensions_bytes es)) < 65536 -> Forall extension_ok es ->
  read_server_name (client_hello head session_id ciphers compression es) = Done (Some (hello_server_name es)).
Proof.
  intros Hh Hs Hc Hev Hm He Hok. unfold read_server_name. generalize (Nat.lt_succ_diag_r (List.length (client_hello head session_id ciphers compression es))).
  generalize (S (List.length (client_hello head session_id ciphers compression es))). intros fuel Hf.
  unfold client_hello in *. unfold be16 in *. cbn [app] in *. repeat (rewrite ?length_app in Hf; cbn [List.length] in Hf).
  unfold read_server_name_with.
  rewrite guard_false by (repeat (rewrite ?length_app; cbn [List.length]); lia).
  rewrite index_app by done. cbn [obind]. rewrite Nat2Z.id, (guard_false 32) by done.
  rewrite guard_false by (repeat (rewrite ?length_app; cbn [List.length]); lia). cbn [orb].
  replace (head ++ Z.of_nat (List.length session_id) :: session_id ++ _)%list
    with ((head ++ Z.of_nat (List.length session_id) :: session_id) ++ Z.of_nat (List.length ciphers) / 256 :: Z.of_nat (List.length ciphers) mod 256
           :: ciphers ++ Z.of_nat (List.length compression) :: compression ++ Z.of_nat (List.length (extensions_bytes es)) / 256
           :: Z.of_nat (List.length (extensions_bytes es)) mod 256 :: extensions_bytes es)%list by (by rewrite <- app_assoc).
  rewrite slice_from_app by (rewrite length_app; cbn [List.length]; lia). cbn [obind].
  rewrite guard_false by (cbn [List.length]; lia). cbn [index lookup list_lookup obind].
  rewrite be16_value by done. apply Nat.Even_double in Hev. rewrite (proj2 (Nat.eqb_neq _ _)).
  2: { rewrite Hev. unfold Nat.double. replace (Nat.div2 _ + Nat.div2 _)%nat with (Nat.div2 (List.length ciphers) * 2)%nat by lia. by rewrite Nat.Div0.mod_mul. }
  cbn [orb]. rewrite guard_false by (cbn [List.length]; rewrite length_app; lia).
  rewrite slice_from_counted2 by done. cbn [obind index lookup list_lookup]. rewrite Nat2Z.id.
  rewrite guard_false by (cbn [List.length]; rewrite length_app; lia). rewrite slice_from_counted1 by done. cbn [obind].
  rewrite guard_false by (cbn [List.length]; lia). cbn [index lookup list_lookup obind].
  rewrite slice_from_2. cbn [obind]. rewrite be16_value, Nat.eqb_refl by done. cbn [negb].
  apply extensions_loop_spec; [done|lia].
Qed.

Definition ascii_bytes (s : string) : Bytes := map byte (list_ascii_of_string s).

(** The name "Google.com" in the second extension, after a name of another
    type. *)
Definition demo_extensions : list extension :=
  [OtherExtension 11 [3; 0; 1; 2]; ServerNames [(1, [7]); (0, ascii_bytes "Google.com")]; OtherExtension 35 []].

Lemma server_name_roundtrip_witness :
  read_server_name (client_hello (repeat 3 38) [1; 2] [204; 20] [0] demo_extensions) = Done (Some "google.com")
  /\ read_server_name (client_hello (repeat 3 38) [1; 2] [204; 20] [0] demo_extensions) = Done (Some (hello_server_name demo_extensions)).
Proof.
  split; [vm_compute; reflexivity|]. apply server_name_roundtrip; cbn; try lia; [by exists 1%nat|].
  repeat constructor; cbn; lia.
Defined.
