(* ===== verification/Tcp.v ===== *)
(** * Tcp: the TCP proxy

    Models src/src/proxy/tcp.rs: the listener modes, the bind loop, the
    reconciliation of dynamic listeners, and a connection from its first bytes
    to its relay. A connection is a [prog] over the state of Upstream.v, so
    that TCP connections and HTTP requests interleave. Sockets are outside:
    what a client sends is a sequence of bytes, and whether a connect succeeds
    is an input. *)
From S2P Require Import Prelude F64 RustStr StrFacts Net Prog Config Routes RateLimit CircuitBreaker DnsCache Health Stats Target Weights Table Picker Http Upstream ClientHello.
From Stdlib Require Import Ascii String.
Local Open Scope string_scope.
Local Open Scope Z_scope.
Local Open Scope rust_scope.

(** ** Modes *)

Inductive TcpMode :=
  | TcpDisabled
  | TcpFixed (listen : string)
  | TcpSni (listen : string)
  | HttpsTcpSni
  | TcpDynamic (refresh : Duration).

Definition resolve_tcp_mode (config : Config) : result TcpMode string :=
  let mode := to_ascii_lowercase (trim (tcp_mode (tcp config))) in
  let listen := trim (tcp_listen (tcp config)) in
  if String.eqb mode "" || String.eqb mode "disabled" then Ok TcpDisabled
  else if String.eqb mode "tcp" then
    if is_empty listen then Err "tcp.listen cannot be empty when tcp.mode=tcp" else Ok (TcpFixed listen)
  else if String.eqb mode "tcp+sni" then
    if is_empty listen then Err "tcp.listen cannot be empty when tcp.mode=tcp+sni" else Ok (TcpSni listen)
  else if String.eqb mode "tcp-dynamic" then
    Ok (TcpDynamic (default (from_secs 5) (parse_optional_duration (refresh (tcp config)))))
  else if String.eqb mode "https+tcp+sni" then Ok HttpsTcpSni
  else Err ("unknown tcp.mode '" ++ mode ++ "', expected 'tcp', 'tcp+sni', 'https+tcp+sni', or 'tcp-dynamic'").

Inductive TcpListenerMode := Plain | Sni | HttpsFallback (addr : string).

Definition parse_listener_port (value : string) : option Z := parse_u16 (rsplit_next ":"%char value).

(** [tls_listen_addr] is that of proxy/tls/config.rs: an argument. What
    [start] runs: one listener, the manager of the dynamic ones, or nothing. *)
Inductive Service :=
  | ServeNothing
  | ServeListener (listen : string) (port : Z) (mode : TcpListenerMode)
  | ServeDynamic (refresh : Duration).

Definition serve_on (listen : string) (mode : TcpListenerMode) : Service :=
  match parse_listener_port listen with Some port => ServeListener listen port mode | None => ServeNothing end.

Definition start (tls_listen_addr : string -> string -> string) (config : Config) (mode : TcpMode) (https_fallback_addr : option string) : Service :=
  match mode with
  | TcpDisabled => ServeNothing
  | TcpFixed listen => serve_on listen Plain
  | TcpSni listen => serve_on listen Sni
  | HttpsTcpSni =>
      match https_fallback_addr with
      | None => ServeNothing
      | Some addr => serve_on (tls_listen_addr (server_listen (server config)) (tls_listen (tls config))) (HttpsFallback addr)
      end
  | TcpDynamic refresh => ServeDynamic refresh
  end.

(** ** The bind loop

    An attempt to bind succeeds, or fails and the wait that follows ends: the
    time elapsed, or the shutdown channel changed to some value. *)
Inductive wake := Slept | Changed (shutting_down : bool).
Inductive attempt := BindOk | BindFailed (w : wake).
Inductive bind_result := Listening | Cancelled | StillTrying (backoff_secs : Z).

(** The waits in seconds, and how the loop ended after the attempts. *)
Fixpoint bind_loop (backoff_secs : Z) (attempts : list attempt) : list Z * bind_result :=
  match attempts with
  | [] => ([], StillTrying backoff_secs)
  | BindOk :: _ => ([], Listening)
  | BindFailed (Changed true) :: _ => ([backoff_secs], Cancelled)
  | BindFailed _ :: attempts =>
      let '(waits, r) := bind_loop (Z.min (backoff_secs *w 2) 60) attempts in (backoff_secs :: waits, r)
  end.

(** ** Dynamic listeners

    A handle is the identity of the listener task; [stopped] are the tasks
    told to shut down, [next_task] the next identity. *)
Record Listeners := mk_listeners {
  by_port : gmap Z nat;
  stopped : list nat;
  next_task : nat;
}.

Definition stop_stale (ports : list Z) (st : Listeners) (port : Z) : Listeners :=
  if decide (port ∈ ports) then st
  else match by_port st !! port with
       | Some handle => mk_listeners (delete port (by_port st)) (stopped st ++ [handle])%list (next_task st)
       | None => st
       end.

Definition start_missing (st : Listeners) (port : Z) : Listeners :=
  match by_port st !! port with
  | Some _ => st
  | None => mk_listeners (<[port := next_task st]> (by_port st)) (stopped st) (S (next_task st))
  end.

(** [existing_ports]: the keys of the map in the order it lists them. *)
Definition reconcile_dynamic_listeners (existing_ports ports : list Z) (st : Listeners) : Listeners :=
  foldl start_missing (foldl (stop_stale ports) st existing_ports) ports.

(** ** The PROXY protocol header *)

Definition hex_group (s : Z) : string :=
  let d n := if n <? 10 then chr (48 + n) else chr (87 + n) in
  let d3 := s / 4096 in let d2 := s / 256 mod 16 in let d1 := s / 16 mod 16 in let d0 := s mod 16 in
  if 0 <? d3 then String (d d3) (String (d d2) (String (d d1) (String (d d0) "")))
  else if 0 <? d2 then String (d d2) (String (d d1) (String (d d0) ""))
  else if 0 <? d1 then String (d d1) (String (d d0) "")
  else String (d d0) "".

Definition fmt_subslice (l : list Z) : string := str_join ":" (map hex_group l).

(** The longest run of zero groups, the first of them: start and length. *)
Fixpoint longest_zeros (i start len best_start best_len : nat) (l : list Z) : nat * nat :=
  match l with
  | [] => (best_start, best_len)
  | s :: l =>
      if s =? 0 then
        let start := if (len =? 0)%nat then i else start in
        if (best_len <? S len)%nat then longest_zeros (S i) start (S len) start (S len) l
        else longest_zeros (S i) start (S len) best_start best_len l
      else longest_zeros (S i) 0 0 best_start best_len l
  end.

(** [Ipv6Addr::to_string] and [IpAddr::to_string] *)
Definition show_v6 (a : Ipv6Addr) : string :=
  match to_ipv4_mapped a with
  | Some v4 => "::ffff:" ++ show_v4 v4
  | None =>
      let '(start, len) := longest_zeros 0 0 0 0 0 (segments a) in
      if (1 <? len)%nat then fmt_subslice (take start (segments a)) ++ "::" ++ fmt_subslice (drop (start + len) (segments a))
      else fmt_subslice (segments a)
  end.
Definition show_ip (ip : IpAddr) : string := match ip with V4 a => show_v4 a | V6 a => show_v6 a end.

Definition proxy_header (client server : SocketAddr) : string :=
  let proto := match sock_ip client with V4 _ => "TCP4" | V6 _ => "TCP6" end in
  "PROXY " ++ proto ++ " " ++ show_ip (sock_ip client) ++ " " ++ show_ip (sock_ip server) ++ " "
  ++ show_uint (sock_port client) ++ " " ++ show_uint (sock_port server) ++ String carriage_return (String newline "").

(** ** A connection *)

Section tcp.
Context {G : GlobCrate} {N : SelectNth} {O : HashOrder}.

(** The client's side: the local address it reached, its own, the bytes it
    sends before it stops or the read times out; the draws and answers of the
    outside; whether connecting to an address succeeds. *)
Record Connection := mk_connection {
  cn_fuel : nat;
  cn_spurious : nat -> bool;
  cn_local_addr : option string;
  cn_client : option SocketAddr;
  cn_server : option SocketAddr;
  cn_bytes : Bytes;
  cn_rnd : nat -> nat;
  cn_lookup_host : string -> result (list SocketAddr) IoErrorKind;
  cn_connect : SocketAddr -> bool;
}.

(** How a connection went: closed before any upstream; relayed to an address
    of a target, after a PROXY header and the bytes already read, [rest] being
    copied afterwards; handed to the HTTPS listener; or failed. *)
Inductive TcpOutcome :=
  | Closed (why : string)
  | Relayed (target : Target) (addr : SocketAddr) (header : option string) (initial rest : Bytes)
  | FellBack (addr : string) (initial rest : Bytes)
  | IoError (why : string).

(** [read_exact]: [None] when the bytes stop short. *)
Definition read_exact (n : nat) (b : Bytes) : option (Bytes * Bytes) :=
  if (n <=? List.length b)%nat then Some (take n b, drop n b) else None.

Definition lookup_target (c : Connection) (strat local_addr : string) : P (option Target) :=
  let! table := load px_table in
  match lookup_tcp_route_for_local_addr table local_addr with
  | None => Ret None
  | Some route => pick (cn_rnd c) strat (targets route) (w_targets route) (rr_counter route)
  end.

Definition lookup_sni_target (c : Connection) (strat server_name : string) : P (option Target) :=
  let! table := load px_table in
  match lookup_tcp_sni_route table server_name with
  | None => Ret None
  | Some route => pick (cn_rnd c) strat (targets route) (w_targets route) (rr_counter route)
  end.

(** What happens while the slot is held. *)
Definition relay (c : Connection) (initial rest : Bytes) (target : Target) : P TcpOutcome :=
  if negb (is_host_safe target) && negb (ssrf_skip_verify target) then Ret (Closed "TCP upstream blocked by SSRF protection")
  else
    let! resolved := resolve (cn_lookup_host c) target in
    match resolved with
    | Err _ => Ret (Closed "Failed to open TCP upstream connection")
    | Ok addr =>
        if negb (cn_connect c addr) then Ret (Closed "Failed to open TCP upstream connection")
        else if proxy_proto target then
          match cn_client c, cn_server c with
          | Some client, Some server => Ret (Relayed target addr (Some (proxy_header client server)) initial rest)
          | _, _ => Ret (IoError "peer_addr")
          end
        else Ret (Relayed target addr None initial rest)
    end.

(** [proxy_tcp_streams] under the configuration it loaded: with a slot taken
    the connection is counted as active; leaving it drops the
    [TcpConnectionGuard], which gives the slot back and stops counting. *)
Definition proxy_tcp_streams_with (config : ProxyOptions) (c : Connection) (initial rest : Bytes) (target : Target) : P TcpOutcome :=
  let! slot := on_slots target (try_acquire_connection_slot (cn_fuel c) (cn_spurious c) (max_connections config)) in
  if negb (default false slot) then Ret (Closed "TCP upstream concurrency limit reached")
  else
    let! _ := gauge_connect in
    let! r := relay c initial rest target in
    let! _ := on_slots target release_connection_slot in
    let! _ := gauge_disconnect in
    Ret r.

Definition proxy_tcp_streams (c : Connection) (initial rest : Bytes) (target : Target) : P TcpOutcome :=
  let! config := load px_config in proxy_tcp_streams_with config c initial rest target.

Definition handle_tcp_connection (c : Connection) : P TcpOutcome :=
  match cn_local_addr c with
  | None => Ret (IoError "local_addr")
  | Some local_addr =>
      let! config := load px_config in
      let! found := lookup_target c (strategy config) local_addr in
      match found with
      | None => Ret (Closed "No TCP route found for local listener")
      | Some target => proxy_tcp_streams c [] (cn_bytes c) target
      end
  end.

(** The first nine bytes, then the rest of the hello: the bytes read and those
    left, or the header when it announces no client hello. *)
Definition read_client_hello (b : Bytes) : result (Bytes * Bytes) (option (Bytes * Bytes)) :=
  match read_exact 9 b with
  | None => Err None
  | Some (headers, b') =>
      match client_hello_buffer_size headers with
      | Done (Ok buffer_size) =>
          match read_exact (Z.to_nat buffer_size - 9) b' with
          | Some (body, rest) => Ok ((headers ++ body)%list, rest)
          | None => Err None
          end
      | _ => Err (Some (headers, b'))
      end
  end.

(** [read_server_name(&client_hello\[5..\])]; it neither panics nor runs out
    of fuel (see [server_name_parser_total]). *)
Definition hello_name (client_hello : Bytes) : option string :=
  match slice_from 5 client_hello with
  | Done msg => match read_server_name msg with Done r => r | _ => None end
  | _ => None
  end.

Definition handle_tcp_sni_connection (c : Connection) : P TcpOutcome :=
  let! config := load px_config in
  match read_client_hello (cn_bytes c) with
  | Err _ => Ret (IoError "read_client_hello")
  | Ok (client_hello, rest) =>
      match hello_name client_hello with
      | None => Ret (IoError "unable to parse TLS client hello server_name")
      | Some server_name =>
          if is_empty server_name then Ret (Closed "tcp+sni: server_name missing")
          else
            let! found := lookup_sni_target c (strategy config) server_name in
            match found with
            | None => Ret (Closed "No TCP SNI route found")
            | Some target => proxy_tcp_streams c client_hello rest target
            end
      end
  end.

Definition handle_https_tcp_sni_connection (c : Connection) (https_fallback_addr : string) : P TcpOutcome :=
  let! config := load px_config in
  match read_client_hello (cn_bytes c) with
  | Err None => Ret (IoError "read_exact")
  | Err (Some (headers, rest)) => Ret (FellBack https_fallback_addr headers rest)
  | Ok (client_hello, rest) =>
      match (name ← hello_name client_hello; if is_empty name then None else Some name) with
      | None => Ret (FellBack https_fallback_addr client_hello rest)
      | Some server_name =>
          let! found := lookup_sni_target c (strategy config) server_name in
          match found with
          | None => Ret (FellBack https_fallback_addr client_hello rest)
          | Some target => proxy_tcp_streams c client_hello rest target
          end
      end
  end.

(** The task spawned for an accepted connection. *)
Definition serve_connection (mode : TcpListenerMode) (c : Connection) : P TcpOutcome :=
  match mode with
  | Plain => handle_tcp_connection c
  | Sni => handle_tcp_sni_connection c
  | HttpsFallback addr => handle_https_tcp_sni_connection c addr
  end.
End tcp.

(** ** Slots under HTTP and TCP traffic *)

Section slots.
Context {G : GlobCrate} {N : SelectNth} {O : HashOrder}.
Context (l : loc) (max : Z) (Hmax : 0 < max < 2 ^ 64).

Lemma find_in {A} (f : A -> bool) o r : o ≫= List.find f = Some r -> exists rs, o = Some rs /\ r ∈ rs /\ f r = true.
Proof. destruct o as [rs|]; cbn; [|done]. intros [Hin Hf]%find_some. exists rs. split_and!; [done|by apply list_elem_of_In|done]. Qed.

Lemma routes_lookup_in t key rs r : routes t !! key = Some rs -> r ∈ rs -> r ∈ routes_of t key.
Proof. unfold routes_of. by intros ->. Qed.

Lemma local_route_in t local r :
  lookup_tcp_route_for_local_addr t local = Some r -> exists key, r ∈ routes_of t key.
Proof.
  unfold lookup_tcp_route_for_local_addr. destruct (routes t !! local ≫= List.find route_is_tcp) as [r'|] eqn:E.
  - intros [= <-]. apply find_in in E as (rs & Hrs & Hin & _). exists local. by eapply routes_lookup_in.
  - destruct (Table.parse_listener_port local) as [port|]; [|done]. cbn. unfold lookup_tcp_route.
    destruct (routes t !! (":" ++ show_uint port) ≫= List.find route_is_tcp) as [r'|] eqn:E'.
    + intros [= <-]. apply find_in in E' as (rs & Hrs & Hin & _). eexists. by eapply routes_lookup_in.
    + intros Hf. pose proof (tcp_fold_spec (":" ++ show_uint port) (iter_order (routes t)) None) as Hs. cbn in Hs, Hf. rewrite Hf in Hs.
      destruct Hs as [|([k rs] & Hin & _ & Hr & _)]; [done|]. exists k. eapply routes_lookup_in; [|exact Hr].
      rewrite iter_order_perm in Hin. by apply elem_of_map_to_list in Hin.
Qed.

Lemma sni_route_in t name r : lookup_tcp_sni_route t name = Some r -> exists key, r ∈ routes_of t key.
Proof. unfold lookup_tcp_sni_route. intros (rs & Hrs & Hin & _)%find_in. eexists. by eapply routes_lookup_in. Qed.

(** A pick along a route found in the table leaves the slots alone. *)
Lemma frames_table_pick (find : Table -> option Route) (c : Connection) strat :
  (forall t r, find t = Some r -> exists key, r ∈ routes_of t key) ->
  frames (slots_state l max)
    (bind (load px_table) (fun table => match find table with
                                        | None => Ret None
                                        | Some route => pick (cn_rnd c) strat (targets route) (w_targets route) (rr_counter route)
                                        end)).
Proof.
  intros Hfind. cbn. intros s n Hs. split; [done|]. destruct (find (px_table s)) as [r|] eqn:E; [|done].
  destruct (Hfind _ _ E) as [key Hr]. apply frames_pick. by apply (ss_apart _ _ _ _ Hs key).
Qed.

Lemma frames_relay c initial rest t : frames (slots_state l max) (relay c initial rest t).
Proof.
  unfold relay. destruct (_ && _); [done|]. apply frames_bind; [apply frames_resolve|]. intros [addr|e]; [|done].
  destruct (negb _); [done|]. destruct (proxy_proto t); [|done]. by destruct (cn_client c), (cn_server c).
Qed.

Definition no_slot {A} : A -> nat -> Prop := fun _ n => n = 0%nat.

Lemma proxy_streams_tok c initial rest t : safe_tok (slots_state l max) no_slot (proxy_tcp_streams c initial rest t) 0.
Proof.
  intros s others Hs. exists 0%nat. split; [exact Hs|]. change (safe_tok (slots_state l max) no_slot (proxy_tcp_streams_with (px_config s) c initial rest t) 0).
  unfold proxy_tcp_streams_with. rewrite (ss_max _ _ _ _ Hs).
  eapply safe_tok_bind; [by apply acquire_tok|]. intros r n Hn. destruct r as [[]|]; cbn [default from_option id negb].
  - rewrite decide_True in Hn by done. subst n. apply safe_tok_frames_bind; [apply frames_counters|]. intros _.
    eapply safe_tok_frames_bind; [apply frames_relay|]. intros o.
    eapply safe_tok_bind; [by apply release_tok|]. intros _ n ->. by apply safe_tok_frames_bind; [apply frames_counters|].
  - by rewrite decide_False in Hn.
  - by rewrite decide_False in Hn.
Qed.

Lemma serve_connection_tok mode c : safe_tok (slots_state l max) no_slot (serve_connection mode c) 0.
Proof.
  assert (Hlocal : forall strat a, frames (slots_state l max) (lookup_target c strat a)).
  { intros strat a. apply (frames_table_pick (fun t => lookup_tcp_route_for_local_addr t a)). intros t r. apply local_route_in. }
  assert (Hsni : forall strat n, frames (slots_state l max) (lookup_sni_target c strat n)).
  { intros strat n. apply (frames_table_pick (fun t => lookup_tcp_sni_route t n)). intros t r. apply sni_route_in. }
  destruct mode as [| |addr]; cbn [serve_connection].
  - unfold handle_tcp_connection. destruct (cn_local_addr c) as [a|]; [|done].
    apply safe_tok_frames_bind; [apply frames_load|]. intros config. apply safe_tok_frames_bind; [apply Hlocal|].
    intros [t|]; [apply proxy_streams_tok|done].
  - apply safe_tok_frames_bind; [apply frames_load|]. intros config. destruct (read_client_hello _) as [[hello rest]|]; [|done].
    destruct (hello_name hello) as [name|]; [|done]. destruct (is_empty name); [done|].
    apply safe_tok_frames_bind; [apply Hsni|]. intros [t|]; [apply proxy_streams_tok|done].
  - apply safe_tok_frames_bind; [apply frames_load|]. intros config. destruct (read_client_hello _) as [[hello rest]|[[]|]]; [|done..].
    destruct (_ ≫= _) as [name|]; [|done].
    apply safe_tok_frames_bind; [apply Hsni|]. intros [t|]; [apply proxy_streams_tok|done].
Qed.
End slots.

(** What the proxy works on at once: requests and connections. *)
Section traffic.
Context {G : GlobCrate} {N : SelectNth} {O : HashOrder}.

Inductive Work :=
  | HttpWork (r : RequestRun)
  | TcpWork (mode : TcpListenerMode) (c : Connection).

(** ** What reaches an upstream *)

(** A relay goes to an address the policy of its target allows, and the bytes
    already read followed by those left are the bytes the client sent, as is
    also so of a connection handed to the HTTPS listener. *)
Definition relay_ok (c : Connection) (o : TcpOutcome) : Prop :=
  match o with
  | Relayed target addr header initial rest =>
      ssrf_policy target (sock_ip addr) /\ (initial ++ rest)%list = cn_bytes c
      /\ (header = None <-> opts target !! "pxyproto" <> Some "true")
  | FellBack _ initial rest => (initial ++ rest)%list = cn_bytes c
  | _ => True
  end.

Lemma read_exact_app n b x y : read_exact n b = Some (x, y) -> (x ++ y)%list = b.
Proof. unfold read_exact. destruct (_ <=? _)%nat; [|done]. intros [= <- <-]. apply take_drop. Qed.

Lemma read_client_hello_app b :
  match read_client_hello b with Ok (x, y) => (x ++ y)%list = b | Err (Some (x, y)) => (x ++ y)%list = b | Err None => True end.
Proof.
  unfold read_client_hello. destruct (read_exact 9 b) as [[x y]|] eqn:E; [|done]. apply read_exact_app in E.
  destruct (client_hello_buffer_size x) as [[size|]| |]; try done.
  destruct (read_exact _ y) as [[x' y']|] eqn:E'; [|done]. apply read_exact_app in E'. by rewrite <- app_assoc, E'.
Qed.

Lemma resolved_ok lookup_host t :
  safe (fun _ => True) (fun r => match r with Ok addr => ssrf_policy t (sock_ip addr) | Err _ => True end) (resolve lookup_host t).
Proof.
  apply (safe_bind _ (fun r => match r with Some (Ok addr) => ssrf_policy t (sock_ip addr) | _ => True end)).
  - apply safe_access. intros s _. split; [done|]. destruct (resolve_cached (proxy_ms s) t (px_dns s)) as [d [[addr|]|]] eqn:E; try done. cbn.
    by apply (cached_address_allowed _ _ _ _ _ E).
  - intros [r|] Hr; [done|]. apply safe_access. intros s _. split; [done|].
    destruct (resolve_answer (proxy_ms s) (lookup_host (addr_str t)) t (px_dns s)) as [d [addr|]] eqn:E; try done. cbn.
    by apply (answered_address_allowed _ _ _ _ _ _ E).
Qed.

Lemma relay_safe c initial rest t :
  (initial ++ rest)%list = cn_bytes c -> safe (fun _ => True) (relay_ok c) (proxy_tcp_streams c initial rest t).
Proof.
  intros Hb. apply safe_load_bind. intros s _. eapply safe_bind; [apply safe_any|]. intros slot _.
  destruct (negb _); [done|]. eapply safe_bind; [apply safe_any|]. intros _ _. apply (safe_bind _ (relay_ok c)).
  - unfold relay. destruct (_ && _); [done|]. eapply safe_bind; [apply resolved_ok|]. intros [addr|e] Ha; [|done].
    destruct (negb _); [done|]. unfold proxy_proto. pose proof (opt_is_true_spec "pxyproto" t) as Hp. destruct (opt_is_true "pxyproto" t).
    + destruct (cn_client c), (cn_server c); try done. cbn. split_and!; [done|done|]. split; [done|]. intros Hn. by destruct Hn; apply Hp.
    + cbn. split_and!; [done|done|]. split; [|done]. intros _ E. by apply Hp in E.
  - intros o Ho. eapply safe_bind; [apply safe_any|]. intros _ _. eapply safe_bind; [apply safe_any|done].
Qed.
End traffic.

Section relayed.
Context {G : GlobCrate} {N : SelectNth} {O : HashOrder}.

Lemma serve_connection_safe mode c : safe (fun _ => True) (relay_ok c) (serve_connection mode c).
Proof.
  assert (Hnone : forall why, relay_ok c (Closed why)) by done.
  pose proof (read_client_hello_app (cn_bytes c)) as Hb. destruct mode as [| |addr]; cbn [serve_connection].
  - unfold handle_tcp_connection. destruct (cn_local_addr c) as [a|]; [|done]. apply safe_load_bind. intros s _.
    eapply safe_bind; [apply safe_any|]. intros [t|] _; [by apply relay_safe|done].
  - apply safe_load_bind. intros s _. destruct (read_client_hello _) as [[hello rest]|]; [|done].
    destruct (hello_name hello) as [name|]; [|done]. destruct (is_empty name); [done|].
    eapply safe_bind; [apply safe_any|]. intros [t|] _; [by apply relay_safe|done].
  - apply safe_load_bind. intros s _. destruct (read_client_hello _) as [[hello rest]|[[]|]]; [|done..].
    destruct (_ ≫= _) as [name|]; [|done].
    eapply safe_bind; [apply safe_any|]. intros [t|] _; [by apply relay_safe|done].
Qed.

(** C25: However the rest of the system changes the shared state while a
    connection is served, a relay goes only to an address its target's SSRF
    policy allows, no byte the client sent is lost, duplicated or reordered
    on its way to the upstream or to the HTTPS listener, and the PROXY header
    is sent exactly to the targets that ask for it. *)
Theorem tcp_relay_sound mode c s0 s o :
  clos_refl_trans_1n _ (pool_step (fun _ _ => True)) (s0, [serve_connection mode c]) (s, [Ret o]) -> relay_ok c o.
Proof.
  intros Hsteps. destruct (pool_invariant (fun _ => True) (relay_ok c) _ _ _ (fun _ _ _ _ => I) Hsteps) as [_ Ho].
  - split; [done|]. repeat constructor. apply serve_connection_safe.
  - by apply Forall_cons in Ho as [? _].
Qed.
End relayed.

(** ** The bind loop *)

Definition backoff_at (k : nat) : Z := Z.min (2 ^ Z.of_nat k) 60.

Lemma backoff_next b k : b = backoff_at k -> Z.min (b *w 2) 60 = backoff_at (S k).
Proof.
  intros ->. unfold backoff_at. rewrite Nat2Z.inj_succ, Z.pow_succ_r by lia.
  assert (0 < 2 ^ Z.of_nat k) by (apply Z.pow_pos_nonneg; lia). rewrite wrapping_mul_small by (unfold is_u64; lia). lia.
Qed.

Lemma bind_loop_spec k attempts :
  let r := bind_loop (backoff_at k) attempts in
  r.1 = map backoff_at (seq k (List.length r.1))
  /\ match r.2 with
     | Listening => exists ws, attempts = (map BindFailed ws ++ BindOk :: drop (S (List.length ws)) attempts)%list /\ Changed true ∉ ws /\ List.length ws = List.length r.1
     | Cancelled => exists ws, attempts = (map BindFailed ws ++ BindFailed (Changed true) :: drop (S (List.length ws)) attempts)%list /\ Changed true ∉ ws
     | StillTrying b => exists ws, attempts = map BindFailed ws /\ Changed true ∉ ws /\ b = backoff_at (k + List.length ws)
     end.
Proof.
  revert k. induction attempts as [|a attempts IH]; intros k; cbn [bind_loop].
  - split; [done|]. exists []. cbn. rewrite Nat.add_0_r. split_and!; [done|apply not_elem_of_nil|done].
  - assert (Hgo : forall w, w <> Changed true ->
       let r := (let '(waits, r) := bind_loop (Z.min (backoff_at k *w 2) 60) attempts in (backoff_at k :: waits, r)) in
       r.1 = map backoff_at (seq k (List.length r.1))
       /\ match r.2 with
          | Listening => exists ws, BindFailed w :: attempts = (map BindFailed ws ++ BindOk :: drop (S (List.length ws)) (BindFailed w :: attempts))%list /\ Changed true ∉ ws /\ List.length ws = List.length r.1
          | Cancelled => exists ws, BindFailed w :: attempts = (map BindFailed ws ++ BindFailed (Changed true) :: drop (S (List.length ws)) (BindFailed w :: attempts))%list /\ Changed true ∉ ws
          | StillTrying b => exists ws, BindFailed w :: attempts = map BindFailed ws /\ Changed true ∉ ws /\ b = backoff_at (k + List.length ws)
          end).
    { intros w Hw. rewrite (backoff_next _ k) by done. specialize (IH (S k)). destruct (bind_loop (backoff_at (S k)) attempts) as [waits r]. cbn [fst snd] in *.
      destruct IH as [Hwaits Hr]. split; [cbn; by rewrite Hwaits at 1|].
      assert (Hni : forall ws, Changed true ∉ ws -> Changed true ∉ w :: ws) by (intros ws Hws [E|?]%elem_of_cons; [by destruct Hw|done]).
      destruct r.
      - destruct Hr as (ws & E & Hn & Hlen). exists (w :: ws). split_and!; [cbn; by rewrite E at 1|by apply Hni|cbn; by rewrite Hlen].
      - destruct Hr as (ws & E & Hn). exists (w :: ws). split; [cbn; by rewrite E at 1|by apply Hni].
      - destruct Hr as (ws & -> & Hn & ->). exists (w :: ws). split_and!; [done|by apply Hni|cbn; f_equal; lia]. }
    destruct a as [|[|[]]].
    + split; [done|]. exists []. split_and!; [done|apply not_elem_of_nil|done].
    + by apply (Hgo Slept).
    + split; [done|]. exists []. split; [done|apply not_elem_of_nil].
    + by apply (Hgo (Changed false)).
Qed.

(** The listener is never given up: starting with one second, the waits
    between attempts to bind double up to sixty seconds and stay there; the
    loop ends with the first attempt that succeeds unless a shutdown is
    signalled during an earlier wait, and otherwise goes on. *)
Theorem bind_retries attempts :
  let r := bind_loop 1 attempts in
  Forall (fun w => 1 <= w <= 60) r.1
  /\ (forall k w, r.1 !! k = Some w -> w = Z.min (2 ^ Z.of_nat k) 60)
  /\ (r.2 = Listening <-> exists ws more, attempts = (map BindFailed ws ++ BindOk :: more)%list /\ Changed true ∉ ws).
Proof.
  pose proof (bind_loop_spec 0 attempts) as Hs. change (backoff_at 0) with 1 in Hs. cbv zeta in Hs. destruct Hs as [Hw Hr].
  assert (Hk : forall k w, (bind_loop 1 attempts).1 !! k = Some w -> w = Z.min (2 ^ Z.of_nat k) 60).
  { intros k w. rewrite Hw, list_lookup_fmap. destruct (seq 0 _ !! k) as [j|] eqn:E; [|done]. apply lookup_seq in E as [-> _]. by intros [= <-]. }
  split_and!; [|done|].
  - apply Forall_lookup. intros k w Hkw. rewrite (Hk k w Hkw). assert (0 < 2 ^ Z.of_nat k) by (apply Z.pow_pos_nonneg; lia). lia.
  - split.
    + intros E. rewrite E in Hr. destruct Hr as (ws & Ha & Hn & _). by exists ws, (drop (S (List.length ws)) attempts).
    + intros (ws & more & -> & Hn). clear Hw Hr Hk. generalize 1. induction ws as [|w ws IH]; intros b; [done|].
      apply not_elem_of_cons in Hn as [Hw Hn]. cbn [map app bind_loop].
      specialize (IH Hn (Z.min (b *w 2) 60)). destruct (bind_loop _ _) as [waits r]. cbn in IH. subst r.
      destruct w as [|[]]; [done|by destruct Hw|done].
Qed.

(** ** Reconciling the dynamic listeners *)

(** Running tasks are distinct, none has been told to stop, and identities
    are never reused. *)
Record listeners_ok (st : Listeners) : Prop := {
  lo_fresh : forall p h, by_port st !! p = Some h -> (h < next_task st)%nat /\ h ∉ stopped st;
  lo_inj : forall p q h, by_port st !! p = Some h -> by_port st !! q = Some h -> p = q;
  lo_stopped : forall h, h ∈ stopped st -> (h < next_task st)%nat;
}.

Lemma stop_stale_spec ports st p0 :
  listeners_ok st ->
  let st' := stop_stale ports st p0 in
  listeners_ok st' /\ next_task st' = next_task st
  /\ (forall p, by_port st' !! p = if decide (p = p0 /\ p ∉ ports) then None else by_port st !! p)
  /\ (forall h, h ∈ stopped st' <-> h ∈ stopped st \/ (by_port st !! p0 = Some h /\ p0 ∉ ports)).
Proof.
  intros Hok. unfold stop_stale. destruct (decide (p0 ∈ ports)) as [Hin|Hin].
  - split_and!; [done|done| |].
    + intros p. by destruct (decide _) as [[-> ?]|].
    + intros h. split; [tauto|]. by intros [?|[_ ?]].
  - destruct (by_port st !! p0) as [h0|] eqn:E; [|split_and!; [done|done| |naive_solver]].
    2: { intros p. by destruct (decide _) as [[-> _]|]. }
    destruct Hok as [Hf Hi Hs]. cbn. split_and!; [|done| |].
    + split; cbn.
      * intros p h [Hp Hl]%lookup_delete_Some. destruct (Hf _ _ Hl). split; [done|]. rewrite elem_of_app, list_elem_of_singleton.
        intros [?| ->]; [done|]. by destruct Hp; apply (Hi p0 p h0).
      * intros p q h [_ Hp]%lookup_delete_Some [_ Hq]%lookup_delete_Some. by eapply Hi.
      * intros h. rewrite elem_of_app, list_elem_of_singleton. intros [?| ->]; [by apply Hs|by apply (Hf p0)].
    + intros p. destruct (decide (p = p0 /\ p ∉ ports)) as [[-> _]|Hn]; [by rewrite lookup_delete_eq|].
      rewrite lookup_delete_ne; [done|]. intros <-. by apply Hn.
    + intros h. rewrite elem_of_app, list_elem_of_singleton. split; [intros [?| ->]; tauto|]. intros [?|[[= ->] _]]; tauto.
Qed.

Lemma stop_all_spec ports l st :
  listeners_ok st ->
  let st' := foldl (stop_stale ports) st l in
  listeners_ok st' /\ next_task st' = next_task st
  /\ (forall p, by_port st' !! p = if decide (p ∈ l /\ p ∉ ports) then None else by_port st !! p)
  /\ (forall h, h ∈ stopped st' <-> h ∈ stopped st \/ exists p, p ∈ l /\ by_port st !! p = Some h /\ p ∉ ports).
Proof.
  revert st. induction l as [|p0 l IH]; intros st Hok; cbn [foldl].
  - split_and!; [done|done| |].
    + intros p. by destruct (decide _) as [[?%elem_of_nil _]|].
    + intros h. split; [tauto|]. by intros [?|(p & ?%elem_of_nil & _)].
  - destruct (stop_stale_spec ports st p0 Hok) as (Hok1 & Hn1 & Hp1 & Hs1). destruct (IH _ Hok1) as (Hok2 & Hn2 & Hp2 & Hs2).
    split_and!; [done|by rewrite Hn2| |].
    + intros p. rewrite Hp2, Hp1. repeat case_decide; try done; exfalso; rewrite elem_of_cons in *; tauto.
    + intros h. rewrite Hs2, Hs1. split.
      * intros [[?|[? ?]]|(p & Hin & Hp & Hnp)]; [by left|right; exists p0; split_and!; [by left|done|done]|].
        rewrite Hp1 in Hp. case_decide; [done|]. right. exists p. split_and!; [by right|done|done].
      * intros [?|(p & [->|Hin]%elem_of_cons & Hp & Hnp)]; [tauto|tauto|].
        destruct (decide (p = p0)) as [->|Hne]; [tauto|]. right. exists p. split_and!; [done| |done].
        rewrite Hp1. case_decide; [tauto|done].
Qed.

Lemma start_missing_spec st p0 :
  listeners_ok st ->
  let st' := start_missing st p0 in
  listeners_ok st' /\ stopped st' = stopped st /\ (next_task st <= next_task st')%nat
  /\ is_Some (by_port st' !! p0)
  /\ (forall p h, by_port st !! p = Some h -> by_port st' !! p = Some h)
  /\ (forall p h, by_port st' !! p = Some h -> by_port st !! p = Some h \/ p = p0 /\ (next_task st <= h < next_task st')%nat).
Proof.
  intros Hok. unfold start_missing. destruct (by_port st !! p0) as [h0|] eqn:E; [rewrite E; split_and!; eauto|].
  destruct Hok as [Hf Hi Hs]. cbn. split_and!; [|done|lia|by rewrite lookup_insert_eq| |].
  - split; cbn.
    + intros p h [[<- <-]|[Hne Hp]]%lookup_insert_Some; [split; [lia|]; intros ?%Hs; lia|]. destruct (Hf _ _ Hp). split; [lia|done].
    + intros p q h [[<- <-]|[Hne Hp]]%lookup_insert_Some [[<- E2]|[Hne2 Hq]]%lookup_insert_Some; [done| | |by eapply Hi].
      * apply Hf in Hq. lia.
      * subst. apply Hf in Hp. lia.
    + intros h ?%Hs. lia.
  - intros p h Hp. rewrite lookup_insert_ne; [done|]. intros <-. congruence.
  - intros p h [[<- <-]|[Hne Hp]]%lookup_insert_Some; [right; split; [done|lia]|by left].
Qed.

Lemma start_all_spec ports st :
  listeners_ok st ->
  let st' := foldl start_missing st ports in
  listeners_ok st' /\ stopped st' = stopped st /\ (next_task st <= next_task st')%nat
  /\ (forall p, p ∈ ports -> is_Some (by_port st' !! p))
  /\ (forall p h, by_port st !! p = Some h -> by_port st' !! p = Some h)
  /\ (forall p h, by_port st' !! p = Some h -> by_port st !! p = Some h \/ p ∈ ports /\ (next_task st <= h)%nat).
Proof.
  revert st. induction ports as [|p0 ports IH]; intros st Hok; cbn [foldl].
  - split_and!; try done; [by intros p ?%elem_of_nil|auto].
  - destruct (start_missing_spec st p0 Hok) as (Hok1 & Hs1 & Hn1 & [h0 H01] & Hk1 & Hb1).
    destruct (IH _ Hok1) as (Hok2 & Hs2 & Hn2 & H02 & Hk2 & Hb2). split_and!; [done|by rewrite Hs2|lia| | |].
    + intros p [->|Hin]%elem_of_cons; [|by apply H02]. exists h0. by apply Hk2.
    + intros p h Hp. by apply Hk2, Hk1.
    + intros p h [Hp|[Hin Hp]]%Hb2; [|right; split; [by right|lia]]. apply Hb1 in Hp as [?|[-> ?]]; [by left|].
      right. split; [by left|lia].
Qed.

(** Reconciliation leaves exactly one running listener per wanted port:
    a listener already running on a wanted port is kept, one on a port no
    longer wanted is told to stop, the others are started as new tasks, and
    no running task was ever told to stop. *)
Theorem reconcile_spec existing ports st :
  listeners_ok st -> (forall p, p ∈ existing <-> is_Some (by_port st !! p)) ->
  let st' := reconcile_dynamic_listeners existing ports st in
  listeners_ok st'
  /\ (forall p, is_Some (by_port st' !! p) <-> p ∈ ports)
  /\ (forall p h, p ∈ ports -> by_port st !! p = Some h -> by_port st' !! p = Some h)
  /\ (forall p h, by_port st' !! p = Some h -> by_port st !! p = None -> (next_task st <= h)%nat)
  /\ (forall h, h ∈ stopped st' <-> h ∈ stopped st \/ exists p, by_port st !! p = Some h /\ p ∉ ports).
Proof.
  intros Hok Hex. unfold reconcile_dynamic_listeners.
  destruct (stop_all_spec ports existing st Hok) as (Hok1 & Hn1 & Hp1 & Hs1).
  destruct (start_all_spec ports _ Hok1) as (Hok2 & Hs2 & Hn2 & H02 & Hk2 & Hb2). cbv zeta in *. split_and!; [done| | | |].
  - intros p. split; [|by apply H02]. intros [h [Hp|[? _]]%Hb2]; [|done]. rewrite Hp1 in Hp. case_decide as Hd; [done|].
    destruct (decide (p ∈ ports)); [done|]. destruct Hd. split; [apply Hex; by exists h|done].
  - intros p h Hin Hp. apply Hk2. rewrite Hp1. case_decide; [tauto|done].
  - intros p h [Hp|[_ ?]]%Hb2 Hnone; [|by rewrite <- Hn1]. rewrite Hp1 in Hp. case_decide; congruence.
  - intros h. rewrite Hs2, Hs1. split; (intros [?|H]; [by left|right]).
    + destruct H as (p & _ & ?). by exists p.
    + destruct H as (p & Hp & ?). exists p. split; [apply Hex; by exists h|done].
Qed.

(** ** Concrete traffic *)

#[local] Instance no_glob : GlobCrate := {| Pattern := unit; pattern_new _ := None; pattern_matches _ _ := false |}.
#[local] Instance list_order : HashOrder := {| iter_order m := map_to_list m; iter_order_perm m := Permutation_refl _ |}.

Definition demo_of (u h : string) (l : loc) : Target :=
  mk_target "a" u f64_zero f64_zero [] {["pxyproto" := "true"]} Routes.Static (Some h) (Some 4222) false Tcp
    l (l + 1)%positive (l + 2)%positive (l + 3)%positive (l + 4)%positive.
Definition demo_target : Target := demo_of "tcp://8.8.8.8:4222" "8.8.8.8" 2%positive.
Definition demo_table : Table :=
  mk_table {[":4222" := [mk_route ":4222" "/" None [demo_target] [demo_target] 1%positive]]} true None [demo_target].
Definition demo_state : ProxyState :=
  mk_proxy demo_table (mk_heap 12%positive ∅ ∅ ∅ ∅) (mk_options "prefix" "rr" true 404 0 0 1) (with_ttl 30 10) 1000000000 (mk_counters 0 0 0 0 0 0).
Definition demo_addr : SocketAddr := mk_sock (V4 (mk_v4 8 8 8 8)) 4222.
Definition demo_client : SocketAddr := mk_sock (V6 (mk_v6 8193 3512 0 0 0 0 0 1)) 5555.
Definition demo_conn : Connection :=
  mk_connection 2 (fun _ => false) (Some "127.0.0.1:4222") (Some demo_client) (Some demo_client) [1; 2; 3] (fun _ => 0%nat)
    (fun _ => Ok [demo_addr]) (fun _ => true).
Definition demo_outcome : TcpOutcome :=
  Relayed demo_target demo_addr (Some (proxy_header demo_client demo_client)) [] [1; 2; 3].

Example proxy_header_ex :
  proxy_header demo_client demo_client = "PROXY TCP6 2001:db8::1 2001:db8::1 5555 5555" ++ String carriage_return (String newline "")
  /\ map show_v6 [mk_v6 0 0 0 0 0 0 0 0; mk_v6 1 0 0 2 0 0 0 3; mk_v6 0 0 0 0 0 65535 2560 1; mk_v6 1 0 2 3 4 5 6 4096]
     = ["::"; "1:0:0:2::3"; "::ffff:10.0.0.1"; "1:0:2:3:4:5:6:1000"].
Proof. vm_compute. split; reflexivity. Qed.

Lemma demo_relayed : (run (serve_connection Plain demo_conn) demo_state).2 = demo_outcome.
Proof. vm_compute. reflexivity. Qed.

Lemma tcp_relay_sound_witness :
  proxy_header demo_client demo_client <> "" /\ relay_ok demo_conn demo_outcome.
Proof.
  split; [discriminate|].
  apply (tcp_relay_sound Plain demo_conn demo_state (run (serve_connection Plain demo_conn) demo_state).1 demo_outcome).
  rewrite <- demo_relayed. apply run_pool.
Defined.

Definition demo_listeners : Listeners := mk_listeners {[80 := 0%nat; 443 := 2%nat]} [1%nat] 3.

Lemma demo_by_port p h : by_port demo_listeners !! p = Some h <-> p = 80 /\ h = 0%nat \/ p = 443 /\ h = 2%nat.
Proof.
  change (by_port demo_listeners) with (<[80 := 0%nat]> ({[443 := 2%nat]} : gmap Z nat)).
  rewrite lookup_insert_Some, lookup_singleton_Some. intuition (subst; lia || auto).
Qed.

Lemma demo_listeners_ok : listeners_ok demo_listeners.
Proof.
  split.
  - intros p h [[-> ->]|[-> ->]]%demo_by_port; cbn; (split; [lia|]); rewrite list_elem_of_singleton; lia.
  - intros p q h [[-> ->]|[-> ->]]%demo_by_port [[-> ?]|[-> ?]]%demo_by_port; done.
  - intros h ->%list_elem_of_singleton. cbn. lia.
Qed.

Lemma reconcile_spec_witness :
  by_port (reconcile_dynamic_listeners [80; 443] [443; 8443] demo_listeners) = {[443 := 2%nat; 8443 := 3%nat]}
  /\ listeners_ok (reconcile_dynamic_listeners [80; 443] [443; 8443] demo_listeners).
Proof.
  split; [vm_compute; reflexivity|]. apply (reconcile_spec [80; 443] [443; 8443] demo_listeners demo_listeners_ok).
  intros p. rewrite !elem_of_cons, elem_of_nil. split.
  - intros [->|[->|[]]]; by eexists.
  - intros [h [[-> _]|[-> _]]%demo_by_port]; auto.
Defined.
