(* ===== verification/Moments.v ===== *)
(** * Moments: what an answer rests on

    A request or a connection reads the shared state several times, and the
    rest of the balancer moves between two reads: the table may be rebuilt
    between the lookup and the fallback, the configuration changed after the
    lookup began, a target found unhealthy after it was picked. This file
    says of the answer of src/src/proxy/handler/upstream.rs and of
    src/src/proxy/tcp.rs at which of these moments each part of it held:
    [traced] (Prog.v) collects the states that were read. Balancer.v
    uses it for the whole system. *)
From S2P Require Import Prelude F64 RustStr StrFacts Net Prog Routes RateLimit CircuitBreaker DnsCache Health Stats Target Weights Table Picker Http Upstream.
From S2P Require Import ClientHello Tcp.
From Stdlib Require Import Ascii String.
Local Open Scope string_scope.
Local Open Scope Z_scope.
Local Open Scope rust_scope.

Section moments.
Context {G : GlobCrate} {N : SelectNth} {O : HashOrder}.
Implicit Types (V : ProxyState -> Prop) (t : Target).

(** ** Picking *)

Lemma pick_member rnd strat ts w rr h t :
  (pick_target_by_strategy rnd strat ts w rr h).2 = Some t -> t ∈ ts \/ t ∈ w.
Proof.
  assert (Hrr : (round_robin_pick ts w rr h).2 = Some t -> t ∈ ts \/ t ∈ w).
  { unfold round_robin_pick. destruct w as [|w0 w]; [done|]. destruct ts as [|t0 ts]; [done|]. cbn [snd].
    intros Ht. right. by eapply list_elem_of_lookup_2. }
  unfold pick_target_by_strategy. destruct (_ || is_empty strat); [done|]. destruct (_ || _); [|destruct (_ || _); [|done]]; cbn.
  - unfold random_pick. destruct w as [|w0 w]; [done|]. intros Ht. right. by eapply list_elem_of_lookup_2.
  - pose proof (least_connections_spec h ts) as Hlc. destruct (least_connections_pick h ts) as [u|]; [|done].
    intros [= <-]. left. apply Hlc.
Qed.

Definition picked_from (ts w : list Target) (r : option Target) : Prop := match r with Some t => t ∈ ts \/ t ∈ w | None => True end.

Lemma pick_safe rnd strat ts w rr : safe (fun _ => True) (picked_from ts w) (pick rnd strat ts w rr).
Proof.
  apply safe_access. intros s _. split; [done|]. pose proof (pick_member rnd strat ts w rr (px_heap s)) as Hp.
  destruct (pick_target_by_strategy _ _ _ _ _ _) as [h [t|]]; [|done]. by apply Hp.
Qed.

(** ** Finding a target *)

Definition healthy_in V t : Prop := exists s, V s /\ is_probe_healthy (get_tracker (health_tracker t) (px_heap s)) = true.

Lemma healthy_in_mono V V' t : (forall x, V x -> V' x) -> healthy_in V t -> healthy_in V' t.
Proof. intros Hv (s & Hs & Hh). exists s. auto. Qed.

(** A check of the probes followed by anything. *)
Lemma traced_probe {A} V t (f : bool -> P A) Q :
  (forall V', (forall x, V x -> V' x) -> healthy_in V' t -> traced Q V' (f true)) ->
  (forall V', (forall x, V x -> V' x) -> traced Q V' (f false)) -> traced Q V (bind (probe_healthy t) f).
Proof.
  intros Ht Hf. apply traced_load. intros s. destruct (is_probe_healthy _) eqn:E; [apply Ht|apply Hf]; auto.
  exists s. auto.
Qed.

(** A yes came with the probes healthy. *)
Definition yes_healthy V t (V' : ProxyState -> Prop) (ok : bool) : Prop := (forall x, V x -> V' x) /\ (ok = true -> healthy_in V' t).

Lemma traced_last V V' t (m : P bool) :
  (forall x, V x -> V' x) -> healthy_in V' t -> traced (yes_healthy V t) V' m.
Proof.
  intros Hv Hh. eapply traced_weaken; [|apply (traced_safe (fun _ => True)), safe_any]. intros V2 ok [Hv2 _].
  split; [auto|]. intros _. by eapply healthy_in_mono.
Qed.

Lemma traced_usable V cb t : traced (yes_healthy V t) V (usable cb t).
Proof.
  apply traced_probe; [|by split]. intros V' Hv Hh. cbn [negb]. destruct (negb cb); [by split|]. by apply traced_last.
Qed.

Lemma traced_usable_fallback V picked t : traced (yes_healthy V t) V (usable_fallback picked t).
Proof.
  unfold usable_fallback. destruct (String.eqb _ _); [by split|]. apply traced_probe; [|by split].
  intros V' Hv Hh. by apply traced_last.
Qed.

Lemma traced_filter V (f : Target -> P bool) ts :
  (forall V t, traced (yes_healthy V t) V (f t)) ->
  traced (fun V' l => (forall x, V x -> V' x) /\ forall t, t ∈ l -> t ∈ ts /\ healthy_in V' t) V (filter_prog f ts).
Proof.
  intros Hf. revert V. induction ts as [|t ts IH]; intros V; cbn [filter_prog].
  { split; [done|]. by intros t ?%elem_of_nil. }
  eapply traced_bind; [apply Hf|]. intros V1 keep [H1' Hk]. eapply traced_bind; [apply IH|]. intros V2 l [H2' Hl].
  split; [auto|]. intros u Hu. destruct keep; [apply elem_of_cons in Hu as [->|Hu]|].
  - split; [by left|]. eapply healthy_in_mono; [|by apply Hk]. auto.
  - destruct (Hl u Hu). split; [by right|done].
  - destruct (Hl u Hu). split; [by right|done].
Qed.

(** What was found along a list of candidate routes. *)
Definition found_in headers (rs : list Route) V (V' : ProxyState -> Prop) (r : option Target) : Prop :=
  (forall x, V x -> V' x)
  /\ match r with
     | Some t => (exists route, route ∈ rs /\ route_offers headers route t) /\ healthy_in V' t
     | None => True
     end.

Lemma found_in_cons headers route rs V V0 V' r :
  (forall x, V x -> V0 x) -> found_in headers rs V0 V' r -> found_in headers (route :: rs) V V' r.
Proof.
  intros Hv [Hv' Hr]. split; [auto|]. destruct r as [t|]; [|done]. destruct Hr as [(r & ? & ?) ?].
  split; [|done]. exists r. split; [by right|done].
Qed.

Lemma traced_try V rnd1 rnd2 strat cb headers route :
  traced (found_in headers [route] V) V (try_route rnd1 rnd2 strat cb headers route).
Proof.
  unfold try_route. destruct (route_choice headers route) as [[ts w]|] eqn:Ec; [|by split].
  destruct (route_choice_spec _ _ _ _ Ec) as (_ & _ & Hoff & _).
  eapply traced_bind; [apply traced_safe, pick_safe|]. intros V1 [picked|] [H1' Hp]; [|by split].
  assert (Ho : forall t, t ∈ ts \/ t ∈ w -> exists r, r ∈ [route] /\ route_offers headers r t).
  { intros t Ht. exists route. split; [by left|by apply Hoff]. }
  eapply traced_bind; [apply traced_usable|]. intros V2 [] [H2' Hu].
  { split; [auto|]. split; [by apply Ho|by apply Hu]. }
  eapply traced_bind; [apply traced_filter; intros; apply traced_usable_fallback|]. intros V3 l [H3' Hl].
  destruct l as [|f fs]; [split; auto|].
  eapply traced_weaken; [|apply traced_safe, pick_safe]. intros V4 [t|] [H4' Ht]; split; auto.
  destruct (Hl t ltac:(by destruct Ht)) as [Hin Hh]. split; [apply Ho; by left|]. by eapply healthy_in_mono.
Qed.

Lemma traced_lookup V rnd strat cb headers i rs :
  traced (found_in headers rs V) V (lookup_in_routes rnd strat cb headers i rs).
Proof.
  revert V i. induction rs as [|route rs IH]; intros V i; [by split|]. cbn [lookup_in_routes].
  eapply traced_bind; [apply traced_try|]. intros V1 [t|] [H1' Hr].
  - split; [done|]. destruct Hr as [(r & ->%list_elem_of_singleton & ?) ?]. split; [|done]. exists route. split; [by left|done].
  - eapply traced_weaken; [|apply IH]. intros V' r. by apply found_in_cons.
Qed.

(** ** The inline fallback of the breaker *)

Lemma offers_inline headers route t :
  t ∈ targets route -> negb (any_header_constraint route) || matches_headers headers t = true -> route_offers headers route t.
Proof.
  intros Ht Hh. split; [by left|]. intros Ha. by rewrite Ha in Hh.
Qed.

Lemma traced_inline V fuel picked headers route t :
  t ∈ targets route ->
  traced (fun V' ok => (forall x, V x -> V' x) /\ (ok = true -> route_offers headers route t /\ healthy_in V' t)) V
    (inline_fallback fuel picked headers (any_header_constraint route) t).
Proof.
  intros Ht. unfold inline_fallback. destruct (String.eqb _ _); [by split|]. apply traced_probe; [|by split].
  intros V' Hv Hh. cbn [negb]. destruct (negb _ || _) eqn:Eh; cbn [negb]; [|by split].
  eapply traced_weaken; [|by apply (traced_last V V' t)]. intros V2 ok [Hv2 Hok]. split; [done|].
  intros E. split; [by apply offers_inline|by apply Hok].
Qed.

Lemma traced_find V fuel picked headers route ts :
  (forall t, t ∈ ts -> t ∈ targets route) ->
  traced (found_in headers [route] V) V (find_prog (inline_fallback fuel picked headers (any_header_constraint route)) ts).
Proof.
  revert V. induction ts as [|t ts IH]; intros V Hts; [by split|]. cbn [find_prog].
  eapply traced_bind; [apply traced_inline, Hts; by left|]. intros V1 [] [H1' Hok].
  - split; [done|]. destruct (Hok eq_refl). split; [|done]. exists route. split; [by left|done].
  - eapply traced_weaken; [|apply IH; intros u Hu; apply Hts; by right]. intros V' r [Hv Hr]. split; auto.
Qed.

Lemma traced_inline_in V fuel picked headers rs :
  traced (found_in headers rs V) V (inline_fallback_in fuel picked headers rs).
Proof.
  revert V. induction rs as [|route rs IH]; intros V; [by split|]. cbn [inline_fallback_in].
  destruct (match w_targets route with [] => true | _ => false end).
  { eapply traced_weaken; [|apply IH]. intros V' r. by apply found_in_cons. }
  eapply traced_bind; [by apply traced_find|]. intros V1 [t|] [H1' Hr].
  - split; [done|]. destruct Hr as [(r & ->%list_elem_of_singleton & ?) ?]. split; [|done]. exists route. split; [by left|done].
  - eapply traced_weaken; [|apply IH]. intros V' r. by apply found_in_cons.
Qed.

(** ** The answer to a request *)

(** At some moment the configuration had a matcher, at some moment a route of
    the published table matched the request under it and offered [t], and at
    some moment the probes had [t] healthy. *)
Definition offered V (rq : Request) t : Prop :=
  healthy_in V t
  /\ exists sc st route,
       V sc /\ V st /\ route ∈ matching_routes (px_table st) (rq_host rq) (rq_path rq) (from_config (matcher (px_config sc)))
       /\ route_offers (rq_headers rq) route t.

Lemma offered_mono V V' rq t : (forall x, V x -> V' x) -> offered V rq t -> offered V' rq t.
Proof.
  intros Hv [Hh (sc & st & route & ? & ? & ? & ?)]. split; [by eapply healthy_in_mono|]. exists sc, st, route. auto.
Qed.

(** The request is refused without a target: for lack of a route at some
    moment, or by the admission. *)
Definition refused V (rq : Request) (code : Z) : Prop :=
  code = 503 \/ code = 429
  \/ exists sc st, V sc /\ V st /\ code = no_route_status (px_config sc)
       /\ matching_routes (px_table st) (rq_host rq) (rq_path rq) (from_config (matcher (px_config sc))) = [].

Definition http_answer (rq : Request) V (r : option Target * result Peer ErrorType) : Prop :=
  match r with
  | (Some t, Ok peer) =>
      offered V rq t /\ ssrf_policy t (sock_ip (peer_addr peer))
      /\ peer_tls peer = upstream_tls t /\ peer_host peer = upstream_host t
  | (Some t, Err e) => offered V rq t /\ (e = HTTPStatus 403 \/ e = ConnectNoRoute)
  | (None, Err e) => exists code, e = HTTPStatus code /\ refused V rq code
  | (None, Ok _) => False
  end.

(** Steps whose value does not matter here. *)
Lemma traced_skip {A B} V (m : P A) (f : A -> P B) Q :
  (forall V' a, (forall x, V x -> V' x) -> traced Q V' (f a)) -> traced Q V (bind m f).
Proof.
  intros Hf. eapply traced_bind; [apply (traced_safe (fun _ => True)), safe_any|]. intros V' a [Hv _]. by apply Hf.
Qed.

Lemma traced_found V rq sc strat cb :
  V sc ->
  traced (fun V' r => (forall x, V x -> V' x) /\ match r with Some t => offered V' rq t | None => True end) V
    (Upstream.lookup_target (rq_rnd rq) (rq_host rq) (rq_path rq) (from_config (matcher (px_config sc))) strat cb (rq_headers rq)).
Proof.
  intros Hsc. apply traced_load. intros st. eapply traced_weaken; [|apply traced_lookup]. intros V' r [Hv Hr].
  split; [auto|]. destruct r as [t|]; [|done]. destruct Hr as [(route & Hin & Ho) Hh]. split; [done|].
  exists sc, st, route. auto.
Qed.

Lemma traced_admission V fuel rq sc t :
  V sc -> offered V rq t ->
  traced (fun V' r => (forall x, V x -> V' x) /\ match r with Some t => offered V' rq t | None => True end) V
    (breaker_admission fuel (px_config sc) (rq_host rq) (rq_path rq) (rq_headers rq) t).
Proof.
  intros Hsc Ho. unfold breaker_admission. destruct (negb _); [by split|]. apply traced_skip. intros V1 [] Hv.
  { split; [done|]. by eapply offered_mono. }
  apply traced_load. intros st. eapply traced_weaken; [|apply traced_inline_in]. intros V' r [Hv' Hr].
  split; [auto|]. destruct r as [u|]; [|done]. destruct Hr as [(route & Hin & Hoff) Hh]. split; [done|].
  exists sc, st, route. auto.
Qed.

Lemma traced_resolved V rq t :
  offered V rq t ->
  traced (http_answer rq) V
    (let! addr := resolve (rq_lookup_host rq) t in
     match addr with
     | Ok a => Ret (Some t, Ok (mk_peer a (upstream_tls t) (upstream_host t)))
     | Err PermissionDenied => Ret (Some t, Err (HTTPStatus 403))
     | Err _ => Ret (Some t, Err ConnectNoRoute)
     end).
Proof.
  intros Ho. eapply traced_bind; [apply traced_safe, resolved_ok|]. intros V' r [Hv Hr].
  pose proof (offered_mono _ _ _ _ Hv Ho) as Ho'. destruct r as [a|e]; [by split_and!|].
  destruct e; split; auto.
Qed.

Lemma traced_select V fuel spurious rq sc :
  V sc -> traced (http_answer rq) V (select_with fuel spurious (px_config sc) rq).
Proof.
  intros Hsc. eapply traced_bind; [by apply traced_found|]. intros V1 [t|] [H1' Ht].
  2: { apply traced_load. intros st. eexists. split; [done|]. destruct (matching_routes _ _ _ _) eqn:E; [|by left].
       right; right. exists sc, st. auto. }
  eapply traced_bind; [apply traced_admission; auto|]. intros V2 [u|] [H2' Hu].
  2: { apply traced_skip. intros V3 _ _. eexists. split; [done|by left]. }
  apply traced_skip. intros V3 [] H3'; cbn [negb].
  2: { apply traced_skip. intros V4 _ _. apply traced_skip. intros V5 _ _. eexists. split; [done|right; by left]. }
  apply traced_skip. intros V4 slot H4'. destruct (negb _).
  { apply traced_skip. intros V5 _ _. eexists. split; [done|by left]. }
  apply traced_resolved. eapply offered_mono; [|exact Hu]. auto.
Qed.

Lemma http_answer_mono rq V V' r : (forall x, V x -> V' x) -> http_answer rq V r -> http_answer rq V' r.
Proof.
  intros Hv. destruct r as [[t|] [peer|e]]; cbn; try done.
  - intros [Ho ?]. split; [by eapply offered_mono|done].
  - intros [Ho ?]. split; [by eapply offered_mono|done].
  - intros (code & -> & Hr). exists code. split; [done|].
    destruct Hr as [Hr|[Hr|(sc & st & ? & ? & ? & ?)]]; [by left|right; by left|right; right]. exists sc, st. auto.
Qed.

(** All the selections of a request, whatever the others do meanwhile; the
    answers do not depend on the attempt that asks. *)
Definition http_answers (r : RequestRun) V (sels : list Selection) : Prop :=
  sels <> [] /\ Forall (http_answer (request_of r (run_first r)) V) sels.

Lemma http_answer_attempt r a b V sel : http_answer (request_of r a) V sel -> http_answer (request_of r b) V sel.
Proof. done. Qed.

Lemma traced_logged V start e c r sel :
  http_answer (request_of r (run_first r)) V sel -> traced (http_answers r) V (bind (log_request start e c) (fun _ => Ret [sel])).
Proof.
  intros Hs. apply traced_skip. intros V' _ Hv. split; [done|]. constructor; [by eapply http_answer_mono|done].
Qed.

Lemma traced_serve_from V r start c a retries : traced (http_answers r) V (serve_from r start c a retries).
Proof.
  assert (Hselect : forall V a, traced (http_answer (request_of r (run_first r))) V (select_upstream_peer (at_fuel a) (at_spurious a) (request_of r a))).
  { intros V' a'. eapply traced_weaken; [intros V2 sel; apply (http_answer_attempt r a')|].
    apply traced_load. intros sc. apply traced_select. by right. }
  revert V c a. induction retries as [|next rest IH]; intros V c a; cbn [serve_from]; (eapply traced_bind; [apply Hselect|]);
    intros V1 sel Hsel; (destruct sel.2 as [peer|e]; [|by apply traced_logged]); generalize (at_send a peer) as ex;
    intros [st [] [] bytes]; cbn [ex_error ex_retry]; try by apply traced_logged.
  eapply traced_bind; [apply traced_keep, IH|]. intros V2 later (Hv & _ & Hl). split; [done|]. constructor; [by eapply http_answer_mono|done].
Qed.

Lemma traced_request V r : traced (http_answers r) V (serve_request r).
Proof. apply traced_skip. intros V1 _ _. apply traced_skip. intros V2 start _. apply traced_serve_from. Qed.

(** ** What comes of a connection *)

(** The route a connection asks for: by the address of its listener, or by
    the server name of its client hello. *)
Definition tcp_route (mode : TcpListenerMode) (c : Connection) (table : Table) (route : Route) : Prop :=
  match mode with
  | Plain => exists a, cn_local_addr c = Some a /\ lookup_tcp_route_for_local_addr table a = Some route
  | Sni | HttpsFallback _ =>
      exists hello rest name, read_client_hello (cn_bytes c) = Ok (hello, rest) /\ hello_name hello = Some name
        /\ is_empty name = false /\ lookup_tcp_sni_route table name = Some route
  end.

Definition tcp_answer (mode : TcpListenerMode) (c : Connection) V (o : TcpOutcome) : Prop :=
  relay_ok c o
  /\ match o with
     | Relayed t addr _ _ _ =>
         cn_connect c addr = true
         /\ exists st route, V st /\ tcp_route mode c (px_table st) route /\ (t ∈ targets route \/ t ∈ w_targets route)
     | FellBack addr _ _ => mode = HttpsFallback addr
     | _ => True
     end.

Definition own_relay (c : Connection) t (o : TcpOutcome) : Prop :=
  match o with Relayed u addr _ _ _ => u = t /\ cn_connect c addr = true | FellBack _ _ _ => False | _ => True end.

Lemma relay_own c initial rest t : safe (fun _ => True) (own_relay c t) (proxy_tcp_streams c initial rest t).
Proof.
  apply safe_load_bind. intros s _. eapply safe_bind; [apply safe_any|]. intros slot _.
  destruct (negb _); [done|]. eapply safe_bind; [apply safe_any|]. intros _ _. apply (safe_bind _ (own_relay c t)).
  - unfold relay. destruct (_ && _); [done|]. eapply safe_bind; [apply safe_any|]. intros [addr|e] _; [|done].
    destruct (cn_connect c addr) eqn:Ec; [|done]. cbn [negb]. destruct (proxy_proto t); [|done]. by destruct (cn_client c), (cn_server c).
  - intros o Ho. eapply safe_bind; [apply safe_any|]. intros _ _. eapply safe_bind; [apply safe_any|done].
Qed.

Lemma traced_relay mode c V st route initial rest t :
  V st -> tcp_route mode c (px_table st) route -> (t ∈ targets route \/ t ∈ w_targets route) ->
  (initial ++ rest)%list = cn_bytes c -> traced (tcp_answer mode c) V (proxy_tcp_streams c initial rest t).
Proof.
  intros Hst Hr Ht Hb. eapply traced_weaken; [|apply traced_safe, safe_and; [by apply relay_safe|apply (relay_own c initial rest t)]].
  intros V' o (Hv & Hok & Hown). split; [done|]. destruct o as [|u addr| |]; try done. cbn in Hown. destruct Hown as [-> Hc].
  split; [done|]. exists st, route. auto.
Qed.

(** A lookup of a route followed by the pick of one of its targets. *)
Lemma traced_route_pick V (find : Table -> option Route) rnd strat :
  traced (fun V' r => (forall x, V x -> V' x) /\ match r with
                     | Some t => exists st route, V' st /\ find (px_table st) = Some route /\ (t ∈ targets route \/ t ∈ w_targets route)
                     | None => True
                     end) V
    (let! table := load px_table in
     match find table with
     | None => Ret None
     | Some route => pick rnd strat (targets route) (w_targets route) (rr_counter route)
     end).
Proof.
  apply traced_load. intros st. destruct (find (px_table st)) as [route|] eqn:E; [|split; auto].
  eapply traced_weaken; [|apply traced_safe, pick_safe]. intros V' [t|] [Hv Ht]; split; auto. exists st, route. auto.
Qed.

Lemma traced_connection V mode c : traced (tcp_answer mode c) V (serve_connection mode c).
Proof.
  pose proof (read_client_hello_app (cn_bytes c)) as Hb. destruct mode as [| |addr]; cbn [serve_connection].
  - unfold handle_tcp_connection. destruct (cn_local_addr c) as [a|] eqn:Ea; [|done]. apply traced_skip. intros V1 config _.
    eapply traced_bind; [apply (traced_route_pick V1 (fun table => lookup_tcp_route_for_local_addr table a))|].
    intros V2 [t|] [_ Ht]; [|done]. destruct Ht as (st & route & ? & ? & ?). apply (traced_relay _ _ _ st route); try done. by exists a.
  - apply traced_skip. intros V1 config _. destruct (read_client_hello _) as [[hello rest]|] eqn:Eh; [|done].
    destruct (hello_name hello) as [name|] eqn:En; [|done]. destruct (is_empty name) eqn:Ee; [done|].
    eapply traced_bind; [apply (traced_route_pick V1 (fun table => lookup_tcp_sni_route table name))|].
    intros V2 [t|] [_ Ht]; [|done]. destruct Ht as (st & route & ? & ? & ?). apply (traced_relay _ _ _ st route); try done.
    by exists hello, rest, name.
  - apply traced_skip. intros V1 config _. destruct (read_client_hello _) as [[hello rest]|[[]|]] eqn:Eh; [|done..].
    destruct (hello_name hello) as [name|] eqn:En; [|done]. cbn [mbind option_bind]. destruct (is_empty name) eqn:Ee; [done|].
    eapply traced_bind; [apply (traced_route_pick V1 (fun table => lookup_tcp_sni_route table name))|].
    intros V2 [t|] [_ Ht]; [|done]. destruct Ht as (st & route & ? & ? & ?). apply (traced_relay _ _ _ st route); try done.
    by exists hello, rest, name.
Qed.

(** ** What the accesses change *)

(** A request or a connection changes the values of cells, the entries of the
    DNS cache and the global counters, and nothing else. *)
Record request_effect (s s' : ProxyState) : Prop := {
  re_table : px_table s' = px_table s;
  re_config : px_config s' = px_config s;
  re_now : px_now_ns s' = px_now_ns s;
  re_cells : next_loc (px_heap s') = next_loc (px_heap s);
  re_ttl : default_ttl_secs (px_dns s') = default_ttl_secs (px_dns s);
  re_negative : negative_ttl_secs (px_dns s') = negative_ttl_secs (px_dns s);
}.

(** What is neither the start nor the end of a request or of a relay leaves the
    gauge of active connections alone too. *)
Record quiet_effect (s s' : ProxyState) : Prop := {
  qe_effect : request_effect s s';
  qe_gauge : active_gauge (px_counters s') = active_gauge (px_counters s);
}.

#[local] Instance request_effect_refl : Reflexive request_effect.
Proof. by intros s. Qed.

#[local] Instance quiet_refl : Reflexive quiet_effect.
Proof. by intros s. Qed.

Lemma quiet_trans : Transitive quiet_effect.
Proof. intros s1 s2 s3 [[] E] [[] E']. split; [split|]; congruence. Qed.

Lemma within_cb {A} t (m : M A) : within quiet_effect (on_cb t m).
Proof.
  apply (within_zoom _ _ _ (fun _ _ => True)); [by intros s w _|]. induction m as [a|B act k IH]; cbn; auto.
Qed.

Lemma within_slots {A} t (m : prog Z A) : within quiet_effect (on_slots t m).
Proof.
  apply (within_zoom _ _ _ (fun _ _ => True)); [by intros s w _|]. induction m as [a|B act k IH]; cbn; auto.
Qed.

Lemma within_pick rnd strat ts w rr : within quiet_effect (pick rnd strat ts w rr).
Proof.
  apply within_access. intros s.
  assert (E : next_loc (pick_target_by_strategy rnd strat ts w rr (px_heap s)).1 = next_loc (px_heap s)).
  { unfold pick_target_by_strategy, round_robin_pick. repeat (case_match; try done). }
  by destruct (pick_target_by_strategy _ _ _ _ _ _) as [h t].
Qed.

Lemma within_rate config t : within quiet_effect (rate_limit_step config t).
Proof.
  apply within_access. intros s.
  assert (E : next_loc (try_acquire_rate_limit (px_now_ns s) (rate_limit_per_target config) (rate_limit_burst config) t (px_heap s)).1
              = next_loc (px_heap s)).
  { unfold try_acquire_rate_limit. destruct (try_acquire_at _ _) as [b ok]. by repeat case_match. }
  by destruct (try_acquire_rate_limit _ _ _ _ _) as [h ok].
Qed.

Definition same_ttl (c c' : DnsCache) : Prop :=
  default_ttl_secs c' = default_ttl_secs c /\ negative_ttl_secs c' = negative_ttl_secs c.

Lemma resolve_cached_keeps_ttl now t c : same_ttl c (resolve_cached now t c).1.
Proof.
  unfold resolve_cached. destruct (_ && _); [done|]. pose proof (dns_ops_keep_ttl now (OLookup (cache_key t)) c ltac:(done)) as Hl.
  cbn [apply_op] in Hl. destruct (lookup_status _ _ c) as [c' [[|addr l]| |]]; try done. destruct (addr_blocked t addr); done.
Qed.

Lemma resolve_answer_keeps_ttl now answer t c : same_ttl c (resolve_answer now answer t c).1.
Proof.
  unfold resolve_answer. destruct answer as [[|addr l]|e]; [done| |].
  - destruct (addr_blocked t addr); [done|]. by apply (dns_ops_keep_ttl now (OStore _ _) c).
  - cbn [fst]. case_decide; [by apply (dns_ops_keep_ttl now (OStoreNegative _) c)|done].
Qed.

Lemma within_resolve lookup_host t : within quiet_effect (resolve lookup_host t).
Proof.
  apply within_bind; [|intros [r|]; [done|]]; apply within_access; intros s.
  - pose proof (resolve_cached_keeps_ttl (proxy_ms s) t (px_dns s)) as [E1 E2]. by destruct (resolve_cached _ _ _).
  - pose proof (resolve_answer_keeps_ttl (proxy_ms s) (lookup_host (addr_str t)) t (px_dns s)) as [E1 E2]. by destruct (resolve_answer _ _ _ _).
Qed.

Lemma within_store_heap (f : ProxyState -> Heap) :
  (forall s, next_loc (f s) = next_loc (px_heap s)) -> within quiet_effect (store (fun s => set_heap (f s) s)).
Proof. intros Hf. cbn. intros s. by split; [split; [split; try done; apply Hf|done]|]. Qed.

Lemma within_fastfail : within quiet_effect bump_fastfail.
Proof. done. Qed.

Lemma within_rejected : within quiet_effect bump_rate_rejected.
Proof. done. Qed.

Create HintDb within.
#[local] Hint Resolve within_cb within_slots within_pick within_rate within_resolve within_fastfail within_rejected : within.

(** Follows the shape of a method down to its accesses. *)
Ltac keeps :=
  repeat match goal with
    | |- forall _, _ => intros
    | |- within _ (Ret _) => exact Logic.I
    | |- within _ (bind _ _) => apply within_bind
    | |- within _ (load _) => apply within_load; typeclasses eauto
    | |- within _ (let '(_, _) := ?x in _) => destruct x
    | |- within _ (match ?x with _ => _ end) => destruct x
    | |- within _ _ => solve [auto with within]
    end.

Lemma within_usable cb t : within quiet_effect (usable cb t).
Proof. unfold usable, probe_healthy. keeps. Qed.

Lemma within_usable_fallback picked t : within quiet_effect (usable_fallback picked t).
Proof. unfold usable_fallback, and_then, probe_healthy. keeps. Qed.

Lemma within_filter (f : Target -> P bool) ts : (forall t, within quiet_effect (f t)) -> within quiet_effect (filter_prog f ts).
Proof. intros Hf. induction ts as [|t ts IH]; cbn [filter_prog]; keeps. Qed.

Lemma within_find (f : Target -> P bool) ts : (forall t, within quiet_effect (f t)) -> within quiet_effect (find_prog f ts).
Proof. intros Hf. induction ts as [|t ts IH]; cbn [find_prog]; keeps. Qed.

#[local] Hint Resolve within_usable within_usable_fallback within_filter within_find : within.

Lemma within_try rnd1 rnd2 strat cb headers r : within quiet_effect (try_route rnd1 rnd2 strat cb headers r).
Proof. unfold try_route. keeps. Qed.

Lemma within_lookup rnd strat cb headers i rs : within quiet_effect (lookup_in_routes rnd strat cb headers i rs).
Proof. revert i. induction rs as [|r rs IH]; intros i; cbn [lookup_in_routes]; keeps; apply within_try. Qed.

Lemma within_inline fuel picked headers rs : within quiet_effect (inline_fallback_in fuel picked headers rs).
Proof.
  assert (Hf : forall any t, within quiet_effect (inline_fallback fuel picked headers any t)).
  { unfold inline_fallback, allow, probe_healthy. keeps. }
  induction rs as [|r rs IH]; cbn [inline_fallback_in]; [done|]. keeps.
Qed.

Lemma within_select_with fuel spurious config rq : within quiet_effect (select_with fuel spurious config rq).
Proof.
  unfold select_with, Upstream.lookup_target, breaker_admission, allow, abort_if_enabled. keeps; auto using within_lookup, within_inline.
Qed.

Lemma within_record picked st e lat bytes : within quiet_effect (record_access_log picked st e lat bytes).
Proof. unfold record_access_log, record_stats. keeps; by apply within_store_heap. Qed.

Lemma within_relay c initial rest t : within quiet_effect (relay c initial rest t).
Proof. unfold relay. keeps. Qed.

Lemma loud {A} (m : P A) : within quiet_effect m -> within request_effect m.
Proof. apply within_weaken. by intros s s' []. Qed.

Lemma within_select fuel spurious rq : within quiet_effect (select_upstream_peer fuel spurious rq).
Proof. apply within_bind; [done|]. intros config. apply within_select_with. Qed.

Lemma within_log start e c : within request_effect (log_request start e c).
Proof. apply within_bind; [done|]. intros now. apply within_bind; [done|]. intros _. apply loud, within_record. Qed.

Lemma within_request r : within request_effect (serve_request r).
Proof.
  apply within_bind; [done|]. intros _. apply within_bind; [done|]. intros start. generalize (mk_request_ctx None 0 0) as c, (run_first r) as a.
  induction (run_retries r) as [|next rest IH]; intros c a; cbn [serve_from]; (apply within_bind; [apply loud, within_select|]);
    intros [assigned [peer|e]]; cbn [fst snd]; try (apply within_bind; [apply within_log|done]);
    generalize (at_send a peer) as ex; intros [st [] [] bytes]; cbn [ex_error ex_retry]; (apply within_bind; [|done]); auto using within_log.
Qed.

(** A lookup of the TCP proxy, and the pick of a target. *)
Lemma within_tcp_lookup c strat :
  (forall a, within quiet_effect (lookup_target c strat a)) /\ (forall name, within quiet_effect (lookup_sni_target c strat name)).
Proof. unfold lookup_target, lookup_sni_target. split; keeps. Qed.

Lemma within_connection mode c : within request_effect (serve_connection mode c).
Proof.
  assert (Hp : forall initial rest t, within request_effect (proxy_tcp_streams c initial rest t)).
  { intros. apply within_bind; [done|]. intros config. unfold proxy_tcp_streams_with. apply within_bind; [apply loud, within_slots|].
    intros slot. destruct (negb _); [done|]. apply within_bind; [done|]. intros _. apply within_bind; [apply loud, within_relay|].
    intros o. apply within_bind; [apply loud, within_slots|]. intros _. by apply within_bind. }
  assert (Hl : forall strat a, within request_effect (lookup_target c strat a)) by (intros; apply loud, within_tcp_lookup).
  assert (Hs : forall strat name, within request_effect (lookup_sni_target c strat name)) by (intros; apply loud, within_tcp_lookup).
  unfold serve_connection, handle_tcp_connection, handle_tcp_sni_connection, handle_https_tcp_sni_connection. keeps.
Qed.
End moments.
