(* ===== verification/Manager.v ===== *)
(** * Manager: the dynamic TCP listeners over time

    Models [run_dynamic_tcp_manager] of src/src/proxy/tcp.rs: a turn at the
    start and one at every tick, each with the table published then, until the
    shutdown, which stops every listener. *)
From S2P Require Import Prelude RustStr Routes Target Table DnsCache Tcp.
From Stdlib Require Import Ascii String.
Local Open Scope string_scope.
Local Open Scope Z_scope.

(** The order in which the map of listeners lists its ports. *)
Class PortOrder := {
  port_order : gmap Z nat -> list Z;
  port_order_elem m p : p ∈ port_order m <-> is_Some (m !! p);
}.

Section manager.
Context {G : GlobCrate} {O : HashOrder} {Q : PortOrder}.

Definition no_listeners : Listeners := mk_listeners ∅ [] 0.

(** A tick of the interval with the table published then, or the shutdown. *)
Inductive ManagerEvent := Tick (table : Table) | Shutdown.

Definition manager_turn (st : Listeners) (table : Table) : Listeners :=
  reconcile_dynamic_listeners (port_order (by_port st)) (tcp_listener_ports table) st.

(** The loop after the shutdown takes the handles out of the map. *)
Definition stop_listener (st : Listeners) (port : Z) : Listeners :=
  match by_port st !! port with
  | Some handle => mk_listeners (delete port (by_port st)) (stopped st ++ [handle])%list (next_task st)
  | None => st
  end.

Fixpoint manager_loop (events : list ManagerEvent) (st : Listeners) : Listeners :=
  match events with
  | [] => st
  | Tick table :: events => manager_loop events (manager_turn st table)
  | Shutdown :: _ => foldl stop_listener st (port_order (by_port st))
  end.

Definition run_dynamic_tcp_manager (first : Table) (events : list ManagerEvent) : Listeners :=
  manager_loop events (manager_turn no_listeners first).

(** ** No listener is lost *)

(** Every task started is on a port or was told to stop. *)
Definition accounted (st : Listeners) : Prop := forall h, (h < next_task st)%nat -> h ∈ stopped st \/ exists p, by_port st !! p = Some h.

(** Stopping the ports outside any list; all of them is the case of no
    ports. *)
Lemma stop_listener_stale st port : stop_listener st port = stop_stale [] st port.
Proof. unfold stop_stale. by rewrite decide_False by (by intros ?%elem_of_nil). Qed.

Lemma stop_stale_accounted ports st port : accounted st -> accounted (stop_stale ports st port).
Proof.
  intros Ha. unfold stop_stale. destruct (decide _); [done|]. destruct (by_port st !! port) as [h0|] eqn:E; [|done].
  intros h Hh. cbn in *. rewrite elem_of_app, list_elem_of_singleton. destruct (Ha h Hh) as [?|[p Hp]]; [by left; left|].
  destruct (decide (p = port)) as [->|Hne]; [left; right; congruence|]. right. exists p. by rewrite lookup_delete_ne.
Qed.

Lemma start_missing_accounted st port : accounted st -> accounted (start_missing st port).
Proof.
  intros Ha. unfold start_missing. destruct (by_port st !! port) eqn:E; [done|]. intros h Hh. cbn in *.
  destruct (decide (h = next_task st)) as [->|Hne]; [right; exists port; by rewrite lookup_insert_eq|].
  destruct (Ha h ltac:(lia)) as [?|[p Hp]]; [by left|]. right. exists p. rewrite lookup_insert_ne; [done|congruence].
Qed.

Lemma foldl_keeps {A B} (P : A -> Prop) (f : A -> B -> A) l a : (forall a b, P a -> P (f a b)) -> P a -> P (foldl f a l).
Proof. intros Hf. revert a. induction l as [|b l IH]; intros a Ha; [done|]. by apply IH, Hf. Qed.

Definition manager_ok (st : Listeners) : Prop := listeners_ok st /\ accounted st.

Lemma no_listeners_ok : manager_ok no_listeners.
Proof.
  split; [split|]; unfold no_listeners; cbn.
  - intros p h. by rewrite lookup_empty.
  - intros p q h. by rewrite lookup_empty.
  - by intros h ?%elem_of_nil.
  - intros h Hh. cbn in Hh. lia.
Qed.

(** A turn: exactly the ports of the table, the tasks on those there were. *)
Lemma manager_turn_spec st table :
  manager_ok st ->
  manager_ok (manager_turn st table)
  /\ (forall p, is_Some (by_port (manager_turn st table) !! p) <-> p ∈ tcp_listener_ports table)
  /\ (forall p h, p ∈ tcp_listener_ports table -> by_port st !! p = Some h -> by_port (manager_turn st table) !! p = Some h).
Proof.
  intros [Hok Ha]. destruct (reconcile_spec (port_order (by_port st)) (tcp_listener_ports table) st Hok ltac:(intros; apply port_order_elem))
    as (Hok' & Hp & Hk & _). split_and!; [|done|done]. split; [done|].
  unfold manager_turn, reconcile_dynamic_listeners. apply foldl_keeps; [intros; by apply start_missing_accounted|].
  apply foldl_keeps; [intros; by apply stop_stale_accounted|done].
Qed.

Lemma shutdown_spec st :
  manager_ok st ->
  let st' := foldl stop_listener st (port_order (by_port st)) in manager_ok st' /\ by_port st' = ∅ /\ next_task st' = next_task st.
Proof.
  intros [Hok Ha]. cbv zeta. assert (E : forall l s, foldl stop_listener s l = foldl (stop_stale []) s l).
  { intros l. induction l as [|p l IH]; intros s; [done|]. cbn. by rewrite stop_listener_stale, IH. }
  rewrite E. destruct (stop_all_spec [] (port_order (by_port st)) st Hok) as (Hok' & Hn & Hp & _). split_and!; [split|..]; [done| | |done].
  - apply foldl_keeps; [intros; by apply stop_stale_accounted|done].
  - apply map_eq. intros p. rewrite Hp, lookup_empty. case_decide as Hd; [done|]. destruct (by_port st !! p) eqn:El; [|done].
    destruct Hd. split; [apply port_order_elem; by eexists|by intros ?%elem_of_nil].
Qed.

(** What a run of the loop leaves: after a shutdown nothing, otherwise the
    ports of the last table, with the same task on a port wanted throughout. *)
Fixpoint final_ports (events : list ManagerEvent) (ports : list Z) : list Z :=
  match events with
  | [] => ports
  | Tick table :: events => final_ports events (tcp_listener_ports table)
  | Shutdown :: _ => []
  end.

Fixpoint wanted_throughout (p : Z) (events : list ManagerEvent) : Prop :=
  match events with
  | [] => True
  | Tick table :: events => p ∈ tcp_listener_ports table /\ wanted_throughout p events
  | Shutdown :: _ => False
  end.

Lemma manager_loop_spec events st ports :
  manager_ok st -> (forall p, is_Some (by_port st !! p) <-> p ∈ ports) ->
  let st' := manager_loop events st in
  manager_ok st' /\ (forall p, is_Some (by_port st' !! p) <-> p ∈ final_ports events ports)
  /\ (forall p h, wanted_throughout p events -> by_port st !! p = Some h -> by_port st' !! p = Some h).
Proof.
  revert st ports. induction events as [|[table|] events IH]; intros st ports Hok Hp; cbn.
  - by split_and!.
  - destruct (manager_turn_spec st table Hok) as (Hok1 & Hp1 & Hk1). destruct (IH _ _ Hok1 Hp1) as (Hok2 & Hp2 & Hk2).
    split_and!; [done|done|]. intros p h [Hin Hw] Hh. by apply Hk2, Hk1.
  - destruct (shutdown_spec st Hok) as (Hok1 & He & _). split_and!; [done| |done]. intros p. rewrite He, lookup_empty. split; [by intros []|by intros ?%elem_of_nil].
Qed.

(** Whatever tables are published, the dynamic listeners follow them:
    after a turn there is one task on each port the table asks for and none
    elsewhere, a port asked for by every table keeps the task that was started
    for it first, and no task is forgotten: each one started still has a port
    or was told to stop, so after a shutdown all of them were. *)
Theorem dynamic_listeners_follow_table first events :
  let st := run_dynamic_tcp_manager first events in
  (forall p, is_Some (by_port st !! p) <-> p ∈ final_ports events (tcp_listener_ports first))
  /\ (forall p q h, by_port st !! p = Some h -> by_port st !! q = Some h -> p = q)
  /\ (forall p h, by_port st !! p = Some h -> h ∉ stopped st)
  /\ (forall h, (h < next_task st)%nat -> h ∈ stopped st \/ exists p, by_port st !! p = Some h)
  /\ (forall p h, wanted_throughout p events -> by_port (manager_turn no_listeners first) !! p = Some h -> by_port st !! p = Some h).
Proof.
  cbv zeta. unfold run_dynamic_tcp_manager. destruct (manager_turn_spec no_listeners first no_listeners_ok) as (Hok & Hp & _).
  destruct (manager_loop_spec events _ _ Hok Hp) as ([[Hf Hi Hs] Ha] & Hp' & Hk). split_and!; [done|done| |done|done].
  intros p h Hh. by apply (Hf p h).
Qed.
End manager.

(** ** A concrete run *)

#[local] Existing Instances Tcp.no_glob Tcp.list_order.

#[local] Instance map_order : PortOrder.
Proof.
  refine {| port_order m := (map_to_list m).*1 |}. intros m p. rewrite list_elem_of_fmap. split.
  - intros ([q h] & -> & Hin%elem_of_map_to_list). by eexists.
  - intros [h Hh]. exists (p, h). split; [done|by apply elem_of_map_to_list].
Defined.

Definition no_tcp : Table := mk_table ∅ true None [].

(** The port of the table is served, goes away, and comes back as another
    task. *)
Lemma dynamic_listeners_follow_table_witness :
  let st := run_dynamic_tcp_manager demo_table [Tick demo_table; Tick no_tcp; Tick demo_table] in
  tcp_listener_ports demo_table = [4222] /\ by_port st = {[4222 := 1%nat]} /\ stopped st = [0%nat]
  /\ (forall h, (h < next_task st)%nat -> h ∈ stopped st \/ exists p, by_port st !! p = Some h)
  /\ by_port (run_dynamic_tcp_manager demo_table [Tick demo_table]) !! 4222 = Some 0%nat.
Proof.
  cbv zeta. split; [vm_compute; reflexivity|]. split; [vm_compute; reflexivity|]. split; [vm_compute; reflexivity|].
  split; [apply (dynamic_listeners_follow_table demo_table [Tick demo_table; Tick no_tcp; Tick demo_table])|].
  apply (dynamic_listeners_follow_table demo_table [Tick demo_table]); [|vm_compute; reflexivity].
  split; [apply (bool_decide_unpack _); vm_compute; exact I|exact I].
Defined.

Example all_stopped :
  let st := run_dynamic_tcp_manager demo_table [Tick no_tcp; Tick demo_table; Shutdown; Tick demo_table] in
  by_port st = ∅ /\ stopped st = [0%nat; 1%nat].
Proof. vm_compute. by split. Qed.
