(* ===== verification/TlsConf.v ===== *)
(** * TlsConf: resolving the TLS configuration

    Models src/src/proxy/tls/config.rs and the error type of
    src/src/proxy/tls.rs: where certificates come from, how clients are
    authenticated and the address of the TLS listener. The file system is an
    argument. *)
From S2P Require Import Prelude RustStr StrFacts Config.
From Stdlib Require Import Ascii String.
Local Open Scope string_scope.
Local Open Scope Z_scope.

Inductive TlsError :=
  | CertNotFound (path : string)
  | KeyNotFound (path : string)
  | CertReadError (path error : string)
  | KeyReadError (path error : string)
  | ConfigError (message : string).

(** [to_string] of an error. *)
Definition show_tls_error (e : TlsError) : string :=
  match e with
  | CertNotFound p => "Certificate file not found: " ++ p
  | KeyNotFound p => "Private key file not found: " ++ p
  | CertReadError p e => "Cannot read certificate file '" ++ p ++ "': " ++ e
  | KeyReadError p e => "Cannot read private key file '" ++ p ++ "': " ++ e
  | ConfigError m => "TLS configuration error: " ++ m
  end.

(** ** Certificate files *)

Record TlsCertConfig := mk_tls_cert {
  file_cert_path : string;
  file_key_path : string;
}.

(** What the code asks of the file system: the text of a file, an error, or
    no such path. *)
Inductive FileText := NoFile | Unreadable (error : string) | Text (content : string).

Definition exists_path (f : FileText) : bool := match f with NoFile => false | _ => true end.

Definition TlsCertConfig_validate (fs : string -> FileText) (self : TlsCertConfig) : result () TlsError :=
  if negb (exists_path (fs (file_cert_path self))) then Err (CertNotFound (file_cert_path self))
  else if negb (exists_path (fs (file_key_path self))) then Err (KeyNotFound (file_key_path self))
  else match fs (file_cert_path self) with
       | Unreadable e => Err (CertReadError (file_cert_path self) e)
       | _ => match fs (file_key_path self) with
              | Unreadable e => Err (KeyReadError (file_key_path self) e)
              | _ => Ok ()
              end
       end.

Definition cert_is_configured (self : TlsCertConfig) : bool := negb (is_empty (file_cert_path self)) && negb (is_empty (file_key_path self)).

(** ** Where certificates come from *)

Record ConsulTlsConfig := mk_consul_tls {
  cert_prefix : string;
  consul_strict_sni : bool;
  consul_require_initial_snapshot : bool;
}.

Inductive TlsMode := TlsFile (file : TlsCertConfig) | TlsConsulKv (kv : ConsulTlsConfig).

Definition is_consul_word (s : string) : bool := String.eqb s "consul" || String.eqb s "consul_kv" || String.eqb s "fabio_consul".

Definition TlsMode_resolve (config : TlsConfig) : result (option TlsMode) TlsError :=
  let source := to_ascii_lowercase (trim (tls_source config)) in
  let file := TlsFile (mk_tls_cert (cert_path config) (key_path config)) in
  if String.eqb source "" then
    if negb (is_empty (cert_path config)) || negb (is_empty (key_path config)) then Ok (Some file) else Ok None
  else if String.eqb source "file" then Ok (Some file)
  else if is_consul_word source then
    let prefix := trim (consul_cert_prefix config) in
    if is_empty prefix then Err (ConfigError "tls.consul_cert_prefix cannot be empty when tls.source=consul_kv")
    else Ok (Some (TlsConsulKv (mk_consul_tls prefix (strict_sni config) (require_initial_snapshot config))))
  else Err (ConfigError ("unknown tls.source '" ++ source ++ "', expected 'file' or 'consul_kv'")).

(** [From<&TlsConfig> for Option<TlsCertConfig>] *)
Definition file_config (config : TlsConfig) : option TlsCertConfig :=
  match TlsMode_resolve config with Ok (Some (TlsFile file)) => Some file | _ => None end.

(** ** Client authentication *)

Inductive ClientAuthMode := AuthOff | AuthOptional | AuthRequired.
#[export] Instance ClientAuthMode_eq_dec : EqDecision ClientAuthMode.
Proof. solve_decision. Defined.

Definition one_of (words : list string) (s : string) : bool := existsb (String.eqb s) words.

Definition ClientAuthMode_resolve (config : TlsConfig) : result ClientAuthMode TlsError :=
  let word := to_ascii_lowercase (trim (client_auth config)) in
  if one_of [""; "off"; "disabled"; "none"] word then Ok AuthOff
  else if one_of ["optional"; "request"] word then Ok AuthOptional
  else if one_of ["required"; "require"; "verify"] word then Ok AuthRequired
  else Err (ConfigError ("unknown tls.client_auth '" ++ word ++ "', expected 'optional' or 'required'")).

(** The flags of [SslVerifyMode]; [NONE] has neither. *)
Record SslVerifyMode := mk_verify { verify_peer : bool; fail_if_no_peer_cert : bool }.
Definition VERIFY_NONE : SslVerifyMode := mk_verify false false.

Definition verify_mode (self : ClientAuthMode) : option SslVerifyMode :=
  match self with
  | AuthOff => None
  | AuthOptional => Some (mk_verify true false)
  | AuthRequired => Some (mk_verify true true)
  end.

Inductive ClientCaSource := CaFile (path : string) | CaConsulKv (prefix : string).

Record ClientAuthConfig := mk_client_auth {
  auth_mode : ClientAuthMode;
  auth_source : ClientCaSource;
  auth_ca_upgrade_cn : string;
}.

Definition client_ca_source_resolve (config : TlsConfig) : result ClientCaSource TlsError :=
  let source := to_ascii_lowercase (trim (client_ca_source config)) in
  if String.eqb source "file" then
    let path := trim (client_ca_path config) in
    if is_empty path then Err (ConfigError "tls.client_ca_path cannot be empty when tls.client_ca_source=file") else Ok (CaFile path)
  else if is_consul_word source then
    let prefix := trim (client_ca_consul_prefix config) in
    if is_empty prefix then Err (ConfigError "tls.client_ca_consul_prefix cannot be empty when tls.client_ca_source=consul_kv")
    else Ok (CaConsulKv prefix)
  else if String.eqb source "" then Err (ConfigError "tls.client_ca_source is required when tls.client_auth is enabled")
  else Err (ConfigError ("unknown tls.client_ca_source '" ++ source ++ "', expected 'file' or 'consul_kv'")).

Definition ClientAuthConfig_resolve (config : TlsConfig) : result (option ClientAuthConfig) TlsError :=
  match ClientAuthMode_resolve config with
  | Err e => Err e
  | Ok AuthOff => Ok None
  | Ok mode =>
      match client_ca_source_resolve config with
      | Err e => Err e
      | Ok source => Ok (Some (mk_client_auth mode source (trim (client_ca_upgrade_cn config))))
      end
  end.

(** ** tls_listen_addr *)

Definition checked_add_u16 (a b : Z) : option Z := if a + b <=? 65535 then Some (a + b) else None.

Definition tls_listen_addr (http_listen tls_listen : string) : string :=
  if negb (is_empty (trim tls_listen)) then tls_listen
  else match rsplit_once ":" (trim http_listen) with
       | Some (host, port) =>
           match parse_u16 port with
           | Some http_port =>
               let tls_port := match checked_add_u16 http_port 1 with Some p => p | None => 10000 end in
               host ++ ":" ++ show_uint tls_port
           | None => ":10000"
           end
       | None => ":10000"
       end.

(** ** Facts *)

(** Client authentication is off only where the configuration says so: a word
    the code does not know is an error, never a silent default. *)
Lemma client_auth_off config :
  ClientAuthConfig_resolve config = Ok None <-> one_of [""; "off"; "disabled"; "none"] (to_ascii_lowercase (trim (client_auth config))) = true.
Proof.
  unfold ClientAuthConfig_resolve, ClientAuthMode_resolve. cbv zeta. destruct (one_of [""; _; _; _] _) eqn:E; [done|]. split; [|done].
  destruct (one_of ["optional"; _] _); [by destruct (client_ca_source_resolve config)|].
  destruct (one_of ["required"; _; _] _); [by destruct (client_ca_source_resolve config)|done].
Qed.

Lemma rsplit_once_app c s t : str_all (fun a => negb (Ascii.eqb a c)) t = true -> rsplit_once c (s ++ String c t) = Some (s, t).
Proof.
  intros Ht. assert (Hn : rsplit_once c t = None).
  { induction t as [|a t IH]; [done|]. cbn in Ht. bool_simpl. cbn. rewrite IH by done. by replace (Ascii.eqb a c) with false. }
  induction s as [|a s IH]; [rewrite app_nil_s; cbn; by rewrite Hn, Ascii.eqb_refl|]. rewrite app_cons_s. cbn. by rewrite IH.
Qed.

(** Without an address of its own the TLS listener takes the port after the
    one of the HTTP listener, on the same host, and port 10000 after the last. *)
Lemma tls_listen_next_port host port blank_listen :
  trim blank_listen = "" -> trim (host ++ ":" ++ show_uint port) = host ++ ":" ++ show_uint port -> 0 <= port <= 65535 ->
  tls_listen_addr (host ++ ":" ++ show_uint port) blank_listen = host ++ ":" ++ show_uint (if port <? 65535 then port + 1 else 10000).
Proof.
  intros Hb Ht Hp. unfold tls_listen_addr. rewrite Hb, Ht. cbn [is_empty negb]. rewrite app_cons_s, app_nil_s, rsplit_once_app.
  2:{ apply digits_no_char; [done|apply show_uint_digits]. }
  unfold parse_u16. rewrite parse_show_uint by lia. unfold checked_add_u16. f_equal. rewrite app_cons_s, app_nil_s.
  destruct (port <? 65535) eqn:E; bool_simpl; [rewrite (proj2 (Z.leb_le _ _)) by lia|rewrite (proj2 (Z.leb_gt _ _)) by lia]; done.
Qed.
