(* ===== verification/CertStore.v ===== *)
(** * CertStore: certificates loaded from Consul, and their selection

    Models the certificate store of src/src/proxy/tls.rs and the choice of a
    certificate of src/src/proxy/tls/selector.rs: pairs of a certificate and
    its key, the snapshot built from the entries of the key-value store, the
    store that keeps the last known good one and the certificate for a server
    name. The counters of the metrics are the events a reload records. *)
From stdpp Require Import sorting.
From S2P Require Import Prelude RustStr StrFacts Config ClientHello ClientCert TlsConf Pem.
From Stdlib Require Import Ascii String.
Local Open Scope string_scope.
Local Open Scope Z_scope.

(** [BTreeMap::keys]: the keys in byte order. *)
Definition string_before (a b : string) : Prop := String.leb a b = true.
#[export] Instance string_before_dec a b : Decision (string_before a b) := decide (String.leb a b = true).
Definition btree_keys {A} (m : gmap string A) : list string := merge_sort string_before (map fst (map_to_list m)).

Lemma btree_keys_elem {A} (m : gmap string A) k : k ∈ btree_keys m <-> is_Some (m !! k).
Proof.
  unfold btree_keys. rewrite (merge_sort_Permutation _ _), list_elem_of_fmap. split.
  - intros ([k' v] & -> & Hin%elem_of_map_to_list). by exists v.
  - intros [v Hv]. exists (k, v). split; [done|]. by apply elem_of_map_to_list.
Qed.

(** ** Loaded certificates *)

Section store.
Context {T : TlsCrate} (utf8_error : string -> string) (now_unix : Z).

Record LoadedCertificate := mk_loaded {
  entry_name : string;
  leaf : X509;
  chain : list X509;
  loaded_key : PKey;
  names : list string;
}.

Definition from_pem_pair (entry_name cert_pem key_pem : string) : result LoadedCertificate TlsError :=
  match parse_certificate_chain utf8_error cert_pem with
  | Err e => Err e
  | Ok [] => Err (ConfigError ("certificate bundle '" ++ entry_name ++ "' contains no CERTIFICATE blocks"))
  | Ok (leaf :: chain) =>
      match parse_private_key utf8_error key_pem with
      | Err e => Err e
      | Ok key =>
          if key_matches leaf key then Ok (mk_loaded entry_name leaf chain key (extract_certificate_names leaf))
          else Err (ConfigError ("certificate bundle '" ++ entry_name ++ "' private key does not match certificate"))
      end
  end.

Record DynamicTlsCertificateStatus := mk_cert_status {
  st_entry_name : string;
  st_primary_name : option string;
  st_not_after_unix : option Z;
  st_days_remaining : option Z;
}.

Definition runtime_status (self : LoadedCertificate) : DynamicTlsCertificateStatus :=
  let not_after_unix := asn1_time_to_unix_seconds (not_after (leaf self)) in
  mk_cert_status (entry_name self) (head (names self)) not_after_unix
    ((fun t => Z.quot (t - now_unix) 86400) <$> not_after_unix).

(** ** Snapshots *)

Record CertSnapshot := mk_snapshot {
  ordered : list LoadedCertificate;
  by_name : gmap string nat;
  by_entry_name : gmap string LoadedCertificate;
}.
Definition default_snapshot : CertSnapshot := mk_snapshot [] ∅ ∅.

(** What the loop of [from_fabio_entries] builds up. *)
Record Loading := mk_loading {
  l_ordered : list LoadedCertificate;
  l_by_entry_name : gmap string LoadedCertificate;
  l_handled : gset string;
  l_warnings : list string;
}.

Definition keep (cert : LoadedCertificate) (e : string) (st : Loading) : Loading :=
  mk_loading (l_ordered st ++ [cert])%list (<[e := cert]> (l_by_entry_name st)) (l_handled st) (l_warnings st).
Definition warn (w : string) (st : Loading) : Loading :=
  mk_loading (l_ordered st) (l_by_entry_name st) (l_handled st) (l_warnings st ++ [w])%list.

Definition maybe_reuse_previous (previous : CertSnapshot) (e : string) (reason : string) (st : Loading) : Loading :=
  match by_entry_name previous !! e with
  | Some cert => warn (reason ++ "; reusing previous certificate") (keep cert e st)
  | None => warn reason st
  end.

(** The certificate of an entry, or the reason why there is none. *)
Definition load_entry (entries : gmap string string) (e cert_name key_name : string) : result LoadedCertificate string :=
  match entries !! cert_name with
  | None => Err ("missing certificate blob '" ++ cert_name ++ "' for entry '" ++ e ++ "'")
  | Some cert_pem =>
      match entries !! key_name with
      | None => Err ("missing private key blob '" ++ key_name ++ "' for entry '" ++ e ++ "'")
      | Some key_pem =>
          match validate_entry_size cert_name (str_len cert_pem) with
          | Err reason => Err reason
          | Ok _ =>
              match (if String.eqb key_name cert_name then Ok () else validate_entry_size key_name (str_len key_pem)) with
              | Err reason => Err reason
              | Ok _ =>
                  match from_pem_pair e cert_pem key_pem with
                  | Ok cert => Ok cert
                  | Err err => Err (e ++ ": " ++ show_tls_error err)
                  end
              end
          end
      end
  end.

Definition load_name (entries : gmap string string) (previous : CertSnapshot) (st : Loading) (name : string) : Loading :=
  match classify_fabio_entry name with
  | None => st
  | Some (e, cert_name, key_name) =>
      if decide (cert_name ∈ l_handled st) then st
      else
        let st := mk_loading (l_ordered st) (l_by_entry_name st) ({[cert_name; key_name]} ∪ l_handled st) (l_warnings st) in
        match load_entry entries e cert_name key_name with
        | Ok cert => keep cert e st
        | Err reason => maybe_reuse_previous previous e reason st
        end
  end.

(** The index: the first certificate to claim a name has it. *)
Definition index_names (acc : gmap string nat * nat) (cert : LoadedCertificate) : gmap string nat * nat :=
  let '(m, idx) := acc in
  (foldl (fun m name => match m !! name with Some _ => m | None => <[name := idx]> m end) m (names cert), S idx).
Definition index_of (certs : list LoadedCertificate) : gmap string nat := (foldl index_names (∅, 0%nat) certs).1.

Definition from_fabio_entries (entries : gmap string string) (previous : CertSnapshot) : CertSnapshot * list string :=
  let st := foldl (load_name entries previous) (mk_loading [] ∅ ∅ []) (btree_keys entries) in
  (mk_snapshot (l_ordered st) (index_of (l_ordered st)) (l_by_entry_name st), l_warnings st).

Definition default_certificate_name (self : CertSnapshot) : option string := entry_name <$> head (ordered self).
Definition entry_names (self : CertSnapshot) : list string := map entry_name (ordered self).
Definition runtime_certificates (self : CertSnapshot) : list DynamicTlsCertificateStatus := map runtime_status (ordered self).

Definition by_name_index (self : CertSnapshot) (name : string) : option (option LoadedCertificate) :=
  (fun i => ordered self !! i) <$> by_name self !! name.

(** ["*."] and what follows the first dot. *)
Definition wildcard_of (name : string) : option string :=
  match split_once "." name with Some (_, rest) => Some ("*." ++ rest) | None => None end.

Definition select (self : CertSnapshot) (server_name : option string) (strict : bool) : option LoadedCertificate :=
  match ordered self with
  | [] => None
  | first :: _ =>
      let default := if strict then None else Some first in
      match normalize_server_name server_name with
      | None => default
      | Some name =>
          match by_name_index self name with
          | Some answer => answer
          | None =>
              match wildcard_of name with
              | None => default
              | Some wildcard => match by_name_index self wildcard with Some answer => answer | None => default end
              end
          end
      end
  end.

(** ** The store of server certificates *)

Record DynamicTlsStatus := mk_tls_status {
  loaded_certificates : list string;
  certificates : list DynamicTlsCertificateStatus;
  default_certificate : option string;
  last_consul_index : Z;
  last_reload_unix : option Z;
  last_error : option string;
}.
Definition default_tls_status : DynamicTlsStatus := mk_tls_status [] [] None 0 None None.

Record DynamicCertStore := mk_cert_store {
  store_snapshot : CertSnapshot;
  store_status : DynamicTlsStatus;
  store_strict_sni : bool;
}.
Definition DynamicCertStore_new (strict : bool) : DynamicCertStore := mk_cert_store default_snapshot default_tls_status strict.

(** The metrics a reload records. *)
Inductive CertMetric :=
  | ReloadSuccess
  | ReloadError
  | ReloadSkipped (reason : string)
  | ExpiryEntries (entries : list (string * string * Z)).

Definition record_warning_metrics (warnings : list string) : list CertMetric :=
  map (fun w => ReloadSkipped (if str_contains "exceeds max size" w then "oversize" else "invalid")) warnings.

Definition set_error (consul_index : Z) (error : string) (s : DynamicTlsStatus) : DynamicTlsStatus :=
  mk_tls_status (loaded_certificates s) (certificates s) (default_certificate s) consul_index (last_reload_unix s) (Some error).

Definition expiry_entries (l : list DynamicTlsCertificateStatus) : list (string * string * Z) :=
  omap (fun c => (fun t => (st_entry_name c, default (st_entry_name c) (st_primary_name c), t)) <$> st_not_after_unix c) l.

Definition joined_warnings (warnings : list string) : option string :=
  match warnings with [] => None | _ => Some (str_join " | " warnings) end.

Definition apply_consul_snapshot (entries : gmap string string) (consul_index : Z) (self : DynamicCertStore) : DynamicCertStore * list CertMetric :=
  let failed error events :=
    (mk_cert_store (store_snapshot self) (set_error consul_index error (store_status self)) (store_strict_sni self), events) in
  if decide (entries = ∅) then
    failed "received empty certificate snapshot from Consul; keeping last known good store" [ReloadError; ReloadSkipped "empty"]
  else
    let '(next, warnings) := from_fabio_entries entries (store_snapshot self) in
    match ordered next with
    | [] =>
        failed (default "no valid TLS certificates remain after Consul reload; keeping last known good store" (head warnings))
          (ReloadError :: record_warning_metrics warnings)
    | _ =>
        let statuses := runtime_certificates next in
        (mk_cert_store next
           (mk_tls_status (entry_names next) statuses (default_certificate_name next) consul_index (Some now_unix) (joined_warnings warnings))
           (store_strict_sni self),
         (ReloadSuccess :: record_warning_metrics warnings ++ [ExpiryEntries (expiry_entries statuses)])%list)
    end.

Definition select_for_server_name (self : DynamicCertStore) (server_name : option string) : option LoadedCertificate :=
  select (store_snapshot self) server_name (store_strict_sni self).

(** [refresh_from_consul]: the entries and index [watch_kv_basenames]
    answered, or its error. *)
Definition refresh_from_consul (answer : result (gmap string string * Z) string) (self : DynamicCertStore) :
    DynamicCertStore * list CertMetric * result Z TlsError :=
  match answer with
  | Err e => (self, [], Err (ConfigError e))
  | Ok (entries, new_index) => (apply_consul_snapshot entries new_index self, Ok new_index)
  end.
End store.
Arguments LoadedCertificate {T}.
Arguments CertSnapshot {T}.
Arguments DynamicCertStore {T}.

(** ** The index is the first certificate in order *)

Section index.
Context {T : TlsCrate}.

(** The reference: the first certificate that carries the name. *)
Definition serving (certs : list LoadedCertificate) (name : string) : option LoadedCertificate :=
  List.find (fun c => bool_decide (name ∈ names c)) certs.

Definition select_ref (certs : list LoadedCertificate) (server_name : option string) (strict : bool) : option LoadedCertificate :=
  let default := if strict then None else head certs in
  match normalize_server_name server_name with
  | None => default
  | Some name =>
      match serving certs name with
      | Some c => Some c
      | None => match wildcard_of name ≫= serving certs with Some c => Some c | None => default end
      end
  end.

Lemma index_names_lookup (l : list string) (m : gmap string nat) idx n :
  foldl (fun m name => match m !! name with Some _ => m | None => <[name := idx]> m end) m l !! n =
    match m !! n with Some i => Some i | None => if decide (n ∈ l) then Some idx else None end.
Proof.
  revert m. induction l as [|x l IH]; intros m; cbn [foldl].
  - destruct (m !! n); [done|]. by rewrite decide_False by apply not_elem_of_nil.
  - rewrite IH. destruct (decide (x = n)) as [<-|Hne].
    + rewrite (decide_True (P := x ∈ x :: l)) by (by left). destruct (m !! x) eqn:E; [by rewrite E|]. by rewrite lookup_insert_eq.
    + assert (Hd : (if decide (n ∈ x :: l) then Some idx else None) = if decide (n ∈ l) then Some idx else None).
      { destruct (decide (n ∈ l)) as [Hi|Hi]; [by rewrite decide_True by (by right)|].
        rewrite decide_False; [done|]. rewrite elem_of_cons. intros [->|?]; done. }
      rewrite Hd. destruct (m !! x); [done|]. by rewrite lookup_insert_ne.
Qed.

(** The position of the first certificate that carries [n]. *)
Fixpoint position (n : string) (certs : list LoadedCertificate) : option nat :=
  match certs with
  | [] => None
  | c :: certs => if decide (n ∈ names c) then Some 0%nat else S <$> position n certs
  end.

Lemma index_fold_lookup certs m idx n :
  (foldl index_names (m, idx) certs).1 !! n =
    match m !! n with Some i => Some i | None => (fun i => (idx + i)%nat) <$> position n certs end.
Proof.
  revert m idx. induction certs as [|c certs IH]; intros m idx; cbn [foldl position index_names fst]; [by destruct (m !! n)|].
  rewrite IH, index_names_lookup. destruct (m !! n); [done|]. destruct (decide _); cbn; [by rewrite Nat.add_0_r|].
  destruct (position n certs); cbn; [|done]. f_equal. lia.
Qed.

Lemma position_serving certs n : (fun i => certs !! i) <$> position n certs = Some <$> serving certs n.
Proof.
  induction certs as [|c certs IH]; [done|]. cbn [position serving List.find]. unfold serving in IH.
  destruct (decide (n ∈ names c)) as [Hn|Hn]; [by rewrite (bool_decide_eq_true_2 _ Hn)|]. rewrite (bool_decide_eq_false_2 _ Hn).
  rewrite <- IH. by destruct (position n certs).
Qed.

Lemma indexed_serving self n : by_name self = index_of (ordered self) -> by_name_index self n = Some <$> serving (ordered self) n.
Proof.
  intros E. unfold by_name_index. rewrite E. unfold index_of. rewrite index_fold_lookup, lookup_empty. rewrite <- position_serving.
  by destruct (position n (ordered self)).
Qed.

Lemma select_is_ref self server_name strict :
  by_name self = index_of (ordered self) -> select self server_name strict = select_ref (ordered self) server_name strict.
Proof.
  intros E. unfold select, select_ref. pose proof (fun n => indexed_serving self n E) as Hi. destruct (ordered self) as [|first rest] eqn:Eo.
  - unfold serving. destruct strict, (normalize_server_name server_name) as [name|]; cbn [List.find]; try done; destruct (wildcard_of name). all: done.
  - cbn [head]. destruct (normalize_server_name server_name) as [name|]; [|done]. rewrite Hi. destruct (serving _ name); [done|]. cbn.
    destruct (wildcard_of name) as [w|]; [|done]. cbn [mbind option_bind]. rewrite Hi. by destruct (serving _ w).
Qed.

Lemma serving_in certs n c : serving certs n = Some c -> c ∈ certs /\ n ∈ names c.
Proof. intros [Hin Hn]%List.find_some. bool_simpl. split; [by apply list_elem_of_In|done]. Qed.

Lemma select_ref_in certs server_name strict c : select_ref certs server_name strict = Some c -> c ∈ certs.
Proof.
  assert (Hd : (if strict then None else head certs) = Some c -> c ∈ certs).
  { destruct strict; [done|]. destruct certs; [done|]. intros [= ->]. by left. }
  unfold select_ref. destruct (normalize_server_name _) as [name|]; [|done]. destruct (serving certs name) eqn:E; [intros [= ->]; by apply serving_in in E as [? _]|].
  destruct (wildcard_of name ≫= serving certs) eqn:Ew; [|done]. intros [= ->]. destruct (wildcard_of name); [|done]. by apply serving_in in Ew as [? _].
Qed.

Lemma select_ref_total certs server_name : certs <> [] -> is_Some (select_ref certs server_name false).
Proof.
  intros Hne. destruct certs as [|c certs]; [done|]. unfold select_ref. cbn [head].
  destruct (normalize_server_name _) as [name|]; [|eauto]. destruct (serving _ name); [eauto|]. destruct (wildcard_of name ≫= _); eauto.
Qed.
End index.

(** ** Reloading *)

Section reload.
Context {T : TlsCrate} (utf8_error : string -> string) (now_unix : Z).

Record snapshot_wf (self : CertSnapshot) : Prop := {
  wf_index : by_name self = index_of (ordered self);
  wf_distinct : NoDup (map entry_name (ordered self));
  wf_entries : forall e c, by_entry_name self !! e = Some c <-> c ∈ ordered self /\ entry_name c = e;
  wf_keys : Forall (fun c => key_matches (leaf c) (loaded_key c) = true /\ names c = extract_certificate_names (leaf c)) (ordered self);
}.

Definition cert_ok (c : LoadedCertificate) : Prop :=
  key_matches (leaf c) (loaded_key c) = true /\ names c = extract_certificate_names (leaf c).

Lemma from_pem_pair_ok e cert_pem key_pem c : from_pem_pair utf8_error e cert_pem key_pem = Ok c -> entry_name c = e /\ cert_ok c.
Proof.
  unfold from_pem_pair. destruct (parse_certificate_chain _ _) as [[|l ch]|]; try done. destruct (parse_private_key _ _) as [k|]; [|done].
  destruct (key_matches l k) eqn:Hk; [|done]. by intros [= <-].
Qed.

Lemma load_entry_ok entries e cn kn c : load_entry utf8_error entries e cn kn = Ok c -> entry_name c = e /\ cert_ok c.
Proof.
  unfold load_entry. destruct (entries !! cn) as [cert_pem|]; [|done]. destruct (entries !! kn) as [key_pem|]; [|done].
  destruct (validate_entry_size cn _); [|done]. destruct (if String.eqb kn cn then _ else _); [|done].
  destruct (from_pem_pair _ _ _ _) eqn:E; [|done]. intros [= <-]. by eapply from_pem_pair_ok.
Qed.

(** The entries that some of the names belong to. *)
Definition named (ks : list string) (e : string) : Prop := Exists (fun name => fst <$> (fst <$> classify_fabio_entry name) = Some e) ks.
#[local] Instance named_dec ks e : Decision (named ks e).
Proof. unfold named. apply _. Defined.

(** What a reload makes of an entry: its new certificate, the one it had, or
    none. *)
Definition decided (entries : gmap string string) (previous : CertSnapshot) (e : string) : option LoadedCertificate :=
  match load_entry utf8_error entries e e (key_entry e) with
  | Ok c => Some c
  | Err _ => by_entry_name previous !! e
  end.

Lemma decided_ok entries previous e c : snapshot_wf previous -> decided entries previous e = Some c -> entry_name c = e /\ cert_ok c.
Proof.
  intros Hw. unfold decided. destruct (load_entry _ _ _ _ _) eqn:E; [intros [= <-]; by eapply load_entry_ok|].
  intros [Hin <-]%(wf_entries _ Hw). split; [done|]. pose proof (wf_keys _ Hw) as Hk. rewrite Forall_forall in Hk. by apply Hk.
Qed.

(** A key entry is no certificate entry. *)
Lemma key_entry_apart name e e' cn kn : classify_fabio_entry name = Some (e, cn, kn) -> key_entry e' = e -> e' = e.
Proof.
  intros Hc He. unfold key_entry in He. destruct (strip_suffix "-cert.pem" e') as [b|] eqn:Eb; [|done]. exfalso.
  assert (Hk : forall t u, t ++ "-cert.pem" = u ++ "-key.pem" -> False).
  { intros t u E. eapply (strip_suffix_same_length "cert.pem" "-key.pem"); [done|done| |by apply (strip_suffix_app _ u)].
    rewrite <- E. change "-cert.pem" with ("-" ++ "cert.pem"). rewrite <- app_assoc_s. apply strip_suffix_app. }
  unfold classify_fabio_entry in Hc. destruct (strip_suffix "-cert.pem" name) eqn:E1.
  - injection Hc as <- _ _. apply strip_suffix_some in E1. subst name. by apply (Hk _ _ (eq_sym He)).
  - destruct (strip_suffix "-key.pem" name) eqn:E2.
    + injection Hc as <- _ _. by apply (Hk _ _ (eq_sym He)).
    + destruct (ends_with _ _); [|done]. injection Hc as <- _ _. subst name. by rewrite strip_suffix_app in E2.
Qed.

(** What holds of the loop after the names [ks]. *)
Record loading_inv (entries : gmap string string) (previous : CertSnapshot) (ks : list string) (st : Loading) : Prop := {
  li_entries : forall e, l_by_entry_name st !! e = if decide (named ks e) then decided entries previous e else None;
  li_handled : forall x, x ∈ l_handled st <-> exists e, named ks e /\ (x = e \/ x = key_entry e);
  li_ordered : forall c, c ∈ l_ordered st <-> l_by_entry_name st !! entry_name c = Some c;
  li_distinct : NoDup (map entry_name (l_ordered st));
}.

Lemma named_app ks name e : named (ks ++ [name]) e <-> named ks e \/ fst <$> (fst <$> classify_fabio_entry name) = Some e.
Proof. unfold named. rewrite Exists_app, Exists_cons, Exists_nil. naive_solver. Qed.

Lemma keep_inv entries previous ks name e cn kn st warnings c :
  snapshot_wf previous -> classify_fabio_entry name = Some (e, cn, kn) -> ~ named ks e ->
  loading_inv entries previous ks st -> decided entries previous e = Some c ->
  loading_inv entries previous (ks ++ [name])
    (mk_loading (l_ordered st ++ [c]) (<[e := c]> (l_by_entry_name st)) ({[e; key_entry e]} ∪ l_handled st) warnings).
Proof.
  intros Hw Hc Hn Hi Hd. destruct (decided_ok _ _ _ _ Hw Hd) as [He _].
  assert (Hnone : l_by_entry_name st !! e = None) by (by rewrite (li_entries _ _ _ _ Hi), decide_False).
  split; cbn.
  - intros e'. destruct (decide (e' = e)) as [->|Hne].
    + rewrite lookup_insert_eq, decide_True; [done|]. apply named_app. right. by rewrite Hc.
    + rewrite lookup_insert_ne, (li_entries _ _ _ _ Hi) by done. apply decide_ext. rewrite named_app, Hc. cbn. naive_solver.
  - intros x. rewrite elem_of_union, (li_handled _ _ _ _ Hi). setoid_rewrite named_app. rewrite Hc. cbn. set_solver.
  - intros c'. rewrite elem_of_app, list_elem_of_singleton, (li_ordered _ _ _ _ Hi). destruct (decide (entry_name c' = e)) as [E|E].
    + rewrite E, lookup_insert_eq, Hnone. naive_solver.
    + rewrite lookup_insert_ne by done. split; [intros [?| ->]; done|by left].
  - rewrite map_app. apply NoDup_app. split_and!; [apply Hi| |apply NoDup_singleton]. cbn. intros x Hx ->%list_elem_of_singleton.
    apply list_elem_of_fmap in Hx as (c' & E' & Hc'%(li_ordered _ _ _ _ Hi)). rewrite <- E', He in Hc'. by rewrite Hnone in Hc'.
Qed.

Lemma load_name_inv entries previous ks st name :
  snapshot_wf previous -> loading_inv entries previous ks st ->
  loading_inv entries previous (ks ++ [name]) (load_name utf8_error entries previous st name).
Proof.
  intros Hw Hi. unfold load_name. destruct (classify_fabio_entry name) as [[[e cn] kn]|] eqn:Hc.
  2:{ split; [intros e|intros x|apply Hi|apply Hi].
      - rewrite (li_entries _ _ _ _ Hi). apply decide_ext. rewrite named_app, Hc. cbn. naive_solver.
      - rewrite (li_handled _ _ _ _ Hi). setoid_rewrite named_app. rewrite Hc. cbn. naive_solver. }
  pose proof (classify_spec _ _ _ _ Hc) as [-> ->].
  destruct (decide (e ∈ l_handled st)) as [Hh|Hh].
  - assert (Hn : named ks e).
    { apply (li_handled _ _ _ _ Hi) in Hh as (e' & Hn & [->|E]); [done|]. by rewrite <- (key_entry_apart _ _ _ _ _ Hc (eq_sym E)). }
    split; [intros e'|intros x|apply Hi|apply Hi].
    + rewrite (li_entries _ _ _ _ Hi). apply decide_ext. rewrite named_app, Hc. cbn. naive_solver.
    + rewrite (li_handled _ _ _ _ Hi). setoid_rewrite named_app. rewrite Hc. cbn. naive_solver.
  - assert (Hn : ~ named ks e) by (intros Hn; apply Hh, (li_handled _ _ _ _ Hi); eauto).
    destruct (load_entry _ _ _ _ _) as [c|reason] eqn:Hl; [|unfold maybe_reuse_previous; destruct (by_entry_name previous !! e) as [c|] eqn:Hp].
    1,2: apply (keep_inv _ _ _ _ _ _ _ _ _ _ Hw Hc Hn Hi); unfold decided; by rewrite Hl.
    assert (Hd : decided entries previous e = None) by (unfold decided; by rewrite Hl).
    split; cbn; [intros e'|intros x|apply Hi|apply Hi].
    + rewrite (li_entries _ _ _ _ Hi). destruct (decide (e' = e)) as [->|Hne].
      * rewrite decide_False by done. by destruct (decide (named (ks ++ [name]) e)).
      * apply decide_ext. rewrite named_app, Hc. cbn. naive_solver.
    + rewrite elem_of_union, (li_handled _ _ _ _ Hi). setoid_rewrite named_app. rewrite Hc. cbn. set_solver.
Qed.

Lemma load_names_inv entries previous ks :
  snapshot_wf previous -> loading_inv entries previous ks (foldl (load_name utf8_error entries previous) (mk_loading [] ∅ ∅ []) ks).
Proof.
  intros Hw. induction ks as [|name ks IH] using rev_ind.
  - split; cbn; [intros e|intros x|intros c|apply NoDup_nil_2].
    + by rewrite lookup_empty; destruct (decide _) as [X|]; [apply Exists_nil in X|].
    + split; [set_solver|]. intros (e & X & _). by apply Exists_nil in X.
    + rewrite lookup_empty. split; [by intros ?%not_elem_of_nil|done].
  - rewrite foldl_snoc. by apply load_name_inv.
Qed.
End reload.

(** ** The store through its reloads *)

Section runs.
Context {T : TlsCrate} (utf8_error : string -> string) (now_unix : Z).

Abbreviation apply_snapshot := (apply_consul_snapshot utf8_error now_unix).

(** The store after the answers of its watches, failed ones among them. *)
Definition refreshed (answers : list (result (gmap string string * Z) string)) (self : DynamicCertStore) : DynamicCertStore :=
  foldl (fun self answer => (refresh_from_consul utf8_error now_unix answer self).1.1) self answers.

Lemma from_fabio_spec entries previous :
  snapshot_wf previous ->
  let next := (from_fabio_entries utf8_error entries previous).1 in
  snapshot_wf next /\
  forall e, by_entry_name next !! e = if decide (named (btree_keys entries) e) then decided utf8_error entries previous e else None.
Proof.
  intros Hw. cbv zeta. unfold from_fabio_entries. pose proof (load_names_inv utf8_error entries previous (btree_keys entries) Hw) as Hi.
  destruct (foldl _ _ _) as [o b h w]. destruct Hi as [He Hh Ho Hd]. cbn in *.
  assert (Hdec : forall e c, b !! e = Some c -> entry_name c = e /\ cert_ok c).
  { intros e c. rewrite He. destruct (decide (named _ _)); [|done]. by apply decided_ok. }
  split; [|done]. split; cbn; [done|done| |].
  - intros e c. split; [|by intros [Hc%Ho <-]]. intros Hc. destruct (Hdec _ _ Hc) as [<- _]. by rewrite Ho.
  - apply Forall_forall. intros c Hc%Ho. by destruct (Hdec _ _ Hc) as [_ Hok].
Qed.

Lemma default_snapshot_wf : snapshot_wf default_snapshot.
Proof.
  split; cbn; [done|apply NoDup_nil_2| |done]. intros e c. rewrite lookup_empty. split; [done|]. by intros [?%not_elem_of_nil _].
Qed.

Lemma wf_nonempty (self : CertSnapshot) e c : snapshot_wf self -> by_entry_name self !! e = Some c -> ordered self <> [].
Proof. intros Hw [Hc _]%(wf_entries _ Hw) E. rewrite E in Hc. by apply not_elem_of_nil in Hc. Qed.

(** What one snapshot of the key-value store does. *)
Lemma apply_snapshot_spec entries index self :
  snapshot_wf (store_snapshot self) ->
  let next e := if decide (named (btree_keys entries) e) then decided utf8_error entries (store_snapshot self) e else None in
  let self' := (apply_snapshot entries index self).1 in
  snapshot_wf (store_snapshot self')
  /\ ((exists e c, next e = Some c) -> forall e, by_entry_name (store_snapshot self') !! e = next e)
  /\ ((forall e, next e = None) -> store_snapshot self' = store_snapshot self)
  /\ (ordered (store_snapshot self) <> [] -> ordered (store_snapshot self') <> [])
  /\ store_strict_sni self' = store_strict_sni self.
Proof.
  intros Hw. cbv zeta. unfold apply_consul_snapshot. destruct (decide (entries = ∅)) as [->|Hne].
  { assert (Hn : forall e, ~ named (btree_keys (∅ : gmap string string)) e) by (intros e X; by apply Exists_nil in X).
    split_and!; [done| |done|done|done]. intros (e & c & X). rewrite decide_False in X by apply Hn. done. }
  destruct (from_fabio_spec entries (store_snapshot self) Hw) as [Hw' He]. destruct (from_fabio_entries _ _ _) as [next w]. cbn [fst] in *.
  destruct (ordered next) as [|c cs] eqn:Eo; cbn [fst store_snapshot store_strict_sni].
  - split_and!; [done| |done|done|done]. intros (e & c & X). rewrite <- He in X. by destruct (wf_nonempty _ _ _ Hw' X).
  - split_and!; [done|by intros _| |by rewrite Eo|done]. intros Hn. exfalso.
    assert (Hc : by_entry_name next !! entry_name c = Some c) by (apply (wf_entries _ Hw'); rewrite Eo; split; [by left|done]).
    by rewrite He, Hn in Hc.
Qed.

Lemma refreshed_wf answers self :
  snapshot_wf (store_snapshot self) ->
  let self' := refreshed answers self in
  snapshot_wf (store_snapshot self') /\ (ordered (store_snapshot self) <> [] -> ordered (store_snapshot self') <> [])
  /\ store_strict_sni self' = store_strict_sni self.
Proof.
  revert self. induction answers as [|[[entries index]|e] answers IH]; intros self Hw; cbn; [by split_and!| |by apply IH].
  pose proof (apply_snapshot_spec entries index self Hw) as (Hw' & _ & _ & Hne & Hst). cbv zeta in *.
  destruct (IH _ Hw') as (Hw'' & Hne' & Hst'). split_and!; [done|by intros X%Hne%Hne'|exact (eq_trans Hst' Hst)].
Qed.

(** A reload follows the key-value store entry by entry: an entry that decodes
    gets its new certificate, one that does not keeps the certificate it had,
    one no longer listed is dropped; and a snapshot that would leave nothing
    to serve changes nothing. *)
Theorem cert_reload_spec strict answers entries index :
  let self := refreshed answers (DynamicCertStore_new strict) in
  let self' := (apply_snapshot entries index self).1 in
  let next e := if decide (named (btree_keys entries) e) then decided utf8_error entries (store_snapshot self) e else None in
  ((exists e c, next e = Some c) -> forall e, by_entry_name (store_snapshot self') !! e = next e)
  /\ ((forall e, next e = None) -> store_snapshot self' = store_snapshot self).
Proof.
  cbv zeta. pose proof (apply_snapshot_spec entries index (refreshed answers (DynamicCertStore_new strict))) as X.
  destruct X as (_ & X1 & X2 & _); [apply refreshed_wf, default_snapshot_wf|]. by split.
Qed.

(** C32: Whatever the key-value store answered so far, what the selector serves for
    a name is what a search of the loaded certificates in order finds: the
    first that carries the name, else the first that carries its wildcard,
    else the first of all, or none under strict SNI. Its key is the key of its
    certificate, and without strict SNI a store that once had a certificate
    always serves one. *)
Theorem served_certificate_valid strict answers more server_name :
  let self := refreshed answers (DynamicCertStore_new strict) in
  let self' := refreshed more self in
  select_for_server_name self' server_name = select_ref (ordered (store_snapshot self')) server_name strict
  /\ (forall c, select_for_server_name self' server_name = Some c -> key_matches (leaf c) (loaded_key c) = true)
  /\ (ordered (store_snapshot self) <> [] -> strict = false -> is_Some (select_for_server_name self' server_name)).
Proof.
  cbv zeta. set (self := refreshed answers _). destruct (refreshed_wf answers (DynamicCertStore_new strict) default_snapshot_wf) as (Hw & _ & Hs).
  fold self in Hw, Hs. destruct (refreshed_wf more self Hw) as (Hw' & Hne & Hs'). set (self' := refreshed more self) in *.
  assert (E : select_for_server_name self' server_name = select_ref (ordered (store_snapshot self')) server_name strict).
  { unfold select_for_server_name. rewrite select_is_ref by apply Hw'. by rewrite Hs', Hs. }
  split_and!; [done| |].
  - intros c. rewrite E. intros Hc%select_ref_in. pose proof (wf_keys _ Hw') as Hk. rewrite Forall_forall in Hk. by apply Hk.
  - intros Hn ->. rewrite E. by apply select_ref_total, Hne.
Qed.
End runs.
