(* ===== verification/Files.v ===== *)
(** * Files: client authorities and certificates read from disk

    Models [load_pem_entries_from_path] of src/src/proxy/tls/helpers.rs, the
    store of client authorities it feeds, and the start of the file watcher
    of src/src/proxy/tls/watcher.rs. What the file system answers is an
    argument. *)
From S2P Require Import Prelude RustStr StrFacts Config ClientHello ClientCert TlsConf Pem CertStore Handshake.
From Stdlib Require Import Ascii String.
Local Open Scope string_scope.
Local Open Scope Z_scope.

(** ** The paths of a store of authorities *)

(** An entry of a directory: its name with what is not UTF-8 replaced, whether
    it is a regular file, and its content. *)
Record DirEntry := mk_dir_entry {
  de_name : string;
  de_is_file : result bool string;
  de_content : result string string;
}.

(** What is at a path: nothing that can be inspected, a directory with what
    listing it gives, or something else with what reading it gives. *)
Inductive PathNode :=
  | NoStat (error : string)
  | Directory (listing : result (list (result DirEntry string)) string)
  | OtherNode (content : result string string).

(** [Path::file_name]: the last component, unless it is a parent; repeated
    separators and dots inside a path are not components. *)
Definition path_file_name (path : string) : option string :=
  match last (List.filter (fun c => negb (is_empty c) && negb (String.eqb c ".")) (split_on "/"%char path)) with
  | Some c => if String.eqb c ".." then None else Some c
  | None => None
  end.

Fixpoint load_dir_entries (listing : list (result DirEntry string)) (entries : gmap string string) : result (gmap string string) TlsError :=
  match listing with
  | [] => Ok entries
  | Err e :: _ => Err (ConfigError ("failed to read PEM dir entry: " ++ e))
  | Ok d :: listing =>
      match de_is_file d with
      | Err e => Err (ConfigError ("failed to inspect PEM dir entry type: " ++ e))
      | Ok is_file =>
          if negb is_file || negb (ends_with ".pem" (de_name d)) then load_dir_entries listing entries
          else match de_content d with
               | Err e => Err (ConfigError ("failed to read PEM file '" ++ de_name d ++ "': " ++ e))
               | Ok pem_bytes => load_dir_entries listing (<[de_name d := pem_bytes]> entries)
               end
      end
  end.

Definition load_pem_entries_from_path (path : string) (node : PathNode) : result (gmap string string) TlsError :=
  match node with
  | NoStat e => Err (ConfigError ("failed to stat PEM path '" ++ path ++ "': " ++ e))
  | Directory (Err e) => Err (ConfigError ("failed to read PEM dir '" ++ path ++ "': " ++ e))
  | Directory (Ok listing) => load_dir_entries listing ∅
  | OtherNode (Err e) => Err (ConfigError ("failed to read PEM file '" ++ path ++ "': " ++ e))
  | OtherNode (Ok pem_bytes) => Ok {[default "bundle.pem" (path_file_name path) := pem_bytes]}
  end.

(** ** What a directory contributes *)

Definition is_pem (d : DirEntry) : bool := match de_is_file d with Ok b => b && ends_with ".pem" (de_name d) | Err _ => false end.

(** The PEM files of a listing with their texts. *)
Definition pem_files (listing : list (result DirEntry string)) : list (string * string) :=
  omap (fun r => match r with
                 | Ok d => match de_content d with Ok text => if is_pem d then Some (de_name d, text) else None | Err _ => None end
                 | Err _ => None
                 end) listing.

(** Nothing in the way of reading all of them. *)
Definition readable (r : result DirEntry string) : bool :=
  match r with
  | Ok d => match de_is_file d with
            | Ok _ => negb (is_pem d) || match de_content d with Ok _ => true | Err _ => false end
            | Err _ => false
            end
  | Err _ => false
  end.

Lemma load_dir_spec listing entries :
  match load_dir_entries listing entries with
  | Ok loaded => forallb readable listing = true /\ loaded = foldl (fun m f => <[f.1 := f.2]> m) entries (pem_files listing)
  | Err _ => forallb readable listing = false
  end.
Proof.
  revert entries. induction listing as [|[[name [b|e] content]|e] listing IH]; intros entries; [done| |done|done].
  cbn [load_dir_entries de_is_file de_name de_content forallb]. unfold pem_files. cbn [omap list_omap readable is_pem de_is_file de_name de_content].
  rewrite <- negb_andb. destruct (b && ends_with ".pem" name); cbn [negb orb andb].
  - destruct content as [text|e]; [apply IH|done].
  - destruct content; apply IH.
Qed.

(** ** Authorities from a path *)

Section files.
Context {T : TlsCrate} {L : SslCalls} (utf8_error : string -> string) (now_unix : Z).

(** A fresh store given a path, as [main] does for a listener. *)
Definition client_ca_from_path (path : string) (node : PathNode) (cn : string) : DynamicClientCaStore * result () TlsError :=
  ca_load_from_path utf8_error now_unix (load_pem_entries_from_path path node) (DynamicClientCaStore_new cn).

(** The PEM files at a path. *)
Definition files_at (path : string) (node : PathNode) : list (string * string) :=
  match node with
  | Directory (Ok listing) => pem_files listing
  | OtherNode (Ok text) => [(default "bundle.pem" (path_file_name path), text)]
  | _ => []
  end.

Definition readable_at (node : PathNode) : bool :=
  match node with Directory (Ok listing) => forallb readable listing | OtherNode (Ok _) => true | _ => false end.

Definition entries_of (files : list (string * string)) : gmap string string := foldl (fun m f => <[f.1 := f.2]> m) ∅ files.

(** Every file is an entry under its name; where the replacement of bytes that
    are not UTF-8 makes two names equal, the last one listed stands. *)
Lemma entries_of_lookup files name text : NoDup (map fst files) -> entries_of files !! name = Some text <-> (name, text) ∈ files.
Proof.
  unfold entries_of. induction files as [|[n t] files IH] using rev_ind; [intros _; cbn [foldl]; rewrite lookup_empty; split; [done|by intros ?%elem_of_nil]|].
  rewrite map_app, foldl_snoc. intros (Hnd & Hd & _)%NoDup_app. specialize (IH Hnd). cbn [fst snd]. rewrite elem_of_app, list_elem_of_singleton, lookup_insert_Some, IH.
  split; [intros [[-> ->]|[_ Hin]]; [by right|by left]|]. intros [Hin|[= -> ->]]; [right|by left]. split; [|done]. intros ->.
  apply (Hd name); [by apply (list_elem_of_fmap_2 fst files (name, text))|by apply list_elem_of_singleton].
Qed.

Lemma load_pem_spec path node :
  match load_pem_entries_from_path path node with
  | Ok entries => readable_at node = true /\ entries = entries_of (files_at path node)
  | Err _ => readable_at node = false
  end.
Proof.
  destruct node as [e|[listing|e]|[text|e]]; cbn; try done.
  pose proof (load_dir_spec listing ∅) as H. by destruct (load_dir_entries listing ∅).
Qed.

Lemma entries_loaded entries keys st :
  (forall b c, add_cert_error b c = None) -> is_Some (match load_ca_entries utf8_error entries keys st with Ok st => Some st | Err _ => None end).
Proof.
  intros Ha. assert (Hc : forall e certs st, exists st', add_certs e certs st = Ok st').
  { intros e certs. induction certs as [|c certs IH]; intros st'; cbn; [by eexists|]. rewrite Ha. apply IH. }
  revert st. induction keys as [|k keys IH]; intros st; cbn; [by eexists|]. destruct (entries !! k) as [p|]; [|apply IH].
  unfold load_ca_entry. destruct (validate_entry_size k _); [|apply IH]. destruct (parse_client_ca_certificates _ _ _) as [[|c certs]|]; [apply IH| |apply IH].
  destruct (Hc k (c :: certs) (mk_ca_loading (cl_builder st) (cl_names st ++ [k])%list (cl_certificates st) (cl_warnings st))) as [st' ->]. apply IH.
Qed.

(** A fresh store and one snapshot of authorities. *)
Lemma fresh_snapshot_spec entries cn :
  let store := ca_apply_snapshot utf8_error now_unix entries 0 (DynamicClientCaStore_new cn) in
  (loaded_entries (ca_status store) = [] /\ current_store store = None
   /\ ~ (authorities utf8_error entries <> [] /\ store_builder_error = None /\ forall b c, add_cert_error b c = None))
  \/ (loaded_entries (ca_status store) <> [] /\ ca_store (ca_snapshot store) = Some (authorities utf8_error entries) /\ authorities utf8_error entries <> []).
Proof.
  cbv zeta. unfold ca_apply_snapshot. destruct (decide _) as [->|Hne]; [left; by split_and!; [..|intros [? _]]|].
  unfold ca_from_entries. destruct store_builder_error; [left; by split_and!; [..|intros (_ & ? & _)]|].
  destruct (load_ca_entries _ _ _ _) as [st|e] eqn:El.
  2: { left. split_and!; [done..|]. intros (_ & _ & Ha). destruct (entries_loaded entries (btree_keys entries) (mk_ca_loading [] [] [] []) Ha) as [st X]. by rewrite El in X. }
  apply load_ca_entries_spec in El as [Hb Hn]. cbn in Hb, Hn. unfold authorities. destruct (cl_names st) as [|n ns] eqn:En; cbn.
  - left. split_and!; [done..|]. intros [X _]. apply X. apply no_authorities. by symmetry.
  - right. split_and!; [done|by rewrite Hb|]. intros X%no_authorities. by rewrite X in Hn.
Qed.

(** The authorities a listener takes from a path are exactly the
    certificates of its PEM files: of the regular files of the directory whose
    names end in .pem, or of the one file named. It gets them only when all of
    these can be read, and nothing is trusted otherwise; and it does get them
    whenever they can be read, some certificate decodes and the library takes
    them. *)
Theorem client_ca_files_trusted path node cn :
  NoDup (map fst (files_at path node)) ->
  let entries := entries_of (files_at path node) in
  let '(store, answer) := client_ca_from_path path node cn in
  (forall name text, entries !! name = Some text <-> (name, text) ∈ files_at path node)
  /\ match answer with
     | Ok _ => readable_at node = true /\ current_store store = Some (ca_snapshot store)
               /\ ca_store (ca_snapshot store) = Some (authorities utf8_error entries) /\ authorities utf8_error entries <> []
     | Err _ => current_store store = None
               /\ ~ (readable_at node = true /\ authorities utf8_error entries <> [] /\ store_builder_error = None /\ forall b c, add_cert_error b c = None)
     end.
Proof.
  intros Hnd entries. unfold client_ca_from_path, ca_load_from_path. pose proof (load_pem_spec path node) as Hl.
  destruct (load_pem_entries_from_path path node) as [loaded|e].
  2: { split; [by intros; apply entries_of_lookup|]. split; [done|]. rewrite Hl. by intros [? _]. }
  destruct Hl as [Hr ->]. fold entries. destruct (fresh_snapshot_spec entries cn) as [(He & Hc & Hn)|(He & Hs & Hn)]; cbv zeta in *.
  - rewrite He. split; [by intros; apply entries_of_lookup|]. split; [done|]. by intros [_ X].
  - destruct (loaded_entries _) as [|n ns]; [done|]. split; [by intros; apply entries_of_lookup|]. split_and!; [done| |done|done].
    unfold current_store. by rewrite Hs.
Qed.
End files.

(** ** Concrete files *)

#[local] Existing Instance no_errors.

Definition demo_dir : PathNode :=
  Directory (Ok [Ok (mk_dir_entry "b.pem" (Ok true) (Ok (cert_text "ca2"))); Ok (mk_dir_entry "old.pem" (Ok false) (Err "is a directory"));
                 Ok (mk_dir_entry "notes.txt" (Ok true) (Err "denied")); Ok (mk_dir_entry "a.pem" (Ok true) (Ok (cert_text "ca1")))]).

Example path_file_names : map path_file_name ["/etc/ca.pem"; "ca.pem"; "/etc/ssl/"; "/etc/.."; "/"; "a/./."] = [Some "ca.pem"; Some "ca.pem"; Some "ssl"; None; None; Some "a"].
Proof. vm_compute. reflexivity. Qed.

Lemma client_ca_files_trusted_witness :
  let '(store, answer) := client_ca_from_path (T := plain_tls) (fun _ => "") 0 "/etc/ca" demo_dir "" in
  NoDup (map fst (files_at "/etc/ca" demo_dir)) /\ answer = Ok () /\ readable_at demo_dir = true
  /\ ca_store (ca_snapshot store) = Some ["ca1"; "ca2"].
Proof.
  assert (Hnd : NoDup (map fst (files_at "/etc/ca" demo_dir))) by (apply (bool_decide_unpack _); vm_compute; exact I).
  pose proof (client_ca_files_trusted (T := plain_tls) (fun _ => "") 0 "/etc/ca" demo_dir "" Hnd) as H. cbv zeta in H.
  assert (Ha : authorities (T := plain_tls) (fun _ => "") (entries_of (files_at "/etc/ca" demo_dir)) = ["ca1"; "ca2"]) by (vm_compute; reflexivity).
  assert (Hok : (client_ca_from_path (T := plain_tls) (fun _ => "") 0 "/etc/ca" demo_dir "").2 = Ok ()) by (vm_compute; reflexivity).
  destruct (client_ca_from_path _ _ _ _ _) as [store answer]. cbn in Hok. subst answer. rewrite Ha in H. destruct H as (_ & Hr & _ & Hs & _).
  by split_and!.
Defined.

(** ** The watcher of certificate files *)

(** The watcher starts from the times of the files as they are when it starts,
    not as they were when its certificate was loaded: files replaced in between
    go unnoticed until the next change. *)
Definition file_watcher_start {T : TlsCrate} (loaded : LoadedCertificate) (meta : FileMeta) : FileWatch := mk_watch loaded meta.

Example replaced_before_start :
  let read := fun path => if String.eqb path "a.crt" then Ok (cert_text "new") else Ok (key_text "new") in
  let old := mk_loaded (T := plain_tls) "static-file" "old" [] "old" ["old"] in
  let meta := mk_meta (Some 2) (Some 2) in
  let w := file_watcher_start old meta in
  let config := mk_tls_cert "a.crt" "a.key" in
  leaf (watched_cert (foldl (watch_tick (T := plain_tls) (fun _ => "") config) w (replicate 3 (meta, read)))) = "old"
  /\ leaf (watched_cert (watch_tick (T := plain_tls) (fun _ => "") config w (mk_meta (Some 3) (Some 2), read))) = "new".
Proof. vm_compute. by split. Qed.
