(* ===== verification/Ocsp.v ===== *)
(** * Ocsp: the cache of OCSP responses

    Models src/src/proxy/tls/ocsp.rs: the responses by certificate entry with
    the time they expire, in milliseconds of the monotonic clock. Fetching is
    not implemented there: a refresh asks nobody and stores nothing. *)
From S2P Require Import Prelude RustStr.
From Stdlib Require Import Ascii String.
Local Open Scope string_scope.
Local Open Scope Z_scope.

Record OcspResponse := mk_ocsp { response : list Z; expires_at : Z }.

Definition is_valid (now_ms : Z) (self : OcspResponse) : bool := now_ms <? expires_at self.

Record OcspStapler := mk_stapler { responses : gmap string OcspResponse; cache_ttl : Z }.

Definition DEFAULT_OCSP_CACHE_TTL : Z := 3600.
Definition with_cache_ttl (ttl : Z) : OcspStapler := mk_stapler ∅ ttl.
Definition stapler_new : OcspStapler := with_cache_ttl DEFAULT_OCSP_CACHE_TTL.

Definition get_stapled_response (now_ms : Z) (cert_entry_name : string) (self : OcspStapler) : option (list Z) :=
  entry ← responses self !! cert_entry_name;
  if is_valid now_ms entry then Some (response entry) else None.

(** Answers without a request. *)
Definition fetch_ocsp_response (cert_entry_name : string) (self : OcspStapler) : OcspStapler * result () string := (self, Ok ()).

Definition refresh_all (cert_entry_names : list string) (self : OcspStapler) : OcspStapler :=
  match cert_entry_names with
  | [] => self
  | _ => foldl (fun self name => (fetch_ocsp_response name self).1) self cert_entry_names
  end.

Definition clear (self : OcspStapler) : OcspStapler := mk_stapler ∅ (cache_ttl self).
Definition cached_count (self : OcspStapler) : nat := size (responses self).

(** The turns of [run_refresh_loop] after the first tick. *)
Definition refresh_turns (turns : nat) (cert_entry_names : list string) (self : OcspStapler) : OcspStapler :=
  Nat.iter turns (refresh_all cert_entry_names) self.

(** A response is given out only as it was stored, before it expires. *)
Lemma stapled_not_expired now_ms name self r :
  get_stapled_response now_ms name self = Some r <-> exists e, responses self !! name = Some e /\ response e = r /\ now_ms < expires_at e.
Proof.
  unfold get_stapled_response, is_valid. destruct (responses self !! name) as [e|]; cbn; [|by split; [|intros (? & ? & _)]].
  destruct (Z.ltb_spec now_ms (expires_at e)).
  - split; [intros [= <-]; by exists e|by intros (e' & [= <-] & <- & _)].
  - split; [done|]. intros (e' & [= <-] & _ & ?). lia.
Qed.

Lemma refresh_all_same names self : refresh_all names self = self.
Proof. unfold refresh_all, fetch_ocsp_response. destruct names as [|n names]; [done|]. cbn. by induction names. Qed.

(** The refresh loop of a new stapler never has anything to staple. *)
Lemma nothing_stapled turns names ttl now_ms name : get_stapled_response now_ms name (refresh_turns turns names (with_cache_ttl ttl)) = None.
Proof.
  assert (E : refresh_turns turns names (with_cache_ttl ttl) = with_cache_ttl ttl).
  { induction turns as [|turns IH]; [done|]. change (refresh_all names (refresh_turns turns names (with_cache_ttl ttl)) = with_cache_ttl ttl).
    by rewrite IH, refresh_all_same. }
  rewrite E. unfold get_stapled_response. cbn. by rewrite lookup_empty.
Qed.
