(* ===== verification/Consul.v ===== *)
(** * Consul: requests to Consul and what is read from its answers

    Models src/src/consul/client.rs: the client configuration, the queries of
    each request, the decoding of key-value answers and the values and
    certificates read from them. Sending a request, JSON, base64 and URL
    syntax are other crates', parameters here. *)
From S2P Require Import Prelude F64 RustStr StrFacts ClientHello Routes Pem CertStore.
From S2P Require Import Config.
From Stdlib Require Import Ascii String.
Local Open Scope string_scope.
Local Open Scope Z_scope.

(** ** Configuration *)

(** The client's own [ConsulConfig]. *)
Record ClientConfig := mk_client_config {
  cc_address : string;
  cc_scheme : string;
  cc_token : option string;
  cc_kv_prefix : string;
  cc_tag_prefix : string;
  allow_stale : bool;
  require_consistent : bool;
  query_wait : string;
  cc_service_whitelist : list string;
  cc_service_blacklist : list string;
  cc_graceful_shutdown : bool;
  cc_include_warning : bool;
}.

Definition normalize_query_wait (value : string) : string :=
  match parse_optional_duration value with
  | Some duration => if duration =? 0 then "5m" else trim value
  | None => "5m"
  end.

Definition client_config_from (cfg : ConsulConfig) : ClientConfig :=
  mk_client_config (address cfg) (scheme_ cfg) (if is_empty (token cfg) then None else Some (token cfg)) (kv_prefix cfg) (tag_prefix cfg)
    true false (normalize_query_wait (poll_interval cfg)) (service_whitelist cfg) (service_blacklist cfg) (graceful_shutdown cfg) (include_warning cfg).

Definition default_client_config : ClientConfig :=
  mk_client_config "127.0.0.1:8500" "http" None "/sentirum-lb/routes" "urlprefix-" true false "5m" [] [] true false.

Definition with_consistent_reads (c : ClientConfig) : ClientConfig :=
  mk_client_config (cc_address c) (cc_scheme c) (cc_token c) (cc_kv_prefix c) (cc_tag_prefix c) false true (query_wait c)
    (cc_service_whitelist c) (cc_service_blacklist c) (cc_graceful_shutdown c) (cc_include_warning c).

Definition for_tls_cert_watch (cfg : ConsulConfig) : ClientConfig := with_consistent_reads (client_config_from cfg).

(** ** Data *)

Record HealthCheck := mk_check {
  hc_node : string;
  hc_check_id : string;
  hc_name : string;
  hc_status : string;
  hc_service_name : string;
  hc_service_id : string;
  hc_service_tags : list string;
}.

Record CatalogService := mk_catalog {
  cs_id : string;
  cs_node : string;
  cs_address : string;
  cs_service_address : string;
  cs_service_port : Z;
  cs_service_tags : list string;
  cs_service_meta : gmap string string;
}.

Inductive ConsulError := ClientError (e : string) | ApiError (e : string) | ParseError (e : string) | RequestError (e : string).

Definition show_consul_error (e : ConsulError) : string :=
  match e with
  | ClientError e => "HTTP client error: " ++ e
  | ApiError e => "Consul API error: " ++ e
  | ParseError e => "Parse error: " ++ e
  | RequestError e => "Request error: " ++ e
  end.

Definition HEALTH_STATUS_PASSING : string := "passing".
Definition HEALTH_STATUS_WARNING : string := "warning".

(** The crates the client calls: the error of an URL that does not parse, a
    status as text, base64, and the JSON bodies. *)
Class ConsulCrates := {
  url_error : string -> option string;
  show_status : Z -> string;
  decode_base64 : string -> option string;
  json_kv_pairs : string -> result (list (string * option string)) string;
  json_health_checks : string -> result (list HealthCheck) string;
  json_catalog_services : string -> result (list CatalogService) string;
  json_keys : string -> result (list string) string;
}.

(** A response: its status, the text of its X-Consul-Index header and its
    body, or the error of reading it. *)
Record Response := mk_response { status : Z; consul_index : option string; body : result string string }.

(** A request: the URL, its query and the token header. *)
Record Request := mk_request { request_url : string; request_query : list (string * string); request_token : option string }.

(** [send]: the answer of the agent. *)
Abbreviation Send := (Request -> result Response string).

(** ** Queries *)

Section client.
Context {C : ConsulCrates} (config : ClientConfig).

Definition base_url : string := cc_scheme config ++ "://" ++ cc_address config.

Definition consistency_query : list (string * string) :=
  ((if allow_stale config then [("stale", "true")] else []) ++ (if require_consistent config then [("consistent", "true")] else []))%list.
Definition blocking_query (index : Z) : list (string * string) :=
  if 0 <? index then [("index", show_uint index); ("wait", query_wait config)] else [].

Definition checked_url (url : string) (query : list (string * string)) : result Request ConsulError :=
  match url_error url with Some e => Err (ClientError e) | None => Ok (mk_request url query (cc_token config)) end.

Definition kv_watch_url (path : string) (index : Z) : result Request ConsulError :=
  checked_url (base_url ++ "/v1/kv/" ++ trim_start_char "/" path) ([("recurse", "true")] ++ consistency_query ++ blocking_query index)%list.
Definition health_checks_url (index : Z) : result Request ConsulError :=
  checked_url (base_url ++ "/v1/health/state/any") (consistency_query ++ blocking_query index)%list.
Definition catalog_service_url (service_name : string) : result Request ConsulError :=
  checked_url (base_url ++ "/v1/catalog/service/" ++ service_name) consistency_query.
Definition list_keys_url (path : string) : result Request ConsulError :=
  checked_url (base_url ++ "/v1/kv/" ++ trim_start_char "/" path) ([("keys", "true")] ++ consistency_query)%list.

(** [new]: the time-out of the requests, ten seconds over the longest wait;
    [None] where the sum of two durations panics. *)
Definition http_timeout : option Duration :=
  let wait := parse_duration (query_wait config) in
  let total := (if wait =? 0 then from_secs 300 else wait) + from_secs 10 in
  if total <=? duration_max then Some total else None.

(** ** Answers *)

Definition is_success (s : Z) : bool := (200 <=? s) && (s <=? 299).

Definition read_success_body (response : Response) (endpoint : string) : result string ConsulError :=
  match body response with
  | Err e => Err (RequestError e)
  | Ok text =>
      if is_success (status response) then Ok text
      else Err (ApiError (endpoint ++ " returned HTTP " ++ show_status (status response) ++ ": " ++ text))
  end.

Definition new_index_of (response : Response) : Z := default 0 (consul_index response ≫= parse_u64).

Record DecodedKvPair := mk_kv { kv_key : string; kv_value : string }.

Definition decode_kv (kv : string * option string) : option DecodedKvPair :=
  let raw_value := trim (default "" kv.2) in
  if is_empty raw_value then None else mk_kv kv.1 <$> decode_base64 raw_value.

Definition send_request (send : Send) (url : result Request ConsulError) : result Response ConsulError :=
  match url with
  | Err e => Err e
  | Ok request => match send request with Err e => Err (RequestError e) | Ok response => Ok response end
  end.

Definition watch_kv_pairs (send : Send) (path : string) (index : Z) : result (list DecodedKvPair * Z) ConsulError :=
  match send_request send (kv_watch_url path index) with
  | Err e => Err e
  | Ok response =>
      let new_index := new_index_of response in
      if status response =? 404 then Ok ([], new_index)
      else match read_success_body response ("KV watch for path '" ++ path ++ "'") with
           | Err e => Err e
           | Ok text =>
               match json_kv_pairs text with
               | Err e => Err (ParseError ("failed to parse response from KV watch for path '" ++ path ++ "': " ++ e))
               | Ok kv_pairs => Ok (omap decode_kv kv_pairs, new_index)
               end
           end
  end.

(** One value of the combined text: a comment line with its key, then the
    trimmed value; values that are not UTF-8 or blank are left out. *)
Definition kv_part (kv : DecodedKvPair) : option string :=
  if negb (is_utf8 (kv_value kv)) then None
  else let trimmed := trim (kv_value kv) in
       if is_empty trimmed then None else Some ("# --- " ++ kv_key kv ++ String newline trimmed).

Definition combine_parts (parts : list string) : option string :=
  match parts with [] => None | _ => Some (str_join (String newline (String newline "")) parts) end.

Definition watch_kv (send : Send) (path : string) (index : Z) : result (option string * Z) ConsulError :=
  match watch_kv_pairs send path index with
  | Err e => Err e
  | Ok ([], new_index) => Ok (None, new_index)
  | Ok (kv_pairs, new_index) => Ok (combine_parts (omap kv_part kv_pairs), new_index)
  end.

Definition basename (key : string) : string :=
  let name := rsplit_next "/" key in if is_empty name then key else name.

Definition watch_kv_basenames (send : Send) (path : string) (index : Z) : result (gmap string string * Z) ConsulError :=
  match watch_kv_pairs send path index with
  | Err e => Err e
  | Ok (pairs, new_index) => Ok (foldl (fun m kv => <[basename (kv_key kv) := kv_value kv]> m) ∅ pairs, new_index)
  end.

Definition get_health_checks (send : Send) (index : Z) : result (list HealthCheck * Z) ConsulError :=
  match send_request send (health_checks_url index) with
  | Err e => Err e
  | Ok response =>
      match read_success_body response "health checks" with
      | Err e => Err e
      | Ok text =>
          match json_health_checks text with
          | Err e => Err (ParseError ("failed to parse response from health checks: " ++ e))
          | Ok checks => Ok (checks, new_index_of response)
          end
      end
  end.

Definition get_catalog_service (send : Send) (service_name : string) : result (list CatalogService) ConsulError :=
  let endpoint := "catalog service '" ++ service_name ++ "'" in
  match send_request send (catalog_service_url service_name) with
  | Err e => Err e
  | Ok response =>
      match read_success_body response endpoint with
      | Err e => Err e
      | Ok text =>
          match json_catalog_services text with
          | Err e => Err (ParseError ("failed to parse response from " ++ endpoint ++ ": " ++ e))
          | Ok services => Ok services
          end
      end
  end.

Definition list_keys (send : Send) (path : string) : result (list string) ConsulError :=
  match send_request send (list_keys_url path) with
  | Err e => Err e
  | Ok response =>
      if status response =? 404 then Ok []
      else match read_success_body response ("KV list for path '" ++ path ++ "'") with
           | Err e => Err e
           | Ok text =>
               match json_keys text with
               | Err e => Err (ParseError ("failed to parse response from KV list for path '" ++ path ++ "': " ++ e))
               | Ok keys => Ok keys
               end
           end
  end.
End client.

(** ** The combined text holds the routes of every value

    The definitions read from it are those of the values, in order: the
    comment lines between them hide nothing and join nothing. *)

Lemma split_on_join c s t : split_on c (s ++ String c t) = (split_on c s ++ split_on c t)%list.
Proof.
  induction s as [|a s IH].
  - rewrite app_nil_s. cbn. by rewrite Ascii.eqb_refl.
  - rewrite app_cons_s. cbn. destruct (Ascii.eqb a c); [by rewrite IH|]. rewrite IH.
    destruct (split_on c s) eqn:E; [|done]. destruct s; cbn in E; [done|]. by repeat case_match.
Qed.

Lemma ws_len_cr d : d <> "" -> ws_len d = 0%nat -> ws_len (d ++ String carriage_return "") = 0%nat.
Proof.
  destruct d as [|c [|c1 [|c2 r]]]; intros Hd; [done| | |]; rewrite !app_cons_s, ?app_nil_s; unfold ws_len; cbv zeta;
    change (byte carriage_return) with 13; [| |done].
  - destruct (_ || (byte c =? 32)); [done|]. intros _. by rewrite andb_false_r.
  - destruct (_ || (byte c =? 32)); [done|]. destruct ((byte c =? 194) && _); [done|]. intros _. by rewrite !andb_false_r.
Qed.

(** A carriage return at the end of a line is white space. *)
Lemma trim_cr s : trim (s ++ String carriage_return "") = trim s.
Proof.
  unfold trim. destruct (drop_ws_spec _ ws_len_reader s) as (Hz & w & Hw & _ & Ht).
  assert (E : trim_start s = drop_ws ws_len s) by done. set (d := drop_ws ws_len s) in *.
  assert (E' : trim_start (s ++ String carriage_return "") = drop_ws ws_len (d ++ String carriage_return "")).
  { rewrite Hw, app_assoc_s. apply Ht. }
  rewrite E, E'. destruct (string_dec d "") as [->|Hd]; [by vm_compute|].
  rewrite drop_ws_stop by (by apply ws_len_cr). rewrite !trim_end_drop, str_rev_concat.
  change (str_rev (String carriage_return "")) with (String carriage_return ""). rewrite app_cons_s, app_nil_s.
  f_equal. rewrite (drop_ws_step _ ws_len_rev_reader _ 0); [done|]. unfold ws_len_rev. destruct (str_rev d); reflexivity.
Qed.

Lemma parse_command_cr s : parse_command (strip_cr s) = parse_command s.
Proof.
  unfold strip_cr. destruct (strip_suffix (String carriage_return "") s) as [l|] eqn:E; [|done].
  apply strip_suffix_some in E as ->. unfold parse_command. by rewrite trim_cr.
Qed.

(** The commands of a text, piece by piece. *)
Definition line_commands (s : string) : list RouteDef := omap parse_command (split_on newline s).

Lemma omap_strip_cr l : omap parse_command (map strip_cr l) = omap parse_command l.
Proof. induction l as [|a l IH]; [done|]. cbn. rewrite parse_command_cr. by rewrite IH. Qed.

Lemma parse_lines s : parse_route_commands s = line_commands s.
Proof.
  unfold parse_route_commands, line_commands, lines. destruct (split_on newline s) as [|p ps] eqn:E; [done|].
  rewrite omap_app, omap_strip_cr. transitivity (omap parse_command (removelast (p :: ps) ++ [List.last (p :: ps) ""])%list).
  2:{ by rewrite <- app_removelast_last. }
  rewrite omap_app. f_equal.
  destruct (is_empty (List.last (p :: ps) "")) eqn:El; [|done]. apply is_empty_spec in El. by rewrite El.
Qed.

Lemma line_commands_app s t : line_commands (s ++ String newline t) = (line_commands s ++ line_commands t)%list.
Proof. unfold line_commands. by rewrite split_on_join, omap_app. Qed.

Lemma comment_command s : parse_command (String "#" s) = None.
Proof.
  unfold parse_command, trim. assert (trim_start (String "#" s) = String "#" s) as ->.
  { apply (drop_ws_stop ws_len). by apply ws_len_plain. }
  destruct (trim_end_spec (String "#" s)) as (_ & w & Hw & Hb & _). destruct (trim_end (String "#" s)) as [|c r].
  - rewrite app_nil_s in Hw. rewrite <- Hw in Hb. done.
  - rewrite app_cons_s in Hw. injection Hw as <- _. done.
Qed.

Definition no_newline (s : string) : bool := str_all (fun a => negb (Ascii.eqb a newline)) s.

Lemma comment_commands s : no_newline s = true -> line_commands (String "#" s) = [].
Proof. intros Hs. unfold line_commands. rewrite split_on_none; [|done]. cbn. by rewrite comment_command. Qed.

Definition part_commands (kv : DecodedKvPair) : list RouteDef :=
  if is_utf8 (kv_value kv) then parse_route_commands (trim (kv_value kv)) else [].

Lemma kv_part_commands kv :
  no_newline (kv_key kv) = true -> match kv_part kv with Some p => line_commands p = part_commands kv | None => part_commands kv = [] end.
Proof.
  intros Hk. unfold kv_part, part_commands. destruct (is_utf8 (kv_value kv)); [|done]. cbn [negb].
  destruct (is_empty (trim (kv_value kv))) eqn:E; [apply is_empty_spec in E; by rewrite E|].
  rewrite <- app_assoc_s, line_commands_app, parse_lines. change ("# --- " ++ kv_key kv) with (String "#" (" --- " ++ kv_key kv)).
  rewrite comment_commands; [done|]. unfold no_newline in *. by rewrite str_all_app, Hk.
Qed.

(** The definitions read from the combined text are those of the values of the
    store, in order: the comment lines put between them hide nothing and join
    nothing, and a value that is not UTF-8 takes no other with it. *)
Theorem kv_text_routes pairs :
  Forall (fun kv => no_newline (kv_key kv) = true) pairs ->
  parse_route_commands (default "" (combine_parts (omap kv_part pairs))) = flat_map part_commands pairs.
Proof.
  intros Hp. rewrite parse_lines. assert (E : forall l, line_commands (default "" (combine_parts l)) = flat_map line_commands l).
  { intros l. unfold combine_parts. destruct l as [|p l]; [done|].
    change (line_commands (str_join (String newline (String newline "")) (p :: l)) = flat_map line_commands (p :: l)). revert p. induction l as [|q l IH]; intros p.
    - cbn. by rewrite app_nil_r.
    - change (str_join _ (p :: q :: l)) with (p ++ String newline ("" ++ String newline (str_join (String newline (String newline "")) (q :: l)))).
      rewrite !line_commands_app, IH. done. }
  rewrite E. induction Hp as [|kv pairs Hk Hp IH]; [done|]. cbn [omap list_omap flat_map]. pose proof (kv_part_commands kv Hk) as Hc.
  destruct (kv_part kv); cbn [flat_map]; rewrite IH; by rewrite Hc.
Qed.

Lemma kv_text_routes_witness :
  let pairs := [mk_kv "r/a" "route add s h/ http://1.2.3.4:80/ "; mk_kv "r/b" (String (chr 255) ""); mk_kv "r/c" "# none"] in
  parse_route_commands (default "" (combine_parts (omap kv_part pairs))) = [mk_def Add "s" "h/" "http://1.2.3.4:80/" f64_zero [] ∅ Static].
Proof.
  cbv zeta. rewrite (kv_text_routes [mk_kv "r/a" "route add s h/ http://1.2.3.4:80/ "; mk_kv "r/b" (String (chr 255) ""); mk_kv "r/c" "# none"]);
    [vm_compute; reflexivity|repeat constructor].
Defined.
