(* ===== verification/Watcher.v ===== *)
(** * Watcher: routes discovered from Consul

    Models src/src/consul/watcher.rs and [route_update_handler] of
    src/src/main.rs: the aggregation of health checks, the routes of catalog
    instances, and the two watch loops as turns over the answers of Consul.
    The iteration order of hash maps and the order in which concurrent catalog
    queries complete are parameters. *)
From stdpp Require Import sorting.
From S2P Require Import Prelude F64 RustStr StrFacts Routes Config CertStore Consul.
From Stdlib Require Import Ascii String.
Local Open Scope string_scope.
Local Open Scope Z_scope.

(** ** Tags *)

Definition parse_urlprefix_tag (tag prefix : string) : option (string * string) :=
  match strip_prefix prefix (trim tag) with
  | None => None
  | Some tag =>
      let '(first, rest) := splitn2 " " (trim tag) in
      let route := trim first in
      let opts := trim (default "" rest) in
      if starts_with ":" route then Some (route, opts)
      else if negb (contains_char "/" route) then Some (to_ascii_lowercase route, opts)
      else match split_once "/" route with
           | None => None
           | Some (host, path) => Some (to_ascii_lowercase host ++ "/" ++ path, opts)
           end
  end.

Definition tag_opts (raw_opts : string) : gmap string string :=
  fold_left (fun opts opt => match split_once "=" opt with Some (k, v) => <[k := v]> opts | None => opts end) (split_whitespace raw_opts) ∅.

Definition tag_scheme (proto : option string) : string :=
  match proto with
  | Some p => if existsb (String.eqb p) ["https"; "grpc"; "grpcs"; "tcp"] then p else "http"
  | None => "http"
  end.

Definition parse_tag (tag_prefix tag address : string) (port : Z) (service : string) : option RouteDef :=
  match parse_urlprefix_tag tag tag_prefix with
  | None => None
  | Some (src, raw_opts) =>
      let opts := tag_opts raw_opts in
      let scheme := tag_scheme (opts !! "proto") in
      let dst := if String.eqb scheme "tcp" then "tcp://" ++ address ++ ":" ++ show_uint port
                 else scheme ++ "://" ++ address ++ ":" ++ show_uint port ++ "/" in
      Some (mk_def Add service src dst (default f64_zero (opts !! "weight" ≫= parse_f64)) [] (delete "weight" opts) ConsulService)
  end.

(** ** Health checks *)

Definition maintenance_prefix : string := "_service_maintenance:".
Definition is_service_maintenance (c : HealthCheck) : bool := starts_with maintenance_prefix (hc_check_id c).

Definition is_service_check (c : HealthCheck) : bool :=
  negb (is_empty (hc_service_id c)) && negb (String.eqb (hc_check_id c) "serfHealth") && negb (String.eqb (hc_check_id c) "_node_maintenance")
  && negb (is_service_maintenance c).

Definition is_relevant (tag_prefix : string) (c : HealthCheck) : bool :=
  String.eqb (hc_check_id c) "serfHealth" || String.eqb (hc_check_id c) "_node_maintenance" || is_service_maintenance c
  || existsb (starts_with tag_prefix) (hc_service_tags c).

(** Node, service name, service id. *)
Definition CheckKey : Type := string * string * string.
Definition check_key (c : HealthCheck) : CheckKey := (hc_node c, hc_service_name c, hc_service_id c).

Record CheckMaps := mk_maps {
  services : gmap CheckKey (list HealthCheck);
  node_down : gmap string bool;
  node_maintenance : gmap string bool;
  service_maintenance : gmap (string * string) bool;
}.

Definition add_check (m : CheckMaps) (c : HealthCheck) : CheckMaps :=
  if String.eqb (hc_check_id c) "serfHealth" && String.eqb (hc_status c) "critical" then
    mk_maps (services m) (<[hc_node c := true]> (node_down m)) (node_maintenance m) (service_maintenance m)
  else if String.eqb (hc_check_id c) "_node_maintenance" then
    mk_maps (services m) (node_down m) (<[hc_node c := true]> (node_maintenance m)) (service_maintenance m)
  else if is_service_maintenance c && String.eqb (hc_status c) "critical" then
    let service_id := trim_start_str maintenance_prefix (hc_check_id c) in
    mk_maps (services m) (node_down m) (node_maintenance m) (<[(hc_node c, service_id) := true]> (service_maintenance m))
  else if is_service_check c then
    mk_maps (<[check_key c := (default [] (services m !! check_key c) ++ [c])%list]> (services m)) (node_down m) (node_maintenance m) (service_maintenance m)
  else m.

Definition check_maps (checks : list HealthCheck) : CheckMaps := foldl add_check (mk_maps ∅ ∅ ∅ ∅) checks.

Definition instance_healthy (include_warning : bool) (svc_checks : list HealthCheck) : bool :=
  let total := List.length svc_checks in
  let passing := List.length (List.filter (fun c => String.eqb (hc_status c) HEALTH_STATUS_PASSING) svc_checks) in
  let warning := List.length (List.filter (fun c => String.eqb (hc_status c) HEALTH_STATUS_WARNING) svc_checks) in
  let healthy := if include_warning then (passing + warning)%nat else passing in
  negb ((healthy =? 0)%nat || negb (total =? healthy)%nat).

(** [format!("{}.{}", node, id)] *)
Definition instance_id (node id : string) : string := node ++ "." ++ id.

(** The order in which the map of checks is iterated. *)
Class CheckOrder := {
  check_order : gmap CheckKey (list HealthCheck) -> list (CheckKey * list HealthCheck);
  check_order_perm : forall m, check_order m ≡ₚ map_to_list m;
}.

Definition add_passing (include_warning : bool) (m : CheckMaps) (result : gmap string (list string)) (entry : CheckKey * list HealthCheck) :
    gmap string (list string) :=
  let '((node, service_name, service_id), svc_checks) := entry in
  if default false (node_down m !! node) || default false (node_maintenance m !! node) || default false (service_maintenance m !! (node, service_id))
  then result
  else if instance_healthy include_warning svc_checks then
    <[service_name := (default [] (result !! service_name) ++ [instance_id node service_id])%list]> result
  else result.

Definition passing_service_ids `{CheckOrder} (include_warning : bool) (checks : list HealthCheck) : gmap string (list string) :=
  let m := check_maps checks in
  foldl (add_passing include_warning m) ∅ (check_order (services m)).

Definition service_allowed (config : ClientConfig) (name : string) : bool :=
  match cc_service_whitelist config with
  | [] => negb (existsb (String.eqb name) (cc_service_blacklist config))
  | whitelist => existsb (String.eqb name) whitelist
  end.

Definition filter_services (config : ClientConfig) (services : gmap string (list string)) : gmap string (list string) :=
  filter (fun entry => service_allowed config entry.1 = true) services.

(** ** Routes of the passing instances *)

Definition instance_routes (tag_prefix service_name : string) (ids : list string) (i : CatalogService) : list RouteDef :=
  if bool_decide (instance_id (cs_node i) (cs_id i) ∈ ids) then
    let address := if is_empty (cs_service_address i) then cs_address i else cs_service_address i in
    omap (fun tag => if starts_with tag_prefix tag then parse_tag tag_prefix tag address (cs_service_port i) service_name else None) (cs_service_tags i)
  else [].

(** The names looked up, in the order the lookups complete. *)
Class CompletionOrder := {
  completion : list string -> list string;
  completion_perm : forall l, completion l ≡ₚ l;
}.

(** The loop over the results: [None] where [unwrap] would panic. *)
Fixpoint collect_routes (tag_prefix : string) (passing : gmap string (list string)) (lookup : string -> result (list CatalogService) ConsulError)
    (names : list string) : option (list RouteDef * list string) :=
  match names with
  | [] => Some ([], [])
  | name :: names =>
      ids ← passing !! name;
      '(config, failures) ← collect_routes tag_prefix passing lookup names;
      match lookup name with
      | Ok instances => Some ((List.concat (map (instance_routes tag_prefix name ids) instances) ++ config)%list, failures)
      | Err e => Some (config, (name ++ ": " ++ show_consul_error e) :: failures)
      end
  end.

(** [sort_by]: larger paths first. *)
Definition path_first (a b : RouteDef) : Prop := String.leb (src_path b) (src_path a) = true.
#[export] Instance path_first_dec a b : Decision (path_first a b) := decide (String.leb (src_path b) (src_path a) = true).

Section monitor.
Context {O : CheckOrder} {D : CompletionOrder} (config : ClientConfig).

Definition passing_of (checks : list HealthCheck) : gmap string (list string) :=
  filter_services config (passing_service_ids (cc_include_warning config) (List.filter (is_relevant (cc_tag_prefix config)) checks)).

Definition process_checks (lookup : string -> result (list CatalogService) ConsulError) (checks : list HealthCheck) :
    option (result (list RouteDef) string) :=
  let passing := passing_of checks in
  if decide (passing = ∅) then Some (Ok [])
  else
    '(routes, failures) ← collect_routes (cc_tag_prefix config) passing lookup (completion (map fst (map_to_list passing)));
    match failures with
    | [] => Some (Ok (merge_sort path_first routes))
    | _ => Some (Err ("catalog lookups failed for " ++ str_join ", " failures ++ "; preserving previous service routes"))
    end.

(** ** The watch loops *)

Inductive RouteUpdate :=
  | Services (defs : list RouteDef)
  | Manual (content : string)
  | UpdateError (e : string).

(** What a turn of a loop does: updates it sends and times it sleeps. *)
Inductive Effect := Sent (u : RouteUpdate) | Slept (d : Duration).

Record WatchState := mk_watch_state {
  last_index : Z;
  backoff_secs : Z;
  pending : option (list HealthCheck * Z);
}.
Definition watch_start : WatchState := mk_watch_state 0 1 None.

Definition next_backoff (b : Z) : Z := Z.min (b * 2) 60.

(** The sleep of a loop that has no index to wait on. *)
Definition poll_sleep : Duration := let poll := parse_duration (query_wait config) in if poll =? 0 then from_secs 5 else poll.

(** One turn of [ServiceMonitor::watch]: what the request answered (not used
    while a snapshot is pending), what processing the checks gives, and
    whether the channel is open. [None]: the loop has ended. *)
Definition service_turn (fetch : result (list HealthCheck * Z) ConsulError) (process : list HealthCheck -> result (list RouteDef) string)
    (channel_open : bool) (st : WatchState) : option WatchState * list Effect :=
  match (match pending st with Some snapshot => Ok snapshot | None => fetch end) with
  | Err e =>
      (Some (mk_watch_state (last_index st) (next_backoff (backoff_secs st)) None),
       [Sent (UpdateError (show_consul_error e)); Slept (from_secs (backoff_secs st))])
  | Ok (checks, new_index) =>
      if new_index =? last_index st then
        (Some (mk_watch_state (last_index st) 1 None), if last_index st =? 0 then [Slept poll_sleep] else [])
      else match process checks with
           | Ok route_defs =>
               if channel_open then (Some (mk_watch_state new_index 1 None), [Sent (Services route_defs)])
               else (None, [])
           | Err error =>
               (Some (mk_watch_state (last_index st) (next_backoff (backoff_secs st)) (Some (checks, new_index))),
                [Sent (UpdateError error); Slept (from_secs (backoff_secs st))])
           end
  end.

(** One turn of [KVWatcher::watch]; the pending snapshot is not used. *)
Definition kv_turn (fetch : result (option string * Z) ConsulError) (channel_open : bool) (st : WatchState) : option WatchState * list Effect :=
  match fetch with
  | Ok (value, new_index) =>
      if negb (new_index =? last_index st) then
        if channel_open then (Some (mk_watch_state new_index 1 None), [Sent (Manual (default "" value))]) else (None, [])
      else (Some (mk_watch_state (last_index st) 1 None), if last_index st =? 0 then [Slept poll_sleep] else [])
  | Err e =>
      (Some (mk_watch_state (last_index st) (next_backoff (backoff_secs st)) None),
       [Sent (UpdateError (show_consul_error e)); Slept (from_secs (backoff_secs st))])
  end.
End monitor.

(** ** Which instances pass *)

Definition down_check (node : string) (c : HealthCheck) : bool :=
  String.eqb (hc_check_id c) "serfHealth" && String.eqb (hc_status c) "critical" && String.eqb (hc_node c) node.
Definition node_maintenance_check (node : string) (c : HealthCheck) : bool :=
  String.eqb (hc_check_id c) "_node_maintenance" && String.eqb (hc_node c) node.
Definition service_maintenance_check (node id : string) (c : HealthCheck) : bool :=
  is_service_maintenance c && String.eqb (hc_status c) "critical"
  && bool_decide ((hc_node c, trim_start_str maintenance_prefix (hc_check_id c)) = (node, id)).
Definition key_check (k : CheckKey) (c : HealthCheck) : bool := is_service_check c && bool_decide (check_key c = k).

Definition status_ok (include_warning : bool) (c : HealthCheck) : bool :=
  String.eqb (hc_status c) HEALTH_STATUS_PASSING || (include_warning && String.eqb (hc_status c) HEALTH_STATUS_WARNING).

(** Specification: an instance passes when it has a check, all its checks
    pass, and neither its node nor itself is down or in maintenance. *)
Definition eligible (include_warning : bool) (checks : list HealthCheck) (k : CheckKey) : Prop :=
  let '(node, _, id) := k in
  existsb (key_check k) checks = true
  /\ forallb (fun c => negb (key_check k c) || status_ok include_warning c) checks = true
  /\ existsb (down_check node) checks = false
  /\ existsb (node_maintenance_check node) checks = false
  /\ existsb (service_maintenance_check node id) checks = false.

Record maps_spec (checks : list HealthCheck) (m : CheckMaps) : Prop := {
  ms_services : forall k, services m !! k = match List.filter (key_check k) checks with [] => None | l => Some l end;
  ms_down : forall n, default false (node_down m !! n) = existsb (down_check n) checks;
  ms_node : forall n, default false (node_maintenance m !! n) = existsb (node_maintenance_check n) checks;
  ms_service : forall n id, default false (service_maintenance m !! (n, id)) = existsb (service_maintenance_check n id) checks;
}.

Lemma insert_true `{Countable K} (m : gmap K bool) k k' :
  default false (<[k := true]> m !! k') = default false (m !! k') || bool_decide (k = k').
Proof.
  destruct (decide (k = k')) as [->|Hne]; [rewrite lookup_insert_eq, bool_decide_eq_true_2 by done; by rewrite orb_true_r|].
  by rewrite lookup_insert_ne, bool_decide_eq_false_2, orb_false_r by done.
Qed.

Lemma eqb_bool_decide (a b : string) : String.eqb a b = bool_decide (a = b).
Proof. destruct (String.eqb_spec a b); [by rewrite bool_decide_eq_true_2|by rewrite bool_decide_eq_false_2]. Qed.

Lemma filter_snoc {A} (f : A -> bool) l x : List.filter f (l ++ [x]) = (List.filter f l ++ if f x then [x] else [])%list.
Proof. rewrite List.filter_app. cbn. by destruct (f x). Qed.

Lemma existsb_snoc {A} (f : A -> bool) l x : existsb f (l ++ [x]) = existsb f l || f x.
Proof. rewrite existsb_app. cbn. by rewrite orb_false_r. Qed.

(** A check that is none of the others changes none of the maps but its own. *)
Ltac check_arms :=
  unfold down_check, node_maintenance_check, service_maintenance_check, key_check, is_service_check, is_service_maintenance, check_key.

Lemma id_arms c :
  (String.eqb (hc_check_id c) "serfHealth" = true -> String.eqb (hc_check_id c) "_node_maintenance" = false /\ is_service_maintenance c = false)
  /\ (String.eqb (hc_check_id c) "_node_maintenance" = true -> String.eqb (hc_check_id c) "serfHealth" = false /\ is_service_maintenance c = false).
Proof. unfold is_service_maintenance. split; intros ->%String.eqb_eq; by vm_compute. Qed.

Lemma add_check_spec checks m c : maps_spec checks m -> maps_spec (checks ++ [c]) (add_check m c).
Proof.
  intros [H1 H2 H3 H4]. pose proof (id_arms c) as [Hs Hn]. unfold add_check.
  assert (Hk : forall k, key_check k c = is_service_check c && bool_decide (check_key c = k)) by done.
  assert (Hd : forall n, down_check n c = String.eqb (hc_check_id c) "serfHealth" && String.eqb (hc_status c) "critical" && bool_decide (hc_node c = n))
    by (intros n; unfold down_check; by rewrite (eqb_bool_decide (hc_node c))).
  assert (Hm : forall n, node_maintenance_check n c = String.eqb (hc_check_id c) "_node_maintenance" && bool_decide (hc_node c = n))
    by (intros n; unfold node_maintenance_check; by rewrite (eqb_bool_decide (hc_node c))).
  assert (Hv : forall n id, service_maintenance_check n id c = is_service_maintenance c && String.eqb (hc_status c) "critical"
                            && bool_decide ((hc_node c, trim_start_str maintenance_prefix (hc_check_id c)) = (n, id))) by done.
  assert (Hsc : is_service_check c = negb (is_empty (hc_service_id c)) && negb (String.eqb (hc_check_id c) "serfHealth")
                  && negb (String.eqb (hc_check_id c) "_node_maintenance") && negb (is_service_maintenance c)) by done.
  destruct (String.eqb (hc_check_id c) "serfHealth") eqn:E1; [destruct (Hs eq_refl) as [E2 E3]|
    destruct (String.eqb (hc_check_id c) "_node_maintenance") eqn:E2; [destruct (Hn eq_refl) as [_ E3]|destruct (is_service_maintenance c) eqn:E3]];
    rewrite ?E2, ?E3 in *; cbn [negb andb] in *; rewrite ?andb_false_r in Hsc;
    try (destruct (String.eqb (hc_status c) "critical")); try (destruct (is_service_check c) eqn:Esc); try done; cbn [andb] in *.
  all: split; intros; cbn [services node_down node_maintenance service_maintenance].
  all: rewrite ?filter_snoc, ?existsb_snoc, ?insert_true, ?Hk, ?Hd, ?Hm, ?Hv, ?H1, ?H2, ?H3, ?H4, ?app_nil_r, ?orb_false_r; try done.
  all: destruct (decide (check_key c = k)) as [<-|Hne];
    [rewrite lookup_insert_eq, bool_decide_eq_true_2 by done; by destruct (List.filter _ checks)
    |rewrite lookup_insert_ne, bool_decide_eq_false_2, app_nil_r by done; apply H1].
Qed.

Lemma check_maps_spec checks : maps_spec checks (check_maps checks).
Proof.
  induction checks as [|c checks IH] using rev_ind; [split; intros; cbn; by rewrite ?lookup_empty|].
  unfold check_maps in *. rewrite foldl_snoc. by apply add_check_spec.
Qed.

Lemma filter_le {A} (p : A -> bool) l : (List.length (List.filter p l) <= List.length l)%nat.
Proof. induction l as [|a l IH]; cbn; [lia|]. destruct (p a); cbn; lia. Qed.

(** As many checks pass as there are exactly when all do: no check counts as
    passing and warning at once. *)
Lemma instance_healthy_spec include_warning l :
  instance_healthy include_warning l = true <-> l <> [] /\ forallb (status_ok include_warning) l = true.
Proof.
  assert (Hc : forall l, (List.length (List.filter (fun c => String.eqb (hc_status c) HEALTH_STATUS_PASSING) l)
                 + List.length (List.filter (fun c => include_warning && String.eqb (hc_status c) HEALTH_STATUS_WARNING) l))%nat
               = List.length (List.filter (status_ok include_warning) l)).
  { induction l0 as [|c l0 IH]; [done|]. cbn [List.filter]. unfold status_ok at 1.
    destruct (String.eqb (hc_status c) HEALTH_STATUS_PASSING) eqn:E.
    - apply String.eqb_eq in E. rewrite E. cbn [orb]. replace (String.eqb HEALTH_STATUS_PASSING HEALTH_STATUS_WARNING) with false by done.
      rewrite andb_false_r. cbn. lia.
    - cbn [orb]. destruct (include_warning && _); cbn; lia. }
  assert (Hf : forall (p : HealthCheck -> bool) l, List.length (List.filter p l) = List.length l <-> forallb p l = true).
  { intros p. induction l0 as [|c l0 IH]; [done|]. cbn. pose proof (filter_le p l0). destruct (p c); cbn; [rewrite <- IH; lia|]. split; [lia|done]. }
  unfold instance_healthy.
  replace (if include_warning then _ else _) with (List.length (List.filter (status_ok include_warning) l)).
  2:{ rewrite <- Hc. destruct include_warning; cbn [andb]; [done|]. assert (E : List.filter (fun _ : HealthCheck => false) l = []) by (by induction l).
      rewrite E. cbn. lia. }
  rewrite <- Hf. rewrite negb_true_iff, orb_false_iff, negb_false_iff, Nat.eqb_neq, Nat.eqb_eq. destruct l; cbn [List.length] in *.
  - naive_solver lia.
  - split; [|naive_solver lia]. intros [_ E]. by split.
Qed.

Lemma forallb_filter {A} (p q : A -> bool) l : forallb q (List.filter p l) = forallb (fun x => negb (p x) || q x) l.
Proof. induction l as [|x l IH]; [done|]. cbn. destruct (p x); cbn; by rewrite IH. Qed.

Lemma existsb_filter {A} (p : A -> bool) l : existsb p l = true <-> List.filter p l <> [].
Proof. induction l as [|x l IH]; [done|]. cbn. destruct (p x); cbn; [done|]. exact IH. Qed.

(** The entries that [add_passing] keeps are those of the eligible
    instances. *)
Definition passes (include_warning : bool) (m : CheckMaps) (entry : CheckKey * list HealthCheck) : bool :=
  let '((node, _, id), l) := entry in
  negb (default false (node_down m !! node) || default false (node_maintenance m !! node) || default false (service_maintenance m !! (node, id)))
  && instance_healthy include_warning l.

Lemma passes_eligible include_warning checks k :
  (exists l, services (check_maps checks) !! k = Some l /\ passes include_warning (check_maps checks) (k, l) = true) <-> eligible include_warning checks k.
Proof.
  destruct (check_maps_spec checks) as [H1 H2 H3 H4]. destruct k as [[node name] id]. unfold passes, eligible.
  rewrite H2, H3, H4. setoid_rewrite H1. rewrite existsb_filter, <- forallb_filter.
  destruct (List.filter (key_check (node, name, id)) checks) as [|c l] eqn:E.
  - split; [by intros (? & ? & _)|by intros (? & _)].
  - split.
    + intros (l' & [= <-] & Hp). apply andb_true_iff in Hp as [Hp [_ Hf]%instance_healthy_spec]. bool_simpl. by split_and!.
    + intros (Hne & Hf & Hdn & Hnm & Hsm). exists (c :: l). split; [done|]. rewrite Hdn, Hnm, Hsm. by apply instance_healthy_spec.
Qed.

Section passing.
Context {O : CheckOrder}.

(** An entry of [l] that passes. *)
Definition kept (include_warning : bool) (m : CheckMaps) (l : list (CheckKey * list HealthCheck)) (name node id : string) : Prop :=
  exists cs, ((node, name, id), cs) ∈ l /\ passes include_warning m ((node, name, id), cs) = true.

Lemma kept_cons include_warning m e l name node id :
  kept include_warning m (e :: l) name node id <-> (e.1 = (node, name, id) /\ passes include_warning m e = true) \/ kept include_warning m l name node id.
Proof.
  unfold kept. setoid_rewrite elem_of_cons. split.
  - intros (cs & [<-|?] & ?); [by left|right; eauto].
  - intros [[<- ?]|(cs & ? & ?)]; [exists e.2; split; [by left; destruct e|by destruct e]|exists cs; by split; [right|]].
Qed.

Lemma add_passing_cases include_warning m result e :
  add_passing include_warning m result e =
    if passes include_warning m e then <[e.1.1.2 := (default [] (result !! e.1.1.2) ++ [instance_id e.1.1.1 e.1.2])%list]> result else result.
Proof. destruct e as [[[node name] id] cs]. unfold add_passing, passes. by destruct (_ || _ || _). Qed.

Lemma add_passing_fold include_warning m l result name :
  (forall s, s ∈ default [] (foldl (add_passing include_warning m) result l !! name) <->
     s ∈ default [] (result !! name) \/ exists node id, kept include_warning m l name node id /\ s = instance_id node id)
  /\ (is_Some (foldl (add_passing include_warning m) result l !! name) <->
       is_Some (result !! name) \/ exists node id, kept include_warning m l name node id).
Proof.
  revert result. induction l as [|e l IH]; intros result; cbn [foldl].
  { assert (Hk : forall node id, ~ kept include_warning m [] name node id) by (by intros node id (? & ?%not_elem_of_nil & _)).
    split; [intros s|]; (split; [by left|]); (intros [?|(? & ? & X)]; [done|]); [destruct X as [X _]|]; by apply Hk in X. }
  destruct (IH (add_passing include_warning m result e)) as [IH1 IH2]. clear IH. setoid_rewrite kept_cons.
  rewrite add_passing_cases in *.
  destruct (passes include_warning m e) eqn:E; destruct e as [[[node name'] id] cs]; cbn [fst snd] in *.
  2:{ split; [intros s; rewrite IH1|rewrite IH2]; (split; [intros [?|X]; [by left|right]|intros [?|X]; [by left|right]]).
      - destruct X as (n & i & ? & ->). exists n, i. by split; [right|].
      - destruct X as (n & i & [[_ ?]|?] & ->); [done|]. by exists n, i.
      - destruct X as (n & i & ?). exists n, i. by right.
      - destruct X as (n & i & [[_ ?]|?]); [done|]. by exists n, i. }
  destruct (decide (name' = name)) as [->|Hne].
  - rewrite lookup_insert_eq in IH1, IH2. cbn [from_option Datatypes.id] in IH1. split.
    + intros s. rewrite IH1, elem_of_app, list_elem_of_singleton. split.
      * intros [[?| ->]|(n & i & ? & ->)]; [by left|right; exists node, id; by split; [left|]|right; exists n, i; by split; [right|]].
      * intros [?|(n & i & [[[= -> ->] _]|?] & ->)]; [by left; left|by left; right|right; by exists n, i].
    + rewrite IH2. split; [|by left; eauto]. intros _. right. exists node, id. by left.
  - rewrite lookup_insert_ne in IH1, IH2 by done. split; [intros s; rewrite IH1|rewrite IH2]; (split; [intros [?|X]; [by left|right]|intros [?|X]; [by left|right]]).
    + destruct X as (n & i & ? & ->). exists n, i. by split; [right|].
    + destruct X as (n & i & [[[= _ ? _] _]|?] & ->); [done|]. by exists n, i.
    + destruct X as (n & i & ?). exists n, i. by right.
    + destruct X as (n & i & [[[= _ ? _] _]|?]); [done|]. by exists n, i.
Qed.

Lemma passing_spec include_warning checks name :
  (forall s, s ∈ default [] (passing_service_ids include_warning checks !! name) <->
     exists node id, eligible include_warning checks (node, name, id) /\ s = instance_id node id)
  /\ (is_Some (passing_service_ids include_warning checks !! name) <-> exists node id, eligible include_warning checks (node, name, id)).
Proof.
  unfold passing_service_ids. set (m := check_maps checks).
  assert (Hin : forall k cs, (k, cs) ∈ check_order (services m) <-> services m !! k = Some cs).
  { intros k cs. rewrite check_order_perm. apply elem_of_map_to_list. }
  assert (Hk : forall node id, kept include_warning m (check_order (services m)) name node id <-> eligible include_warning checks (node, name, id)).
  { intros node id. rewrite <- passes_eligible. unfold kept. setoid_rewrite Hin. done. }
  destruct (add_passing_fold include_warning m (check_order (services m)) ∅ name) as [F1 F2]. rewrite lookup_empty in F1, F2. split.
  - intros s. rewrite F1. split.
    + intros [?%not_elem_of_nil|(node & id & X%Hk & ->)]; [done|]. by exists node, id.
    + intros (node & id & X%Hk & ->). right. by exists node, id.
  - rewrite F2. split.
    + intros [[? ?]|(node & id & X%Hk)]; [done|]. by exists node, id.
    + intros (node & id & X%Hk). right. by exists node, id.
Qed.
End passing.

(** ** Discovered routes *)

Lemma collect_routes_spec tag_prefix (passing : gmap string (list string)) lookup names :
  (forall name, name ∈ names -> is_Some (passing !! name)) ->
  exists config failures, collect_routes tag_prefix passing lookup names = Some (config, failures)
  /\ (failures = [] <-> forall name, name ∈ names -> exists l, lookup name = Ok l)
  /\ forall rd, rd ∈ config <-> exists name l i, name ∈ names /\ lookup name = Ok l /\ i ∈ l /\ rd ∈ instance_routes tag_prefix name (default [] (passing !! name)) i.
Proof.
  induction names as [|name names IH]; intros Hn; cbn [collect_routes].
  { exists [], []. split_and!; [done|split; [by intros _ ? ?%not_elem_of_nil|done]|].
    intros rd. split; [by intros ?%not_elem_of_nil|]. by intros (? & ? & ? & ?%not_elem_of_nil & _). }
  destruct IH as (config & failures & E & Hf & Hc); [intros; apply Hn; by right|]. destruct (Hn name) as [ids Hids]; [by left|].
  rewrite Hids. cbn. rewrite E. cbn. setoid_rewrite elem_of_cons. destruct (lookup name) as [l|e] eqn:El; eexists _, _; (split; [done|]); split.
  - rewrite Hf. split; [intros H n [->|?]; eauto|eauto].
  - intros rd. rewrite elem_of_app, Hc, list_elem_of_In, in_concat. setoid_rewrite in_map_iff. setoid_rewrite <- list_elem_of_In. split.
    + intros [(? & (i & <- & ?) & ?)|(n & l' & i & ? & ? & ? & ?)]; [exists name, l, i; rewrite Hids; eauto|exists n, l', i; eauto].
    + intros (n & l' & i & [->|?] & Hl & ? & Hi); [left|right; eauto 10]. rewrite Hids in Hi. rewrite El in Hl. injection Hl as <-. eauto.
  - split; [done|]. intros H. destruct (H name) as [l Hl]; [by left|]. by rewrite El in Hl.
  - intros rd. rewrite Hc. split; [naive_solver|]. intros (n & l' & i & [->|?] & Hl & ?); [by rewrite El in Hl|naive_solver].
Qed.

Section discovered.
Context {O : CheckOrder} {D : CompletionOrder} (config : ClientConfig).

(** An instance of an allowed service that passes its checks. *)
Definition routable (checks : list HealthCheck) (k : CheckKey) : Prop :=
  eligible (cc_include_warning config) (List.filter (is_relevant (cc_tag_prefix config)) checks) k /\ service_allowed config k.1.2 = true.

Lemma passing_of_spec checks name :
  (forall s, s ∈ default [] (passing_of config checks !! name) <-> exists node id, routable checks (node, name, id) /\ s = instance_id node id)
  /\ (is_Some (passing_of config checks !! name) <-> exists node id, routable checks (node, name, id)).
Proof.
  unfold passing_of, filter_services, routable. cbn [fst snd].
  destruct (passing_spec (cc_include_warning config) (List.filter (is_relevant (cc_tag_prefix config)) checks) name) as [Hs Hk].
  set (p := passing_service_ids _ _) in *.
  destruct (service_allowed config name) eqn:Ea.
  - replace (filter _ p !! name) with (p !! name).
    2:{ symmetry. destruct (p !! name) as [ids|] eqn:E; [by apply map_lookup_filter_Some_2|]. apply map_lookup_filter_None. by left. }
    split; [intros s; rewrite Hs|rewrite Hk]; naive_solver.
  - assert (filter (fun entry => service_allowed config entry.1 = true) p !! name = None) as ->.
    { apply map_lookup_filter_None. right. intros ids _. cbn. by rewrite Ea. }
    split; [intros s|]; (split; [|by intros (? & ? & X); naive_solver]); [by intros ?%not_elem_of_nil|by intros [? ?]].
Qed.

Definition instance_address (i : CatalogService) : string := if is_empty (cs_service_address i) then cs_address i else cs_service_address i.

Lemma process_checks_spec lookup checks :
  exists r, process_checks config lookup checks = Some r /\
  match r with
  | Err _ => exists node name id e, routable checks (node, name, id) /\ lookup name = Err e
  | Ok defs =>
      Sorted path_first defs
      /\ (forall node name id, routable checks (node, name, id) -> exists l, lookup name = Ok l)
      /\ forall rd, rd ∈ defs <-> exists node name id l i tag,
           routable checks (node, name, id) /\ lookup name = Ok l /\ i ∈ l /\ instance_id (cs_node i) (cs_id i) = instance_id node id
           /\ tag ∈ cs_service_tags i /\ starts_with (cc_tag_prefix config) tag = true
           /\ parse_tag (cc_tag_prefix config) tag (instance_address i) (cs_service_port i) name = Some rd
  end.
Proof.
  unfold process_checks. pose proof (passing_of_spec checks) as Hp. set (passing := passing_of config checks) in *.
  assert (Hr : forall name rd i l, lookup name = Ok l -> i ∈ l -> rd ∈ instance_routes (cc_tag_prefix config) name (default [] (passing !! name)) i <->
    exists node id tag, routable checks (node, name, id) /\ instance_id (cs_node i) (cs_id i) = instance_id node id
           /\ tag ∈ cs_service_tags i /\ starts_with (cc_tag_prefix config) tag = true
           /\ parse_tag (cc_tag_prefix config) tag (instance_address i) (cs_service_port i) name = Some rd).
  { intros name rd i l _ _. unfold instance_routes. fold (instance_address i). case_bool_decide as Hi; rewrite (proj1 (Hp name)) in Hi.
    - destruct Hi as (node & id & Hr & He). rewrite list_elem_of_omap. split.
      + intros (tag & Ht & X). destruct (starts_with _ tag) eqn:Es; [|done]. exists node, id, tag. by split_and!.
      + intros (_ & _ & tag & _ & _ & Ht & Es & X). exists tag. by rewrite Es.
    - split; [by intros ?%not_elem_of_nil|]. intros (node & id & tag & ? & ? & _). destruct Hi. eauto. }
  destruct (decide (passing = ∅)) as [E0|_].
  { assert (Hno : forall k, ~ routable checks k).
    { intros [[node name] id] X. assert (Hk : is_Some (passing !! name)) by (apply Hp; eauto). rewrite E0, lookup_empty in Hk. by destruct Hk. }
    exists (Ok []). split_and!; [done|constructor|intros ? ? ? X; by apply Hno in X|]. intros rd. split; [by intros ?%not_elem_of_nil|].
    intros (? & ? & ? & ? & ? & ? & X & _). by apply Hno in X. }
  assert (Hin : forall name, name ∈ completion (map fst (map_to_list passing)) <-> is_Some (passing !! name)).
  { intros name. rewrite completion_perm, list_elem_of_fmap. split.
    - intros ([n ids] & -> & X%elem_of_map_to_list). by exists ids.
    - intros [ids X]. exists (name, ids). split; [done|]. by apply elem_of_map_to_list. }
  destruct (collect_routes_spec (cc_tag_prefix config) passing lookup (completion (map fst (map_to_list passing)))) as (routes & failures & E & Hf & Hc);
    [intros name; by rewrite Hin|]. rewrite E. cbn.
  destruct failures as [|f fs]; eexists; (split; [done|]).
  - split_and!; [apply Sorted_merge_sort; intros a b; unfold path_first; destruct (String.leb_total (src_path b) (src_path a)); auto| |].
    + intros node name id X. apply Hf; [done|]. apply Hin, Hp. eauto.
    + intros rd. rewrite (merge_sort_Permutation _ _), Hc. setoid_rewrite Hin. split.
      * intros (name & l & i & _ & Hl & Hi & X). rewrite (Hr _ _ _ _ Hl Hi) in X. naive_solver.
      * intros (node & name & id & l & i & tag & Hrt & Hl & Hi & X). exists name, l, i. split_and!; [apply Hp; eauto|done|done|].
        rewrite (Hr _ _ _ _ Hl Hi). exists node, id, tag. naive_solver.
  - assert (Hex : exists name, name ∈ completion (map fst (map_to_list passing)) /\ exists e, lookup name = Err e).
    { destruct (decide (Exists (fun name => (match lookup name with Err _ => true | Ok _ => false end) = true) (completion (map fst (map_to_list passing))))) as [X|X].
      - apply Exists_exists in X as (name & Hn & X). exists name. split; [done|]. destruct (lookup name) as [|e]; [done|by exists e].
      - exfalso. assert (Hnil : f :: fs = []); [|done]. apply Hf. intros name Hn. destruct (lookup name) as [l|e] eqn:El; [by exists l|].
        destruct X. apply Exists_exists. exists name. by rewrite El. }
    destruct Hex as (name & [X1 X2]%Hin%Hp & e & He). naive_solver.
Qed.

(** ** What is to be discovered

    Specification, from the documentation of the configuration and of Consul:
    a service is discovered when it is not on the blacklist and the whitelist
    is empty or names it; an instance when all its own checks pass. *)
Definition may_discover (name : string) : Prop :=
  name ∉ cc_service_blacklist config /\ (cc_service_whitelist config = [] \/ name ∈ cc_service_whitelist config).

(** The instance passes the checks that bear on routing: those with a prefixed
    tag, of its node, and of maintenance. *)
Definition instance_passes (checks : list HealthCheck) (node name id : string) : Prop :=
  eligible (cc_include_warning config) (List.filter (is_relevant (cc_tag_prefix config)) checks) (node, name, id).

(** [rd] is the route of a prefixed tag of an instance of the catalog that is
    to be discovered. *)
Definition discovered (lookup : string -> result (list CatalogService) ConsulError) (checks : list HealthCheck) (rd : RouteDef) : Prop :=
  exists name l i tag,
    lookup name = Ok l /\ i ∈ l /\ may_discover name /\ instance_passes checks (cs_node i) name (cs_id i)
    /\ tag ∈ cs_service_tags i /\ starts_with (cc_tag_prefix config) tag = true
    /\ parse_tag (cc_tag_prefix config) tag (instance_address i) (cs_service_port i) name = Some rd.

(** No service is on both lists: the code lets the whitelist win there. *)
Definition lists_apart : Prop := forall name, name ∈ cc_service_whitelist config -> name ∉ cc_service_blacklist config.

(** The texts [node.id] by which the code matches instances tell those of the
    checks and those of the catalog apart: dots do not make two of them one. *)
Definition ids_distinct (lookup : string -> result (list CatalogService) ConsulError) (checks : list HealthCheck) : Prop :=
  forall c name l i, c ∈ checks -> lookup name = Ok l -> i ∈ l ->
    instance_id (hc_node c) (hc_service_id c) = instance_id (cs_node i) (cs_id i) -> hc_node c = cs_node i /\ hc_service_id c = cs_id i.

Lemma service_allowed_spec name : lists_apart -> (service_allowed config name = true <-> may_discover name).
Proof.
  intros Hap. unfold service_allowed, may_discover, lists_apart in *.
  assert (Hex : forall l, existsb (String.eqb name) l = true <-> name ∈ l).
  { intros l. rewrite existsb_exists. split; [intros (x & Hx & ->%String.eqb_eq); by apply list_elem_of_In|].
    intros Hl%list_elem_of_In. exists name. split; [done|]. by apply String.eqb_eq. }
  destruct (cc_service_whitelist config) as [|w ws].
  - rewrite negb_true_iff, <- not_true_iff_false, Hex. naive_solver.
  - rewrite Hex. naive_solver.
Qed.

Lemma routable_spec checks node name id :
  lists_apart -> (routable checks (node, name, id) <-> may_discover name /\ instance_passes checks node name id).
Proof. intros Hap. unfold routable, instance_passes. rewrite service_allowed_spec by done. tauto. Qed.

(** An instance that passes has a check of its own. *)
Lemma passes_own_check checks node name id :
  instance_passes checks node name id -> exists c, c ∈ checks /\ hc_node c = node /\ hc_service_id c = id.
Proof.
  intros (Hex & _). apply existsb_exists in Hex as (c & Hc & Hk). apply filter_In in Hc as [Hc _]. exists c. split; [by apply list_elem_of_In|].
  unfold key_check, check_key in Hk. apply andb_true_iff in Hk as [_ Hk%bool_decide_eq_true]. by injection Hk.
Qed.

Lemma discovered_spec lookup checks rd :
  lists_apart -> ids_distinct lookup checks ->
  (discovered lookup checks rd <->
   exists node name id l i tag,
     routable checks (node, name, id) /\ lookup name = Ok l /\ i ∈ l /\ instance_id (cs_node i) (cs_id i) = instance_id node id
     /\ tag ∈ cs_service_tags i /\ starts_with (cc_tag_prefix config) tag = true
     /\ parse_tag (cc_tag_prefix config) tag (instance_address i) (cs_service_port i) name = Some rd).
Proof.
  intros Hap Hid. split.
  - intros (name & l & i & tag & Hl & Hi & Hm & Hp & ?). exists (cs_node i), name, (cs_id i), l, i, tag.
    rewrite routable_spec by done. tauto.
  - intros (node & name & id & l & i & tag & Hr & Hl & Hi & Heq & ?). apply routable_spec in Hr as [Hm Hp]; [|done].
    destruct (passes_own_check _ _ _ _ Hp) as (c & Hc & <- & <-). destruct (Hid c name l i Hc Hl Hi (eq_sym Heq)) as [E1 E2].
    rewrite E1, E2 in Hp. exists name, l, i, tag. tauto.
Qed.

(** C29: Where no service is on both lists and no dot makes two instances one
    (the code departs from its documentation there: see the examples below), a
    route is discovered exactly when it is the route of a prefixed tag of an
    instance in the catalog whose own checks all pass, on a node and of a
    service that are neither down nor in maintenance, its service being off
    the blacklist and on the whitelist or the whitelist empty. One failed
    lookup of such a service gives up the whole result; the code never panics;
    and the routes come with the larger paths first. *)
Theorem discovered_routes_sound_complete lookup checks :
  lists_apart -> ids_distinct lookup checks ->
  exists r, process_checks config lookup checks = Some r /\
  match r with
  | Err _ => exists node name id e, may_discover name /\ instance_passes checks node name id /\ lookup name = Err e
  | Ok defs =>
      Sorted path_first defs
      /\ (forall node name id, may_discover name -> instance_passes checks node name id -> exists l, lookup name = Ok l)
      /\ forall rd, rd ∈ defs <-> discovered lookup checks rd
  end.
Proof.
  intros Hap Hid. destruct (process_checks_spec lookup checks) as (r & E & Hr). exists r. split; [done|]. destruct r as [defs|e].
  - destruct Hr as (Hs & Hl & Hd). split_and!; [done| |].
    + intros node name id Hm Hp. apply (Hl node name id). by apply routable_spec.
    + intros rd. by rewrite Hd, discovered_spec.
  - destruct Hr as (node & name & id & e' & Hr & He). apply routable_spec in Hr as [? ?]; [|done]. by exists node, name, id, e'.
Qed.
End discovered.

(** ** The watch loops never lose a snapshot *)

Section loops.
Context (config : ClientConfig).

Record Turn := mk_turn {
  turn_fetch : result (list HealthCheck * Z) ConsulError;
  turn_process : list HealthCheck -> result (list RouteDef) string;
}.

(** The loop over some turns, with the channel open. *)
Fixpoint service_run (turns : list Turn) (st : WatchState) : option WatchState * list Effect :=
  match turns with
  | [] => (Some st, [])
  | t :: turns =>
      match service_turn config (turn_fetch t) (turn_process t) true st with
      | (Some st, effects) => let '(st, more) := service_run turns st in (st, (effects ++ more)%list)
      | (None, effects) => (None, effects)
      end
  end.

(** Between turns: the delay is between a second and a minute, and a pending
    snapshot is one the unchanged-index test would not drop. *)
Definition watch_ok (st : WatchState) : Prop :=
  1 <= backoff_secs st <= 60 /\ match pending st with Some (_, i) => i <> last_index st | None => True end.

Lemma service_turn_ok fetch process channel_open st st' effects :
  watch_ok st -> service_turn config fetch process channel_open st = (Some st', effects) -> watch_ok st'.
Proof.
  intros [Hb Hp]. unfold service_turn, watch_ok, next_backoff. destruct (pending st) as [[checks i]|].
  - rewrite (proj2 (Z.eqb_neq _ _) Hp). destruct (process checks) as [defs|e]; [destruct channel_open; intros [= <- _]|intros [= <- _]]; cbn; split; (done || lia).
  - destruct fetch as [[checks i]|e]; [|intros [= <- _]; cbn; split; (done || lia)]. destruct (i =? last_index st) eqn:E; [intros [= <- _]; cbn; split; (done || lia)|].
    bool_simpl. destruct (process checks) as [defs|e]; [destruct channel_open; intros [= <- _]|intros [= <- _]]; cbn; split; (done || lia).
Qed.

Lemma service_run_ok turns st : watch_ok st -> exists st', (service_run turns st).1 = Some st' /\ watch_ok st'.
Proof.
  revert st. induction turns as [|t turns IH]; intros st Hst; cbn; [by exists st|].
  destruct (service_turn config (turn_fetch t) (turn_process t) true st) as [[st1|] eff] eqn:E.
  - destruct (IH st1) as (st' & E' & Hok); [by eapply service_turn_ok|]. destruct (service_run turns st1) as [o more]. cbn in *. by exists st'.
  - exfalso. unfold service_turn in E. destruct (match pending st with Some _ => _ | None => _ end) as [[checks i]|]; [|done].
    destruct (i =? last_index st); [done|]. by destruct (turn_process t checks).
Qed.

(** The error turns of a snapshot that cannot be processed yet. *)
Fixpoint error_effects (b : Z) (errors : list string) : list Effect :=
  match errors with
  | [] => []
  | e :: errors => Sent (UpdateError e) :: Slept (from_secs b) :: error_effects (next_backoff b) errors
  end.

Lemma pending_retried checks index turns errors st :
  pending st = Some (checks, index) -> index <> last_index st -> Forall2 (fun t e => turn_process t checks = Err e) turns errors ->
  service_run turns st =
    (Some (mk_watch_state (last_index st) (Nat.iter (List.length errors) next_backoff (backoff_secs st)) (Some (checks, index))),
     error_effects (backoff_secs st) errors).
Proof.
  intros Hp Hi Ht. revert st Hp Hi. induction Ht as [|t e turns errors He Ht IH]; intros st Hp Hi; cbn [service_run error_effects List.length Nat.iter].
  { destruct st. cbn in *. by rewrite Hp. }
  unfold service_turn. rewrite Hp, (proj2 (Z.eqb_neq _ _) Hi), He.
  rewrite IH by done. cbn [last_index backoff_secs]. do 3 f_equal. apply Nat.iter_swap.
Qed.

(** C30: After any turns of the loop, the checks of a new index reach the routing
    table as soon as they can be processed: however many attempts fail, the
    same checks are tried again, whatever Consul would answer meanwhile, each
    failure being reported and waited on for at most a minute; the first
    success is sent, and only then does the loop move on to the index. *)
Theorem snapshot_delivered before st checks index first turns e errors final defs :
  (service_run before watch_start).1 = Some st -> pending st = None ->
  turn_fetch first = Ok (checks, index) -> index <> last_index st -> turn_process first checks = Err e ->
  Forall2 (fun t e => turn_process t checks = Err e) turns errors -> turn_process final checks = Ok defs ->
  1 <= backoff_secs st <= 60 /\
  service_run (first :: turns ++ [final]) st =
    (Some (mk_watch_state index 1 None), (error_effects (backoff_secs st) (e :: errors) ++ [Sent (Services defs)])%list).
Proof.
  intros Hst Hp Hf Hi H1 Ht H2. destruct (service_run_ok before watch_start) as (st1 & E & [Hb _]); [by split; cbn; [lia|]|].
  rewrite Hst in E. injection E as <-. split; [done|]. cbn [service_run error_effects]. unfold service_turn. rewrite Hp, Hf, (proj2 (Z.eqb_neq _ _) Hi), H1.
  set (st2 := mk_watch_state _ _ _). assert (Happ : forall ts st, service_run (ts ++ [final]) st =
    match service_run ts st with (Some st', eff) => let '(s, more) := service_run [final] st' in (s, (eff ++ more)%list) | (None, eff) => (None, eff) end).
  { clear. induction ts as [|t ts IH]; intros st; cbn [app service_run]; [by destruct (service_turn _ _ _ _ _) as [[?|] ?]|].
    destruct (service_turn config (turn_fetch t) _ _ _) as [[st'|] eff]; [|done]. rewrite IH. destruct (service_run ts st') as [[s|] eff']; [|done].
    cbn [service_run]. destruct (service_turn _ _ _ _ _) as [[?|] ?]; by rewrite !app_assoc. }
  rewrite Happ, (pending_retried checks index turns errors st2) by done. cbn [service_run]. unfold service_turn, st2. cbn [pending last_index].
  rewrite (proj2 (Z.eqb_neq _ _) Hi), H2. cbn. done.
Qed.
End loops.

Lemma snapshot_delivered_witness :
  let fails e := mk_turn (Ok ([], 7)) (fun _ => Err e) in
  let gone := mk_turn (Err (ApiError "down")) (fun _ => Err "still") in
  let works := mk_turn (Err (ApiError "down")) (fun _ => Ok []) in
  service_run default_client_config (fails "no catalog" :: [gone] ++ [works]) watch_start =
    (Some (mk_watch_state 7 1 None),
     [Sent (UpdateError "no catalog"); Slept (from_secs 1); Sent (UpdateError "still"); Slept (from_secs 2); Sent (Services [])]).
Proof.
  cbv zeta. apply (snapshot_delivered default_client_config [] watch_start [] 7 (mk_turn (Ok ([], 7)) (fun _ => Err "no catalog"))
    [mk_turn (Err (ApiError "down")) (fun _ => Err "still")] "no catalog" ["still"] (mk_turn (Err (ApiError "down")) (fun _ => Ok [])) []);
    try reflexivity; [done|]. constructor; [reflexivity|constructor].
Defined.

(** ** Concrete snapshots, and three divergences *)

(** A dot in a node's name and one in a service id make the same text: the
    instance that fails its check is routed on the strength of another. *)
Definition demo_config : ClientConfig := default_client_config.
#[export] Instance plain_check_order : CheckOrder := {| check_order := map_to_list; check_order_perm := fun m => reflexivity _ |}.
#[export] Instance plain_completion : CompletionOrder := {| completion := fun l => l; completion_perm := fun l => reflexivity _ |}.

(** One instance passes, one does not. *)
Definition two_checks : list HealthCheck :=
  [mk_check "n1" "c1" "c1" "passing" "api" "a1" ["urlprefix-Ex.com/x"]; mk_check "n1" "c2" "c2" "critical" "api" "a2" ["urlprefix-Ex.com/x"]].
Definition two_catalog (name : string) : result (list CatalogService) ConsulError :=
  Ok [mk_catalog "a1" "n1" "10.0.0.1" "" 80 ["urlprefix-Ex.com/x"] ∅; mk_catalog "a2" "n1" "10.0.0.2" "" 80 ["urlprefix-Ex.com/x"] ∅].

Lemma two_lists_apart : lists_apart demo_config.
Proof. intros name Hn. cbn in Hn. by apply elem_of_nil in Hn. Qed.

Lemma two_ids_distinct : ids_distinct two_catalog two_checks.
Proof.
  intros c name l i Hc [= <-] Hi. unfold two_checks in Hc. rewrite !elem_of_cons, elem_of_nil in Hc. rewrite !elem_of_cons, elem_of_nil in Hi.
  destruct Hc as [->|[->|[]]], Hi as [->|[->|[]]]; cbn; intros [=]; done.
Qed.

Lemma discovered_routes_sound_complete_witness :
  (match process_checks demo_config two_catalog two_checks with Some (Ok defs) => map def_dst defs | _ => [] end) = ["http://10.0.0.1:80/"]
  /\ exists r, process_checks demo_config two_catalog two_checks = Some r /\
     match r with
     | Err _ => exists node name id e, may_discover demo_config name /\ instance_passes demo_config two_checks node name id /\ two_catalog name = Err e
     | Ok defs =>
         Sorted path_first defs
         /\ (forall node name id, may_discover demo_config name -> instance_passes demo_config two_checks node name id -> exists l, two_catalog name = Ok l)
         /\ forall rd, rd ∈ defs <-> discovered demo_config two_catalog two_checks rd
     end.
Proof.
  split; [vm_compute; reflexivity|].
  exact (discovered_routes_sound_complete demo_config two_catalog two_checks two_lists_apart two_ids_distinct).
Defined.

Definition dotted_checks : list HealthCheck :=
  [mk_check "web.a" "c1" "c1" "passing" "api" "1" ["urlprefix-/x"]; mk_check "web" "c2" "c2" "critical" "api" "a.1" ["urlprefix-/x"]].
Definition dotted_catalog (name : string) : result (list CatalogService) ConsulError :=
  Ok [mk_catalog "a.1" "web" "10.0.0.2" "" 80 ["urlprefix-/x"] ∅].

Example failing_instance_routed :
  (forall name, ~ eligible false dotted_checks ("web", name, "a.1")) /\
  (match process_checks demo_config dotted_catalog dotted_checks with Some (Ok defs) => map def_dst defs | _ => [] end) = ["http://10.0.0.2:80/"].
Proof.
  split; [|vm_compute; reflexivity]. intros name (H & H' & _). unfold key_check, is_service_check, check_key in *. cbn in H, H'.
  repeat case_bool_decide; simplify_eq/=; done.
Qed.

(** A weight in a tag is any number, while the route commands take only a
    weight they have checked. *)
Example tag_weight_unchecked :
  (def_weight <$> parse_tag "urlprefix-" "urlprefix-/x weight=-3" "h" 80 "s") = parse_f64 "-3"
  /\ (def_weight <$> parse_tag "urlprefix-" "urlprefix-/x weight=nan" "h" 80 "s") = parse_f64 "nan"
  /\ (def_weight <$> parse_command "route add s /x http://h:80/ weight -3") = Some f64_zero.
Proof. vm_compute. auto. Qed.

(** A service on both lists is discovered, though its blacklist entry is
    documented to take precedence. *)
Definition both_lists : ClientConfig := mk_client_config "127.0.0.1:8500" "http" None "/sentirum-lb/routes" "urlprefix-" true false "5m" ["api"] ["api"] true false.

Example blacklisted_service_discovered :
  ~ may_discover both_lists "api"
  /\ (match process_checks both_lists two_catalog two_checks with Some (Ok defs) => map def_service defs | _ => [] end) = ["api"].
Proof. split; [|vm_compute; reflexivity]. intros [Hb _]. apply Hb. by left. Qed.
