(* ===== verification/Updates.v ===== *)
(** * Updates: from Consul's answers to the routing table

    Models [route_update_handler] of src/src/main.rs and puts together the
    watchers (Watcher) with the managed table (Registry): what the balancer
    serves after any sequence of updates. *)
From S2P Require Import Prelude RustStr Consul Watcher Routes RateLimit CircuitBreaker Health Stats Target Weights Table Registry.
From Stdlib Require Import Ascii String.
Local Open Scope string_scope.
Local Open Scope Z_scope.

(** What the handler does with one update: an operation of the table, none for
    an error. *)
Definition update_op (u : RouteUpdate) : option managed_op :=
  match u with
  | Services defs => Some (OpUpdateServices defs)
  | Manual content => Some (OpUpdateKv (parse_route_commands content))
  | UpdateError _ => None
  end.

Section handler.
Context {G : GlobCrate} {U : UrlParser} {O : HashOrder}.

(** The loop of [route_update_handler] over the updates it receives, each with
    the time and the cells in use when it is applied. *)
Definition route_update_handler (updates : list (RouteUpdate * Z * gset loc)) (m : ManagedRouteTable) (h : Heap) : ManagedRouteTable * Heap :=
  foldl (fun s '(u, now_ns, inflight) =>
           match update_op u with Some op => managed_apply now_ns inflight op s.1 s.2 | None => s end) (m, h) updates.

(** The last service routes and the last manual routes among the updates. *)
Fixpoint latest (updates : list RouteUpdate) (manual services : list RouteDef) : list RouteDef * list RouteDef :=
  match updates with
  | [] => (manual, services)
  | Services defs :: updates => latest updates manual (mark_sources defs ConsulService)
  | Manual content :: updates => latest updates (mark_sources (parse_route_commands content) ConsulKv) services
  | UpdateError _ :: updates => latest updates manual services
  end.

Lemma handler_history updates ops s :
  history ops s -> history (ops ++ omap (fun u => update_op u.1.1) updates)%list (route_update_handler updates s.1 s.2).
Proof.
  revert ops s. induction updates as [|[[u now] inflight] updates IH]; intros ops [m h] Hs; cbn; [by rewrite app_nil_r|].
  destruct (update_op u) as [op|] eqn:E; cbn.
  - specialize (IH (ops ++ [op])%list (managed_apply now inflight op m h)). rewrite <- app_assoc in IH.
    destruct (managed_apply now inflight op m h) as [m' h'] eqn:Ea. apply IH. rewrite <- Ea. by constructor.
  - by apply (IH ops (m, h)).
Qed.

Lemma latest_sources updates st kv svc :
  fold_left (fun s op => spec_sources op s) (omap update_op updates) (st, kv, svc) = (st, (latest updates kv svc).1, (latest updates kv svc).2).
Proof. revert kv svc. induction updates as [|[defs|c|e] updates IH]; intros kv svc; cbn; [done|apply IH..]. Qed.

(** Whatever updates arrive after the static routes were loaded, the table
    serves the static routes with the routes of the last manual update and
    those of the last service update, in this order; an error of Consul
    changes nothing of what is served. *)
Theorem latest_updates_served statics now inflight updates m0 h0 :
  initial (m0, h0) ->
  let '(m1, h1) := managed_apply now inflight (OpLoadStatic statics) m0 h0 in
  let '(m, _) := route_update_handler updates m1 h1 in
  let '(manual, services) := latest (map (fun u => u.1.1) updates) [] [] in
  forall k p, erased_contents (routes (published m)) k p = spec_table (mark_sources statics Routes.Static ++ manual ++ services)%list k p.
Proof.
  intros Hi. destruct (managed_apply now inflight (OpLoadStatic statics) m0 h0) as [m1 h1] eqn:E1.
  assert (Hh : history [OpLoadStatic statics] (m1, h1)).
  { rewrite <- E1. apply (history_op []). by constructor. }
  pose proof (handler_history updates _ _ Hh) as Hr. cbn [fst snd] in Hr. destruct (route_update_handler updates m1 h1) as [m h].
  apply sources_served in Hr. rewrite fold_left_app in Hr. cbn [fold_left spec_sources] in Hr.
  replace (omap (fun u => update_op u.1.1) updates) with (omap update_op (map (fun u => u.1.1) updates)) in Hr.
  2:{ clear. induction updates as [|u updates IH]; cbn; [done|]. by rewrite IH. }
  rewrite latest_sources in Hr. destruct (latest _ _ _) as [manual services]. apply Hr.
Qed.
End handler.

#[local] Instance no_glob : GlobCrate := {| Pattern := unit; pattern_new _ := None; pattern_matches _ _ := false |}.
#[local] Instance some_url : UrlParser := fun _ => None.
#[local] Instance list_order : HashOrder := {| iter_order m := map_to_list m; iter_order_perm m := Permutation_refl _ |}.

Lemma latest_updates_served_witness :
  let content := "route add c k/ http://x/" in
  let m := (route_update_handler [(Manual "route add z z/ http://x/", 6, ∅); (UpdateError "down", 7, ∅); (Manual content, 8, ∅)]
              (managed_apply 5 ∅ (OpLoadStatic []) managed_new heap_empty).1 (managed_apply 5 ∅ (OpLoadStatic []) managed_new heap_empty).2).1 in
  erased_contents (routes (published m)) "k" "/" = spec_table (mark_sources (parse_route_commands content) ConsulKv) "k" "/".
Proof.
  cbv zeta. pose proof (latest_updates_served [] 5 ∅ [(Manual "route add z z/ http://x/", 6, ∅); (UpdateError "down", 7, ∅); (Manual "route add c k/ http://x/", 8, ∅)]
    managed_new heap_empty) as H.
  destruct (managed_apply 5 ∅ (OpLoadStatic []) managed_new heap_empty) as [m1 h1]. cbn [fst snd].
  destruct (route_update_handler _ m1 h1) as [m h]. cbn [map fst latest] in H. rewrite app_nil_l, app_nil_r in H. apply H. by left.
Defined.
