(* ===== verification/Discovery.v ===== *)
(** * Discovery: from a passing check to a request

    Puts together the discovery of src/src/consul/watcher.rs, the sources and
    the table of src/src/route and the lookup of
    src/src/proxy/handler/upstream.rs: an instance registered in Consul with a
    prefixed tag, whose checks pass and whose service is to be discovered, is
    where requests for its route go, and nothing else that Consul says is. *)
From stdpp Require Import sorting.
From S2P Require Import Prelude F64 RustStr StrFacts Consul Watcher Routes Prog RateLimit CircuitBreaker.
From S2P Require DnsCache.
From S2P Require Import Health Stats Target Weights Table Picker Registry Http Upstream.
From Stdlib Require Import Ascii String.
Local Open Scope string_scope.
Local Open Scope Z_scope.

Section discovery.
Context {G : GlobCrate} {U : UrlParser} {O : HashOrder} {S : DnsCache.SelectNth}.

(** ** Additions at the end of the definitions *)

Lemma spec_apply_keeps def tg f k p t : cmd def = Routes.Add -> t ∈ f k p -> t ∈ spec_apply def tg f k p.
Proof.
  intros E Ht. unfold spec_apply. rewrite E. destruct (_ && _); [|done]. apply elem_of_app. by left.
Qed.

Lemma spec_apply_adds def tg f :
  cmd def = Routes.Add -> exists t, t ∈ spec_apply def tg f (def_host def) (add_path def) /\ (t = tg \/ same_target t tg = true).
Proof.
  intros E. unfold spec_apply. rewrite E, !String.eqb_refl. cbn [andb].
  destruct (existsb (fun t => same_target t tg) (f (def_host def) (add_path def))) eqn:Ex; cbn [negb].
  - apply existsb_exists in Ex as (t & Ht & Es). exists t. split; [by apply list_elem_of_In|by right].
  - exists tg. split; [|by left]. apply elem_of_app. right. by apply list_elem_of_singleton.
Qed.

Lemma spec_adds_in defs f def :
  Forall (fun d => cmd d = Routes.Add) defs -> def ∈ defs ->
  exists t, t ∈ fold_left (fun f d => spec_apply d (def_target d) f) defs f (def_host def) (add_path def)
            /\ service t = def_service def /\ url t = def_dst def /\ source t = def_source def.
Proof.
  assert (Hkeep : forall defs f k p t, Forall (fun d => cmd d = Routes.Add) defs -> t ∈ f k p ->
            t ∈ fold_left (fun f d => spec_apply d (def_target d) f) defs f k p).
  { clear. induction defs as [|d defs IH]; intros f k p t Hadd Ht; [done|]. apply Forall_cons in Hadd as [Hd Hadd].
    cbn [fold_left]. apply IH; [done|]. by apply spec_apply_keeps. }
  revert f. induction defs as [|d defs IH]; intros f Hadd Hin; [by apply elem_of_nil in Hin|].
  apply Forall_cons in Hadd as [Hd Hadd]. cbn [fold_left]. apply elem_of_cons in Hin as [->|Hin]; [|by apply IH].
  destruct (spec_apply_adds d (def_target d) f Hd) as (t & Ht & Hs). exists t. split; [by apply Hkeep|].
  destruct (def_target_fields d) as (F1 & F2 & _ & _ & F5). destruct Hs as [->|Hs]; [done|].
  unfold same_target in Hs. apply andb_true_iff in Hs as [Hs E3%bool_decide_eq_true].
  apply andb_true_iff in Hs as [Hs _]. apply andb_true_iff in Hs as [E1%String.eqb_eq E2%String.eqb_eq].
  split_and!; congruence.
Qed.

(** ** Routes of a published table *)

Lemma contents_route m k p t :
  t ∈ contents m k p -> exists rs r u, m !! k = Some rs /\ r ∈ rs /\ path r = p /\ u ∈ targets r /\ t = core u.
Proof.
  unfold contents. destruct (m !! k) as [rs|] eqn:E; cbn; [|by intros ?%elem_of_nil].
  destruct (find_path p rs) as [r|] eqn:Ef; [|by intros ?%elem_of_nil]. apply find_path_Some in Ef as [Hr Hp].
  intros (u & <- & Hu)%list_elem_of_In%in_map_iff. exists rs, r, u. split_and!; try done. by apply list_elem_of_In.
Qed.

Lemma route_slots m h key r :
  reachable (m, h) -> r ∈ routes_of (published m) key -> targets r <> [] -> w_targets r <> [].
Proof.
  intros Hreach Hr Hne. pose proof (published_wf _ Hreach) as Hw. unfold routes_of in Hr.
  destruct (routes (published m) !! key) as [rs|] eqn:Ek; [|by apply elem_of_nil in Hr].
  destruct (Hw _ _ Ek) as [_ _ _ Hok]. rewrite Forall_forall in Hok. destruct (Hok r Hr) as [[_ _ _ [l Hl]] _].
  pose proof (compute_weights_nonempty l) as Hn. rewrite Hl in Hn. exact (Hn Hne).
Qed.

Lemma published_shared m h key r : reachable (m, h) -> r ∈ routes_of (published m) key -> shared_trackers r.
Proof.
  intros Hreach Hr t u Ht Hu Eu. pose proof (managed_inv_reachable _ Hreach) as [_ Hcells _]. cbn in Hcells.
  pose proof (published_wf _ Hreach) as Hw. unfold routes_of in Hr.
  destruct (routes (published m) !! key) as [rs|] eqn:Ek; [|by apply elem_of_nil in Hr].
  destruct (route_target_in_contents _ _ _ _ _ Hw Ek Hr Ht) as [_ Ct%Hcells], (route_target_in_contents _ _ _ _ _ Hw Ek Hr Hu) as [_ Cu%Hcells].
  pose proof (reg_tracker _ _ _ _ Ct) as E1. pose proof (reg_tracker _ _ _ _ Cu) as E2. cbn in E1, E2. rewrite Eu in E1. congruence.
Qed.

Lemma matching_route t hst p m r :
  r ∈ routes_of t (to_ascii_lowercase hst) -> targets r <> [] -> path_matches m p r = true -> r ∈ matching_routes t hst p m.
Proof.
  intros Hr Hne Hm. unfold routes_of in Hr. destruct (routes t !! to_ascii_lowercase hst) as [rs|] eqn:E; [|by apply elem_of_nil in Hr].
  assert (Hin : r ∈ List.filter (selects m p) rs).
  { rewrite list_elem_of_In, filter_In, <- list_elem_of_In. split; [done|]. unfold selects, no_targets. rewrite Hm. by destruct (targets r). }
  unfold matching_routes, collect_matching_routes. rewrite E. cbn [app].
  destruct (negb _); [|done]. destruct (routes t !! ""); [apply elem_of_app; by left|done].
Qed.

Lemma matching_wf m h s hst p kind :
  reachable (m, h) -> px_table s = published m ->
  Forall (fun r => shared_trackers r /\ targets r <> []) (matching_routes (px_table s) hst p kind).
Proof.
  intros Hreach ->. apply Forall_forall. intros r [Hne [key Hr]]%matching_routes_in. split; [by eapply published_shared|done].
Qed.

(** ** Discovered instances *)

Section consul.
Context {CO : CheckOrder} {CD : CompletionOrder} (cc : ClientConfig).
Context (lookup : string -> result (list CatalogService) ConsulError) (checks : list HealthCheck).

Lemma parse_tag_add tag_prefix tag address port name rd :
  parse_tag tag_prefix tag address port name = Some rd -> cmd rd = Routes.Add /\ def_source rd = ConsulService.
Proof. unfold parse_tag. destruct (parse_urlprefix_tag tag tag_prefix) as [[src raw]|]; [|done]. by intros [= <-]. Qed.

(** What the processing gives, whatever the lists and the names: additions of
    the service source. *)
Lemma processed_defs defs :
  process_checks cc lookup checks = Some (Ok defs) ->
  mark_sources defs ConsulService = defs /\ Forall (fun d => cmd d = Routes.Add) defs.
Proof.
  intros E. destruct (process_checks_spec cc lookup checks) as (r & Er & Hr). rewrite E in Er. injection Er as <-.
  destruct Hr as (_ & _ & Hr). assert (Hall : forall rd, rd ∈ defs -> cmd rd = Routes.Add /\ def_source rd = ConsulService).
  { intros rd (? & ? & ? & ? & ? & ? & _ & _ & _ & _ & _ & _ & Hp)%Hr. by eapply parse_tag_add. }
  split; [|apply Forall_forall; intros rd Hrd; by apply Hall].
  unfold mark_sources. rewrite <- (map_id defs) at 2. apply map_ext_in. intros rd Hrd. apply list_elem_of_In, Hall in Hrd as [_ Hs].
  unfold set_source. rewrite <- Hs. by destruct rd.
Qed.

Lemma discovered_defs defs rd :
  lists_apart cc -> ids_distinct lookup checks -> process_checks cc lookup checks = Some (Ok defs) ->
  rd ∈ defs <-> discovered cc lookup checks rd.
Proof.
  intros Hap Hid E. rewrite discovered_spec by done. destruct (process_checks_spec cc lookup checks) as (r & Er & Hr).
  rewrite E in Er. injection Er as <-. destruct Hr as (_ & _ & Hr). apply Hr.
Qed.

(** The instance's target: that of the definition, from the service source. *)
Definition target_of_instance (rd : RouteDef) (t : Target) : Prop :=
  service t = def_service rd /\ url t = def_dst rd /\ source t = ConsulService.

(** While the table of [m] is published, a request for the host of the
    definition and a path [route] matches is not left without a target when
    [t] satisfies its header constraints and is acceptable. *)
Definition requests_find (m : ManagedRouteTable) (rd : RouteDef) (route : Route) (t : Target) : Prop :=
  forall rnd hst p kind strat cb headers s,
    rnd_ok rnd -> px_table s = published m -> to_ascii_lowercase hst = def_host rd -> path_matches kind p route = true ->
    (any_header_constraint route = true -> matches_headers headers t = true) -> acceptable true s t = true ->
    (run (lookup_target rnd hst p kind strat cb headers) s).2 <> None.

(** C4: Discovery reaches the requests. While the service source of the balancer
    holds what a snapshot of Consul's checks was processed into (whatever the
    history, the other sources and the traffic), a route of the published
    table has a target of the service source exactly when it is the route of a
    prefixed tag of an instance whose own checks pass and whose service is off
    the blacklist and allowed by the whitelist, at that instance's address;
    manual routes cannot remove it. And a request for the host of such a route
    and a path it matches gets a target whenever the instance's target
    satisfies its header constraints and is healthy with an accepting breaker.
    The lists must name no service twice and dots must not make two instances
    one: Watcher.v shows what the code does otherwise. *)
Theorem discovered_instances_reached m h defs :
  lists_apart cc -> ids_distinct lookup checks ->
  reachable (m, h) -> process_checks cc lookup checks = Some (Ok defs) ->
  service_routes (Registry.registry m) = mark_sources defs ConsulService ->
  (forall rd, discovered cc lookup checks rd ->
     exists route t,
       route ∈ routes_of (published m) (def_host rd) /\ path route = add_path rd /\ t ∈ targets route
       /\ target_of_instance rd t /\ requests_find m rd route t)
  /\ forall key route t,
       route ∈ routes_of (published m) key -> t ∈ targets route \/ t ∈ w_targets route -> source t = ConsulService ->
       exists rd, discovered cc lookup checks rd /\ key = def_host rd /\ path route = add_path rd /\ target_of_instance rd t.
Proof.
  intros Hap Hid Hreach Hp Hsvc. destruct (processed_defs _ Hp) as [Hmark Hadd]. rewrite Hmark in Hsvc. split.
  - intros rd Hd. assert (Hin : rd ∈ defs) by (by apply (discovered_defs _ _ Hap Hid Hp)).
    destruct (spec_adds_in defs (spec_table (static_routes (Registry.registry m) ++ kv_routes (Registry.registry m))) rd Hadd Hin) as (t0 & Ht0 & E1 & E2 & E3).
    assert (Ht : t0 ∈ erased_contents (routes (published m)) (def_host rd) (add_path rd)).
    { rewrite (mi_contents _ (managed_inv_reachable _ Hreach)). unfold get_all, spec_table in *. cbn [fst].
      by rewrite Hsvc, app_assoc, fold_left_app. }
    apply list_elem_of_In, in_map_iff in Ht as (tc & <- & Htc%list_elem_of_In%contents_route).
    destruct Htc as (rs & r & u & Hk & Hr & Hpath & Hu & ->). exists r, u. cbn in E1, E2, E3.
    assert (Hro : r ∈ routes_of (published m) (def_host rd)) by (unfold routes_of; by rewrite Hk).
    assert (Hne : targets r <> []) by (intros En; rewrite En in Hu; by apply elem_of_nil in Hu).
    destruct Hd as (? & ? & ? & ? & _ & _ & _ & _ & _ & _ & [_ Hsrc]%parse_tag_add).
    split_and!; [done|done|done|split_and!; [done|done|congruence]|].
    intros rnd hst p kind strat cb headers s Hrnd Hs Hh Hm Hhd Hacc Hnone.
    assert (Hin' : r ∈ matching_routes (px_table s) hst p kind) by (rewrite Hs; apply matching_route; [by rewrite Hh|done|done]).
    pose proof (lookup_in_routes_spec rnd strat cb headers 0 (matching_routes (px_table s) hst p kind) s Hrnd) as Hl.
    change (run (lookup_target rnd hst p kind strat cb headers) s)
      with (run (lookup_in_routes rnd strat cb headers 0 (matching_routes (px_table s) hst p kind)) s) in Hnone.
    rewrite Hnone in Hl. cbn in Hl. rewrite (Hl (matching_wf m h s hst p kind Hreach Hs) r u) in Hacc; try done.
    by apply (route_slots m h (def_host rd)).
  - intros key route t Hr Ht Hsrc. destruct (published_target_source _ _ _ _ _ Hreach Hr Ht) as [Hh (def & [Hd _ Hhost Hpath Hs Hu _ _ _])].
    rewrite Hsrc in Hd. cbn in Hd. rewrite Hsvc in Hd. exists def. unfold target_of_instance. split_and!; try done; [by apply (discovered_defs _ _ Hap Hid Hp)|congruence].
Qed.
End consul.
End discovery.

(** ** A concrete snapshot *)

#[local] Instance no_glob : GlobCrate := {| Pattern := unit; pattern_new _ := None; pattern_matches _ _ := false |}.
#[local] Instance some_url : UrlParser := fun _ => None.
#[local] Instance list_order : HashOrder := {| iter_order m := map_to_list m; iter_order_perm m := Permutation_refl _ |}.
#[local] Existing Instances DnsCache.sort_select Watcher.plain_check_order Watcher.plain_completion.

Definition demo_rd : RouteDef := mk_def Routes.Add "api" "ex.com/x" "http://10.0.0.1:80/" f64_zero [] ∅ ConsulService.
Definition demo_managed : ManagedRouteTable * Heap := managed_apply 5 ∅ (OpUpdateServices [demo_rd]) managed_new heap_empty.
Definition demo_state : ProxyState :=
  mk_proxy (published demo_managed.1) demo_managed.2 (mk_options "prefix" "rr" true 404 0 0 1) DnsCache.cache_new 1000000000 (mk_counters 0 0 0 0 0 0).

Lemma demo_processed : process_checks demo_config two_catalog two_checks = Some (Ok [demo_rd]).
Proof. vm_compute. reflexivity. Qed.

Lemma demo_managed_reachable : reachable (demo_managed.1, demo_managed.2).
Proof. rewrite <- surjective_pairing. exists (managed_new, heap_empty). split; [by left|]. apply rtc_once. constructor. Qed.

Lemma demo_discovered : discovered demo_config two_catalog two_checks demo_rd.
Proof. apply (discovered_defs _ _ _ _ demo_rd two_lists_apart two_ids_distinct demo_processed). by left. Qed.

Lemma discovered_instances_reached_witness :
  let get := lookup_target (fun _ _ => 0%nat) "EX.com" "/x/y" Prefix "rr" true (fun _ => None) in
  url <$> (run get demo_state).2 = Some "http://10.0.0.1:80/"
  /\ process_checks demo_config two_catalog two_checks = Some (Ok [demo_rd])
  /\ exists route t, route ∈ routes_of (published demo_managed.1) "ex.com" /\ t ∈ targets route /\ url t = "http://10.0.0.1:80/".
Proof.
  split; [vm_compute; reflexivity|]. split; [exact demo_processed|].
  destruct (proj1 (discovered_instances_reached demo_config two_catalog two_checks demo_managed.1 demo_managed.2 [demo_rd]
    two_lists_apart two_ids_distinct demo_managed_reachable demo_processed ltac:(vm_compute; reflexivity)) demo_rd demo_discovered) as (route & t & Hr & _ & Ht & (_ & Hu & _) & _).
  exists route, t. split; [exact Hr|]. split; [exact Ht|exact Hu].
Defined.
