(* ===== verification/SourceTests.v ===== *)
(** * SourceTests: the program's own tests, run on the definitions

    The unit tests of src/src/route/parser.rs, route/table.rs, route/target.rs,
    route/circuit_breaker.rs, proxy/ratelimit.rs, proxy/tcp.rs and
    consul/watcher.rs that need no socket and no thread, under their names:
    the definitions compute what the tests assert of the code. The tests with
    threads are instances of the theorems of CircuitBreaker.v and
    RateLimit.v. *)
From S2P Require Import Prelude F64 RustStr StrFacts Net Prog Routes RateLimit CircuitBreaker Health Stats Target Weights Table Picker Registry Consul Watcher ClientHello Tcp.
From S2P Require Config DnsCache.
From Stdlib Require Import Ascii String.
Local Open Scope string_scope.
Local Open Scope Z_scope.
Local Open Scope rust_scope.

(** ** The outside, enough for the tests *)

(** URLs [scheme://host\[:port\]\[/...\]]; the parser leaves out the port that
    is the scheme's own. *)
Definition known_port (scheme : string) : option Z :=
  if existsb (String.eqb scheme) ["http"; "ws"] then Some 80
  else if existsb (String.eqb scheme) ["https"; "wss"] then Some 443 else None.
Definition split_authority (a : string) : string * option Z :=
  match split_once "]"%char a with
  | Some (h, p) => (h ++ "]", match strip_prefix ":" p with Some p => parse_u16 p | None => None end)
  | None => match split_once ":"%char a with Some (h, p) => (h, parse_u16 p) | None => (a, None) end
  end.
#[local] Instance test_url : UrlParser := fun u =>
  match split_once ":"%char u with
  | Some (scheme, rest) =>
      match strip_prefix "//" rest with
      | Some rest =>
          let '(host, port) := split_authority (hd "" (split_on "/"%char rest)) in
          let known := known_port scheme in
          Some (mk_url scheme (Some host) (if decide (port = known) then None else port) (match port with Some p => Some p | None => known end))
      | None => None
      end
  | None => None
  end.

(** Literal paths are patterns that match themselves. *)
#[local] Instance literal_glob : GlobCrate :=
  {| Pattern := string; pattern_new p := Some p; pattern_matches p s := String.eqb p s |}.
#[local] Instance list_order : HashOrder := {| iter_order m := map_to_list m; iter_order_perm m := Permutation_refl _ |}.
#[local] Existing Instances DnsCache.sort_select Watcher.plain_check_order.

(** ** route/parser.rs *)

Definition one (defs : list RouteDef) : option RouteDef := match defs with [d] => Some d | _ => None end.
Definition parsed (input : string) : option RouteDef := one (parse_route_commands input).
Definition newline : string := String (chr 10) "".

Example test_parse_route_add_simple :
  (fun d => (cmd d, def_service d, def_src d, def_dst d)) <$> parsed "route add myservice myhost.com/ http://10.0.0.1:8080/"
  = Some (Add, "myservice", "myhost.com/", "http://10.0.0.1:8080/").
Proof. vm_compute. reflexivity. Qed.

Example test_parse_route_add_with_weight :
  def_weight <$> parsed "route add myservice myhost.com/ http://10.0.0.1:8080/ weight 0.5" = Some (f64_of_decimal false 5 (-1)).
Proof. vm_compute. reflexivity. Qed.

Example test_parse_route_add_rejects_non_finite_weight :
  map (fun bad => def_weight <$> parsed ("route add svc host/ http://10.0.0.1:8080/ weight " ++ bad)) ["inf"; "-inf"; "nan"; "-1"; "1e308"]
  = repeat (Some f64_zero) 5.
Proof. vm_compute. reflexivity. Qed.

Example test_parse_route_add_with_tags :
  def_tags <$> parsed ("route add myservice myhost.com/ http://10.0.0.1:8080/ tags " ++ quoted "v1,canary") = Some ["v1"; "canary"].
Proof. vm_compute. reflexivity. Qed.

Example test_parse_route_add_full :
  (fun d => (f64_eq (def_weight d) (f64_of_decimal false 7 (-1)), def_tags d, map (fun k => def_opts d !! k) ["strip"; "tlsskipverify"; "prepend"]))
    <$> parsed ("route add myservice myhost.com/api/ http://10.0.0.1:8080/ weight 0.7 tags " ++ quoted "v1" ++ " opts " ++ quoted "strip=/api tlsskipverify=true")
  = Some (true, ["v1"], [Some "/api"; Some "true"; None]).
Proof. vm_compute. reflexivity. Qed.

Example test_parse_route_add_with_multi_header_and_weight :
  (fun d => (f64_eq (def_weight d) (f64_of_Z 50), def_opts d !! "header", def_opts d !! "strip"))
    <$> parsed ("route add svc api.example.com/ http://10.0.0.2:8080/ weight 50 opts " ++ quoted "header=x-version:v2,x-env:canary strip=/api")
  = Some (true, Some "x-version:v2,x-env:canary", Some "/api").
Proof. vm_compute. reflexivity. Qed.

Example test_parse_route_del :
  map (fun line => (fun d => (cmd d, def_service d, def_src d, def_dst d, def_tags d)) <$> parsed line)
    ["route del myservice"; "route del myservice tags " ++ quoted "v1,canary"; "route del tags " ++ quoted "v1,canary"]
  = [Some (Del, "myservice", "", "", []); Some (Del, "myservice", "", "", ["v1"; "canary"]); Some (Del, "", "", "", ["v1"; "canary"])].
Proof. vm_compute. reflexivity. Qed.

Example test_parse_route_weight_with_tags :
  map (fun line => (fun d => (def_service d, def_src d, f64_eq (def_weight d) (f64_of_decimal false 5 (-1)), def_tags d)) <$> parsed line)
    ["route weight myservice myhost.com/api/ weight 0.5 tags " ++ quoted "v1,canary"; "route weight myhost.com/api/ weight 0.5 tags " ++ quoted "v1,canary"]
  = [Some ("myservice", "myhost.com/api/", true, ["v1"; "canary"]); Some ("", "myhost.com/api/", true, ["v1"; "canary"])].
Proof. vm_compute. reflexivity. Qed.

Example test_parse_comments_and_blanks :
  def_service <$> parsed (str_join newline [""; "# This is a comment"; "// Another comment"; ""; "route add svc host/ http://backend/"; ""; "# Another comment after"; ""])
  = Some "svc".
Proof. vm_compute. reflexivity. Qed.

Example test_src_host_and_path :
  (fun d => (src_host d, src_path d)) <$> parsed "route add svc myhost.com/api/v2/ http://backend/" = Some ("myhost.com", "api/v2/").
Proof. vm_compute. reflexivity. Qed.

(** ** route/table.rs *)

Definition route_def (svc src dst : string) : RouteDef := mk_def Add svc src dst f64_zero [] ∅ Routes.Static.
Definition tagged (c : RouteCmd) (svc src dst : string) (w : f64) (tgs : list string) : RouteDef := mk_def c svc src dst w tgs ∅ Routes.Static.
Definition table_from (defs : list RouteDef) : Table := (from_definitions 0 ∅ defs heap_empty).1.
Definition found (defs : list RouteDef) (hst p : string) (m : MatcherKind) : option (list string) :=
  (fun r => map service (targets r)) <$> lookup_route (table_from defs) hst p m.

Example test_glob_literal_route_matches :
  map (fun p => found [route_def "svc" "example.com/api" "http://1.0.0.1:80"] "example.com" p Glob) ["/api"; "/other"] = [Some ["svc"]; None]
  /\ found [route_def "svc" "example.com/" "http://1.0.0.1:80"] "example.com" "/anything" Glob = Some ["svc"].
Proof. vm_compute. split; reflexivity. Qed.

Example test_exact_matcher_requires_full_path :
  map (fun p => found [route_def "svc" "example.com/admin" "http://1.0.0.1:80"] "example.com" p Exact) ["/admin"; "/admin/secret"; "/admin-backup"]
  = [Some ["svc"]; None; None].
Proof. vm_compute. reflexivity. Qed.

Definition make_target (svc u : string) (fw w : f64) : Target := set_weight w (set_fixed_weight fw (target_new 0 svc u heap_empty).1).

Example test_weight_zero_gets_no_slots :
  let w := (compute_weights [make_target "svc1" "http://1.0.0.1:80" f64_zero f64_zero; make_target "svc2" "http://1.0.0.2:80" f64_one f64_one]).2 in
  List.length w = 1000%nat /\ forallb (fun t => String.eqb (service t) "svc2") w = true.
Proof. vm_compute. split; reflexivity. Qed.

Example test_all_weights_zero_equal_distribution :
  let w := (compute_weights [make_target "svc1" "http://1.0.0.1:80" f64_zero f64_zero; make_target "svc2" "http://1.0.0.2:80" f64_zero f64_zero]).2 in
  List.length w = 1000%nat /\ map (fun s => List.length (List.filter (fun t => String.eqb (service t) s) w)) ["svc1"; "svc2"] = [500; 500]%nat.
Proof. vm_compute. split; reflexivity. Qed.

Example test_iprefix_matcher_is_case_insensitive :
  map (fun p => found [route_def "svc" "example.com/API/" "http://127.0.0.1:8080/"] "example.com" p CaseInsensitivePrefix) ["/api/users"; "/API/users"]
  = [Some ["svc"]; Some ["svc"]].
Proof. vm_compute. reflexivity. Qed.

Example test_static_route_host_is_normalized_to_lowercase :
  map (fun h => found [route_def "svc" "Example.COM/" "http://127.0.0.1:8080/"] h "/" Prefix) ["example.com"; "EXAMPLE.COM"] = [Some ["svc"]; Some ["svc"]].
Proof. vm_compute. reflexivity. Qed.

Example test_delete_routes_by_tags_without_service :
  found [tagged Add "svc-a" "example.com/" "http://a/" f64_zero ["v1"]; tagged Add "svc-b" "example.com/" "http://b/" f64_zero ["v2"];
         tagged Del "" "" "" f64_zero ["v1"]] "example.com" "/" Prefix = Some ["svc-b"].
Proof. vm_compute. reflexivity. Qed.

Example test_delete_routes_by_tags_with_src_is_scoped :
  map (fun p => found [tagged Add "svc-a" "example.com/api" "http://a/" f64_zero ["blue"]; tagged Add "svc-b" "example.com/other" "http://b/" f64_zero ["blue"];
                       tagged Del "" "example.com/api" "" f64_zero ["blue"]] "example.com" p Prefix) ["/api"; "/other"] = [None; Some ["svc-b"]].
Proof. vm_compute. reflexivity. Qed.

Example test_weight_is_distributed_across_matching_targets :
  (fun r => map fixed_weight (targets r)) <$> lookup_route (table_from [tagged Add "svc-a" "example.com/" "http://a/" f64_zero ["blue"];
      tagged Add "svc-b" "example.com/" "http://b/" f64_zero ["blue"]; tagged Weight "" "example.com/" "" (f64_of_decimal false 6 (-1)) ["blue"]]) "example.com" "/" Prefix
  = Some [f64_of_decimal false 3 (-1); f64_of_decimal false 3 (-1)].
Proof. vm_compute. reflexivity. Qed.

Definition prefix_defs : list RouteDef :=
  [route_def "svc-z" "example.com/z" "http://z-upstream:8080"; route_def "svc-api" "example.com/api/v2/users" "http://api-upstream:8080";
   route_def "svc-api-short" "example.com/api" "http://api-short-upstream:8080"; route_def "svc-catchall" "/" "http://catchall:8080"].

Example test_route_sort_longest_prefix_wins :
  map (fun p => found prefix_defs "example.com" p Prefix) ["/api/v2/users"; "/api/other"; "/z"] = [Some ["svc-api"]; Some ["svc-api-short"]; Some ["svc-z"]].
Proof. vm_compute. reflexivity. Qed.

Example test_matching_routes_returns_all_in_specificity_order :
  map (fun r => map service (targets r)) (matching_routes (table_from prefix_defs) "example.com" "/api/v2/users" Prefix)
  = [["svc-api"]; ["svc-api-short"]; ["svc-catchall"]].
Proof. vm_compute. reflexivity. Qed.

Example test_all_targets_cache_populated_on_finalize :
  List.length (all_targets (table_from [route_def "svc-a" "host1.com/" "http://10.0.0.1:80"; route_def "svc-b" "host2.com/" "http://10.0.0.2:80";
                                        route_def "svc-a-dupe" "host3.com/" "http://10.0.0.1:80"])) = 2%nat.
Proof. vm_compute. reflexivity. Qed.

(** ** route/target.rs *)

Definition new_target (src : RouteSource) (o : gmap string string) (u : string) : Target :=
  (pre_parse 0 (mk_target "svc" u f64_zero f64_zero [] o src None None false Http 1%positive 2%positive 3%positive 4%positive 5%positive) heap_empty).1.
Definition static_target : string -> Target := new_target Routes.Static ∅.

Example test_ssrf_blocks_private_ips :
  map (fun u => is_host_safe (static_target u))
    ["http://10.0.0.1:8080/"; "http://192.168.1.1:8080/"; "http://172.16.0.1:8080/"; "http://127.0.0.1:8080/"; "http://169.254.169.254:80/";
     "http://localhost:8080/"; "http://[fd00::1]:8080/"; "http://[fe80::1]:8080/"]
  = repeat false 8.
Proof. vm_compute. reflexivity. Qed.

Example test_ssrf_allows_public_ips :
  map (fun u => is_host_safe (static_target u)) ["http://8.8.8.8:80/"; "http://1.2.3.4:80/"; "http://api.example.com/"] = repeat true 3.
Proof. vm_compute. reflexivity. Qed.

Example test_consul_sources_allow_private_rfc1918_hosts :
  map (fun u => is_host_safe (new_target ConsulService ∅ u)) ["http://10.0.0.1:8080/"; "http://[fd00::1]:8080/"; "http://127.0.0.1:8080/"]
  = [true; true; false].
Proof. vm_compute. reflexivity. Qed.

(** always blocked, then private. *)
Example test_ssrf_ip_ranges :
  map (fun s => (fun ip => (is_ip_always_blocked ip, is_ip_private ip)) <$> parse_ip s)
    ["::ffff:127.0.0.1"; "::127.0.0.1"; "::169.254.169.254"; "::ffff:169.254.169.254"; "::ffff:10.0.0.1"; "::ffff:8.8.8.8";
     "100.0.0.1"; "100.128.0.1"]
  = [Some (true, true); Some (true, true); Some (true, true); Some (true, true); Some (false, true); Some (false, false);
     Some (false, false); Some (false, false)]
  /\ map (fun s => is_ip_always_blocked <$> parse_ip s)
       ["224.0.0.1"; "239.255.255.255"; "ff00::1"; "100.64.0.1"; "100.127.255.255"; "192.0.2.1"; "198.51.100.1"; "203.0.113.1"; "198.18.0.1"; "198.19.255.1"]
     = repeat (Some true) 10.
Proof. vm_compute. split; reflexivity. Qed.

Example test_target_options :
  ssrf_skip_verify (new_target Routes.Static {["ssrfskipverify" := "true"]} "http://10.0.0.1:8080/") = true
  /\ map (fun o => proxy_proto (new_target Routes.Static o "tcp://10.0.0.1:4222")) [∅; {["pxyproto" := "true"]}] = [false; true].
Proof. vm_compute. split; reflexivity. Qed.

Example test_target_protocols :
  (fun t => (upstream_tls t, requires_http2 (upstream_protocol t), is_grpc t, upstream_port t)) (static_target "grpcs://api.example.com/") = (true, true, true, 443)
  /\ (fun t => (upstream_tls t, requires_http2 (upstream_protocol t), is_websocket (upstream_protocol t), upstream_port t)) (static_target "wss://api.example.com/socket")
     = (true, false, true, 443)
  /\ (fun t => (upstream_protocol t, upstream_tls t)) (new_target Routes.Static {["proto" := "grpc"]} "http://api.example.com/service") = (Grpc, false)
  /\ preferred_alpn (upstream_protocol (static_target "wss://api.example.com/socket")) = preferred_alpn Ws.
Proof. vm_compute. auto. Qed.

(** [HeaderMap::get] of a map with lower-case names. *)
Definition header_map (l : list (string * string)) : Headers := fun name => snd <$> List.find (fun kv => String.eqb kv.1 (to_ascii_lowercase name)) l.
Definition wants (v : string) : Target := new_target Routes.Static {["header" := v]} "http://h/".

Example test_header_matches :
  map (fun h => matches_headers (header_map h) (wants "x-version:v2")) [[]; [("x-version", "v1")]; [("x-version", "v2")]] = [false; false; true]
  /\ map (fun h => matches_headers (header_map h) (wants "x-version:v2,x-env:prod"))
       [[("x-version", "v2")]; [("x-version", "v2"); ("x-env", "prod")]; [("x-version", "v2"); ("x-env", "staging")]] = [false; true; false]
  /\ matches_headers (header_map [("x-version", "v2")]) (wants "X-Version:v2") = true
  /\ matches_headers (header_map [("x-debug", "")]) (wants "x-debug:") = true
  /\ matches_headers (header_map []) (static_target "http://h/") = true.
Proof. vm_compute. auto. Qed.

(** ** route/circuit_breaker.rs *)

Definition ten (timeout probes : Z) : World := fresh_world (mk_cb_config 50 10 timeout probes) 1000.
Definition times {A} (n : nat) (x : A) : list A := repeat x n.
Definition calls (w : World) (l : list cb_call) : World * list (option bool) := cb_exec (map (pair 1000) l) w.
Definition state_after (w : World) (l : list cb_call) : CircuitState := decode_state (state_atomic (cb (calls w l).1)).
Definition tripped : list cb_call := (times 5 CSuccess ++ times 5 CError)%list.
Definition answers (w : World) (l : list cb_call) : list bool := omap (fun r => r) (calls w l).2.

Example test_circuit_breaker_opens_after_error_threshold :
  map (state_after (ten 30 3)) [[]; times 5 CSuccess; tripped] = [CircuitBreaker.Closed; CircuitBreaker.Closed; Open]
  /\ answers (ten 30 3) (times 5 CSuccess ++ [CAllow] ++ times 5 CError ++ [CAllow]) = [true; false].
Proof. vm_compute. split; reflexivity. Qed.

Example test_circuit_breaker_opens_on_100pct_failure_at_min_samples :
  map (fun n => state_after (fresh_world (mk_cb_config 50 100 30 3) 1000) (times n CError)) [24; 25]%nat = [CircuitBreaker.Closed; Open].
Proof. vm_compute. reflexivity. Qed.

Example test_circuit_breaker_closes_after_successful_probes :
  map (fun n => state_after (ten 0 3) (tripped ++ [CAllow] ++ times n CSuccess)) [0; 1; 2; 3]%nat = [HalfOpen; HalfOpen; HalfOpen; CircuitBreaker.Closed]
  /\ state_after (ten 0 3) (tripped ++ [CAllow; CError]) = Open
  /\ state_after (ten 0 1) (tripped ++ [CAllow; CSuccess]) = CircuitBreaker.Closed.
Proof. vm_compute. auto. Qed.

Example test_circuit_breaker_half_open_reserves_single_probe_when_max_is_one :
  answers (ten 0 1) (tripped ++ [CAllow; CAllow]) = [true; false] /\ answers (ten 0 1) (tripped ++ [CAllow; CAllow; CAbort; CAllow]) = [true; false; true].
Proof. vm_compute. split; reflexivity. Qed.

Example test_circuit_breaker_half_open_max_clamped_to_63 :
  half_open_max_requests (with_config (mk_cb_config 50 10 0 100)) = 63
  /\ probe_count_of (state_atomic (cb (calls (ten 0 63) (tripped ++ [CAllow; CSuccess])).1)) = 1.
Proof. vm_compute. split; reflexivity. Qed.

Example test_circuit_breaker_open_state_does_not_bump_opened_at :
  let before := (calls (ten 0 1) tripped).1 in
  let after := (cb_exec (map (pair 5000) (times 10 CError)) before).1 in
  opened_at_ms (cb after) = opened_at_ms (cb before) /\ decode_state (state_atomic (cb after)) = Open /\ (run recovery_elapsed after).2 = true.
Proof. vm_compute. auto. Qed.

(** ** proxy/ratelimit.rs *)

(** The answers of calls at the times given. *)
Fixpoint acquires (ts : list Z) (b : TokenBucket) : list bool :=
  match ts with [] => [] | t :: ts => let '(b, ok) := try_acquire_at t b in ok :: acquires ts b end.

Example test_configured_rate_burst_reports_real_units :
  let b := with_params 1 100 10 in
  map configured_rate_burst [b; configure 2 5 2 b; configure 3 0 0 (configure 2 5 2 b)] = [(100, 10); (5, 2); (0, 0)]
  /\ is_configured (configure 3 0 0 b) = false.
Proof. vm_compute. split; reflexivity. Qed.

Example test_token_bucket_allows_within_rate :
  acquires (times 11 1) (with_params 1 100 10) = (times 10 true ++ [false])%list /\ acquires (times 4 1) (with_params 1 1 3) = [true; true; true; false].
Proof. vm_compute. split; reflexivity. Qed.

Example test_token_bucket_refills_over_time :
  acquires (times 6 1 ++ [20000001])%list (with_params 1 100000 5) = (times 5 true ++ [false; true])%list.
Proof. vm_compute. reflexivity. Qed.

Example test_rate_limit_zero_means_unlimited :
  forallb (fun b => forallb (fun ok => ok) (acquires (times 1000 1) b)) [bucket_new; configure 1 0 0 bucket_new] = true
  /\ acquires [1] (configure 1 10 0 bucket_new) = [true].
Proof. vm_compute. split; reflexivity. Qed.

(** ** consul/watcher.rs *)

Example parse_urlprefix_tag_matches_fabio_routes :
  map (fun tag => parse_urlprefix_tag tag "urlprefix-")
    ["urlprefix-/api proto=https strip=/api"; "urlprefix-Example.com/api"; "urlprefix-api.example.com/pkg.Service proto=grpc strip=/edge"; "urlprefix-/pkg.Service proto=grpcs"]
  = [Some ("/api", "proto=https strip=/api"); Some ("example.com/api", ""); Some ("api.example.com/pkg.Service", "proto=grpc strip=/edge");
     Some ("/pkg.Service", "proto=grpcs")].
Proof. vm_compute. reflexivity. Qed.

Example parse_tag_builds_grpc_destinations :
  map (fun '(tag, a, p) => (fun d => (def_src d, def_dst d, def_opts d !! "proto", def_opts d !! "strip")) <$> parse_tag "urlprefix-" tag a p "orders")
    [("urlprefix-api.example.com/pkg.Service proto=grpc strip=/edge", "10.0.0.10", 50051); ("urlprefix-/pkg.Service proto=grpcs", "10.0.0.11", 8443)]
  = [Some ("api.example.com/pkg.Service", "grpc://10.0.0.10:50051/", Some "grpc", Some "/edge");
     Some ("/pkg.Service", "grpcs://10.0.0.11:8443/", Some "grpcs", None)].
Proof. vm_compute. reflexivity. Qed.

Example passing_services_require_all_service_checks_to_pass :
  let check id status svc sid tags := mk_check "node-1" id id status svc sid tags in
  passing_service_ids false [check "service:web:1" "passing" "web" "svc-1" ["urlprefix-/"]; check "service:web:2" "critical" "web" "svc-1" ["urlprefix-/"];
                             check "serfHealth" "passing" "" "" []] = ∅
  /\ passing_service_ids false [check "service:web:1" "passing" "web" "svc-1" ["urlprefix-/"]; check "_node_maintenance" "passing" "" "" []] = ∅
  /\ passing_service_ids false [check "service:web:1" "passing" "web" "svc-1" ["urlprefix-/"]] = {["web" := ["node-1.svc-1"]]}.
Proof. vm_compute. auto. Qed.

(** ** config/tests.rs *)

Module ConfigTests.
Import Config.
#[local] Instance any_header : HeaderNames := fun _ => true.

Example parse_durations :
  map parse_optional_duration [""; "   "; "150ms"; "5s"; "2m"; "1h"]
  = [None; None; Some (from_millis 150); Some (from_secs 5); Some (from_secs 120); Some (from_secs 3600)]
  /\ map parse_duration ["30sec"; "abc"; ""; "30s"] = [0; 0; 0; from_secs 30].
Proof. vm_compute. split; reflexivity. Qed.

Example validate_cidr_tests :
  map (fun c => match validate_cidr c with Ok _ => true | Err _ => false end)
    [""; "192.168.1.1"; "192.168.1.1/33"; "not.an.ip/24"; "192.168.1.0/24"; "10.0.0.0/8"; "172.16.0.0/12"; "127.0.0.1/32"; "::1/128"; "2001:db8::/32"]
  = [false; false; false; false; true; true; true; true; true; true].
Proof. vm_compute. reflexivity. Qed.

Definition mentions (part : string) (e : option string) : bool := match e ≫= String.index 0 part with Some _ => true | None => false end.

Example validate_rejects_zero_tcp_refresh :
  mentions "tcp.refresh" (validate (demo_config ":9443" "0s" [])) = true /\ validate (demo_config ":9443" "5s" []) = None
  /\ mentions "invalid-cidr" (validate (demo_config ":9443" "5s" ["invalid-cidr"])) = true.
Proof. vm_compute. auto. Qed.

Example parse_keepalive_tests :
  map (fun '(spec, user) => (fun k => (idle k, interval k, count k, user_timeout k)) <$> ParsedKeepalive_parse spec user)
    [("15s,5s,3", "30s"); ("15s,5s,3", ""); ("", "30s"); ("   ", ""); ("15s,5s", "30s"); ("abc,5s,3", "30s"); ("15s,5s,0", "30s"); ("15s,5s,x", "30s")]
  = [Some (from_secs 15, from_secs 5, 3, from_secs 30); Some (from_secs 15, from_secs 5, 3, 0); None; None; None; None; None; None].
Proof. vm_compute. reflexivity. Qed.
End ConfigTests.

(** ** proxy/tcp.rs *)

Definition tcp_def (src dst : string) : RouteDef := mk_def Add "nats" src dst f64_zero [] {["proto" := "tcp"]} ConsulService.
Definition services_table (defs : list RouteDef) : Table := published (managed_apply 0 ∅ (OpUpdateServices defs) managed_new heap_empty).1.
Definition urls (r : option Route) : option (list string) := (fun r => map url (targets r)) <$> r.

Example lookup_target_uses_exact_local_addr_then_port_fallback :
  map (fun a => urls (lookup_tcp_route_for_local_addr (services_table [tcp_def "127.0.0.1:4222" "tcp://10.0.0.10:4222"; tcp_def ":4333" "tcp://10.0.0.11:4333"]) a))
    ["127.0.0.1:4222"; "0.0.0.0:4333"]
  = [Some ["tcp://10.0.0.10:4222"]; Some ["tcp://10.0.0.11:4333"]].
Proof. vm_compute. reflexivity. Qed.

Example tcp_listener_ports_match_fabio_dynamic_semantics :
  tcp_listener_ports (services_table [tcp_def ":4222" "tcp://10.0.0.10:4222"; tcp_def "127.0.0.1:4333" "tcp://10.0.0.11:4333"]) = [4222; 4333].
Proof. vm_compute. reflexivity. Qed.

Example lookup_sni_target_matches_host_routes :
  map (fun n => urls (lookup_tcp_sni_route (services_table [tcp_def "google.com" "tcp://10.0.0.20:443"; tcp_def ":443" "tcp://10.0.0.10:443"]) n))
    ["google.com"; "missing.example.com"]
  = [Some ["tcp://10.0.0.20:443"]; None].
Proof. vm_compute. reflexivity. Qed.

(** The route is found by its port; whether its target is safe depends on the
    source. *)
Example tcp_target_safety :
  (fun r => map is_host_safe (targets r)) <$> lookup_tcp_route_for_local_addr (services_table [tcp_def "localhost:4222" "tcp://127.0.0.1:4222"]) "127.0.0.1:4222" = Some [false]
  /\ (fun r => map is_host_safe (targets r)) <$> lookup_tcp_route_for_local_addr (services_table [tcp_def "localhost:4222" "tcp://10.0.0.1:4222"]) "127.0.0.1:4222" = Some [true]
  /\ (fun r => map is_host_safe (targets r)) <$> lookup_tcp_route_for_local_addr
       (published (managed_apply 0 ∅ (OpLoadStatic [tcp_def "localhost:4222" "tcp://10.0.0.1:4222"]) managed_new heap_empty).1) "127.0.0.1:4222" = Some [false].
Proof. vm_compute. auto. Qed.

Example client_hello_buffer_size_validates_tls_client_hello :
  let valid := [22; 3; 1; 64; 0; 1; 0; 63; 252] in
  client_hello_buffer_size valid = Done (Ok 16389)
  /\ map (fun b => match client_hello_buffer_size b with Done (Err _) => true | _ => false end) [take 8 valid; [21; 3; 1; 1; 244; 1; 0; 1; 235]] = [true; true].
Proof. vm_compute. split; reflexivity. Qed.

Definition hex_digit (c : ascii) : Z := let n := Z.of_N (N_of_ascii c) in if n <? 58 then n - 48 else n - 87.
Fixpoint decode_hex (s : string) : Bytes :=
  match s with String a (String b s) => 16 * hex_digit a + hex_digit b :: decode_hex s | _ => [] end.

(** [CLIENT_HELLO_WITH_SNI_HEX] *)
Definition client_hello_with_sni : string :=
  "0100014803032657cacce41598fa82e5b75061050bc31c5affdba106b8e743185224af0fa1aa000098cc14cc13cc15c030c02cc028c024c014c00a00a3009f006b006a00390038ff8500c400c3008800870081c032c02ec02ac026c00fc005009d003d003500c00084c02fc02bc027c023c013c00900a2009e006700400033003200be00bd00450044c031c02dc029c025c00ec004009c003c002f00ba0041c011c007c00cc00200050004c012c00800160013c00dc003000a00150012000900ff010000870000000f000d00000a676f6f676c652e636f6d000b000403000102000a003a0038000e000d0019001c000b000c001b00180009000a001a00160017000800060007001400150004000500120013000100020003000f0010001100230000000d00260024060106020603efef050105020503040104020403eeeeeded030103030303020102020203".

Example read_server_name_extracts_sni_host :
  read_server_name (decode_hex client_hello_with_sni) = Done (Some "google.com")
  /\ read_server_name [110; 111; 116; 32; 97; 32; 99; 108; 105; 101; 110; 116; 32; 104; 101; 108; 108; 111] = Done None.
Proof. vm_compute. split; reflexivity. Qed.
