(* ===== verification/Admin.v ===== *)
(** * Admin: authentication of the admin interface

    Models src/src/admin/auth.rs and the exposure check of
    src/src/admin/api.rs: logins with their attempt windows, sessions, the
    comparison of tokens and the middleware that guards the protected routes.
    An instant is a number of nanoseconds. Random bytes, base64 and bcrypt are
    other crates': a login is given the token drawn for it, and the answer of
    bcrypt is a parameter. *)
From stdpp Require Import sorting.
From S2P Require Import Prelude RustStr StrFacts Net Http Config.
From S2P Require Import ClientHello.
From Stdlib Require Import Ascii String.
Local Open Scope string_scope.
Local Open Scope Z_scope.

Definition SESSION_TTL_SECS : Z := 24 * 60 * 60.
Definition SESSION_MAX_CAPACITY : Z := 10000.
Definition LOGIN_MAX_ATTEMPTS : Z := 5.
Definition LOGIN_WINDOW_SECS : Z := 60.

(** [now.duration_since(t).as_secs()]; a later [t] is no time at all. *)
Definition secs_since (now t : Z) : Z := Z.max (now - t) 0 / 1000000000.

Record SessionEntry := mk_session_entry { session_user : string; created_at : Z }.

(** The parts of [AdminState] that authentication uses. *)
Record AuthState := mk_auth {
  sessions : gmap string SessionEntry;
  login_attempts : gmap string (Z * Z);
}.
Definition auth_new : AuthState := mk_auth ∅ ∅.

(** ** Comparison of secrets *)

(** [constant_time_eq]: the bytes of both, padded with zeroes, and the lengths
    as an 8-bit integer. *)
Fixpoint diff_bytes (fuel : nat) (a b : string) : Z :=
  match fuel with
  | O => 0
  | S fuel =>
      let '(x, a) := match a with String c a => (byte c, a) | "" => (0, "") end in
      let '(y, b) := match b with String c b => (byte c, b) | "" => (0, "") end in
      Z.lor (Z.lxor x y) (diff_bytes fuel a b)
  end.

Definition constant_time_eq (a b : string) : bool :=
  let max_len := Nat.max (String.length a) (String.length b) in
  Z.lor (Z.lxor (str_len a) (str_len b) mod 256) (diff_bytes max_len a b) =? 0.

(** The answer of bcrypt's [verify]: password, hash. *)
Class Bcrypt := bcrypt_verify : string -> string -> option bool.

Definition verify_password `{Bcrypt} (password hash : string) : bool :=
  if starts_with "$2" hash then default false (bcrypt_verify password hash) else constant_time_eq password hash.

(** ** Sessions *)

Definition session_live (now : Z) (e : SessionEntry) : bool := secs_since now (created_at e) <? SESSION_TTL_SECS.

Definition older (a b : string * Z) : Prop := a.2 <= b.2.
#[export] Instance older_dec a b : Decision (older a b).
Proof. unfold older. apply _. Defined.

Definition evict_expired_sessions (now : Z) (m : gmap string SessionEntry) : gmap string SessionEntry :=
  let m := filter (fun e => session_live now e.2 = true) m in
  let size := Z.of_nat (base.size m) in
  if SESSION_MAX_CAPACITY <? size then
    let entries := merge_sort older (map (fun e => (e.1, created_at e.2)) (map_to_list m)) in
    foldl (fun m e => delete e.1 m) m (take (Z.to_nat (size - SESSION_MAX_CAPACITY)) entries)
  else m.

(** A turn of [SessionCleanupBackground::run]; [locked] when the map could not
    be locked. *)
Definition session_cleanup (locked : bool) (now : Z) (st : AuthState) : AuthState :=
  if locked then st else mk_auth (filter (fun e => session_live now e.2 = true) (sessions st)) (login_attempts st).

(** ** Login *)

Record LoginRequest := mk_login { login_username : string; login_password : string }.

Inductive LoginResponse :=
  | LoginOk (user token : string)
  | InvalidCredentials
  | TooManyAttempts.

Definition window_expired (now window_start : Z) : bool := LOGIN_WINDOW_SECS <=? secs_since now window_start.

(** The first access to the attempts: the window of the user is opened or
    renewed, and the answer is whether the user is limited. *)
Definition begin_attempt (now : Z) (user : string) (attempts : gmap string (Z * Z)) : gmap string (Z * Z) * bool :=
  match attempts !! user with
  | Some (count, window_start) =>
      let '(count, window_start) := if window_expired now window_start then (0, now) else (count, window_start) in
      (<[user := (count, window_start)]> attempts, LOGIN_MAX_ATTEMPTS <=? count)
  | None => (<[user := (0, now)]> attempts, false)
  end.

(** The clean-up of the expired windows. *)
Definition retain_attempts (now : Z) (attempts : gmap string (Z * Z)) : gmap string (Z * Z) :=
  filter (fun e => (secs_since now e.2.2 <? LOGIN_WINDOW_SECS) = true) attempts.

(** The count of a failed attempt, an unsigned 32-bit integer. *)
Definition failed_attempt (now : Z) (user : string) (attempts : gmap string (Z * Z)) : gmap string (Z * Z) :=
  match attempts !! user with
  | Some (count, window_start) =>
      <[user := if window_expired now window_start then (1, now) else ((count + 1) mod 2 ^ 32, window_start)]> attempts
  | None => <[user := (1, now)]> attempts
  end.

Section login.
Context {B : Bcrypt} (server : ServerConfig).

Definition credentials_valid (req : LoginRequest) : bool :=
  existsb (fun u => String.eqb (Config.username u) (login_username req) && verify_password (login_password req) (Config.password u)) (admin_users server).
Definition legacy_valid (req : LoginRequest) : bool :=
  negb (is_empty (admin_token server)) && constant_time_eq (login_password req) (admin_token server).

Definition login_user (req : LoginRequest) : string := if credentials_valid req then login_username req else "admin".

(** What follows the check of the attempts: the credentials and the answer.
    [now] is read again by the code; [token] is the one drawn. *)
Definition finish_login (now : Z) (token : string) (req : LoginRequest) (st : AuthState) : AuthState * LoginResponse :=
  if credentials_valid req || legacy_valid req then
    let user := login_user req in
    (mk_auth (<[token := mk_session_entry user now]> (evict_expired_sessions now (sessions st))) (delete (login_username req) (login_attempts st)),
     LoginOk user token)
  else (mk_auth (sessions st) (failed_attempt now (login_username req) (login_attempts st)), InvalidCredentials).

Definition too_long (req : LoginRequest) : bool := (256 <? str_len (login_username req)) || (256 <? str_len (login_password req)).

(** The first part of [login_handler]: an answer, or the state in which the
    credentials are checked. *)
Definition start_login (now : Z) (req : LoginRequest) (st : AuthState) : AuthState * option LoginResponse :=
  if too_long req then (st, Some InvalidCredentials)
  else
    let '(attempts, rate_limited) := begin_attempt now (login_username req) (login_attempts st) in
    if rate_limited then (mk_auth (sessions st) attempts, Some TooManyAttempts)
    else (mk_auth (sessions st) (retain_attempts now attempts), None).

(** [login_handler], alone: the two parts with nothing between them. *)
Definition login_handler (now later : Z) (token : string) (req : LoginRequest) (st : AuthState) : AuthState * LoginResponse :=
  match start_login now req st with
  | (st, Some response) => (st, response)
  | (st, None) => finish_login later token req st
  end.
End login.

(** ** Requests *)

Definition bearer (h : HeaderMap) : option string := header_str "authorization" h ≫= strip_prefix "Bearer ".

Definition logout_handler (h : HeaderMap) (st : AuthState) : AuthState :=
  match bearer h with Some t => mk_auth (delete t (sessions st)) (login_attempts st) | None => st end.

Definition me_handler (h : HeaderMap) (st : AuthState) : option string :=
  t ← bearer h; session_user <$> sessions st !! t.

(** ** Query tokens *)

Definition hex_val (b : Z) : Z :=
  if between 48 57 b then b - 48 else if between 97 102 b then b - 97 + 10 else if between 65 70 b then b - 65 + 10 else 0.

Fixpoint percent_decode (v : Bytes) : Bytes :=
  match v with
  | [] => []
  | b :: v =>
      if b =? 37 then
        match v with
        | hi :: lo :: v => Z.lor (Z.shiftl (hex_val hi) 4 mod 256) (hex_val lo) :: percent_decode v
        | [hi] => [Z.lor (Z.shiftl (hex_val hi) 4 mod 256) 0]
        | [] => [0]
        end
      else if b =? 43 then 32 :: percent_decode v
      else b :: percent_decode v
  end.

Definition bytes_of_string (s : string) : Bytes := map byte (list_ascii_of_string s).

Definition query_token (query : string) : option string :=
  match List.find (fun kv => String.eqb kv.1 "token") (omap (split_once "=") (split_on "&" query)) with
  | Some (_, v) => Some (from_utf8_lossy (percent_decode (bytes_of_string v)))
  | None => None
  end.

(** ** admin_auth_middleware *)

Record AdminRequest := mk_admin_request {
  req_is_get : bool;
  req_headers : HeaderMap;
  req_query : option string;
}.

Definition is_some_eq (expected : string) (o : option string) : bool := match o with Some v => constant_time_eq v expected | None => false end.
Definition has_session (st : AuthState) (o : option string) : bool :=
  match o with Some t => match sessions st !! t with Some _ => true | None => false end | None => false end.

Definition authorized (server : ServerConfig) (st : AuthState) (r : AdminRequest) : bool :=
  let expected := admin_token server in
  let token_auth :=
    negb (is_empty expected) && (is_some_eq expected (bearer (req_headers r)) || is_some_eq expected (header_str "x-admin-token" (req_headers r))) in
  let session_auth := negb token_auth && has_session st (bearer (req_headers r)) in
  let query_auth :=
    negb token_auth && negb session_auth && req_is_get r &&
    match req_query r ≫= query_token with
    | Some token => (negb (is_empty expected) && constant_time_eq token expected) || has_session st (Some token)
    | None => false
    end in
  token_auth || session_auth || query_auth.

(** ** Exposure *)

Definition is_loopback_bind (addr : string) : bool :=
  if starts_with "0.0.0.0" addr || starts_with "[::]" addr || starts_with ":" addr then false
  else starts_with "127." addr || starts_with "localhost:" addr || String.eqb addr "localhost" || starts_with "[::1]" addr.

(** [run_admin_server] goes on to serve. *)
Definition may_serve (server : ServerConfig) : bool :=
  let has_any_auth := negb (is_empty (admin_token server)) || match admin_users server with [] => false | _ => true end in
  has_any_auth || is_loopback_bind (admin_listen server).

(** ** What the comparison decides *)

Fixpoint zeros (n : nat) : string := match n with O => "" | S n => String (chr 0) (zeros n) end.

Lemma byte_inj a b : byte a = byte b -> a = b.
Proof.
  unfold byte. intros E%N2Z.inj. rewrite <- (ascii_N_embedding a), <- (ascii_N_embedding b). by rewrite E.
Qed.

Lemma byte_zero c : byte c = 0 -> c = chr 0.
Proof. intros E. apply byte_inj. rewrite E. by vm_compute. Qed.

Lemma lor_lxor_zero x y d : Z.lor (Z.lxor x y) d = 0 <-> x = y /\ d = 0.
Proof. by rewrite Z.lor_eq_0_iff, Z.lxor_eq_0_iff. Qed.

Lemma zeros_length n : String.length (zeros n) = n.
Proof. induction n as [|n IH]; cbn; [done|]. by rewrite IH. Qed.

Lemma diff_zeros n b : (String.length b <= n)%nat ->
  (diff_bytes n "" b = 0 <-> b = zeros (String.length b)) /\ (diff_bytes n b "" = 0 <-> b = zeros (String.length b)).
Proof.
  revert b. induction n as [|n IH]; intros b Hb; (destruct b as [|c b]; cbn in Hb; [|]); try lia; cbn [diff_bytes String.length zeros].
  - done.
  - rewrite !lor_lxor_zero. destruct (IH "") as [-> _]; cbn; [lia|]. tauto.
  - rewrite !lor_lxor_zero. destruct (IH b) as [-> ->]; [lia|]. split.
    + split; [intros [Hc ->]; rewrite (byte_zero c) by done; by rewrite zeros_length|]. intros [= -> Hb']. split; [by vm_compute|done].
    + split; [intros [Hc ->]; rewrite (byte_zero c) by done; by rewrite zeros_length|]. intros [= -> Hb']. split; [by vm_compute|done].
Qed.

Lemma diff_bytes_spec n a b : (Nat.max (String.length a) (String.length b) <= n)%nat ->
  diff_bytes n a b = 0 <-> exists k, a = b ++ zeros k \/ b = a ++ zeros k.
Proof.
  revert a b. induction n as [|n IH]; intros a b Hn.
  { destruct a, b; cbn in Hn; try lia. split; [|done]. intros _. exists 0%nat. by left. }
  destruct a as [|x a], b as [|y b].
  - split; [intros _; exists 0%nat; by left|]. intros _. apply (diff_zeros (S n) ""); [cbn; lia|done].
  - assert (Hl : (String.length (String y b) <= S n)%nat) by lia. rewrite (proj1 (diff_zeros _ _ Hl)). split; [intros E; exists (String.length (String y b)); right; by rewrite app_nil_s|].
    intros (k & [E|E]); [by rewrite app_cons_s in E|]. rewrite app_nil_s in E. by rewrite E, zeros_length.
  - assert (Hl : (String.length (String x a) <= S n)%nat) by lia. rewrite (proj2 (diff_zeros _ _ Hl)). split; [intros E; exists (String.length (String x a)); left; by rewrite app_nil_s|].
    intros (k & [E|E]); [|by rewrite app_cons_s in E]. rewrite app_nil_s in E. by rewrite E, zeros_length.
  - cbn [diff_bytes]. rewrite lor_lxor_zero, IH by (cbn in Hn; lia). split.
    + intros [->%byte_inj (k & E)]. exists k. rewrite !app_cons_s. destruct E as [->| ->]; [by left|by right].
    + intros (k & E). rewrite !app_cons_s in E. destruct E as [E|E]; injection E as -> E; (split; [done|]); exists k; auto.
Qed.

Lemma lxor_mod_256 a b : 0 <= a -> 0 <= b -> Z.lxor a b mod 256 = 0 <-> a mod 256 = b mod 256.
Proof.
  intros Ha Hb. change 256 with (2 ^ 8). rewrite <- !Z.land_ones by lia.
  assert (E : Z.land (Z.lxor a b) (Z.ones 8) = Z.lxor (Z.land a (Z.ones 8)) (Z.land b (Z.ones 8))).
  { apply Z.bits_inj'. intros n Hn. rewrite !Z.land_spec, !Z.lxor_spec, !Z.land_spec.
    by destruct (Z.testbit a n), (Z.testbit b n), (Z.testbit (Z.ones 8) n). }
  rewrite E. apply Z.lxor_eq_0_iff.
Qed.

(** The comparison accepts equal texts, and beyond those only a text followed
    by a multiple of 256 zero bytes. *)
Lemma constant_time_eq_spec a b :
  constant_time_eq a b = true <-> exists k, (a = b ++ zeros (256 * k) \/ b = a ++ zeros (256 * k)).
Proof.
  unfold constant_time_eq. cbv zeta. rewrite Z.eqb_eq, Z.lor_eq_0_iff, lxor_mod_256 by (unfold str_len; lia).
  rewrite diff_bytes_spec by lia. unfold str_len. split.
  - intros [Hm (k & E)]. assert (Hk : Z.of_nat k mod 256 = 0).
    { destruct E as [-> | ->]; rewrite str_length_app, zeros_length, Nat2Z.inj_add in Hm; Z.div_mod_to_equations; lia. }
    exists (k / 256)%nat. assert (256 * (k / 256) = k)%nat as ->; [|done].
    apply Nat2Z.inj. rewrite Nat2Z.inj_mul, Nat2Z.inj_div. Z.div_mod_to_equations; lia.
  - intros (k & E). split; [|by eauto]. destruct E as [-> | ->]; rewrite str_length_app, zeros_length, Nat2Z.inj_add, Nat2Z.inj_mul;
      Z.div_mod_to_equations; lia.
Qed.

(** For secrets shorter than 256 bytes it is equality. *)
Lemma constant_time_eq_short a b : str_len a < 256 -> str_len b < 256 -> constant_time_eq a b = true <-> a = b.
Proof.
  intros Ha Hb. rewrite constant_time_eq_spec. split; [|intros ->; exists 0%nat; left; by rewrite app_nil_r_s].
  unfold str_len in *. intros (k & E). destruct E as [-> | ->]; rewrite str_length_app, zeros_length in *;
    (destruct k as [|k]; [by rewrite app_nil_r_s|lia]).
Qed.

(** ** Who is let in *)

Section access.
Context {B : Bcrypt} (server : ServerConfig).

(** What can happen to the state between requests; the two parts of a login
    are apart, so that logins of any users overlap in any way. *)
Inductive AuthEvent :=
  | LoginStarts (now : Z) (req : LoginRequest)
  | LoginEnds (now : Z) (token : string) (req : LoginRequest)
  | LoggedOut (h : HeaderMap)
  | Cleaned (locked : bool) (now : Z).

Definition auth_step (st : AuthState) (ev : AuthEvent) : AuthState :=
  match ev with
  | LoginStarts now req => (start_login now req st).1
  | LoginEnds now token req => (finish_login server now token req st).1
  | LoggedOut h => logout_handler h st
  | Cleaned locked now => session_cleanup locked now st
  end.

Definition auth_run (events : list AuthEvent) : AuthState := foldl auth_step auth_new events.

(** The session [token] was given to a user who presented valid credentials. *)
Definition issued (token : string) (ev : AuthEvent) : Prop :=
  exists now req, ev = LoginEnds now token req /\ (credentials_valid server req = true \/ legacy_valid server req = true).

Lemma evict_subset now m k e : evict_expired_sessions now m !! k = Some e -> m !! k = Some e.
Proof.
  unfold evict_expired_sessions. cbv zeta. intros H. apply (map_lookup_filter_Some_1_1 (fun e => session_live now e.2 = true)).
  destruct (SESSION_MAX_CAPACITY <? _); [|exact H]. revert H. generalize (take (Z.to_nat (Z.of_nat (base.size (filter (fun e => session_live now e.2 = true) m)) - SESSION_MAX_CAPACITY))
    (merge_sort older (map (fun e => (e.1, created_at e.2)) (map_to_list (filter (fun e => session_live now e.2 = true) m))))).
  generalize (filter (fun e => session_live now e.2 = true) m). intros m' l. revert m'.
  induction l as [|x l IH]; intros m' H; cbn in *; [done|]. apply IH in H. by apply lookup_delete_Some in H as [_ H].
Qed.

Lemma session_issued events token : is_Some (sessions (auth_run events) !! token) -> Exists (issued token) events.
Proof.
  unfold auth_run. induction events as [|ev events IH] using rev_ind; [cbn; rewrite lookup_empty; by intros [? ?]|].
  rewrite foldl_snoc. set (st := foldl auth_step auth_new events) in *. rewrite Exists_app. intros [e He].
  destruct ev as [now req|now tk req|h|locked now]; cbn [auth_step] in He.
  - left. apply IH. exists e. unfold start_login in He. destruct (too_long req); [done|].
    destruct (begin_attempt _ _ _) as [a []]; done.
  - unfold finish_login in He. destruct (credentials_valid server req || legacy_valid server req) eqn:Ev; [|left; apply IH; by exists e].
    apply orb_true_iff in Ev. cbn [fst sessions] in He. apply lookup_insert_Some in He as [[<- _]|[_ He%evict_subset]]; [|left; apply IH; by exists e].
    right. apply Exists_cons. left. by exists now, req.
  - left. apply IH. exists e. unfold logout_handler in He. destruct (bearer h); [|done]. cbn in He. by apply lookup_delete_Some in He as [_ He].
  - left. apply IH. exists e. unfold session_cleanup in He. destruct locked; [done|]. cbn in He. by apply map_lookup_filter_Some_1_1 in He.
Qed.

(** The tokens a request presents: in the Authorization header, in the
    X-Admin-Token header, or in the query of a GET. *)
Definition presented_header (r : AdminRequest) (t : string) : Prop := bearer (req_headers r) = Some t.
Definition presented_admin (r : AdminRequest) (t : string) : Prop := header_str "x-admin-token" (req_headers r) = Some t.
Definition presented_query (r : AdminRequest) (t : string) : Prop := req_is_get r = true /\ req_query r ≫= query_token = Some t.

Lemma is_some_eq_spec expected o : is_some_eq expected o = true <-> exists t, o = Some t /\ constant_time_eq t expected = true.
Proof. destruct o as [t|]; cbn; [|by split; [|intros (? & ? & _)]]. split; [by exists t|by intros (? & [= <-] & ?)]. Qed.

Lemma has_session_spec st o : has_session st o = true <-> exists t, o = Some t /\ is_Some (sessions st !! t).
Proof.
  destruct o as [t|]; cbn; [|by split; [|intros (? & ? & _)]]. destruct (sessions st !! t) eqn:E.
  - split; [|done]. intros _. exists t. split; [done|by rewrite E].
  - split; [done|]. intros (t' & [= <-] & X). rewrite E in X. by destruct X.
Qed.

(** The order of the tests does not matter. *)
Lemma authorized_cases st r :
  authorized server st r = true <->
  (negb (is_empty (admin_token server)) = true /\ (is_some_eq (admin_token server) (bearer (req_headers r)) = true
      \/ is_some_eq (admin_token server) (header_str "x-admin-token" (req_headers r)) = true
      \/ req_is_get r = true /\ is_some_eq (admin_token server) (req_query r ≫= query_token) = true))
  \/ has_session st (bearer (req_headers r)) = true
  \/ req_is_get r = true /\ has_session st (req_query r ≫= query_token) = true.
Proof.
  unfold authorized. cbv zeta.
  replace (match req_query r ≫= query_token with Some token => negb (is_empty (admin_token server)) && constant_time_eq token (admin_token server) || has_session st (Some token) | None => false end)
    with (negb (is_empty (admin_token server)) && is_some_eq (admin_token server) (req_query r ≫= query_token) || has_session st (req_query r ≫= query_token))
    by (by destruct (req_query r ≫= query_token); cbn; rewrite ?andb_false_r).
  generalize (is_some_eq (admin_token server) (bearer (req_headers r))) (is_some_eq (admin_token server) (header_str "x-admin-token" (req_headers r)))
    (is_some_eq (admin_token server) (req_query r ≫= query_token)) (has_session st (bearer (req_headers r))) (has_session st (req_query r ≫= query_token))
    (negb (is_empty (admin_token server))) (req_is_get r). intros b1 b2 b3 b4 b5 b6 b7.
  repeat first [rewrite <- andb_true_iff | rewrite <- orb_true_iff]. by destruct b6, b1, b2, b4, b7, b3, b5.
Qed.

Lemma authorized_spec st r :
  authorized server st r = true <->
  (exists t, (presented_header r t \/ presented_admin r t \/ presented_query r t) /\ admin_token server <> "" /\ constant_time_eq t (admin_token server) = true)
  \/ (exists t, (presented_header r t \/ presented_query r t) /\ is_Some (sessions st !! t)).
Proof.
  rewrite authorized_cases. rewrite !is_some_eq_spec, !has_session_spec, negb_true_iff, is_empty_false.
  unfold presented_header, presented_admin, presented_query. naive_solver.
Qed.
End access.

(** Whatever logins, however they overlap, log-outs and clean-ups came before,
    a request to a protected route is let in only with a token it presents: the
    configured one (for secrets under 256 bytes, exactly it), or that of a
    session given to a user with valid credentials; a token in the query counts
    for a GET only. Without a token and without users configured nobody is let
    in. *)
Theorem admin_access_sound `{Bcrypt} server events r :
  authorized server (auth_run server events) r = true ->
  (exists t, (presented_header r t \/ presented_admin r t \/ presented_query r t) /\ admin_token server <> ""
     /\ constant_time_eq t (admin_token server) = true /\ (str_len t < 256 -> str_len (admin_token server) < 256 -> t = admin_token server))
  \/ (exists t, (presented_header r t \/ presented_query r t) /\ Exists (issued server t) events
        /\ (admin_users server <> [] \/ admin_token server <> "")).
Proof.
  intros [(t & Hp & Hne & Hc)|(t & Hp & Hs)]%authorized_spec.
  - left. exists t. split_and!; [done|done|done|]. intros ? ?. by apply constant_time_eq_short.
  - right. exists t. pose proof (session_issued _ _ _ Hs) as Hi. split_and!; [done|done|].
    apply Exists_exists in Hi as (ev & _ & now & req & _ & [Hv|Hv]).
    + left. intros E. unfold credentials_valid in Hv. by rewrite E in Hv.
    + right. unfold legacy_valid in Hv. intros E. by rewrite E in Hv.
Qed.

(** ** How often a password can be tried *)

Section attempts.
Context {B : Bcrypt} (server : ServerConfig).

Record Attempt := mk_attempt { at_start : Z; at_end : Z; at_token : string; at_req : LoginRequest }.

(** Logins handled one after the other, with their answers. *)
Fixpoint login_run (attempts : list Attempt) (st : AuthState) : AuthState * list (LoginRequest * LoginResponse) :=
  match attempts with
  | [] => (st, [])
  | a :: attempts =>
      let '(st, response) := login_handler server (at_start a) (at_end a) (at_token a) (at_req a) st in
      let '(st, more) := login_run attempts st in (st, (at_req a, response) :: more)
  end.

Definition tried (user : string) (x : LoginRequest * LoginResponse) : bool :=
  String.eqb (login_username x.1) user && negb (too_long x.1) && match x.2 with InvalidCredentials => true | _ => false end.
Definition succeeded (user : string) (x : LoginRequest * LoginResponse) : bool :=
  String.eqb (login_username x.1) user && match x.2 with LoginOk _ _ => true | _ => false end.

Definition tries (user : string) (l : list (LoginRequest * LoginResponse)) : nat := List.length (List.filter (tried user) l).

Definition minute : Z := 60 * 1000000000.

(** No count of the user's tries is kept at [t0], or one whose minute is
    over. *)
Definition uncounted (user : string) (t0 : Z) (attempts : gmap string (Z * Z)) : Prop :=
  match attempts !! user with Some (_, w) => w + minute <= t0 | None => True end.

(** The user's counter covers the [n] tries made since [t0]. *)
Definition counted (user : string) (t0 : Z) (n : Z) (attempts : gmap string (Z * Z)) : Prop :=
  match attempts !! user with
  | Some (count, w) => (count = n /\ t0 <= w < t0 + minute) \/ (n = 0 /\ w + minute <= t0)
  | None => n = 0
  end.

Lemma window_open t0 now w : t0 <= w -> t0 <= now < t0 + minute -> window_expired now w = false.
Proof. unfold window_expired, secs_since, minute, LOGIN_WINDOW_SECS. intros. apply Z.leb_gt. Z.div_mod_to_equations; lia. Qed.

Lemma window_over t0 now w : w + minute <= t0 -> t0 <= now -> window_expired now w = true.
Proof. unfold window_expired, secs_since, minute, LOGIN_WINDOW_SECS. intros. apply Z.leb_le. Z.div_mod_to_equations; lia. Qed.

Lemma counted_same user t0 n m m' : m !! user = m' !! user -> counted user t0 n m -> counted user t0 n m'.
Proof. unfold counted. by intros ->. Qed.

Lemma counted_retain user t0 n now m : t0 <= now < t0 + minute -> counted user t0 n m -> counted user t0 n (retain_attempts now m).
Proof.
  intros Hnow Hc. unfold counted in *. destruct (m !! user) as [[c w]|] eqn:E.
  - destruct Hc as [[Hc Hw]|[-> Hw]].
    + assert (retain_attempts now m !! user = Some (c, w)) as ->; [|by left].
      apply map_lookup_filter_Some_2; [done|]. cbn. pose proof (window_open t0 now w ltac:(lia) Hnow) as Hx.
      unfold window_expired in Hx. apply Z.ltb_lt. by apply Z.leb_gt in Hx.
    + destruct (retain_attempts now m !! user) as [[c' w']|] eqn:E'; [|done]. apply map_lookup_filter_Some in E' as [E' _].
      rewrite E in E'. injection E' as <- <-. by right.
  - destruct (retain_attempts now m !! user) eqn:E'; [|done]. apply map_lookup_filter_Some in E' as [E' _]. congruence.
Qed.

Lemma counted_begin user t0 n now m :
  0 <= n -> t0 <= now < t0 + minute -> counted user t0 n m ->
  let '(m', limited) := begin_attempt now user m in
  counted user t0 n m' /\ is_Some (m' !! user) /\ limited = (LOGIN_MAX_ATTEMPTS <=? n).
Proof.
  intros Hn Hnow Hc. unfold begin_attempt, counted in *. destruct (m !! user) as [[c w]|] eqn:E.
  - destruct Hc as [[-> Hw]|[-> Hw]].
    + rewrite (window_open t0) by lia. rewrite lookup_insert_eq. split_and!; [by left|done|done].
    + rewrite (window_over t0) by lia. rewrite lookup_insert_eq. split_and!; [left; lia|done|done].
  - subst n. rewrite lookup_insert_eq. split_and!; [left; lia|done|done].
Qed.

Lemma counted_begin_other user u t0 n now m : u <> user -> counted user t0 n m -> counted user t0 n (begin_attempt now u m).1.
Proof.
  intros Hne. apply counted_same. unfold begin_attempt. destruct (m !! u) as [[c w]|]; [destruct (window_expired now w)|]; cbn; by rewrite lookup_insert_ne.
Qed.

Lemma counted_finish_other user t0 n now token req st :
  login_username req <> user -> counted user t0 n (login_attempts st) -> counted user t0 n (login_attempts (finish_login server now token req st).1).
Proof.
  intros Hne. apply counted_same. unfold finish_login. destruct (_ || _); cbn; [by rewrite lookup_delete_ne|].
  unfold failed_attempt. destruct (_ !! login_username req) as [[c w]|]; by rewrite lookup_insert_ne.
Qed.

Lemma counted_fails user t0 n now m :
  0 <= n < LOGIN_MAX_ATTEMPTS -> t0 <= now < t0 + minute -> counted user t0 n m -> counted user t0 (n + 1) (failed_attempt now user m).
Proof.
  intros Hn Hnow. unfold counted, failed_attempt, LOGIN_MAX_ATTEMPTS in *. destruct (m !! user) as [[c w]|]; intros Hc; rewrite lookup_insert_eq.
  - destruct Hc as [[-> Hw]|[-> Hw]].
    + rewrite (window_open t0) by lia. left. by rewrite Z.mod_small by lia.
    + rewrite (window_over t0) by lia. left. lia.
  - subst n. left. lia.
Qed.

Lemma login_counts user t0 n st a :
  0 <= n <= LOGIN_MAX_ATTEMPTS -> t0 <= at_start a < t0 + minute -> t0 <= at_end a < t0 + minute -> counted user t0 n (login_attempts st) ->
  let '(st', response) := login_handler server (at_start a) (at_end a) (at_token a) (at_req a) st in
  succeeded user (at_req a, response) = false ->
  let n' := n + (if tried user (at_req a, response) then 1 else 0) in counted user t0 n' (login_attempts st') /\ n' <= LOGIN_MAX_ATTEMPTS.
Proof.
  intros Hn Hnow Hlater Hc. set (req := at_req a). unfold login_handler, start_login, tried, succeeded. cbv zeta. cbn [fst snd].
  destruct (too_long req) eqn:Hl; [intros _; rewrite andb_false_r; cbn; rewrite Z.add_0_r; split; [done|lia]|].
  destruct (String.eqb (login_username req) user) eqn:Eu.
  - apply String.eqb_eq in Eu. rewrite Eu. pose proof (counted_begin user t0 n (at_start a) (login_attempts st) ltac:(lia) Hnow Hc) as Hb.
    destruct (begin_attempt (at_start a) user _) as [m limited]. destruct Hb as (Hm & _ & ->). destruct (LOGIN_MAX_ATTEMPTS <=? n) eqn:E5.
    + intros _. cbn. rewrite Z.add_0_r. by split; [|lia].
    + apply Z.leb_gt in E5. unfold finish_login. cbn [login_attempts sessions]. destruct (_ || _); [done|]. intros _. cbn. rewrite Eu.
      split; [|lia]. apply counted_fails; [lia|done|]. by apply counted_retain.
  - apply String.eqb_neq in Eu. pose proof (counted_begin_other user (login_username req) t0 n (at_start a) (login_attempts st) Eu Hc) as Hb.
    destruct (begin_attempt (at_start a) (login_username req) _) as [m limited]. cbn [fst] in Hb. destruct limited.
    + intros _. cbn. rewrite Z.add_0_r. by split; [|lia].
    + pose proof (counted_finish_other user t0 n (at_end a) (at_token a) req (mk_auth (sessions st) (retain_attempts (at_start a) m)) Eu) as Hf.
      destruct (finish_login _ _ _ _ _) as [st' response]. intros _. cbn [andb fst] in *. rewrite Z.add_0_r. split; [|lia].
      apply Hf. cbn. by apply counted_retain.
Qed.

Lemma login_run_counts user t0 n attempts st :
  0 <= n <= LOGIN_MAX_ATTEMPTS ->
  Forall (fun a => t0 <= at_start a < t0 + minute /\ t0 <= at_end a < t0 + minute) attempts -> counted user t0 n (login_attempts st) ->
  existsb (succeeded user) (login_run attempts st).2 = false -> n + Z.of_nat (tries user (login_run attempts st).2) <= LOGIN_MAX_ATTEMPTS.
Proof.
  intros Hn Ht. revert n st Hn. induction Ht as [|a attempts [Hs He] Ht IH]; intros n st Hn Hc; cbn [login_run]; [cbn; lia|].
  pose proof (login_counts user t0 n st a Hn Hs He Hc) as Hl. destruct (login_handler _ _ _ _ _ _) as [st' response].
  destruct (login_run attempts st') as [st'' more] eqn:Er. cbn [snd existsb]. intros [Hsuc Hmore]%orb_false_iff.
  destruct (Hl Hsuc) as [Hc' Hle]. 
    specialize (IH (n + (if tried user (at_req a, response) then 1 else 0)) st'). rewrite Er in IH. specialize (IH ltac:(destruct (tried _ _); lia) Hc'). specialize (IH Hmore). cbn [snd] in IH.
  unfold tries in *. cbn [List.filter]. destruct (tried user (at_req a, response)); cbn [List.length] in *; lia.
Qed.

(** Whatever the answer, the counter goes on covering some number of tries. *)
Lemma login_keeps_count user t0 n st a :
  0 <= n <= LOGIN_MAX_ATTEMPTS -> t0 <= at_start a < t0 + minute -> t0 <= at_end a < t0 + minute -> counted user t0 n (login_attempts st) ->
  exists n', 0 <= n' <= LOGIN_MAX_ATTEMPTS
    /\ counted user t0 n' (login_attempts (login_handler server (at_start a) (at_end a) (at_token a) (at_req a) st).1).
Proof.
  intros Hn Hs He Hc. pose proof (login_counts user t0 n st a Hn Hs He Hc) as Hl.
  destruct (login_handler server (at_start a) (at_end a) (at_token a) (at_req a) st) as [st' response] eqn:El. cbn [fst].
  destruct (succeeded user (at_req a, response)) eqn:Esuc.
  - exists 0. split; [unfold LOGIN_MAX_ATTEMPTS; lia|]. unfold succeeded in Esuc. apply andb_true_iff in Esuc as [Eu%String.eqb_eq Eok].
    cbn [fst snd] in Eu, Eok. unfold login_handler, start_login in El. destruct (too_long _); [by injection El as <- <-|].
    destruct (begin_attempt _ _ _) as [m []]; [by injection El as <- <-|]. unfold finish_login in El.
    destruct (_ || _); injection El as <- <-; [|done]. unfold counted. cbn [login_attempts]. by rewrite Eu, lookup_delete_eq.
  - destruct (Hl eq_refl) as [Hc' Hle]. eexists. split; [|exact Hc']. destruct (tried _ _); lia.
Qed.

Lemma login_run_state user t0 n attempts st :
  0 <= n <= LOGIN_MAX_ATTEMPTS ->
  Forall (fun a => t0 <= at_start a < t0 + minute /\ t0 <= at_end a < t0 + minute) attempts -> counted user t0 n (login_attempts st) ->
  exists n', 0 <= n' <= LOGIN_MAX_ATTEMPTS /\ counted user t0 n' (login_attempts (login_run attempts st).1).
Proof.
  intros Hn Ht. revert n st Hn. induction Ht as [|a attempts [Hs He] Ht IH]; intros n st Hn Hc; cbn [login_run]; [by exists n|].
  destruct (login_keeps_count user t0 n st a Hn Hs He Hc) as (n' & Hn' & Hc').
  destruct (login_handler _ _ _ _ _ _) as [st' response]. specialize (IH n' st' Hn' Hc'). by destruct (login_run attempts st').
Qed.

Lemma login_run_app l l' st :
  login_run (l ++ l') st =
    let '(st1, r) := login_run l st in let '(st2, r') := login_run l' st1 in (st2, (r ++ r')%list).
Proof.
  revert st. induction l as [|a l IH]; intros st; cbn [app login_run]; [by destruct (login_run l' st)|].
  destruct (login_handler _ _ _ _ _ _) as [st' response]. rewrite IH. destruct (login_run l st') as [st1 r]. by destruct (login_run l' st1).
Qed.

(** The answers split where the attempts do. *)
Lemma login_run_split l st r r' :
  (login_run l st).2 = (r ++ r')%list ->
  exists l1 l2, l = (l1 ++ l2)%list /\ (login_run l1 st).2 = r /\ (login_run l2 (login_run l1 st).1).2 = r'.
Proof.
  revert l st. induction r as [|x r IH]; intros l st E; [by exists [], l|].
  destruct l as [|a l]; [done|]. cbn [login_run] in E.
  destruct (login_handler server (at_start a) (at_end a) (at_token a) (at_req a) st) as [st' response] eqn:El.
  specialize (IH l st'). destruct (login_run l st') as [st2 more]. cbn [snd app] in *. injection E as <- E.
  destruct (IH E) as (l1 & l2 & -> & E1 & E2). exists (a :: l1), l2. cbn [login_run app]. rewrite El.
  destruct (login_run l1 st') as [st1 r1]. cbn [fst snd] in *. by subst.
Qed.

(** C36: Among logins handled one after the other within a minute that starts
    when no count of the user is running (none kept, or one a minute old),
    every streak without a successful login of the user tries at most five
    wrong passwords for it: at most five before the first success, and at most
    five between a success and the next, for a success forgets the count. What
    other users do makes no difference. *)
Theorem login_tries_limited user t0 attempts st before streak after :
  uncounted user t0 (login_attempts st) ->
  Forall (fun a => t0 <= at_start a < t0 + minute /\ t0 <= at_end a < t0 + minute) attempts ->
  (login_run attempts st).2 = (before ++ streak ++ after)%list ->
  existsb (succeeded user) streak = false ->
  Z.of_nat (tries user streak) <= LOGIN_MAX_ATTEMPTS.
Proof.
  intros Hn Ht Hsplit Hs. assert (H0 : counted user t0 0 (login_attempts st)).
  { unfold counted, uncounted in *. destruct (login_attempts st !! user) as [[c w]|]; [by right|done]. }
  apply login_run_split in Hsplit as (l1 & l2 & -> & E1 & E2). apply Forall_app in Ht as [Ht1 Ht2].
  destruct (login_run_state user t0 0 l1 st ltac:(unfold LOGIN_MAX_ATTEMPTS; lia) Ht1 H0) as (n & Hn' & Hc).
  apply login_run_split in E2 as (l3 & l4 & -> & E3 & _). apply Forall_app in Ht2 as [Ht3 _].
  pose proof (login_run_counts user t0 n l3 _ Hn' Ht3 Hc) as H. rewrite E3 in H. specialize (H Hs). lia.
Qed.
End attempts.

(** ** Concrete inputs *)

#[local] Instance no_bcrypt : Bcrypt := fun _ _ => None.
Definition demo_server : ServerConfig := mk_server "" "127.0.0.1:9998" [mk_admin_user "root" "pw"] "secret" 1 "30s".

Lemma admin_access_sound_witness :
  let h := [("authorization", "Bearer tok")] in
  let r := mk_admin_request false h None in
  let events := [LoginStarts 0 (mk_login "root" "pw"); LoginEnds 1 "tok" (mk_login "root" "pw")] in
  authorized demo_server (auth_run demo_server events) r = true
  /\ ((exists t, (presented_header r t \/ presented_admin r t \/ presented_query r t) /\ "secret" <> "" /\ constant_time_eq t "secret" = true
         /\ (str_len t < 256 -> 6 < 256 -> t = "secret"))
      \/ (exists t, (presented_header r t \/ presented_query r t) /\ Exists (issued demo_server t) events /\ (admin_users demo_server <> [] \/ "secret" <> ""))).
Proof.
  cbv zeta. split; [vm_compute; reflexivity|].
  apply (admin_access_sound demo_server [LoginStarts 0 (mk_login "root" "pw"); LoginEnds 1 "tok" (mk_login "root" "pw")]
    (mk_admin_request false [("authorization", "Bearer tok")] None)). vm_compute. reflexivity.
Defined.

Definition wrong_attempts (n : nat) : list Attempt := map (fun i => mk_attempt (Z.of_nat i) (Z.of_nat i) "t" (mk_login "root" "x")) (seq 0 n).

(** Four wrong passwords, the owner's login, seven more wrong passwords. *)
Definition right_attempt : Attempt := mk_attempt 7 7 "t" (mk_login "root" "pw").
Definition logins_between : list Attempt :=
  (wrong_attempts 4 ++ [right_attempt] ++ map (fun i => mk_attempt (Z.of_nat i) (Z.of_nat i) "t" (mk_login "root" "x")) (seq 8 7))%list.
Definition answers_between : list (LoginRequest * LoginResponse) := (login_run demo_server logins_between auth_new).2.

(** Four wrong passwords, the right one, and five more: the sixth and the
    seventh after it are refused unread. *)
Lemma login_tries_limited_witness :
  map (fun x => match x.2 with LoginOk _ _ => 2%nat | InvalidCredentials => 1%nat | _ => 0%nat end) answers_between
    = [1; 1; 1; 1; 2; 1; 1; 1; 1; 1; 0; 0]%nat
  /\ Z.of_nat (tries "root" (drop 5 answers_between)) <= LOGIN_MAX_ATTEMPTS.
Proof.
  split; [vm_compute; reflexivity|].
  apply (login_tries_limited demo_server "root" 0 logins_between auth_new (take 5 answers_between) (drop 5 answers_between) []).
  - exact Logic.I.
  - apply Forall_forall. intros a. unfold logins_between, wrong_attempts. rewrite !elem_of_app, list_elem_of_singleton.
    unfold minute. intros [(i & -> & Hi%elem_of_seq)%list_elem_of_fmap|[->|(i & -> & Hi%elem_of_seq)%list_elem_of_fmap]]; cbn; lia.
  - rewrite app_nil_r, take_drop. reflexivity.
  - vm_compute. reflexivity.
Defined.

(** Overlapping logins are not limited: seven of them can pass the check
    before the first failure is counted, and every one of the seven passwords
    is tried. *)
Example overlapping_logins_not_limited :
  let req := mk_login "root" "x" in
  let starts := foldl (fun '(st, n) now => match start_login now req st with (st, None) => (st, S n) | (st, Some _) => (st, n) end)
                  (auth_new, 0%nat) (map Z.of_nat (seq 0 7)) in
  starts.2 = 7%nat.
Proof. vm_compute. reflexivity. Qed.

(** A listen address that begins like a loopback address may still be a host
    name: the server goes on without any credentials. *)
Example loopback_prefix : may_serve (mk_server "" "127.example.com:9998" [] "" 1 "30s") = true.
Proof. vm_compute. reflexivity. Qed.
