(* ===== verification/Logs.v ===== *)
(** * Logs: the ring buffer of recent log entries

    Models the buffer, the query and the field visitor of
    src/src/admin/logs.rs. The broadcast to live subscribers is tokio's. The
    lock makes each operation one step. *)
From S2P Require Import Prelude RustStr StrFacts.
From Stdlib Require Import Ascii String.
Local Open Scope string_scope.

Record LogEntry := mk_entry { ts : Z; entry_level : string; message : string; target : string }.

Definition RING_BUFFER_CAPACITY : nat := 1000.

Record LogBufferState := mk_logs { entries : list LogEntry; write_pos : nat; len : nat }.
Definition logs_new : LogBufferState := mk_logs [] 0 0.

Definition level_order (level : string) : option nat :=
  if String.eqb level "ERROR" then Some 0%nat
  else if String.eqb level "WARN" then Some 1%nat
  else if String.eqb level "INFO" then Some 2%nat
  else if String.eqb level "DEBUG" then Some 3%nat
  else if String.eqb level "TRACE" then Some 4%nat
  else None.

(** The filters of [recent]. *)
Definition level_passes (min_level : option string) (e : LogEntry) : bool :=
  match min_level ≫= level_order with
  | Some min_ord => negb (min_ord <? default 0 (level_order (entry_level e)))%nat
  | None => true
  end.

Definition search_passes (search : option string) (e : LogEntry) : bool :=
  match to_ascii_lowercase <$> search with
  | Some query =>
      str_contains query (to_ascii_lowercase (entry_level e)) || str_contains query (to_ascii_lowercase (target e))
      || str_contains query (to_ascii_lowercase (message e))
  | None => true
  end.

Definition passes (min_level search : option string) (e : LogEntry) : bool := level_passes min_level e && search_passes search e.

(** The capacity is an argument; the code's is [RING_BUFFER_CAPACITY]. *)
Section buffer.
Variable capacity : nat.

(** [None]: an index out of bounds, which panics. *)
Definition push (entry : LogEntry) (st : LogBufferState) : option LogBufferState :=
  if (len st <? capacity)%nat then Some (mk_logs (entries st ++ [entry]) (len st) (S (len st)))
  else
    let next_pos := ((write_pos st + 1) mod capacity)%nat in
    if (next_pos <? List.length (entries st))%nat then Some (mk_logs (<[next_pos := entry]> (entries st)) next_pos (len st)) else None.

(** The index of the [i]-th newest entry. *)
Definition entry_index (st : LogBufferState) (i : nat) : nat :=
  if (len st <? capacity)%nat then len st - 1 - i else (write_pos st + capacity - i) mod capacity.

(** The loop of [recent], over the ages that are left. *)
Fixpoint recent_loop (st : LogBufferState) (limit : nat) (keep : LogEntry -> bool) (ages : list nat) (result : list LogEntry) : option (list LogEntry) :=
  match ages with
  | [] => Some result
  | i :: ages =>
      entry ← entries st !! entry_index st i;
      if keep entry then
        let result := (result ++ [entry])%list in
        if (limit <=? List.length result)%nat then Some result else recent_loop st limit keep ages result
      else recent_loop st limit keep ages result
  end.

Definition recent (limit : nat) (min_level search : option string) (st : LogBufferState) : option (list LogEntry) :=
  recent_loop st limit (passes min_level search) (seq 0 (len st)) [].

Fixpoint push_all (l : list LogEntry) (st : LogBufferState) : option LogBufferState :=
  match l with [] => Some st | e :: l => st ← push e st; push_all l st end.
End buffer.

(** ** LogFieldVisitor *)

(** A field of an event: its name, its text and whether it is a string or a
    debug value (the only kinds that can be the message). *)
Record LogField := mk_field { field_name : string; field_text : string; textual : bool }.

Definition record_field (msg : string) (f : LogField) : string :=
  if textual f && String.eqb (field_name f) "message" then field_text f
  else (if is_empty msg then msg else msg ++ " ") ++ field_name f ++ "=" ++ field_text f.

(** [on_event]: the entry of an event. *)
Definition on_event (now_ms : Z) (level target : string) (fields : list LogField) : LogEntry :=
  mk_entry now_ms level (foldl record_field "" fields) target.

(** ** The buffer is the last entries pushed *)

Section refinement.
Variable capacity : nat.
Hypothesis Hcap : (0 < capacity)%nat.

(** After the entries [l], the [i]-th newest is where [recent] looks for it. *)
Record ring (l : list LogEntry) (st : LogBufferState) : Prop := {
  ring_len : len st = Nat.min capacity (List.length l);
  ring_entries : List.length (entries st) = len st;
  ring_pos : len st = capacity -> (write_pos st < capacity)%nat;
  ring_at : forall i, (i < len st)%nat -> entries st !! entry_index capacity st i = reverse l !! i;
}.

Lemma mod_once x : (x < 2 * capacity)%nat -> (x mod capacity = if (x <? capacity)%nat then x else x - capacity)%nat.
Proof.
  intros Hx. destruct (x <? capacity)%nat eqn:E; bool_simpl; [by apply Nat.mod_small|].
  replace x with (x - capacity + 1 * capacity)%nat at 1 by lia. rewrite Nat.Div0.mod_add. apply Nat.mod_small. lia.
Qed.

Ltac mods := repeat (rewrite mod_once by lia); repeat match goal with |- context [(?a <? ?b)%nat] => destruct (Nat.ltb_spec a b) end; try lia.

Lemma push_ring l st e : ring l st -> exists st', push capacity e st = Some st' /\ ring (l ++ [e]) st'.
Proof.
  intros [Hl He Hp Ha]. unfold push. destruct (len st <? capacity)%nat eqn:E; bool_simpl.
  - eexists. split; [done|]. assert (Hlen : List.length l = len st) by lia. split; cbn.
    + rewrite length_app. cbn. lia.
    + rewrite length_app, He. cbn. lia.
    + lia.
    + intros i Hi. assert (Hidx : entry_index capacity (mk_logs (entries st ++ [e]) (len st) (S (len st))) i = (len st - i)%nat).
      { unfold entry_index. cbn [len write_pos]. mods. }
      rewrite Hidx, reverse_app. cbn. destruct i as [|i].
      * rewrite Nat.sub_0_r, <- He. by rewrite lookup_app_r, Nat.sub_diag by lia.
      * rewrite lookup_app_l by lia. cbn. rewrite <- Ha by lia. f_equal. unfold entry_index. mods.
  - assert (Hlc : len st = capacity) by lia. specialize (Hp Hlc).
    assert (Hn : ((write_pos st + 1) mod capacity < capacity)%nat) by (apply Nat.mod_upper_bound; lia).
    assert (Hv : ((write_pos st + 1) mod capacity = if (write_pos st + 1 <? capacity)%nat then write_pos st + 1 else write_pos st + 1 - capacity)%nat) by (apply mod_once; lia).
    revert Hn Hv. generalize ((write_pos st + 1) mod capacity)%nat. intros next Hn Hv.
    rewrite (proj2 (Nat.ltb_lt _ _)) by lia. eexists. split; [done|]. split; cbn.
    + rewrite length_app. cbn. lia.
    + by rewrite length_insert.
    + done.
    + intros i Hi. rewrite reverse_app. cbn. unfold entry_index in *. cbn [len write_pos]. rewrite Hlc, Nat.ltb_irrefl in *.
      destruct i as [|i].
      * replace ((next + capacity - 0) mod capacity)%nat with next by mods.
        by rewrite list_lookup_insert_eq by lia.
      * cbn. destruct (Nat.ltb_spec (write_pos st + 1) capacity); rewrite list_lookup_insert_ne by mods; rewrite <- Ha by lia; f_equal; mods.
Qed.

Lemma push_all_ring l l0 st : ring l0 st -> exists st', push_all capacity l st = Some st' /\ ring (l0 ++ l) st'.
Proof.
  revert l0 st. induction l as [|e l IH]; intros l0 st Hr; cbn; [exists st; by rewrite app_nil_r|].
  destruct (push_ring _ _ e Hr) as (st1 & -> & Hr1). cbn. destruct (IH _ _ Hr1) as (st' & -> & Hr'). exists st'. by rewrite <- app_assoc in Hr'.
Qed.

Lemma recent_loop_spec l st limit keep ages result :
  ring l st -> Forall (fun i => (i < len st)%nat) ages -> (List.length result < Nat.max 1 limit)%nat ->
  recent_loop capacity st limit keep ages result =
    Some (result ++ take (Nat.max 1 limit - List.length result) (List.filter keep (omap (fun i => reverse l !! i) ages)))%list.
Proof.
  intros Hr Ha. revert result. induction Ha as [|i ages Hi Ha IH]; intros result Hres; cbn [recent_loop omap list_omap List.filter].
  { by rewrite take_nil, app_nil_r. }
  rewrite (ring_at _ _ Hr i Hi). destruct (reverse l !! i) as [e|] eqn:E.
  2:{ apply lookup_ge_None in E. rewrite length_reverse in E. pose proof (ring_len _ _ Hr). lia. }
  cbn. destruct (keep e); [|by apply IH]. destruct (limit <=? List.length (result ++ [e]))%nat eqn:El; bool_simpl; rewrite length_app in El; cbn in El.
  - replace (Nat.max 1 limit - List.length result)%nat with 1%nat by lia. done.
  - rewrite IH by (rewrite length_app; cbn; lia). rewrite length_app, <- app_assoc. cbn.
    replace (Nat.max 1 limit - List.length result)%nat with (S (Nat.max 1 limit - (List.length result + 1))) by lia. done.
Qed.

Lemma omap_lookup_seq {A} (l : list A) n : (n <= List.length l)%nat -> omap (fun i => l !! i) (seq 0 n) = take n l.
Proof.
  induction n as [|n IH]; intros Hn; [done|]. rewrite seq_S, omap_app, IH by lia. cbn.
  destruct (l !! n) as [x|] eqn:E; [by rewrite (take_S_r l n x)|]. apply lookup_ge_None in E. lia.
Qed.
End refinement.

(** Whatever was logged, a query answers without panicking, and with the
    newest entries first: those of the last [capacity] entries pushed that
    pass its filters, up to the limit (a limit of zero counts as one). *)
Theorem recent_entries capacity l limit min_level search :
  (0 < capacity)%nat ->
  (st ← push_all capacity l logs_new; recent capacity limit min_level search st) =
    Some (take (Nat.max 1 limit) (List.filter (passes min_level search) (take capacity (reverse l)))).
Proof.
  intros Hcap. assert (H0 : ring capacity [] logs_new) by (split; cbn; intros; lia).
  destruct (push_all_ring capacity Hcap l [] logs_new H0) as (st & -> & Hr). cbn. unfold recent. cbn [app] in Hr.
  rewrite (recent_loop_spec capacity Hcap l) ; [|exact Hr|apply Forall_seq; lia|cbn; lia]. cbn [app List.length]. rewrite Nat.sub_0_r.
  rewrite (omap_lookup_seq capacity Hcap) by (rewrite length_reverse, (ring_len _ _ _ Hr); lia). rewrite (ring_len _ _ _ Hr).
  do 3 f_equal. destruct (Nat.le_ge_cases capacity (List.length l)); [by rewrite Nat.min_l|].
  rewrite Nat.min_r by done. rewrite !take_ge; rewrite ?length_reverse; done || lia.
Qed.

Lemma recent_entries_witness :
  (st ← push_all 2 [mk_entry 1 "INFO" "m" "t"; mk_entry 2 "TRACE" "x" "t"; mk_entry 3 "INFO" "m" "t"] logs_new;
   recent 2 10 (Some "INFO") None st) = Some [mk_entry 3 "INFO" "m" "t"].
Proof. rewrite (recent_entries 2); [vm_compute; reflexivity|lia]. Defined.
