(* ===== verification/Runtime.v ===== *)
(** * Runtime: changing the configuration of a running balancer

    Models src/src/admin/config_handler.rs (the update and the reset; the JSON
    views are in Views) and the start-up sequence of src/src/main.rs that the
    reset goes back to. The state is what the handlers share with the proxy:
    the configuration, the parsed trusted ranges, the DNS cache and the routing
    table with its cells. The handlers hold [CONFIG_UPDATE_LOCK] and each is
    one step; between them the other tasks of the balancer move. *)
From S2P Require Import Prelude RustStr StrFacts Net Routes CircuitBreaker RateLimit Health Stats Target Weights Table Registry.
From S2P Require DnsCache.
From S2P Require Import IpText Config.
From Stdlib Require Import Ascii String.
Local Open Scope string_scope.
Local Open Scope Z_scope.

(** ** The requests *)

Record ProxyConfigUpdate := mk_proxy_update {
  u_strategy : option string;
  u_matcher : option string;
  u_request_id_header : option string;
  u_no_route_status : option Z;
  u_connect_timeout : option string;
  u_read_timeout : option string;
  u_write_timeout : option string;
  u_idle_timeout : option string;
  u_stream_read_timeout : option string;
  u_upstream_tcp_keepalive : option string;
  u_upstream_user_timeout : option string;
  u_downstream_tcp_keepalive : option string;
  u_enable_h2c : option bool;
  u_upstream_h2_max_streams : option Z;
  u_upstream_h2_ping_interval : option string;
  u_pool_size : option Z;
  u_max_connections : option Z;
  u_dns_cache_ttl : option Z;
  u_dns_negative_cache_ttl : option Z;
  u_trusted_proxies : option (list string);
  u_circuit_breaker_enabled : option bool;
  u_circuit_breaker_error_threshold : option Z;
  u_circuit_breaker_window_size : option Z;
  u_circuit_breaker_recovery_timeout : option Z;
  u_circuit_breaker_half_open_max : option Z;
  u_health_check_interval : option string;
  u_health_check_timeout : option string;
  u_health_check_fall : option Z;
  u_health_check_rise : option Z;
  u_rate_limit_per_target : option Z;
  u_rate_limit_burst : option Z;
  u_health_check_path : option string;
  u_health_check_tls_skip_verify : option bool;
}.

Record LoggingConfigUpdate := mk_logging_update { u_level : option string; u_format : option string }.

Record ConfigUpdateRequest := mk_update { u_proxy : option ProxyConfigUpdate; u_logging : option LoggingConfigUpdate }.

Definition circuit_breaker_config_from_proxy (p : ProxyConfig) : option CircuitBreakerConfig :=
  if circuit_breaker_enabled p
  then Some (mk_cb_config (circuit_breaker_error_threshold p) (circuit_breaker_window_size p)
               (circuit_breaker_recovery_timeout p) (circuit_breaker_half_open_max p))
  else None.

#[global] Instance cb_config_eq_dec : EqDecision CircuitBreakerConfig.
Proof. solve_decision. Defined.

(** The name of a setting that is present and cannot change at run time. *)
Definition refuse {A} (setting : option A) (name : string) : list string := match setting with Some _ => [name] | None => [] end.

Definition unsupported_runtime_updates (update : ConfigUpdateRequest) : list string :=
  (match u_proxy update with
   | Some p => refuse (u_enable_h2c p) "proxy.enable_h2c" ++ refuse (u_pool_size p) "proxy.pool_size"
               ++ refuse (u_downstream_tcp_keepalive p) "proxy.downstream_tcp_keepalive"
   | None => []
   end
   ++ match u_logging update with
      | Some l => refuse (u_level l) "logging.level" ++ refuse (u_format l) "logging.format"
      | None => []
      end)%list.

(** [if let Some(v) = new { old = v }] *)
Definition set {A} (new : option A) (old : A) : A := match new with Some v => v | None => old end.

(** The fields the handler copies; [enable_h2c], [pool_size] and
    [downstream_tcp_keepalive] are not among them. *)
Definition update_proxy (u : ProxyConfigUpdate) (p : ProxyConfig) : ProxyConfig :=
  mk_proxy_config (set (u_strategy u) (strategy p)) (set (u_matcher u) (matcher p))
    (set (u_request_id_header u) (request_id_header p)) (set (u_no_route_status u) (no_route_status p))
    (set (u_connect_timeout u) (connect_timeout p)) (set (u_read_timeout u) (read_timeout p))
    (set (u_write_timeout u) (write_timeout p)) (set (u_idle_timeout u) (idle_timeout p))
    (enable_h2c p)
    (set (u_upstream_h2_max_streams u) (upstream_h2_max_streams p))
    (set (u_upstream_h2_ping_interval u) (upstream_h2_ping_interval p))
    (pool_size p)
    (set (u_dns_cache_ttl u) (dns_cache_ttl p)) (set (u_dns_negative_cache_ttl u) (dns_negative_cache_ttl p))
    (set (u_max_connections u) (max_connections p)) (set (u_trusted_proxies u) (trusted_proxies p))
    (set (u_circuit_breaker_enabled u) (circuit_breaker_enabled p))
    (set (u_circuit_breaker_error_threshold u) (circuit_breaker_error_threshold p))
    (set (u_circuit_breaker_window_size u) (circuit_breaker_window_size p))
    (set (u_circuit_breaker_recovery_timeout u) (circuit_breaker_recovery_timeout p))
    (set (u_circuit_breaker_half_open_max u) (circuit_breaker_half_open_max p))
    (set (u_health_check_interval u) (health_check_interval p)) (set (u_health_check_timeout u) (health_check_timeout p))
    (set (u_health_check_fall u) (health_check_fall p)) (set (u_health_check_rise u) (health_check_rise p))
    (set (u_rate_limit_per_target u) (rate_limit_per_target p)) (set (u_rate_limit_burst u) (rate_limit_burst p))
    (set (u_health_check_path u) (health_check_path p)) (set (u_health_check_tls_skip_verify u) (health_check_tls_skip_verify p))
    (set (u_upstream_tcp_keepalive u) (upstream_tcp_keepalive p)) (set (u_upstream_user_timeout u) (upstream_user_timeout p))
    (downstream_tcp_keepalive p)
    (set (u_stream_read_timeout u) (stream_read_timeout p)).

Definition update_logging (u : LoggingConfigUpdate) (l : LoggingConfig) : LoggingConfig :=
  mk_logging (set (u_level u) (level l)) (set (u_format u) (format l)).

Definition updated_config (update : ConfigUpdateRequest) (current : Config) : Config :=
  mk_config (server current) (consul current)
    (match u_proxy update with Some u => update_proxy u (proxy current) | None => proxy current end)
    (match u_logging update with Some u => update_logging u (logging current) | None => logging current end)
    (tls current) (tls_listeners current) (tcp current).

(** ** The handlers *)

Section runtime.
Context {N : HeaderNames} {G : GlobCrate} {U : UrlParser} {O : HashOrder} {S : DnsCache.SelectNth}.

(** The part of [AdminState] the handlers read and write, with the global DNS
    cache and the cells of the table. *)
Record AdminState := mk_admin {
  config : Config;
  startup_config : Config;
  s_trusted_proxies : list CidrRange;
  dns_cache : DnsCache.DnsCache;
  s_route_table : ManagedRouteTable;
  cells : Heap;
}.

(** The breaker configuration of the table changes when the two differ. *)
Definition apply_breaker (now_ns : Z) (inflight : gset loc) (old new : option CircuitBreakerConfig) (m : ManagedRouteTable) (h : Heap)
  : ManagedRouteTable * Heap :=
  if decide (old = new) then (m, h) else reconfigure_circuit_breaker now_ns inflight new m h.

Definition config_update_handler (now_ns : Z) (inflight : gset loc) (update : ConfigUpdateRequest) (s : AdminState)
  : AdminState * result unit string :=
  match unsupported_runtime_updates update with
  | [] =>
      let temp_config := updated_config update (config s) in
      match validate temp_config with
      | Some validation_error => (s, Err ("Validation failed: " ++ validation_error))
      | None =>
          let dns := DnsCache.set_ttl (dns_cache_ttl (proxy temp_config)) (dns_negative_cache_ttl (proxy temp_config)) (dns_cache s) in
          let trusted := match u_proxy update ≫= u_trusted_proxies with
                         | Some _ => parse_trusted_proxies (trusted_proxies (proxy temp_config))
                         | None => s_trusted_proxies s
                         end in
          let '(m, h) := apply_breaker now_ns inflight (circuit_breaker_config_from_proxy (proxy (config s)))
                           (circuit_breaker_config_from_proxy (proxy temp_config)) (s_route_table s) (cells s) in
          (mk_admin temp_config (startup_config s) trusted dns m h, Ok tt)
      end
  | unsupported => (s, Err ("Runtime update is not supported for: " ++ str_join ", " unsupported))
  end.

Definition config_reset_handler (now_ns : Z) (inflight : gset loc) (s : AdminState) : AdminState * result unit string :=
  let new_config := startup_config s in
  match validate new_config with
  | Some validation_error => (s, Err ("Validation failed: " ++ validation_error))
  | None =>
      let dns := DnsCache.set_ttl (dns_cache_ttl (proxy new_config)) (dns_negative_cache_ttl (proxy new_config)) (dns_cache s) in
      let trusted := parse_trusted_proxies (trusted_proxies (proxy new_config)) in
      let '(m, h) := apply_breaker now_ns inflight (circuit_breaker_config_from_proxy (proxy (config s)))
                       (circuit_breaker_config_from_proxy (proxy new_config)) (s_route_table s) (cells s) in
      (mk_admin new_config (startup_config s) trusted dns m h, Ok tt)
  end.

(** The start of the balancer on a configuration: [main] exits with the error
    of the validation. *)
Definition start_balancer (c : Config) : result AdminState string :=
  match validate c with
  | Some validation_error => Err validation_error
  | None =>
      Ok (mk_admin c c (parse_trusted_proxies (trusted_proxies (proxy c)))
            (DnsCache.set_ttl (dns_cache_ttl (proxy c)) (dns_negative_cache_ttl (proxy c)) DnsCache.cache_new)
            (match circuit_breaker_config_from_proxy (proxy c) with
             | Some cb => new_with_cb_config cb
             | None => managed_new
             end) heap_empty)
  end.

(** ** The running balancer *)

(** One step: a request to the configuration API, an operation of another task
    on the table, traffic on its cells, or a use of the DNS cache. Only the
    handlers reconfigure the breakers and set the TTLs. *)
Inductive runtime_step : AdminState -> AdminState -> Prop :=
  | step_update now_ns inflight update s : runtime_step s (config_update_handler now_ns inflight update s).1
  | step_reset now_ns inflight s : runtime_step s (config_reset_handler now_ns inflight s).1
  | step_routes now_ns inflight op c st tr d m h :
      is_reconfigure op = false ->
      runtime_step (mk_admin c st tr d m h)
        (mk_admin c st tr d (managed_apply now_ns inflight op m h).1 (managed_apply now_ns inflight op m h).2)
  | step_cells c st tr d m h h' : next_loc h' = next_loc h -> runtime_step (mk_admin c st tr d m h) (mk_admin c st tr d m h')
  | step_dns now_ms op c st tr d m h :
      (forall x y, op <> DnsCache.OSetTtl x y) ->
      runtime_step (mk_admin c st tr d m h) (mk_admin c st tr (DnsCache.apply_op now_ms op d) m h).

(** What the handlers may change of the configuration: they keep everything
    that is bound at start-up. *)
Record same_static (c c0 : Config) : Prop := {
  ss_server : server c = server c0;
  ss_consul : consul c = consul c0;
  ss_logging : logging c = logging c0;
  ss_tls : tls c = tls c0;
  ss_listeners : tls_listeners c = tls_listeners c0;
  ss_tcp : tcp c = tcp c0;
  ss_h2c : enable_h2c (proxy c) = enable_h2c (proxy c0);
  ss_pool : pool_size (proxy c) = pool_size (proxy c0);
  ss_downstream : downstream_tcp_keepalive (proxy c) = downstream_tcp_keepalive (proxy c0);
}.

(** Everything the proxy runs with agrees with the configuration that is
    shown. *)
Record in_force (s : AdminState) : Prop := {
  if_valid : validate (config s) = None;
  if_trusted : s_trusted_proxies s = parse_trusted_proxies (trusted_proxies (proxy (config s)));
  if_dns : DnsCache.default_ttl_secs (dns_cache s) = dns_cache_ttl (proxy (config s))
           /\ DnsCache.negative_ttl_secs (dns_cache s) = dns_negative_cache_ttl (proxy (config s));
  if_breaker : rt_cb_config (route_table (s_route_table s)) = circuit_breaker_config_from_proxy (proxy (config s));
  if_table : reachable (s_route_table s, cells s);
}.

Lemma unsupported_nil update :
  unsupported_runtime_updates update = [] ->
  (forall p, u_proxy update = Some p -> u_enable_h2c p = None /\ u_pool_size p = None /\ u_downstream_tcp_keepalive p = None)
  /\ (forall l, u_logging update = Some l -> u_level l = None /\ u_format l = None).
Proof.
  destruct update as [p l]. unfold unsupported_runtime_updates. cbn. intros [Hp Hl]%app_eq_nil.
  split; intros x ->; cbn in *; repeat (match goal with H : (_ ++ _)%list = [] |- _ => apply app_eq_nil in H as [? ?] end);
    unfold refuse in *; repeat case_match; split_and?; done.
Qed.

Lemma updated_static update c : unsupported_runtime_updates update = [] -> same_static (updated_config update c) c.
Proof.
  intros [_ Hl]%unsupported_nil. destruct update as [[p|] [l|]]; split; cbn in *; try done;
    destruct (Hl l eq_refl) as [El Ef]; unfold update_logging, set; rewrite El, Ef; by destruct (logging c).
Qed.

Lemma same_static_trans a b c : same_static a b -> same_static b c -> same_static a c.
Proof. intros [] []. split; congruence. Qed.

Lemma set_ttl_set d n c : DnsCache.default_ttl_secs (DnsCache.set_ttl d n c) = d /\ DnsCache.negative_ttl_secs (DnsCache.set_ttl d n c) = n.
Proof. unfold DnsCache.set_ttl. by destruct (_ || _). Qed.

Lemma build_keeps_config now inflight defs cfg t h : rt_cb_config (build now inflight defs cfg t h).1.2 = rt_cb_config t.
Proof. unfold build. by destruct (from_definitions_with_stats _ _ _ _ _ _) as [[table r] h']. Qed.

Lemma managed_apply_config now inflight op m h :
  rt_cb_config (route_table (managed_apply now inflight op m h).1)
  = match op with OpReconfigure cfg => cfg | _ => rt_cb_config (route_table m) end.
Proof.
  destruct op; cbn [managed_apply];
    unfold load_static, append_static, managed_update_kv, managed_update_services, reconfigure_circuit_breaker, rebuild_and_swap;
    match goal with |- context [ build now inflight ?defs ?config ?t ?h ] =>
      pose proof (build_keeps_config now inflight defs config t h) as Hb; destruct (build now inflight defs config t h) as [[table t'] h'] end;
    exact Hb.
Qed.

Lemma apply_breaker_config now inflight new m h :
  rt_cb_config (route_table (apply_breaker now inflight (rt_cb_config (route_table m)) new m h).1) = new.
Proof.
  unfold apply_breaker. destruct (decide _) as [E|_]; [done|]. apply (managed_apply_config now inflight (OpReconfigure new)).
Qed.

Lemma reachable_apply now inflight op m h : reachable (m, h) -> reachable (managed_apply now inflight op m h).
Proof. intros (s0 & H0 & Hs). exists s0. split; [done|]. eapply rtc_r; [done|constructor]. Qed.

Lemma apply_breaker_reachable now inflight old new m h : reachable (m, h) -> reachable (apply_breaker now inflight old new m h).
Proof. unfold apply_breaker. destruct (decide _); [done|]. apply (reachable_apply _ _ (OpReconfigure new)). Qed.

(** Storing a validated configuration with what is derived from it. *)
Lemma stored_in_force now inflight c (s : AdminState) tr d :
  in_force s -> validate c = None ->
  tr = parse_trusted_proxies (trusted_proxies (proxy c)) ->
  d = DnsCache.set_ttl (dns_cache_ttl (proxy c)) (dns_negative_cache_ttl (proxy c)) (dns_cache s) ->
  let mh := apply_breaker now inflight (circuit_breaker_config_from_proxy (proxy (config s)))
              (circuit_breaker_config_from_proxy (proxy c)) (s_route_table s) (cells s) in
  in_force (mk_admin c (startup_config s) tr d mh.1 mh.2).
Proof.
  intros [] Hv -> ->. cbv zeta. split; cbn.
  - done.
  - done.
  - apply set_ttl_set.
  - rewrite <- if_breaker0. apply apply_breaker_config.
  - pose proof (apply_breaker_reachable now inflight (circuit_breaker_config_from_proxy (proxy (config s)))
      (circuit_breaker_config_from_proxy (proxy c)) _ _ if_table0) as Hr. by destruct (apply_breaker _ _ _ _ _ _).
Qed.

Lemma update_in_force now inflight update s :
  in_force s ->
  let '(s', r) := config_update_handler now inflight update s in
  in_force s' /\ startup_config s' = startup_config s /\ same_static (config s') (config s)
  /\ match r with Ok _ => config s' = updated_config update (config s) | Err _ => s' = s end.
Proof.
  intros Hi. unfold config_update_handler.
  destruct (unsupported_runtime_updates update) as [|e l] eqn:Eu; [|by split_and!].
  cbv zeta. destruct (validate (updated_config update (config s))) as [e|] eqn:Ev; [by split_and!|].
  match goal with |- context [ mk_admin _ _ ?tr ?d ] => pose proof (stored_in_force now inflight (updated_config update (config s)) s tr d Hi Ev) as Hs end.
  destruct (apply_breaker _ _ _ _ _ _) as [m h]. cbn in Hs.
  split; [|split_and!; [done|by apply updated_static|done]]. apply Hs; [|done].
  destruct (u_proxy update ≫= u_trusted_proxies) eqn:Et; [done|]. rewrite (if_trusted _ Hi). unfold updated_config. cbn.
  destruct (u_proxy update) as [u|]; [|done]. cbn in *. by rewrite Et.
Qed.

Lemma reset_in_force now inflight s :
  in_force s -> validate (startup_config s) = None ->
  let '(s', r) := config_reset_handler now inflight s in
  in_force s' /\ startup_config s' = startup_config s /\ config s' = startup_config s /\ r = Ok tt.
Proof.
  intros Hi Hv. unfold config_reset_handler. cbv zeta. rewrite Hv.
  match goal with |- context [ mk_admin _ _ ?tr ?d ] => pose proof (stored_in_force now inflight (startup_config s) s tr d Hi Hv eq_refl eq_refl) as Hs end.
  by destruct (apply_breaker _ _ _ _ _ _) as [m h].
Qed.

Lemma step_in_force s s' :
  runtime_step s s' -> in_force s -> validate (startup_config s) = None -> same_static (config s) (startup_config s) ->
  in_force s' /\ startup_config s' = startup_config s /\ same_static (config s') (startup_config s').
Proof.
  intros Hstep Hi Hv Hs. destruct Hstep as [now inflight update s|now inflight s|now inflight op c st tr d m h Hop|c st tr d m h h' Hn|now op c st tr d m h Hop].
  - pose proof (update_in_force now inflight update s Hi) as Hu. destruct (config_update_handler _ _ _ _) as [s' r].
    destruct Hu as (? & E & ? & _). cbn. rewrite E. split_and!; [done|done|by eapply same_static_trans].
  - pose proof (reset_in_force now inflight s Hi Hv) as Hr. destruct (config_reset_handler _ _ _) as [s' r].
    destruct Hr as (? & E & E' & _). cbn. rewrite E, E'. split_and!; [done|done|by split].
  - split; [|done]. destruct Hi. split; cbn in *; try done.
    + rewrite managed_apply_config. by destruct op.
    + rewrite <- surjective_pairing. by apply reachable_apply.
  - split; [|done]. destruct Hi as [Hval Htr Hdns Hcb (s0 & H1 & H2)]. split; cbn in *; try done. exists s0. split; [done|].
    eapply rtc_r; [done|by constructor].
  - split; [|done]. destruct Hi as [Hval Htr Hdns Hcb Ht]. split; cbn in *; try done.
    assert (DnsCache.default_ttl_secs (DnsCache.apply_op now op d) = DnsCache.default_ttl_secs d
            /\ DnsCache.negative_ttl_secs (DnsCache.apply_op now op d) = DnsCache.negative_ttl_secs d) as [-> ->]; [|done].
    by apply DnsCache.dns_ops_keep_ttl.
Qed.

Lemma started_in_force c s : start_balancer c = Ok s -> in_force s /\ startup_config s = c /\ config s = c /\ validate c = None.
Proof.
  unfold start_balancer. destruct (validate c) eqn:Ev; [done|]. intros [= <-]. split_and!; try done.
  split; cbn; [done|done|apply set_ttl_set| |].
  - by destruct (circuit_breaker_config_from_proxy _).
  - destruct (circuit_breaker_config_from_proxy (proxy c)) as [cb|]; eexists; (split; [|apply rtc_refl]); [right; by exists cb|by left].
Qed.

Lemma running_in_force c s s' :
  start_balancer c = Ok s -> rtc runtime_step s s' ->
  in_force s' /\ startup_config s' = c /\ same_static (config s') c /\ validate c = None.
Proof.
  intros (Hi & E & E' & Hv)%started_in_force Hsteps.
  assert (Hs : same_static (config s) (startup_config s)) by (rewrite E, E'; by split). rewrite <- E in Hv |- *. clear E E' c.
  revert Hi Hv Hs. induction Hsteps as [s|s1 s2 s3 Hstep _ IH]; intros Hi Hv Hs; [by split_and!|].
  destruct (step_in_force _ _ Hstep Hi Hv Hs) as (Hi' & E & Hs'). rewrite <- E in Hv |- *. apply IH; try done.
Qed.

(** C6: Whatever requests to change the configuration, operations of the table,
    traffic and DNS lookups follow the start, what the balancer runs with is
    what its configuration says: the configuration validates, it differs from
    the one of the start-up only in settings that can change at run time, the
    trusted ranges are those of its list and none is skipped, the DNS cache has
    its TTLs, and the routing table builds its breakers from its thresholds and
    serves its three sources. A refused request changes nothing, and a reset
    always succeeds. *)
Theorem running_config_in_force c s s' :
  start_balancer c = Ok s -> rtc runtime_step s s' ->
  in_force s' /\ same_static (config s') c
  /\ List.length (s_trusted_proxies s') = List.length (trusted_proxies (proxy (config s')))
  /\ (forall k p, erased_contents (Table.routes (published (s_route_table s'))) k p
                   = spec_table (get_all (registry (s_route_table s'))) k p)
  /\ (forall now inflight update e, (config_update_handler now inflight update s').2 = Err e ->
        (config_update_handler now inflight update s').1 = s')
  /\ (forall now inflight, (config_reset_handler now inflight s').2 = Ok tt
                           /\ config (config_reset_handler now inflight s').1 = c).
Proof.
  intros Hst Hsteps. destruct (running_in_force _ _ _ Hst Hsteps) as (Hi & E & Hs & Hv). split_and!; [done|done| | | |].
  - rewrite (if_trusted _ Hi). apply validated_ranges_parse. apply validate_decides; apply Hi.
  - apply (managed_inv_reachable _ (if_table _ Hi)).
  - intros now inflight update e He. pose proof (update_in_force now inflight update s' Hi) as Hu.
    destruct (config_update_handler _ _ _ _) as [s'' r]. cbn in He. subst r. by destruct Hu as (_ & _ & _ & ->).
  - intros now inflight. pose proof (reset_in_force now inflight s' Hi) as Hr. rewrite E in Hr. specialize (Hr Hv).
    destruct (config_reset_handler _ _ _) as [s'' r]. cbn. by destruct Hr as (_ & _ & -> & ->).
Qed.
End runtime.

(** ** A concrete run *)

#[local] Instance any_header : HeaderNames := fun s => negb (contains_char " "%char s).
#[local] Instance no_glob : GlobCrate := {| Pattern := unit; pattern_new _ := None; pattern_matches _ _ := false |}.
#[local] Instance some_url : UrlParser := fun _ => None.
#[local] Instance list_order : HashOrder := {| iter_order m := map_to_list m; iter_order_perm m := Permutation_refl _ |}.

#[local] Existing Instance DnsCache.sort_select.

(** A request that sets the trusted ranges, the threshold of the breakers and
    a TTL, and one for [pool_size]. *)
Definition demo_update (ranges : list string) (pool : option Z) : ConfigUpdateRequest :=
  mk_update (Some (mk_proxy_update None None None None None None None None None None None None None None None pool None (Some 60) None
                     (Some ranges) None (Some 20) None None None None None None None None None None None)) None.

Definition demo_startup : Config := demo_config ":9443" "5s" ["10.0.0.0/8"].

(** The state the balancer starts with on a configuration that validates. *)
Definition demo_started : AdminState :=
  mk_admin demo_startup demo_startup (parse_trusted_proxies ["10.0.0.0/8"]) (DnsCache.set_ttl 30 10 DnsCache.cache_new)
    (new_with_cb_config (mk_cb_config 50 100 30 3)) heap_empty.

Example demo_updates :
  let u := config_update_handler 5 ∅ (demo_update ["192.168.0.0/16"; "fd00::/8"] None) demo_started in
  u.2 = Ok tt
  /\ List.length (s_trusted_proxies u.1) = 2%nat
  /\ rt_cb_config (route_table (s_route_table u.1)) = Some (mk_cb_config 20 100 30 3)
  /\ (config_update_handler 5 ∅ (demo_update ["192.168.0.0/33"] None) demo_started).2
     = Err "Validation failed: Invalid CIDR '192.168.0.0/33': prefix 33 > 32 for IPv4"
  /\ (config_update_handler 5 ∅ (demo_update [] (Some 4)) demo_started).2
     = Err "Runtime update is not supported for: proxy.pool_size".
Proof. vm_compute. by split_and!. Qed.

Lemma running_config_in_force_witness :
  let s := (config_update_handler 5 ∅ (demo_update ["192.168.0.0/16"] None) demo_started).1 in
  start_balancer demo_startup = Ok demo_started /\ rtc runtime_step demo_started s
  /\ in_force s /\ trusted_proxies (proxy (config s)) = ["192.168.0.0/16"].
Proof.
  intros s. assert (Hst : start_balancer demo_startup = Ok demo_started) by (vm_compute; reflexivity).
  assert (Hs : rtc runtime_step demo_started s) by (apply rtc_once; constructor).
  split; [exact Hst|]. split; [exact Hs|]. split; [apply (running_config_in_force _ _ _ Hst Hs)|vm_compute; reflexivity].
Defined.
