(* ===== verification/Balancer.v ===== *)
(** * Balancer: the whole system at work

    The composition of the parts: src/src/main.rs starts the balancer, and
    from then on the requests of src/src/proxy/handler.rs, the connections of
    src/src/proxy/tcp.rs, the configuration handlers of src/src/admin, the
    updates of the routing table and the clock interleave. What a request
    sees of the system is a view of it ([view], [write_back]): the published
    table and the configuration are loaded, the cells, the DNS cache and the
    counters are shared. *)
From S2P Require Import Prelude F64 RustStr StrFacts Net Prog Routes RateLimit CircuitBreaker Health Stats Target Weights Table Picker Registry RoundRobin Http.
From S2P Require DnsCache.
From S2P Require Import Upstream IpText Config ClientHello Tcp Moments Runtime.
From Stdlib Require Import Ascii String.
Local Open Scope string_scope.
Local Open Scope Z_scope.
Local Open Scope rust_scope.

Section balancer.
Context {HN : HeaderNames} {G : GlobCrate} {U : UrlParser} {O : HashOrder} {S : DnsCache.SelectNth}.

(** ** The configuration handlers, one store at a time

    A handler that accepts its request replaces, one after the other, the TTLs
    of the DNS cache, the configuration, the trusted ranges and the breakers of
    the table. It holds [CONFIG_UPDATE_LOCK] meanwhile, but requests do not
    take that lock: they see what is between two stores. *)
Inductive Store :=
  | StoreTtl (default_ttl negative_ttl : Z)
  | StoreConfig (c : Config)
  | StoreTrusted (ranges : list CidrRange)
  | StoreBreaker (cb : option CircuitBreakerConfig).

Definition breaker_stores (old new : option CircuitBreakerConfig) : list Store := if decide (old = new) then [] else [StoreBreaker new].

(** What an accepted update will store, or why it is refused. *)
Definition update_stores (update : ConfigUpdateRequest) (s : AdminState) : result (list Store) string :=
  match unsupported_runtime_updates update with
  | [] =>
      let temp_config := updated_config update (config s) in
      match validate temp_config with
      | Some validation_error => Err ("Validation failed: " ++ validation_error)
      | None =>
          Ok (([StoreTtl (dns_cache_ttl (proxy temp_config)) (dns_negative_cache_ttl (proxy temp_config)); StoreConfig temp_config]
               ++ match u_proxy update ≫= u_trusted_proxies with
                  | Some _ => [StoreTrusted (parse_trusted_proxies (trusted_proxies (proxy temp_config)))]
                  | None => []
                  end
               ++ breaker_stores (circuit_breaker_config_from_proxy (proxy (config s))) (circuit_breaker_config_from_proxy (proxy temp_config)))%list)
      end
  | unsupported => Err ("Runtime update is not supported for: " ++ str_join ", " unsupported)
  end.

Definition reset_stores (s : AdminState) : result (list Store) string :=
  let new_config := startup_config s in
  match validate new_config with
  | Some validation_error => Err ("Validation failed: " ++ validation_error)
  | None =>
      Ok ([StoreTtl (dns_cache_ttl (proxy new_config)) (dns_negative_cache_ttl (proxy new_config)); StoreConfig new_config;
           StoreTrusted (parse_trusted_proxies (trusted_proxies (proxy new_config)))]
          ++ breaker_stores (circuit_breaker_config_from_proxy (proxy (config s))) (circuit_breaker_config_from_proxy (proxy new_config)))%list
  end.

Definition perform (now_ns : Z) (inflight : gset loc) (s : AdminState) (st : Store) : AdminState :=
  match st with
  | StoreTtl d n => mk_admin (config s) (startup_config s) (s_trusted_proxies s) (DnsCache.set_ttl d n (dns_cache s)) (s_route_table s) (cells s)
  | StoreConfig c => mk_admin c (startup_config s) (s_trusted_proxies s) (dns_cache s) (s_route_table s) (cells s)
  | StoreTrusted l => mk_admin (config s) (startup_config s) l (dns_cache s) (s_route_table s) (cells s)
  | StoreBreaker cb =>
      let '(m, h) := reconfigure_circuit_breaker now_ns inflight cb (s_route_table s) (cells s) in
      mk_admin (config s) (startup_config s) (s_trusted_proxies s) (dns_cache s) m h
  end.

(** Nothing in between, the stores are the handler of Runtime.v. *)
Lemma update_handler_stores now inflight update s :
  config_update_handler now inflight update s
  = match update_stores update s with
    | Ok stores => (fold_left (perform now inflight) stores s, Ok tt)
    | Err e => (s, Err e)
    end.
Proof.
  unfold config_update_handler, update_stores. destruct (unsupported_runtime_updates update); [|done]. cbv zeta.
  destruct (validate _); [done|]. unfold apply_breaker, breaker_stores.
  destruct (u_proxy update ≫= u_trusted_proxies), (decide _); cbn; destruct s; cbn; try done;
    by destruct (reconfigure_circuit_breaker _ _ _ _ _).
Qed.

Lemma reset_handler_stores now inflight s :
  config_reset_handler now inflight s
  = match reset_stores s with
    | Ok stores => (fold_left (perform now inflight) stores s, Ok tt)
    | Err e => (s, Err e)
    end.
Proof.
  unfold config_reset_handler, reset_stores. cbv zeta. destruct (validate _); [done|]. unfold apply_breaker, breaker_stores.
  destruct (decide _); cbn; destruct s; cbn; try done; by destruct (reconfigure_circuit_breaker _ _ _ _ _).
Qed.

(** What the stores are about. *)
Record Settings := mk_settings {
  st_config : Config;
  st_trusted : list CidrRange;
  st_ttl : Z;
  st_negative : Z;
  st_breaker : option CircuitBreakerConfig;
}.

Definition settings_of (s : AdminState) : Settings :=
  mk_settings (config s) (s_trusted_proxies s) (DnsCache.default_ttl_secs (dns_cache s)) (DnsCache.negative_ttl_secs (dns_cache s))
    (rt_cb_config (route_table (s_route_table s))).

Definition set_store (x : Settings) (st : Store) : Settings :=
  match st with
  | StoreTtl d n => mk_settings (st_config x) (st_trusted x) d n (st_breaker x)
  | StoreConfig c => mk_settings c (st_trusted x) (st_ttl x) (st_negative x) (st_breaker x)
  | StoreTrusted l => mk_settings (st_config x) l (st_ttl x) (st_negative x) (st_breaker x)
  | StoreBreaker cb => mk_settings (st_config x) (st_trusted x) (st_ttl x) (st_negative x) cb
  end.

Lemma perform_settings now inflight s st : settings_of (perform now inflight s st) = set_store (settings_of s) st.
Proof.
  destruct st as [d n|c|l|cb]; cbn; try done.
  - unfold settings_of. cbn. by destruct (set_ttl_set d n (dns_cache s)) as [-> ->].
  - pose proof (managed_apply_config now inflight (OpReconfigure cb) (s_route_table s) (cells s)) as E. cbn in E.
    destruct (reconfigure_circuit_breaker _ _ _ _ _) as [m h]. unfold settings_of. cbn in *. by rewrite E.
Qed.

Definition agreed (x : Settings) : Prop :=
  validate (st_config x) = None /\ st_trusted x = parse_trusted_proxies (trusted_proxies (proxy (st_config x)))
  /\ st_ttl x = dns_cache_ttl (proxy (st_config x)) /\ st_negative x = dns_negative_cache_ttl (proxy (st_config x))
  /\ st_breaker x = circuit_breaker_config_from_proxy (proxy (st_config x)).

Lemma in_force_agreed s : in_force s <-> agreed (settings_of s) /\ reachable (s_route_table s, cells s).
Proof.
  split.
  - intros [? ? [? ?] ? ?]. by split; [split_and!|].
  - intros [(? & ? & ? & ? & ?) ?]. by split.
Qed.

Lemma breaker_stores_agree x c :
  st_breaker x = circuit_breaker_config_from_proxy (proxy (st_config x)) ->
  st_breaker (fold_left set_store (breaker_stores (circuit_breaker_config_from_proxy (proxy (st_config x))) (circuit_breaker_config_from_proxy (proxy c))) x)
  = circuit_breaker_config_from_proxy (proxy c).
Proof. intros E. unfold breaker_stores. destruct (decide _) as [E'|]; [by rewrite <- E'|done]. Qed.

(** ** The system *)

(** The state of the handlers (Runtime.v), what a handler that runs has yet
    to store, the clock and the counters of the metrics. *)
Record System := mk_system { sys_admin : AdminState; sys_pending : list Store; sys_now_ns : Z; sys_counters : ProxyCounters }.

(** The fields of the configuration the request path reads. *)
Definition options_of (p : ProxyConfig) : ProxyOptions :=
  mk_options (Config.matcher p) (Config.strategy p) (Config.circuit_breaker_enabled p) (Config.no_route_status p)
    (Config.rate_limit_per_target p) (Config.rate_limit_burst p) (Config.max_connections p).

Definition table_of (s : System) : Table := published (s_route_table (sys_admin s)).
Definition registry_of (s : System) : RouteRegistry := Registry.registry (s_route_table (sys_admin s)).

Definition view (s : System) : ProxyState :=
  mk_proxy (table_of s) (cells (sys_admin s)) (options_of (proxy (config (sys_admin s)))) (dns_cache (sys_admin s)) (sys_now_ns s) (sys_counters s).

(** What an access of the request path leaves in the system. *)
Definition set_admin (a : AdminState) (s : System) : System := mk_system a (sys_pending s) (sys_now_ns s) (sys_counters s).

Definition write_back (p : ProxyState) (s : System) : System :=
  let a := sys_admin s in
  mk_system (mk_admin (config a) (startup_config a) (s_trusted_proxies a) (px_dns p) (s_route_table a) (px_heap p))
    (sys_pending s) (sys_now_ns s) (px_counters p).

(** What came of a request (each selection made for it, the last one being
    what it ended on) or a connection. *)
Inductive Answer :=
  | HttpAnswer (selections : list Selection)
  | TcpAnswer (o : TcpOutcome).

Definition serve (w : Work) : P Answer :=
  match w with
  | HttpWork r => let! selections := serve_request r in Ret (HttpAnswer selections)
  | TcpWork mode c => let! o := serve_connection mode c in Ret (TcpAnswer o)
  end.

Definition worker (w : Work) : prog System Answer := zoom view write_back (serve w).

(** The rest of the system: a handler takes the lock and decides what to
    store, or makes its next store; the tasks that update the table, those that
    change cells such as the health checker (the counters of connections and
    of the round robins are the requests' own), uses of the DNS cache, the
    clock, and counters bumped elsewhere. *)
Inductive system_step : System -> System -> Prop :=
  | sys_update update stores a now ctr :
      update_stores update a = Ok stores -> system_step (mk_system a [] now ctr) (mk_system a stores now ctr)
  | sys_reset stores a now ctr : reset_stores a = Ok stores -> system_step (mk_system a [] now ctr) (mk_system a stores now ctr)
  | sys_store inflight st rest a now ctr :
      system_step (mk_system a (st :: rest) now ctr) (mk_system (perform now inflight a st) rest now ctr)
  | sys_routes inflight op s :
      is_reconfigure op = false ->
      system_step s (let a := sys_admin s in let mh := managed_apply (sys_now_ns s) inflight op (s_route_table a) (cells a) in
                     set_admin (mk_admin (config a) (startup_config a) (s_trusted_proxies a) (dns_cache a) mh.1 mh.2) s)
  | sys_cells h s :
      next_loc h = next_loc (cells (sys_admin s)) -> counters h = counters (cells (sys_admin s)) ->
      system_step s (let a := sys_admin s in
                     set_admin (mk_admin (config a) (startup_config a) (s_trusted_proxies a) (dns_cache a) (s_route_table a) h) s)
  | sys_dns op s :
      (forall x y, op <> DnsCache.OSetTtl x y) ->
      system_step s (let a := sys_admin s in
                     set_admin (mk_admin (config a) (startup_config a) (s_trusted_proxies a)
                                  (DnsCache.apply_op (sys_now_ns s / 1000000) op (dns_cache a)) (s_route_table a) (cells a)) s)
  | sys_clock a pending now now' ctr : now <= now' -> system_step (mk_system a pending now ctr) (mk_system a pending now' ctr)
  | sys_count a pending now ctr ctr' : system_step (mk_system a pending now ctr) (mk_system a pending now ctr').

(** What stays true from the start on a configuration [c]: when the handler
    that runs has made its stores everything agrees with the configuration;
    and at every moment the configuration is a valid one that differs from [c]
    only in what can change at run time, and the table is one of its history. *)
Record sound (c : Config) (s : System) : Prop := {
  so_agreed : agreed (fold_left set_store (sys_pending s) (settings_of (sys_admin s)));
  so_table : reachable (s_route_table (sys_admin s), cells (sys_admin s));
  so_startup : startup_config (sys_admin s) = c;
  so_valid : validate (config (sys_admin s)) = None;
  so_static : same_static (config (sys_admin s)) c;
  so_pending : Forall (fun st => match st with StoreConfig c' => validate c' = None /\ same_static c' c | _ => True end) (sys_pending s);
}.

Lemma Ok_inj {A E} (x y : A) : @Ok A E x = Ok y -> x = y.
Proof. congruence. Qed.

Lemma update_stores_agreed update a stores :
  update_stores update a = Ok stores -> agreed (settings_of a) ->
  agreed (fold_left set_store stores (settings_of a))
  /\ Forall (fun st => match st with StoreConfig c => validate c = None /\ same_static c (config a) | _ => True end) stores.
Proof.
  unfold update_stores. destruct (unsupported_runtime_updates update) eqn:Eu; [|done]. cbv zeta.
  set (temp := updated_config update (config a)). destruct (validate temp) eqn:Ev; [done|]. intros <-%Ok_inj (_ & Ht & _ & _ & Hb). split.
  - rewrite !fold_left_app. cbn [fold_left set_store].
    pose proof (breaker_stores_agree (settings_of a) temp Hb) as Hb'. cbn in Ht, Hb, Hb'. unfold breaker_stores in *. unfold agreed.
    assert (Htr : u_proxy update ≫= u_trusted_proxies = None -> s_trusted_proxies a = parse_trusted_proxies (trusted_proxies (proxy temp))).
    { intros Ei. rewrite Ht. unfold temp, updated_config. cbn. destruct (u_proxy update) as [u|]; [|done]. cbn in *. by rewrite Ei. }
    destruct (u_proxy update ≫= u_trusted_proxies), (decide _); cbn in *; split_and!; auto; congruence.
  - unfold breaker_stores. constructor; [done|]. constructor; [split; [done|by apply updated_static]|]. apply Forall_app. split.
    + destruct (u_proxy update ≫= u_trusted_proxies); repeat constructor.
    + destruct (decide _); repeat constructor.
Qed.

Lemma reset_stores_agreed a stores :
  reset_stores a = Ok stores -> agreed (settings_of a) ->
  agreed (fold_left set_store stores (settings_of a))
  /\ Forall (fun st => match st with StoreConfig c => validate c = None /\ c = startup_config a | _ => True end) stores.
Proof.
  unfold reset_stores. cbv zeta. destruct (validate (startup_config a)) eqn:Ev; [done|]. intros <-%Ok_inj (_ & Ht & _ & _ & Hb). split.
  - cbn [app fold_left set_store].
    pose proof (breaker_stores_agree (settings_of a) (startup_config a) Hb) as Hb'. cbn in Ht, Hb, Hb'. unfold breaker_stores in *. unfold agreed.
    destruct (decide _); cbn in *; split_and!; auto; congruence.
  - unfold breaker_stores. constructor; [done|]. constructor; [by split|]. constructor; [done|]. destruct (decide _); repeat constructor.
Qed.

Lemma perform_kept now inflight a st :
  reachable (s_route_table a, cells a) ->
  let a' := perform now inflight a st in
  reachable (s_route_table a', cells a') /\ startup_config a' = startup_config a
  /\ config a' = match st with StoreConfig c => c | _ => config a end.
Proof.
  intros Hr. destruct st as [d n|c|l|cb]; [by split_and!..|]. pose proof (reachable_apply now inflight (OpReconfigure cb) _ _ Hr) as Hr'.
  cbn in Hr' |- *. by destruct (reconfigure_circuit_breaker _ _ _ _ _) as [m h].
Qed.

(** Steps of the other tasks change no setting. *)
Lemma other_step_sound c s a' :
  settings_of a' = settings_of (sys_admin s) -> startup_config a' = startup_config (sys_admin s) ->
  reachable (s_route_table a', cells a') -> sound c s -> sound c (set_admin a' s).
Proof.
  intros Es Eu Hr []. assert (Ec : config a' = config (sys_admin s)) by exact (f_equal st_config Es).
  split; cbn; rewrite ?Es, ?Eu, ?Ec; done.
Qed.

Lemma cells_reachable m h h' : next_loc h' = next_loc h -> reachable (m, h) -> reachable (m, h').
Proof. intros Hn (s0 & H0 & Hs). exists s0. split; [done|]. eapply rtc_r; [done|by constructor]. Qed.

Lemma system_step_sound c s s' : validate c = None -> system_step s s' -> sound c s -> sound c s'.
Proof.
  intros Hv Hstep Hs. destruct Hstep as [update stores a now ctr Hu|stores a now ctr Hu|inflight st rest a now ctr|inflight op s Hop|h s Hn Hcnt|op s Hop|a pd now now' ctr Hn|a pd now ctr ctr'].
  - destruct Hs as [Ha Ht Es Hval Hst _]. cbn in *. destruct (update_stores_agreed _ _ _ Hu Ha) as [Ha' Hf].
    split; cbn; try done. eapply Forall_impl; [exact Hf|]. intros [] Hc; try done. destruct Hc. split; [done|by eapply same_static_trans].
  - destruct Hs as [Ha Ht Es Hval Hst _]. cbn in *. destruct (reset_stores_agreed _ _ Hu Ha) as [Ha' Hf].
    split; cbn; try done. eapply Forall_impl; [exact Hf|]. intros [] Hc; try done. destruct Hc as [? ->]. split; [done|]. rewrite Es. by split.
  - destruct Hs as [Ha Ht Es Hval Hst Hp]. cbn in *. apply Forall_cons in Hp as [Hc Hp]. destruct (perform_kept now inflight a st Ht) as (Hr & E & Ec).
    split; cbn; [by rewrite perform_settings|done|by rewrite E| | |done]; rewrite Ec; destruct st; try done; apply Hc.
  - apply other_step_sound; [|done| |done]; cbn.
    + unfold settings_of. cbn. rewrite managed_apply_config. by destruct op.
    + rewrite <- surjective_pairing. by apply reachable_apply, Hs.
  - apply other_step_sound; [done|done| |done]. cbn. by apply (cells_reachable _ (cells (sys_admin s))), Hs.
  - apply other_step_sound; [|done|apply Hs|done]. unfold settings_of. cbn.
    by destruct (DnsCache.dns_ops_keep_ttl (sys_now_ns s / 1000000) op (dns_cache (sys_admin s)) Hop) as [-> ->].
  - destruct Hs. by split.
  - destruct Hs. by split.
Qed.

Lemma write_back_sound c s p : request_effect (view s) p -> sound c s -> sound c (write_back p s).
Proof.
  intros [_ _ _ Hn Hd Hg] []. cbn in Hn, Hd, Hg. split; cbn; try done.
  - unfold settings_of. cbn. rewrite Hd, Hg. done.
  - by apply (cells_reachable _ (cells (sys_admin s))).
Qed.

Lemma serve_within w : within request_effect (serve w).
Proof.
  destruct w as [r|mode c]; (apply within_bind; [|done]); [apply within_request|apply within_connection].
Qed.

Lemma worker_safe c w : safe (sound c) (fun _ => True) (worker w).
Proof.
  apply (within_safe (fun s s' => sound c s -> sound c s')); [auto|].
  eapply within_zoom; [|apply serve_within]. intros s p. apply write_back_sound.
Qed.

Definition started (a : AdminState) (now : Z) (ctr : ProxyCounters) : System := mk_system a [] now ctr.

Lemma started_sound c a now ctr : start_balancer c = Ok a -> sound c (started a now ctr) /\ validate c = None.
Proof.
  intros (Hi & E & E' & Hv)%started_in_force. split; [|done]. pose proof Hi as [Ha Hr]%in_force_agreed.
  split; cbn; [done|done|done|by apply if_valid|rewrite E'; by split|constructor].
Qed.

(** A run of the balancer: its requests and connections, and the rest. *)
Definition steps : System * list (prog System Answer) -> System * list (prog System Answer) -> Prop :=
  clos_refl_trans_1n _ (pool_step system_step).

Lemma steps_sound c s0 works c' :
  validate c = None -> sound c s0 -> steps (s0, map worker works) c' -> sound c c'.1.
Proof.
  intros Hv Hs Hsteps. apply (pool_invariant (sound c) (fun _ => True) system_step (s0, map worker works) c'); [|done|].
  - intros s s' Hstep. by apply system_step_sound.
  - split; [done|]. cbn. apply Forall_fmap, Forall_true. intros w. apply worker_safe.
Qed.

(** The moments of a run. *)
Definition moment (s0 : System) (works : list Work) (c' : System * list (prog System Answer)) : System -> Prop :=
  visited system_step (s0, map worker works) c'.

Lemma moment_sound c s0 works c' s : validate c = None -> sound c s0 -> moment s0 works c' s -> sound c s.
Proof. intros Hv Hs (ps & Hsteps & _). by apply (steps_sound c s0 works (s, ps)). Qed.

(** ** Where an answer comes from *)

(** At the moment [st] the published table has the route with the target, and
    the target was made from a definition of its source that is then in the
    registry; the address is one that definition allows. *)
Definition allowed (def : RouteDef) (ip : IpAddr) : Prop :=
  def_opts def !! "ssrfskipverify" = Some "true"
  \/ (is_ip_always_blocked ip = false /\ (is_ip_rfc1918 ip = true -> def_source def = ConsulKv \/ def_source def = ConsulService)).

Record served_by (st : System) (route : Route) (t : Target) (def : RouteDef) : Prop := {
  sb_route : route ∈ routes_of (table_of st) (host route);
  sb_target : t ∈ targets route \/ t ∈ w_targets route;
  sb_made : made_from (registry_of st) (host route) (path route) t def;
}.

(** A request answered by a peer: at some moments of the run the configuration
    had the matcher and the table the route that matched under it, the headers
    satisfied the target's constraints, and the probes had the target healthy. *)
Definition request_routed (W : System -> Prop) (r : RequestRun) (t : Target) (def : RouteDef) : Prop :=
  (exists sh, W sh /\ is_probe_healthy (get_tracker (health_tracker t) (cells (sys_admin sh))) = true)
  /\ exists sc st route,
       W sc /\ W st /\ served_by st route t def
       /\ (host route = to_ascii_lowercase (run_host r) \/ host route = "")
       /\ path_matches (from_config (Config.matcher (proxy (config (sys_admin sc))))) (run_path r) route = true
       /\ (any_header_constraint route = true -> matches_headers (run_headers r) t = true).

Definition request_refused (W : System -> Prop) (r : RequestRun) (code : Z) : Prop :=
  code = 503 \/ code = 429
  \/ exists sc st, W sc /\ W st /\ code = Config.no_route_status (proxy (config (sys_admin sc)))
       /\ matching_routes (table_of st) (run_host r) (run_path r) (from_config (Config.matcher (proxy (config (sys_admin sc))))) = [].

Definition selection_ok (W : System -> Prop) (r : RequestRun) (sel : Selection) : Prop :=
  match sel with
  | (Some t, Ok peer) =>
      exists def, request_routed W r t def /\ allowed def (sock_ip (peer_addr peer))
        /\ peer_tls peer = upstream_tls t /\ peer_host peer = upstream_host t
  | (Some t, Err e) => (exists def, request_routed W r t def) /\ (e = HTTPStatus 403 \/ e = ConnectNoRoute)
  | (None, Err e) => exists code, e = HTTPStatus code /\ request_refused W r code
  | (None, Ok _) => False
  end.

Definition answer_ok (W : System -> Prop) (w : Work) (a : Answer) : Prop :=
  match w, a with
  | HttpWork r, HttpAnswer selections => selections <> [] /\ Forall (selection_ok W r) selections
  | TcpWork mode c, TcpAnswer o =>
      relay_ok c o
      /\ match o with
         | Relayed t addr _ _ _ =>
             cn_connect c addr = true
             /\ exists st route def, W st /\ tcp_route mode c (table_of st) route /\ served_by st route t def /\ allowed def (sock_ip addr)
         | FellBack addr _ _ => mode = HttpsFallback addr
         | _ => True
         end
  | _, _ => False
  end.

Lemma matching_route_key t hst p m r :
  r ∈ matching_routes t hst p m ->
  path_matches m p r = true /\ exists key, (key = to_ascii_lowercase hst \/ key = "") /\ r ∈ routes_of t key.
Proof.
  unfold matching_routes, collect_matching_routes, routes_of.
  assert (Hf : forall rs, r ∈ List.filter (selects m p) rs -> r ∈ rs /\ path_matches m p r = true).
  { intros rs. rewrite list_elem_of_In, filter_In, <- list_elem_of_In. by intros [? [? _]%andb_true_iff]. }
  intros Hr. assert (Hin : exists key, (key = to_ascii_lowercase hst \/ key = "") /\ r ∈ List.filter (selects m p) (default [] (routes t !! key))).
  { destruct (negb (is_empty (to_ascii_lowercase hst))), (routes t !! to_ascii_lowercase hst) as [rs|] eqn:E1,
      (routes t !! "") as [rs'|] eqn:E2; cbn [app] in Hr; rewrite ?elem_of_app in Hr.
    all: repeat match goal with H : _ \/ _ |- _ => destruct H as [H|H] end; try (by apply elem_of_nil in Hr);
      first [exists (to_ascii_lowercase hst); rewrite E1; split; [by left|exact Hr]|exists ""; rewrite E2; split; [by right|exact Hr]]. }
  destruct Hin as (key & Hk & [Hin Hm]%Hf). split; [done|]. by exists key.
Qed.

Lemma allowed_by_target t def reg hst pth ip : made_from reg hst pth t def -> sources_marked reg -> ssrf_policy t ip -> allowed def ip.
Proof.
  intros Hm Hs. pose proof (Hs (source t)) as Hsrc. rewrite Forall_forall in Hsrc. specialize (Hsrc _ (mf_def _ _ _ _ _ Hm)).
  unfold ssrf_policy, allowed. by rewrite (mf_opts _ _ _ _ _ Hm), Hsrc.
Qed.

(** A route of the table at a sound moment, and one of its targets. *)
Lemma route_served c st key route t :
  sound c st -> route ∈ routes_of (table_of st) key -> t ∈ targets route \/ t ∈ w_targets route ->
  host route = key /\ exists def, served_by st route t def /\ forall ip, ssrf_policy t ip -> allowed def ip.
Proof.
  intros Hs Hr Ht. destruct (published_target_source _ _ _ _ _ (so_table _ _ Hs) Hr Ht) as [Hh [def Hd]]. split; [done|].
  exists def. split; [split; [by rewrite Hh|done|done]|]. intros ip. eapply allowed_by_target; [exact Hd|].
  apply (reachable_marked _ (so_table _ _ Hs)).
Qed.

(** The moments [V] of the view are those of the system. *)
Definition seen_in (W : System -> Prop) (V : ProxyState -> Prop) : Prop := forall p, V p -> exists s, W s /\ view s = p.

Lemma offered_routed c W V r a t :
  (forall s, W s -> sound c s) -> seen_in W V -> offered V (request_of r a) t ->
  exists def, request_routed W r t def /\ forall ip, ssrf_policy t ip -> allowed def ip.
Proof.
  intros Hw Hv [(ph & Hph & Hh) (pc & pt & route & Hpc & Hpt & Hm & Ht & Hhd)].
  destruct (Hv _ Hph) as (sh & Wh & <-), (Hv _ Hpc) as (sc & Wc & <-), (Hv _ Hpt) as (st & Wt & <-). cbn in Hh, Hm.
  apply matching_route_key in Hm as [Hp (key & Hk & Hr)]. destruct (route_served c st key route t (Hw _ Wt) Hr Ht) as [Hhost (def & Hd & Ha)].
  exists def. split; [|done]. split; [by exists sh|]. exists sc, st, route. rewrite Hhost. by split_and!.
Qed.

Lemma tcp_route_in mode c table route : tcp_route mode c table route -> exists key, route ∈ routes_of table key.
Proof.
  destruct mode; cbn.
  - intros (a & _ & H). by apply local_route_in in H.
  - intros (? & ? & name & _ & _ & _ & H). by apply sni_route_in in H.
  - intros (? & ? & name & _ & _ & _ & H). by apply sni_route_in in H.
Qed.

(** What [serve] answers, in the moments it reads. *)
Definition work_answer (w : Work) (V : ProxyState -> Prop) (a : Answer) : Prop :=
  match w, a with
  | HttpWork r, HttpAnswer selections => http_answers r V selections
  | TcpWork mode c, TcpAnswer o => tcp_answer mode c V o
  | _, _ => False
  end.

Lemma traced_serve V w : traced (work_answer w) V (serve w).
Proof.
  destruct w as [r|mode c].
  - eapply traced_bind; [apply traced_request|]. by intros V' selections Hx.
  - eapply traced_bind; [apply traced_connection|]. by intros V' o Ho.
Qed.

Lemma selection_answered c W V r a sel :
  (forall s, W s -> sound c s) -> seen_in W V -> http_answer (request_of r a) V sel -> selection_ok W r sel.
Proof.
  intros Hw Hv. destruct sel as [[t|] [peer|e]]; cbn; try done.
  - intros (Ho & Hip & Hrest). destruct (offered_routed c W V _ _ t Hw Hv Ho) as (def & Hr & Ha). exists def. split_and!; [done|by apply Ha|apply Hrest..].
  - intros [Ho He]. destruct (offered_routed c W V _ _ t Hw Hv Ho) as (def & Hr & _). split; [by exists def|done].
  - intros (code & -> & Hr). exists code. split; [done|]. destruct Hr as [Hr|[Hr|(pc & pt & Hpc & Hpt & Hcode & Hm)]]; [by left|right; by left|].
    destruct (Hv _ Hpc) as (sc & Wc & <-), (Hv _ Hpt) as (st & Wt & <-). right; right. by exists sc, st.
Qed.

Lemma work_answer_ok c W V w a :
  (forall s, W s -> sound c s) -> seen_in W V -> work_answer w V a -> answer_ok W w a.
Proof.
  intros Hw Hv. destruct w as [r|mode cn], a as [selections|o]; cbn; try done.
  - intros [Hne Hall]. split; [done|]. eapply Forall_impl; [exact Hall|]. intros sel. by eapply selection_answered.
  - intros [Hok Ho]. split; [done|]. destruct o as [|t addr header initial rest| |]; try done.
    destruct Ho as (Hc & pt & route & Hpt & Hr & Ht). destruct (Hv _ Hpt) as (st & Wt & <-). split; [done|].
    destruct (tcp_route_in _ _ _ _ Hr) as [key Hk]. destruct (route_served c st key route t (Hw _ Wt) Hk Ht) as [_ (def & Hd & Ha)].
    exists st, route, def. split_and!; try done. apply Ha. by apply Hok.
Qed.

(** C1: The balancer as a whole answers as its routes say. From the start on a
    configuration, let any requests and connections be served while the
    configuration is changed (one store of a handler at a time), the routing
    table is updated from its sources, targets are probed and time passes, in
    any interleaving. Then at every moment the configuration is valid and
    differs from the initial one only where it may, and everything in force
    agrees with it whenever no handler is at work; and a request (in each of
    the attempts made for it) or connection that gets an upstream gets it for
    a target that, at some moment of this
    very run, a route of the published table that matches it had, whose header
    constraints it satisfies and (for requests) that the probes had healthy,
    made from an [add] definition then in the registry of its source, for the
    route's host and path; the address is one that definition allows; and a
    request is refused without a target only by the admission or because at
    some moment no route matched. *)
Theorem answers_follow_the_routes c a now ctr works c' :
  start_balancer c = Ok a -> steps (started a now ctr, map worker works) c' ->
  (forall s, moment (started a now ctr) works c' s ->
     validate (config (sys_admin s)) = None /\ same_static (config (sys_admin s)) c
     /\ (sys_pending s = [] -> in_force (sys_admin s)))
  /\ forall i w answer, works !! i = Some w -> c'.2 !! i = Some (Ret answer) ->
       answer_ok (moment (started a now ctr) works c') w answer.
Proof.
  intros [Hs Hv]%(started_sound c a now ctr) Hsteps.
  assert (Hw : forall s, moment (started a now ctr) works c' s -> sound c s) by (intros s; by apply moment_sound).
  split.
  - intros s [Ha Ht _ Hval Hst _]%Hw. split_and!; [done|done|]. intros Hp. rewrite Hp in Ha. by apply in_force_agreed.
  - intros i w answer Hi Hans.
    pose proof (pool_traced system_step (fun _ => False)
      (map (fun w W a => exists V, seen_in W V /\ work_answer w V a) works) _ _ Hsteps) as Hp. cbn in Hp.
    assert (Hall : Forall2 (fun Q m => exists W : System -> Prop, (forall x, W x -> False) /\ traced Q W m)
                     (map (fun w W a => exists V, seen_in W V /\ work_answer w V a) works) (map worker works)).
    { apply Forall2_fmap, Forall_Forall2_diag, Forall_true. intros w'. exists (fun _ => False). split; [done|].
      apply (traced_zoom _ _ _ (fun _ => False)); [apply traced_serve|done]. }
    apply Hp in Hall. rewrite Forall2_lookup in Hall. specialize (Hall i). rewrite Hans, list_lookup_fmap, Hi in Hall.
    cbn in Hall. inversion Hall as [? ? Hq|]; subst.
    destruct Hq as (W & HW & V & HV & Ha). cbn in Ha. eapply work_answer_ok; [exact Hw| |exact Ha].
    intros p Hp'. destruct (HV p Hp') as (s & Hs' & <-). exists s. split; [|done]. by destruct (HW s Hs').
Qed.

(** ** Slots across the rebuilds of the table *)

Section slots.
Context (c : Config) (l : loc) (max : Z) (Hmax : 0 < max < 2 ^ 64) (Hc : validate c = None).

(** [l] is a cell in use, and counts the slots held. *)
Definition counted (s : System) (n : nat) : Prop :=
  slots_state l max (view s) n /\ (sound c s /\ (l < next_loc (cells (sys_admin s)))%positive).

(** Steps of the rest of the system that leave the limit as it is. *)
Definition same_limit_step (s s' : System) : Prop :=
  system_step s s' /\ Config.max_connections (proxy (config (sys_admin s'))) = Config.max_connections (proxy (config (sys_admin s))).

(** An operation of the table neither moves [l] nor gives it to a route. *)
Lemma managed_apply_slots now inflight op m h :
  reachable (m, h) -> (l < next_loc h)%positive -> rr_apart l (published m) ->
  let mh := managed_apply now inflight op m h in
  get_counter l mh.2 = get_counter l h /\ rr_apart l (published mh.1) /\ (l < next_loc mh.2)%positive.
Proof.
  intros Hr Hl Hap. pose proof (mi_registry _ (managed_inv_reachable _ Hr)) as Hreg. cbn in Hreg.
  pose proof (managed_apply_spec now inflight op m h Hreg) as Ha. pose proof (managed_apply_apart now inflight op m h Hreg) as Hrr.
  destruct (managed_apply now inflight op m h) as [m' h']. destruct Ha as ([_ _ _ Hext _ _] & _). cbn. split_and!.
  - by apply (heap_ext_values _ _ _ Hext Hl).
  - intros key r Hin E. apply rr_in_routes in Hin. apply Hrr in Hin as [[Hb _] _]. rewrite E in Hb. lia.
  - apply heap_ext_next in Hext. lia.
Qed.

Lemma perform_slots now inflight a st :
  reachable (s_route_table a, cells a) -> (l < next_loc (cells a))%positive -> rr_apart l (published (s_route_table a)) ->
  let a' := perform now inflight a st in
  get_counter l (cells a') = get_counter l (cells a) /\ rr_apart l (published (s_route_table a')) /\ (l < next_loc (cells a'))%positive.
Proof.
  intros Hr Hl Hap. destruct st as [d n|c'|ranges|cb]; [by split_and!..|].
  pose proof (managed_apply_slots now inflight (OpReconfigure cb) _ _ Hr Hl Hap) as Hm. cbn in Hm |- *.
  by destruct (reconfigure_circuit_breaker _ _ _ _ _) as [m h].
Qed.

Lemma same_limit_counted s s' n : same_limit_step s s' -> counted s n -> counted s' n.
Proof.
  intros [Hstep Hlim] [[Hs Hm Hap] [Hsnd Hl]]. pose proof (system_step_sound c _ _ Hc Hstep Hsnd) as Hsnd'.
  assert (Hgo : get_counter l (cells (sys_admin s')) = get_counter l (cells (sys_admin s))
                /\ rr_apart l (table_of s') /\ (l < next_loc (cells (sys_admin s')))%positive).
  { destruct Hstep as [update stores a now ctr Hu|stores a now ctr Hu|inflight st rest a now ctr|inflight op s Hop|h s Hn Hcnt|op s Hop|a pd now now' ctr Hn|a pd now ctr ctr'];
      try by split_and!.
    - exact (perform_slots now inflight a st (so_table _ _ Hsnd) Hl Hap).
    - exact (managed_apply_slots _ inflight op _ _ (so_table _ _ Hsnd) Hl Hap).
    - cbn. split_and!; [|done|by rewrite Hn]. unfold get_counter. by rewrite Hcnt. }
  destruct Hgo as (Ec & Hap' & Hl'). split; [|by split]. cbn in Hm. split; cbn; [by rewrite Ec|congruence|done].
Qed.

(** The slots of [l] that what was served took and did not give back: those
    of a retried request but for the last target it picked. *)
Definition lost_by (a : Answer) : nat := match a with HttpAnswer selections => lost_slots l selections | TcpAnswer _ => 0%nat end.

Lemma worker_tok w : safe_tok counted (fun a n => n = lost_by a) (worker w) 0.
Proof.
  apply (safe_tok_within (fun s n => slots_state l max (view s) n) _
           (fun s s' => (sound c s -> sound c s') /\ next_loc (cells (sys_admin s')) = next_loc (cells (sys_admin s)))).
  - intros s s' [Hs En] [? ?]. rewrite En. auto.
  - eapply within_zoom; [|apply serve_within]. intros s p He. split; [by apply write_back_sound|apply He].
  - apply (safe_tok_zoom view write_back _ (slots_state l max)); [done| |].
    + intros s n p n' [_ Hm Hap] [Hp _ _]. by split.
    + destruct w as [r|mode cn].
      * eapply safe_tok_bind; [by apply serve_tok|]. by intros x n ->.
      * eapply safe_tok_bind; [by apply serve_connection_tok|]. by intros x n ->.
Qed.

Lemma all_done answers ns : Forall2 (safe_tok counted (fun a n => n = lost_by a)) (map Ret answers) ns -> ns = map lost_by answers.
Proof.
  revert ns. induction answers as [|a answers IH]; intros ns Hall; inversion Hall as [|? n ? ms Hn Hms]; subst; [done|].
  cbn in Hn |- *. rewrite Hn. f_equal. by apply IH.
Qed.
End slots.

(** No attempt of the request that picked a target was followed by another
    that did. *)
Definition picked_once (a : Answer) : Prop := match a with HttpAnswer selections => (List.length (picked_targets selections) <= 1)%nat | TcpAnswer _ => True end.

Lemma picked_once_loses_none l answers : Forall picked_once answers -> sum_list (map (lost_by l) answers) = 0%nat.
Proof.
  induction 1 as [|a answers Ha _ IH]; [done|]. change (lost_by l a + sum_list (map (lost_by l) answers) = 0)%nat. rewrite IH, Nat.add_0_r.
  destruct a as [selections|o]; [|done]. unfold lost_by, lost_slots. cbn in Ha. destruct (picked_targets selections) as [|t [|u ts]]; [done..|cbn in Ha; lia].
Qed.

Lemma published_counter_apart m h k p tg :
  reachable (m, h) -> tg ∈ contents (routes (published m)) k p ->
  rr_apart (active_connections tg) (published m) /\ (active_connections tg < next_loc h)%positive.
Proof.
  intros Hr Htg. destruct (managed_inv_reachable _ Hr) as [Hreg Hcells _]. cbn in Hreg, Hcells.
  pose proof (reg_connections _ _ _ _ (Hcells _ _ _ Htg)) as Hc.
  assert (Hin : registered (rt_stats_registry (route_table m)) (active_connections tg)) by (by exists (url tg)).
  split; [|by apply (registered_bound _ _ _ Hreg)]. intros key r Hkr%rr_in_routes E. rewrite E in Hkr. by apply (reachable_apart m h Hr) in Hkr as [_ Hx].
Qed.

(** C5: The limit on the connections of a backend holds across the rebuilds of
    the table. Take a running balancer and a target of its published table
    whose connection counter is zero. Whatever requests (tried again by the
    framework after failed exchanges or not) and connections are served from
    then on, while the table is rebuilt from new definitions (the target
    staying, leaving or coming back), breakers are reconfigured and all else
    goes on, as long as the limit itself is not changed: the counter stays
    between zero and [max_connections]; and when all are done it counts exactly
    the slots that retried requests lost, one for each time a request picked
    the backend and then picked again, so that it is back to zero when no
    request picked twice. *)
Theorem slots_across_rebuilds c a now ctr before s ps k p tg works s' ps' :
  start_balancer c = Ok a -> steps (started a now ctr, map worker before) (s, ps) ->
  let max := Config.max_connections (proxy (config (sys_admin s))) in
  let l := active_connections tg in
  tg ∈ contents (routes (table_of s)) k p -> get_counter l (cells (sys_admin s)) = 0 -> 0 < max < 2 ^ 64 ->
  clos_refl_trans_1n _ (pool_step same_limit_step) (s, map worker works) (s', ps') ->
  0 <= get_counter l (cells (sys_admin s')) <= max
  /\ forall answers, ps' = map Ret answers ->
       get_counter l (cells (sys_admin s')) = Z.of_nat (sum_list (map (lost_by l) answers))
       /\ (Forall picked_once answers -> get_counter l (cells (sys_admin s')) = 0).
Proof.
  intros [Hs Hv]%(started_sound c a now ctr) Hbefore max l Htg Hzero Hmax Hsteps.
  pose proof (steps_sound c _ before (s, ps) Hv Hs Hbefore) as Hsnd. cbn in Hsnd.
  destruct (published_counter_apart _ _ _ _ _ (so_table _ _ Hsnd) Htg) as [Hap Hl].
  destruct (pool_tokens (counted c l max) (fun a n => n = lost_by l a) same_limit_step _ _ (repeat 0%nat (List.length works))
    (fun s s' n => same_limit_counted c l max Hv s s' n) Hsteps) as (ns & [[[Hn Hle] _ _] _] & Hps).
  - cbn [fst]. split; [|by split]. split; [|done|done]. cbn [view px_heap]. fold l in Hzero. rewrite Hzero.
    split; [|lia]. clear. induction works as [|w ws IH]; cbn; [done|]. by rewrite <- IH.
  - cbn [snd]. clear Hsteps. induction works as [|w ws IH]; cbn; [constructor|]. constructor; [by apply worker_tok|done].
  - cbn [fst snd view px_heap] in Hn, Hle, Hps. split; [lia|]. intros answers ->. apply all_done in Hps as ->. split; [done|].
    intros Honce. by rewrite Hn, picked_once_loses_none.
Qed.
End balancer.

(** ** A concrete run *)

#[local] Existing Instances Runtime.any_header Runtime.no_glob Runtime.list_order DnsCache.sort_select.

(** A parser that knows one URL. *)
#[local] Instance one_url : UrlParser :=
  fun u => if String.eqb u "http://1.1.1.1:80/" then Some (mk_url "http" (Some "1.1.1.1") (Some 80) (Some 80)) else None.

Definition demo_def : RouteDef := mk_def Routes.Add "web" "ex.com/" "http://1.1.1.1:80/" f64_zero [] ∅ Routes.Static.
Definition no_counters : ProxyCounters := mk_counters 0 0 0 0 0 0.
Definition demo_addr : SocketAddr := mk_sock (V4 (mk_v4 1 1 1 1)) 80.
Definition demo_attempt (ex : Exchange) : Attempt := mk_attempt 2 (fun _ => false) (fun _ _ => 0%nat) (fun _ => Ok [demo_addr]) (fun _ => ex).
(** The first exchange fails and the request is tried again. *)
Definition demo_request : RequestRun :=
  mk_run "EX.com" "/x" (fun _ => None) (demo_attempt (mk_exchange 0 (Some OtherError) true 0)) [demo_attempt (mk_exchange 200 None false 7)].
Definition demo_work : Work := HttpWork demo_request.

(** The static source is loaded, then the request runs. *)
Definition demo_loaded : System :=
  let s := started demo_started 0 no_counters in
  let mh := managed_apply 0 ∅ (OpLoadStatic [demo_def]) (s_route_table demo_started) (cells demo_started) in
  set_admin (mk_admin (config demo_started) (startup_config demo_started) (s_trusted_proxies demo_started) (dns_cache demo_started) mh.1 mh.2) s.
Definition demo_end : System * Answer := run (worker demo_work) demo_loaded.

Lemma demo_step : system_step (started demo_started 0 no_counters) demo_loaded.
Proof. exact (sys_routes ∅ (OpLoadStatic [demo_def]) (started demo_started 0 no_counters) eq_refl). Qed.

Lemma demo_steps : steps (started demo_started 0 no_counters, map worker [demo_work]) (demo_end.1, [Ret demo_end.2]).
Proof.
  refine (rt1n_trans _ _ _ _ _ (pool_env _ _ _ _ demo_step) _). exact (run_pool system_step (worker demo_work) demo_loaded).
Qed.

Definition peers_of (a : Answer) : list (string * Peer) :=
  match a with
  | HttpAnswer selections => omap (fun sel => match sel with (Some t, Ok peer) => Some (url t, peer) | _ => None end) selections
  | TcpAnswer _ => []
  end.

Lemma only_answer {A B} (x : A) (y : B) : ((x, [y]).2 : list B) !! 0%nat = Some y.
Proof. reflexivity. Qed.

Lemma answers_follow_the_routes_witness :
  peers_of demo_end.2 = repeat ("http://1.1.1.1:80/", mk_peer demo_addr false "1.1.1.1") 2
  /\ start_balancer demo_startup = Ok demo_started
  /\ answer_ok (moment (started demo_started 0 no_counters) [demo_work] (demo_end.1, [Ret demo_end.2])) demo_work demo_end.2.
Proof.
  split; [vm_compute; reflexivity|]. assert (Hst : start_balancer demo_startup = Ok demo_started) by (vm_compute; reflexivity).
  split; [exact Hst|].
  destruct (answers_follow_the_routes demo_startup demo_started 0 no_counters [demo_work] (demo_end.1, [Ret demo_end.2]) Hst demo_steps) as [_ Ha].
  exact (Ha 0%nat demo_work demo_end.2 (only_answer tt demo_work) (only_answer demo_end.1 (Ret demo_end.2))).
Defined.

(** The table is rebuilt with another source, then the request runs. *)
Definition demo_other : RouteDef := mk_def Routes.Add "other" "ex.com/y" "http://1.1.1.1:80/" f64_zero [] ∅ Routes.Static.
Definition demo_rebuilt : System :=
  let a := sys_admin demo_loaded in
  let mh := managed_apply (sys_now_ns demo_loaded) ∅ (OpUpdateKv [demo_other]) (s_route_table a) (cells a) in
  set_admin (mk_admin (config a) (startup_config a) (s_trusted_proxies a) (dns_cache a) mh.1 mh.2) demo_loaded.
Definition demo_rebuilt_end : System * Answer := run (worker demo_work) demo_rebuilt.

Definition demo_published : Target := target_at (s_route_table (sys_admin demo_loaded), cells (sys_admin demo_loaded)) "ex.com" "/".

Lemma demo_rebuild : same_limit_step demo_loaded demo_rebuilt.
Proof. split; [exact (sys_routes ∅ (OpUpdateKv [demo_other]) demo_loaded eq_refl)|vm_compute; reflexivity]. Qed.

Lemma demo_rebuilt_steps :
  clos_refl_trans_1n _ (pool_step same_limit_step) (demo_loaded, map worker [demo_work]) (demo_rebuilt_end.1, [Ret demo_rebuilt_end.2]).
Proof.
  refine (rt1n_trans _ _ _ _ _ (pool_env _ _ _ _ demo_rebuild) _). exact (run_pool same_limit_step (worker demo_work) demo_rebuilt).
Qed.

Lemma slots_across_rebuilds_witness :
  url demo_published = "http://1.1.1.1:80/"
  /\ map (fun s => requests_total (get_stats (target_stats_loc demo_published) (cells (sys_admin s)))) [demo_rebuilt; demo_rebuilt_end.1] = [0; 1]
  /\ get_counter (active_connections demo_published) (cells (sys_admin demo_rebuilt_end.1))
     = Z.of_nat (sum_list (map (lost_by (active_connections demo_published)) [demo_rebuilt_end.2]))
  /\ lost_by (active_connections demo_published) demo_rebuilt_end.2 = 1%nat.
Proof.
  split; [vm_compute; reflexivity|]. split; [vm_compute; reflexivity|].
  assert (Hst : start_balancer demo_startup = Ok demo_started) by (vm_compute; reflexivity).
  assert (Hl : steps (started demo_started 0 no_counters, map worker []) (demo_loaded, [])).
  { refine (rt1n_trans _ _ _ _ _ (pool_env _ _ _ _ demo_step) _). apply rt1n_refl. }
  assert (Hin : demo_published ∈ contents (routes (table_of demo_loaded)) "ex.com" "/").
  { exact (target_at_in (s_route_table (sys_admin demo_loaded), cells (sys_admin demo_loaded)) "ex.com" "/" ltac:(vm_compute; reflexivity)). }
  assert (Hm : Config.max_connections (proxy (config (sys_admin demo_loaded))) = 10000) by (vm_compute; reflexivity).
  assert (Hz : get_counter (active_connections demo_published) (cells (sys_admin demo_loaded)) = 0) by (vm_compute; reflexivity).
  pose proof (slots_across_rebuilds demo_startup demo_started 0 no_counters [] demo_loaded [] "ex.com" "/" demo_published [demo_work]
    demo_rebuilt_end.1 [Ret demo_rebuilt_end.2] Hst Hl Hin Hz) as Hs. cbv zeta in Hs. rewrite Hm in Hs.
  split; [|vm_compute; reflexivity]. exact (proj1 (proj2 (Hs ltac:(lia) demo_rebuilt_steps) [demo_rebuilt_end.2] eq_refl)).
Defined.
