(* ===== verification/Metrics.v ===== *)
(** * Metrics: the counters of the balancer and their exposition

    Models src/src/metrics/prometheus.rs. Every atomic of the struct is a
    [Counter]; the exposition is the list of its samples, in order (the
    comment lines between them are constant text). Reading the files of /proc
    is the operating system's: their contents are arguments. *)
From S2P Require Import Prelude RustStr StrFacts F64.
From Stdlib Require Import Ascii String.
Local Open Scope string_scope.
Local Open Scope Z_scope.
Local Open Scope rust_scope.

(** The atomics of [Metrics], the gauge [active_connections] being signed. *)
Inductive Counter :=
  | requests_total | requests_error_total | bytes_received_total | grpc_requests_total | grpc_web_requests_total
  | websocket_requests_total | cert_reload_total | cert_reload_errors_total | cert_reload_skipped_oversize_total
  | cert_reload_skipped_invalid_total | cert_reload_skipped_empty_total | route_reload_total_static | route_reload_total_kv
  | route_reload_total_service | consul_watcher_errors_total_services | consul_watcher_errors_total_kv
  | consul_watcher_errors_total_tls | consul_watcher_errors_total_client_ca | circuit_breaker_open_total
  | circuit_breaker_reopen_total | circuit_breaker_close_total | circuit_breaker_fastfail_total | dns_cache_hits_total
  | dns_cache_misses_total | dns_cache_negatives_total | rate_limit_rejected_total | health_check_probes_total
  | health_check_probe_failures_total | active_connections | route_count | target_count
  | consul_watcher_backoff_seconds_services | consul_watcher_backoff_seconds_kv | consul_watcher_backoff_seconds_tls
  | consul_watcher_backoff_seconds_client_ca | consul_watcher_last_index_services | consul_watcher_last_index_kv
  | consul_watcher_last_index_tls | consul_watcher_last_index_client_ca | cert_min_expiry_unix_seconds
  | latency_bucket_1ms | latency_bucket_5ms | latency_bucket_10ms | latency_bucket_25ms | latency_bucket_50ms
  | latency_bucket_100ms | latency_bucket_250ms | latency_bucket_500ms | latency_bucket_1s | latency_bucket_5s
  | latency_bucket_inf | latency_sum_us | status_2xx | status_3xx | status_4xx | status_5xx.

#[export] Instance Counter_eq_dec : EqDecision Counter.
Proof. solve_decision. Defined.

Record CertificateExpiryMetric := mk_expiry { entry : string; cn : string; not_after_unix : Z }.

Record Metrics := mk_metrics {
  load : Counter -> Z;
  cert_expiry_entries : list CertificateExpiryMetric;
}.
Definition metrics_new : Metrics := mk_metrics (fun _ => 0) [].

Definition store (c : Counter) (v : Z) (m : Metrics) : Metrics :=
  mk_metrics (fun c' => if decide (c' = c) then v else load m c') (cert_expiry_entries m).

(** [fetch_add] of an unsigned counter. *)
Definition fetch_add (c : Counter) (n : Z) (m : Metrics) : Metrics := store c (load m c +w n) m.
Definition bump (c : Counter) (m : Metrics) : Metrics := fetch_add c 1 m.

(** ** Recording *)

Definition latency_bucket (latency_us : Z) : Counter :=
  if latency_us <=? 1000 then latency_bucket_1ms
  else if latency_us <=? 5000 then latency_bucket_5ms
  else if latency_us <=? 10000 then latency_bucket_10ms
  else if latency_us <=? 25000 then latency_bucket_25ms
  else if latency_us <=? 50000 then latency_bucket_50ms
  else if latency_us <=? 100000 then latency_bucket_100ms
  else if latency_us <=? 250000 then latency_bucket_250ms
  else if latency_us <=? 500000 then latency_bucket_500ms
  else if latency_us <=? 1000000 then latency_bucket_1s
  else if latency_us <=? 5000000 then latency_bucket_5s
  else latency_bucket_inf.

Definition between (lo hi x : Z) : bool := (lo <=? x) && (x <=? hi).

Definition record_status (status : Z) (m : Metrics) : Metrics :=
  if between 200 299 status then bump status_2xx m
  else if between 300 399 status then bump status_3xx m
  else if between 400 499 status then bump requests_error_total (bump status_4xx m)
  else bump requests_error_total (bump status_5xx m).

Definition record_request (status latency_us : Z) (m : Metrics) : Metrics :=
  record_status status
    (bump (latency_bucket latency_us) (fetch_add latency_sum_us latency_us (bump requests_total m))).

Definition bump_if (b : bool) (c : Counter) (m : Metrics) : Metrics := if b then bump c m else m.

Definition record_protocol_request (grpc grpc_web websocket : bool) (m : Metrics) : Metrics :=
  bump_if websocket websocket_requests_total (bump_if grpc_web grpc_web_requests_total (bump_if grpc grpc_requests_total m)).

Definition record_cert_reload_success (m : Metrics) : Metrics := bump cert_reload_total m.
Definition record_cert_reload_error (m : Metrics) : Metrics := bump cert_reload_errors_total m.

Definition record_cert_reload_skipped (reason : string) (m : Metrics) : Metrics :=
  if String.eqb reason "oversize" then bump cert_reload_skipped_oversize_total m
  else if String.eqb reason "empty" then bump cert_reload_skipped_empty_total m
  else bump cert_reload_skipped_invalid_total m.

Definition record_route_reload (source : string) (m : Metrics) : Metrics :=
  if String.eqb source "static" then bump route_reload_total_static m
  else if String.eqb source "kv" then bump route_reload_total_kv m
  else if String.eqb source "service" then bump route_reload_total_service m
  else m.

(** The counter of a watcher, when the name is one of the four. *)
Definition watcher_counter (services kv tls client_ca : Counter) (watcher : string) : option Counter :=
  if String.eqb watcher "services" then Some services
  else if String.eqb watcher "kv" then Some kv
  else if String.eqb watcher "tls" then Some tls
  else if String.eqb watcher "client_ca" then Some client_ca
  else None.

Definition set_consul_watcher_backoff_seconds (watcher : string) (seconds : Z) (m : Metrics) : Metrics :=
  match watcher_counter consul_watcher_backoff_seconds_services consul_watcher_backoff_seconds_kv
          consul_watcher_backoff_seconds_tls consul_watcher_backoff_seconds_client_ca watcher with
  | Some c => store c seconds m
  | None => m
  end.

Definition set_consul_watcher_last_index (watcher : string) (index : Z) (m : Metrics) : Metrics :=
  match watcher_counter consul_watcher_last_index_services consul_watcher_last_index_kv consul_watcher_last_index_tls
          consul_watcher_last_index_client_ca watcher with
  | Some c => store c index m
  | None => m
  end.

Definition record_consul_watcher_error (watcher : string) (m : Metrics) : Metrics :=
  match watcher_counter consul_watcher_errors_total_services consul_watcher_errors_total_kv consul_watcher_errors_total_tls
          consul_watcher_errors_total_client_ca watcher with
  | Some c => bump c m
  | None => m
  end.

(** [Iterator::min] *)
Definition min_of (l : list Z) : option Z :=
  match l with [] => None | x :: l => Some (foldl Z.min x l) end.

Definition set_cert_expiry_entries (entries : list CertificateExpiryMetric) (m : Metrics) : Metrics :=
  let min_expiry := default 0 (min_of (map not_after_unix entries)) in
  mk_metrics (load (store cert_min_expiry_unix_seconds min_expiry m)) entries.

Definition connect (m : Metrics) : Metrics := store active_connections (wrap_i64 (load m active_connections + 1)) m.
Definition disconnect (m : Metrics) : Metrics := store active_connections (wrap_i64 (load m active_connections - 1)) m.
Definition record_bytes (upstream_response_bytes : Z) (m : Metrics) : Metrics :=
  fetch_add bytes_received_total upstream_response_bytes m.

(** ** The process *)

Record ProcessMetricsSnapshot := mk_process {
  available : bool;
  resident_memory_bytes : Z;
  virtual_memory_bytes : Z;
  open_fds : Z;
}.
Definition process_default : ProcessMetricsSnapshot := mk_process false 0 0 0.

(** [find_map] *)
Fixpoint find_map {A B} (f : A -> option B) (l : list A) : option B :=
  match l with [] => None | x :: l => match f x with Some y => Some y | None => find_map f l end end.

Definition parse_proc_status_value_bytes (status key : string) : option Z :=
  find_map (fun line =>
    rest ← strip_prefix key line;
    word ← hd_error (split_whitespace (trim rest));
    kb ← parse_u64 word;
    Some (kb *w 1024)) (lines status).

(** [status] and [fds]: what reading /proc/self/status and listing
    /proc/self/fd give, if they succeed. *)
Definition collect_process_metrics_uncached (status : option string) (fds : option Z) : ProcessMetricsSnapshot :=
  match status with
  | Some status =>
      mk_process true (default 0 (parse_proc_status_value_bytes status "VmRSS:"))
        (default 0 (parse_proc_status_value_bytes status "VmSize:")) (default 0 fds)
  | None => process_default
  end.

(** A value kept with the time, in nanoseconds, it was made at: the cached one
    while it is younger than [ttl], else a fresh one, which replaces it. *)
Definition cached_within {A} (ttl now : Z) (fresh : A) (cache : option (Z * A)) : option (Z * A) * A :=
  match cache with
  | Some (at_, v) => if now - at_ <? ttl then (cache, v) else (Some (now, fresh), fresh)
  | None => (Some (now, fresh), fresh)
  end.

Definition PROCESS_CACHE_TTL : Z := 5 * 1000000000.
Definition RENDER_CACHE_TTL : Z := 3 * 1000000000.

Definition collect_process_metrics_cached (now : Z) (status : option string) (fds : option Z)
    (cache : option (Z * ProcessMetricsSnapshot)) : option (Z * ProcessMetricsSnapshot) * ProcessMetricsSnapshot :=
  cached_within PROCESS_CACHE_TTL now (collect_process_metrics_uncached status fds) cache.

(** ** The exposition *)

Definition backslash : ascii := chr 92.
Definition dquote : ascii := chr 34.
Definition newline_char : ascii := chr 10.

Fixpoint escape_prometheus_label (s : string) : string :=
  match s with
  | "" => ""
  | String c s =>
      (if Ascii.eqb c backslash then String backslash (String backslash "")
       else if Ascii.eqb c dquote then String backslash (String dquote "")
       else if Ascii.eqb c newline_char then String backslash "n"
       else String c "") ++ escape_prometheus_label s
  end.

Inductive SampleValue := VInt (z : Z) | VFloat (x : f64).

(** A line of the exposition: a name, its labels and a value. *)
Record Sample := mk_sample { metric : string; labels : list (string * string); value : SampleValue }.

Definition sample (name : string) (v : Z) : Sample := mk_sample name [] (VInt v).
Definition labelled (name label : string) (l : list (string * Z)) : list Sample :=
  map (fun kv => mk_sample name [(label, kv.1)] (VInt kv.2)) l.

(** The text of a label in the exposition: its name and its quoted value. *)
Definition label_text (name value : string) : string := name ++ "=" ++ String dquote (value ++ String dquote "").

Definition cert_expiry_metrics (m : Metrics) : list Sample :=
  map (fun e => mk_sample "sentirum_lb_cert_expiry_unix_seconds"
                  [("entry", escape_prometheus_label (entry e)); ("cn", escape_prometheus_label (cn e))]
                  (VInt (not_after_unix e))) (cert_expiry_entries m).

(** The counts up to each bound, from those of the single buckets. *)
Fixpoint cumulate (m : Metrics) (acc : Z) (buckets : list (string * Counter)) : list (string * Z) :=
  match buckets with
  | [] => []
  | (le, c) :: buckets => let b := acc +w load m c in (le, b) :: cumulate m b buckets
  end.

Definition wider_buckets : list (string * Counter) :=
  [("0.005", latency_bucket_5ms); ("0.01", latency_bucket_10ms); ("0.025", latency_bucket_25ms); ("0.05", latency_bucket_50ms);
   ("0.1", latency_bucket_100ms); ("0.25", latency_bucket_250ms); ("0.5", latency_bucket_500ms); ("1", latency_bucket_1s);
   ("5", latency_bucket_5s); ("+Inf", latency_bucket_inf)].

Definition histogram (m : Metrics) : list (string * Z) :=
  let b_1ms := load m latency_bucket_1ms in ("0.001", b_1ms) :: cumulate m b_1ms wider_buckets.

Definition render_uncached (process : ProcessMetricsSnapshot) (m : Metrics) : list Sample :=
  let v := load m in
  ([ sample "sentirum_lb_requests_total" (v requests_total);
     sample "sentirum_lb_requests_error_total" (v requests_error_total);
     sample "sentirum_lb_active_connections" (v active_connections);
     sample "sentirum_lb_route_count" (v route_count);
     sample "sentirum_lb_target_count" (v target_count);
     sample "sentirum_lb_bytes_received_total" (v bytes_received_total);
     sample "sentirum_lb_grpc_requests_total" (v grpc_requests_total);
     sample "sentirum_lb_grpc_web_requests_total" (v grpc_web_requests_total);
     sample "sentirum_lb_websocket_requests_total" (v websocket_requests_total);
     sample "sentirum_lb_cert_reload_total" (v cert_reload_total);
     sample "sentirum_lb_cert_reload_errors_total" (v cert_reload_errors_total) ]
   ++ labelled "sentirum_lb_cert_reload_skipped_total" "reason"
        [("oversize", v cert_reload_skipped_oversize_total); ("invalid", v cert_reload_skipped_invalid_total);
         ("empty", v cert_reload_skipped_empty_total)]
   ++ labelled "sentirum_lb_route_reload_total" "source"
        [("static", v route_reload_total_static); ("kv", v route_reload_total_kv); ("service", v route_reload_total_service)]
   ++ labelled "sentirum_lb_circuit_breaker_transitions_total" "transition"
        [("open", v circuit_breaker_open_total); ("reopen", v circuit_breaker_reopen_total); ("close", v circuit_breaker_close_total)]
   ++ [sample "sentirum_lb_circuit_breaker_fastfail_total" (v circuit_breaker_fastfail_total)]
   ++ labelled "sentirum_lb_consul_watcher_backoff_seconds" "watcher"
        [("services", v consul_watcher_backoff_seconds_services); ("kv", v consul_watcher_backoff_seconds_kv);
         ("tls", v consul_watcher_backoff_seconds_tls); ("client_ca", v consul_watcher_backoff_seconds_client_ca)]
   ++ labelled "sentirum_lb_consul_watcher_last_index" "watcher"
        [("services", v consul_watcher_last_index_services); ("kv", v consul_watcher_last_index_kv);
         ("tls", v consul_watcher_last_index_tls); ("client_ca", v consul_watcher_last_index_client_ca)]
   ++ labelled "sentirum_lb_consul_watcher_errors_total" "watcher"
        [("services", v consul_watcher_errors_total_services); ("kv", v consul_watcher_errors_total_kv);
         ("tls", v consul_watcher_errors_total_tls); ("client_ca", v consul_watcher_errors_total_client_ca)]
   ++ [sample "sentirum_lb_cert_min_expiry_unix_seconds" (v cert_min_expiry_unix_seconds)]
   ++ cert_expiry_metrics m
   ++ [ sample "sentirum_lb_process_metrics_available" (if available process then 1 else 0);
        sample "sentirum_lb_process_resident_memory_bytes" (resident_memory_bytes process);
        sample "sentirum_lb_process_virtual_memory_bytes" (virtual_memory_bytes process);
        sample "sentirum_lb_process_open_fds" (open_fds process) ]
   ++ labelled "sentirum_lb_response_status_total" "code"
        [("2xx", v status_2xx); ("3xx", v status_3xx); ("4xx", v status_4xx); ("5xx", v status_5xx)]
   ++ [ sample "sentirum_lb_rate_limit_rejected_total" (v rate_limit_rejected_total);
        sample "sentirum_lb_health_check_probes_total" (v health_check_probes_total);
        sample "sentirum_lb_health_check_probe_failures_total" (v health_check_probe_failures_total) ]
   ++ labelled "sentirum_lb_request_duration_seconds_bucket" "le" (histogram m)
   ++ [ mk_sample "sentirum_lb_request_duration_seconds_sum" [] (VFloat (f64_div (f64_of_Z (v latency_sum_us)) (f64_of_Z 1000000)));
        sample "sentirum_lb_request_duration_seconds_count" (v requests_total) ])%list.

Definition render (now : Z) (process : ProcessMetricsSnapshot) (m : Metrics) (render_cache : option (Z * list Sample))
  : option (Z * list Sample) * list Sample :=
  cached_within RENDER_CACHE_TTL now (render_uncached process m) render_cache.

(** ** Counting *)

(** The sum of [f] over a list. *)
Definition total {A} (f : A -> Z) (l : list A) : Z := foldr (fun a n => f a + n) 0 l.

Lemma total_ext {A} (f g : A -> Z) l : (forall a, f a = g a) -> total f l = total g l.
Proof. intros E. induction l as [|a l IH]; cbn; [done|]. unfold total in IH. by rewrite E, IH. Qed.

Lemma total_add {A} (f g : A -> Z) l : total f l + total g l = total (fun a => f a + g a) l.
Proof. unfold total. induction l as [|a l IH]; cbn; lia. Qed.

Lemma total_one {A} (l : list A) : total (fun _ => 1) l = Z.of_nat (List.length l).
Proof. unfold total. induction l as [|a l IH]; cbn [foldr List.length]; lia. Qed.

Lemma total_snoc {A} (f : A -> Z) l a : total f (l ++ [a])%list = total f l + f a.
Proof. unfold total. induction l as [|b l IH]; cbn [foldr app]; lia. Qed.

Lemma wrap64_add a b : wrap64 a +w b = wrap64 (a + b).
Proof. unfold wrapping_add, wrap64. by rewrite Zplus_mod_idemp_l. Qed.

Lemma wrap64_add_wrap a b : wrap64 a +w wrap64 b = wrap64 (a + b).
Proof. rewrite wrap64_add. unfold wrap64. by rewrite Zplus_mod_idemp_r. Qed.

(** A request: its status and its latency. *)
Definition Request : Type := Z * Z.
Definition count (p : Request -> bool) (l : list Request) : Z := total (fun r => Z.b2z (p r)) l.

Definition record_all (reqs : list Request) (m : Metrics) : Metrics := foldl (fun m r => record_request r.1 r.2 m) m reqs.

Definition status_counter (status : Z) : Counter :=
  if between 200 299 status then status_2xx else if between 300 399 status then status_3xx
  else if between 400 499 status then status_4xx else status_5xx.
Definition is_error_status (status : Z) : bool := negb (between 200 399 status).

(** How often a request counts in a counter. *)
Definition is_counter (c c' : Counter) : Z := if decide (c = c') then 1 else 0.
Definition hits (c : Counter) (r : Request) : Z :=
  is_counter c requests_total + is_counter c (latency_bucket r.2) + is_counter c (status_counter r.1)
  + (if is_error_status r.1 then is_counter c requests_error_total else 0).

Lemma bump_counts c c0 m S : load m c = wrap64 S -> load (bump c0 m) c = wrap64 (S + is_counter c c0).
Proof.
  intros E. unfold bump, fetch_add, store, is_counter. cbn. destruct (decide (c = c0)) as [->|]; [by rewrite E, wrap64_add|].
  by rewrite Z.add_0_r.
Qed.

Lemma record_request_counts c s l m S :
  c <> latency_sum_us -> load m c = wrap64 S -> load (record_request s l m) c = wrap64 (S + hits c (s, l)).
Proof.
  intros Hc E. unfold record_request. set (m1 := bump (latency_bucket l) _).
  assert (E1 : load m1 c = wrap64 (S + is_counter c requests_total + is_counter c (latency_bucket l))).
  { apply bump_counts. unfold fetch_add, store. cbn [load]. destruct (decide (c = latency_sum_us)); [done|]. by apply bump_counts. }
  revert E1. generalize m1. intros m' E1. unfold record_status, hits, status_counter, is_error_status, between. cbn [fst snd].
  repeat match goal with |- context [ (?a <=? ?b)%Z ] => destruct (Z.leb_spec a b) end; cbn [andb negb]; try lia;
    (erewrite bump_counts by (first [done|apply bump_counts, E1]); f_equal; lia).
Qed.

Lemma recorded c reqs : c <> latency_sum_us -> load (record_all reqs metrics_new) c = wrap64 (total (hits c) reqs).
Proof.
  intros Hc. induction reqs as [|[s l] reqs IH] using rev_ind; [done|].
  unfold record_all in *. rewrite foldl_app. cbn [foldl fst snd]. by rewrite (record_request_counts c s l _ _ Hc IH), total_snoc.
Qed.

(** The bounds of the buckets, in microseconds. *)
Definition bounds : list (string * Z) :=
  [("0.001", 1000); ("0.005", 5000); ("0.01", 10000); ("0.025", 25000); ("0.05", 50000); ("0.1", 100000); ("0.25", 250000);
   ("0.5", 500000); ("1", 1000000); ("5", 5000000)].

(** The comparisons of a request, without the impossible outcomes. *)
Ltac by_bucket :=
  unfold is_counter, status_counter, is_error_status, latency_bucket, between; cbn [fst snd];
  repeat match goal with |- context [ (?a <=? ?b)%Z ] =>
    first [rewrite (proj2 (Z.leb_le a b)) by lia | rewrite (proj2 (Z.leb_gt a b)) by lia | destruct (Z.leb_spec a b)] end;
  reflexivity.

(** A counter takes part in one of the counts only. *)
Definition in_latency (c : Counter) : bool :=
  bool_decide (c ∈ latency_bucket_1ms :: map snd wider_buckets).
Definition in_status (c : Counter) : bool := bool_decide (c ∈ [status_2xx; status_3xx; status_4xx; status_5xx]).

Lemma status_counter_in s : in_status (status_counter s) = true.
Proof. unfold status_counter. by repeat case_match. Qed.
Lemma latency_bucket_in l : in_latency (latency_bucket l) = true.
Proof. unfold latency_bucket. by repeat case_match. Qed.

Lemma is_counter_apart (p : Counter -> bool) c c' : p c = false -> p c' = true -> is_counter c c' = 0.
Proof. unfold is_counter. intros H1 H2. destruct (decide (c = c')); [congruence|done]. Qed.

Lemma hits_latency c r : in_latency c = true -> hits c r = is_counter c (latency_bucket r.2).
Proof.
  intros Hc. unfold hits. rewrite (is_counter_apart in_status c (status_counter _)) by (apply status_counter_in || by destruct c).
  assert (is_counter c requests_total = 0 /\ is_counter c requests_error_total = 0) as [-> ->] by (by destruct c). destruct (is_error_status _); lia.
Qed.

Lemma hits_status c r : in_status c = true -> hits c r = is_counter c (status_counter r.1).
Proof.
  intros Hc. unfold hits. rewrite (is_counter_apart in_latency c (latency_bucket _)) by (apply latency_bucket_in || by destruct c).
  assert (is_counter c requests_total = 0 /\ is_counter c requests_error_total = 0) as [-> ->] by (by destruct c). destruct (is_error_status _); lia.
Qed.

Lemma hits_total r : hits requests_total r = 1.
Proof.
  unfold hits. rewrite (is_counter_apart in_latency _ (latency_bucket _)) by (done || apply latency_bucket_in).
  rewrite (is_counter_apart in_status _ (status_counter _)) by (done || apply status_counter_in). by destruct (is_error_status _).
Qed.

Lemma hits_error r : hits requests_error_total r = Z.b2z (is_error_status r.1).
Proof.
  unfold hits. rewrite (is_counter_apart in_latency _ (latency_bucket _)) by (done || apply latency_bucket_in).
  rewrite (is_counter_apart in_status _ (status_counter _)) by (done || apply status_counter_in). by destruct (is_error_status _).
Qed.

(** What is exported about the requests is what happened: the total is
    their number, the histogram gives for every bound the number of requests
    that took no longer, its last bucket and its count being the total; every
    request is in one status class and the errors are those outside 200-399
    (all modulo 2^64, the width of the counters). *)
Theorem exported_histogram_counts reqs :
  let m := record_all reqs metrics_new in
  load m requests_total = wrap64 (Z.of_nat (List.length reqs))
  /\ histogram m = (map (fun b => (b.1, wrap64 (count (fun r => (r.2 <=? b.2)%Z) reqs))) bounds
                    ++ [("+Inf", load m requests_total)])%list
  /\ load m status_2xx = wrap64 (count (fun r => between 200 299 r.1) reqs)
  /\ load m status_3xx = wrap64 (count (fun r => between 300 399 r.1) reqs)
  /\ load m status_4xx = wrap64 (count (fun r => between 400 499 r.1) reqs)
  /\ load m status_5xx = wrap64 (count (fun r => negb (between 200 499 r.1)) reqs)
  /\ load m requests_error_total = load m status_4xx +w load m status_5xx.
Proof.
  cbv zeta. rewrite !recorded by done.
  assert (Hn : total (hits requests_total) reqs = Z.of_nat (List.length reqs)).
  { rewrite <- total_one. apply total_ext, hits_total. }
  rewrite Hn. split; [done|]. split.
  - unfold histogram, wider_buckets. cbn [cumulate map bounds app fst snd]. rewrite !recorded by done.
    rewrite !wrap64_add_wrap. rewrite <- Hn, !total_add. unfold count.
    repeat match goal with |- (?x, wrap64 ?a) :: _ = (?x, wrap64 ?b) :: _ =>
      assert (a = b) as ->; [apply total_ext; intros [s l]; rewrite ?hits_total, !hits_latency by done; by_bucket|f_equal] end.
  - unfold count. rewrite wrap64_add_wrap, total_add.
    split_and!; f_equal; apply total_ext; intros [s l]; rewrite ?hits_error, !hits_status by done; by_bucket.
Qed.

(** ** Labels *)

(** What a scraper reads after the opening quote of a label: the value up to
    the closing quote, and the rest of the line. A line break ends the line. *)
Fixpoint read_label (s : string) : option (string * string) :=
  match s with
  | "" => None
  | String c s =>
      if Ascii.eqb c dquote then Some ("", s)
      else if Ascii.eqb c newline_char then None
      else if Ascii.eqb c backslash then
        match s with
        | String d s => '(v, rest) ← read_label s; Some (String (if Ascii.eqb d "n" then newline_char else d) v, rest)
        | "" => None
        end
      else '(v, rest) ← read_label s; Some (String c v, rest)
  end.

Lemma read_escaped d s :
  read_label (String backslash (String d s))
  = ('(v, rest) ← read_label s; Some (String (if Ascii.eqb d "n" then newline_char else d) v, rest)).
Proof. done. Qed.

Lemma min_fold_le l x : foldl Z.min x l <= x /\ Forall (fun y => foldl Z.min x l <= y) l.
Proof.
  revert x. induction l as [|y l IH]; intros x; cbn [foldl]; [split; [lia|constructor]|].
  destruct (IH (Z.min x y)) as [H1 H2]. split; [lia|]. constructor; [lia|done].
Qed.

Lemma min_fold_in l x : foldl Z.min x l ∈ x :: l.
Proof.
  revert x. induction l as [|y l IH]; intros x; cbn [foldl]; [by left|]. specialize (IH (Z.min x y)).
  apply elem_of_cons in IH as [E|Hin]; [|by do 2 right]. rewrite E.
  destruct (Z.min_spec x y) as [[_ ->]|[_ ->]]; [by left|by right; left].
Qed.

(** Whatever bytes the name and the subject of a certificate hold, a
    scraper reads back exactly them from the labels of its sample, whatever
    follows, and the samples list the expiry of every certificate with the
    earliest of them. *)
Theorem labels_read_back entries m l rest :
  read_label (escape_prometheus_label l ++ String dquote rest) = Some (l, rest)
  /\ (let m := set_cert_expiry_entries entries m in
      Forall2 (fun e s => value s = VInt (not_after_unix e)
                          /\ labels s = [("entry", escape_prometheus_label (entry e)); ("cn", escape_prometheus_label (cn e))])
        entries (cert_expiry_metrics m)
      /\ (entries <> [] -> load m cert_min_expiry_unix_seconds ∈ map not_after_unix entries)
      /\ Forall (fun e => load m cert_min_expiry_unix_seconds <= not_after_unix e) entries).
Proof.
  split; [|cbv zeta; split_and!].
  - induction l as [|c l IH]; [done|]. cbn [escape_prometheus_label].
    destruct (Ascii.eqb c backslash) eqn:E1; [|destruct (Ascii.eqb c dquote) eqn:E2; [|destruct (Ascii.eqb c newline_char) eqn:E3]];
      rewrite !app_cons_s, !app_nil_s, ?read_escaped, ?IH.
    + apply Ascii.eqb_eq in E1 as ->. done.
    + apply Ascii.eqb_eq in E2 as ->. done.
    + apply Ascii.eqb_eq in E3 as ->. done.
    + cbn [read_label]. by rewrite E1, E2, E3, IH.
  - unfold cert_expiry_metrics. cbn [set_cert_expiry_entries cert_expiry_entries].
    induction entries as [|e entries IH]; constructor; [done|apply IH].
  - cbn. destruct entries as [|e entries]; [done|]. intros _. cbn. apply min_fold_in.
  - cbn. destruct entries as [|e entries]; [done|]. cbn.
    destruct (min_fold_le (map not_after_unix entries) (not_after_unix e)) as [H1 H2]. constructor; [done|].
    rewrite Forall_forall in H2. apply Forall_forall. intros x Hx. apply H2, list_elem_of_In, in_map, list_elem_of_In, Hx.
Qed.

(** ** Concrete inputs *)

(** A connection that switched protocols (status 101) counts as a server
    error. *)
Example upgrade_counted_as_error :
  let m := record_all [(101, 700)] metrics_new in
  load m status_5xx = 1 /\ load m requests_error_total = 1 /\ load m latency_bucket_1ms = 1.
Proof. vm_compute. by split_and!. Qed.

Example proc_status_ex :
  parse_proc_status_value_bytes ("Name: lb" ++ String newline_char ("VmRSS:     12 kB" ++ String newline_char "")) "VmRSS:" = Some 12288.
Proof. vm_compute. reflexivity. Qed.
