(* ===== verification/Checker.v ===== *)
(** * Checker: the active health checks

    Models src/src/proxy/health.rs: a check of one target (resolution through
    the SSRF filter, HTTP probe, TCP fallback), a round over all targets of the
    published table with up to 32 checks in flight, and the turns of the loop
    around the scheduler of Health. What the network answers is a parameter of
    each check; a check is two steps, since others run while its name is
    resolved. *)
From S2P Require Import Prelude RustStr Net Routes CircuitBreaker RateLimit DnsCache Health Stats Target Weights Table Registry.
From S2P Require Config Metrics.
From stdpp Require Import relations.
From Stdlib Require Import Ascii String.
Local Open Scope string_scope.
Local Open Scope Z_scope.

Definition hc_from_proxy_config (config : Config.ProxyConfig) : HealthCheckConfig :=
  mk_hc (Config.parse_duration (Config.health_check_interval config)) (Config.parse_duration (Config.health_check_timeout config))
    (Config.health_check_fall config) (Config.health_check_rise config) (Config.health_check_path config)
    (Config.health_check_tls_skip_verify config).

(** ** Probes *)

(** The request given to the HTTP client: it resolves [pr_host] to [pr_addr],
    uses no proxy and follows no redirect. *)
Record HttpProbe := mk_probe { pr_url : string; pr_host : string; pr_addr : SocketAddr; pr_timeout : Z; pr_any_cert : bool }.

(** What the HTTP client and TCP answer: an error building the client, the
    status of the response, a connection ([None] when it timed out). *)
Record Network := mk_network {
  build_error : option string;
  http_get : HttpProbe -> result Z string;
  tcp_connect : SocketAddr -> option (result unit string);
}.

Inductive ProbeError :=
  | ClientNotBuilt (e : string)
  | RequestFailed (e : string)
  | BadStatus (status : Z)
  | TcpTimedOut (timeout : Z)
  | TcpFailed (e : string)
  | BothFailed (http_err tcp_err : ProbeError).

(** A connection a probe opens. *)
Inductive Contact := HttpTo (p : HttpProbe) | TcpTo (addr : SocketAddr).
Definition contact_addr (c : Contact) : SocketAddr := match c with HttpTo p => pr_addr p | TcpTo addr => addr end.

Section probes.
Context (cfg : HealthCheckConfig) (net : Network).

Definition http_request (scheme host : string) (port : Z) (addr : SocketAddr) : HttpProbe :=
  let url_host := if contains_char ":"%char host then "[" ++ host ++ "]" else host in
  mk_probe (scheme ++ "://" ++ url_host ++ ":" ++ show_uint port ++ hc_path cfg) host addr (hc_timeout cfg) (hc_tls_skip_verify cfg).

Definition probe_http (scheme host : string) (port : Z) (addr : SocketAddr) : result unit ProbeError * list Contact :=
  match build_error net with
  | Some e => (Err (ClientNotBuilt e), [])
  | None =>
      let req := http_request scheme host port addr in
      (match http_get net req with
       | Err e => Err (RequestFailed e)
       | Ok status => if (200 <=? status) && (status <=? 299) then Ok tt else Err (BadStatus status)
       end, [HttpTo req])
  end.

Definition probe_tcp (addr : SocketAddr) : result unit ProbeError * list Contact :=
  (match tcp_connect net addr with
   | None => Err (TcpTimedOut (hc_timeout cfg))
   | Some (Err e) => Err (TcpFailed e)
   | Some (Ok _) => Ok tt
   end, [TcpTo addr]).

(** The probe of a target at its checked address. *)
Definition probe (self : Target) (addr : SocketAddr) : result unit ProbeError * list Contact :=
  let host := upstream_host self in
  let port := upstream_port self in
  if upstream_tls self then probe_http "https" host port addr
  else
    match probe_http "http" host port addr with
    | (Ok _, l) => (Ok tt, l)
    | (Err http_err, l) =>
        match probe_tcp addr with
        | (Ok _, l') => (Ok tt, (l ++ l')%list)
        | (Err tcp_err, l') => (Err (BothFailed http_err tcp_err), (l ++ l')%list)
        end
    end.
End probes.

(** ** check_target *)

Record CheckState := mk_check { ck_cells : Heap; ck_dns : DnsCache; ck_metrics : Metrics.Metrics }.

Definition record_outcome (cfg : HealthCheckConfig) (self : Target) (ok : bool) (st : CheckState) : CheckState :=
  let l := health_tracker self in
  let tracker := get_tracker l (ck_cells st) in
  let m := Metrics.bump Metrics.health_check_probes_total (ck_metrics st) in
  if ok then mk_check (set_tracker l (record_health_check_success (hc_rise cfg) tracker) (ck_cells st)) (ck_dns st) m
  else mk_check (set_tracker l (record_health_check_failure (hc_fall cfg) tracker) (ck_cells st)) (ck_dns st)
         (Metrics.bump Metrics.health_check_probe_failures_total m).

(** Whether a check succeeds, and the connections it opens, given the resolved
    address. *)
Definition check_result (cfg : HealthCheckConfig) (net : Network) (self : Target) (resolved : result SocketAddr IoErrorKind)
  : bool * list Contact :=
  match resolved with
  | Err _ => (false, [])
  | Ok addr => let '(r, l) := probe cfg net self addr in (match r with Ok _ => true | Err _ => false end, l)
  end.

Section checks.
Context {S : SelectNth} (cfg : HealthCheckConfig).

(** Up to the resolver: the answer found without it, if any. *)
Definition begin_check (now_ms : Z) (self : Target) (st : CheckState) : CheckState * option (result SocketAddr IoErrorKind) :=
  let '(c, r) := resolve_cached now_ms self (ck_dns st) in
  (mk_check (ck_cells st) c (ck_metrics st), r).

(** The rest, given the resolver's answer. *)
Definition resolve_rest (now_ms : Z) (answer : result (list SocketAddr) IoErrorKind) (self : Target)
    (pending : option (result SocketAddr IoErrorKind)) (st : CheckState) : CheckState * result SocketAddr IoErrorKind :=
  match pending with
  | Some r => (st, r)
  | None =>
      let '(c, r) := resolve_answer now_ms answer self (ck_dns st) in
      (mk_check (ck_cells st) c (ck_metrics st), r)
  end.

Definition end_check (now_ms : Z) (answer : result (list SocketAddr) IoErrorKind) (net : Network) (self : Target)
    (pending : option (result SocketAddr IoErrorKind)) (st : CheckState) : CheckState * bool :=
  let '(st, resolved) := resolve_rest now_ms answer self pending st in
  let ok := (check_result cfg net self resolved).1 in
  (record_outcome cfg self ok st, ok).

(** [check_target], alone. *)
Definition check_target (now_ms now_ms' : Z) (lookup_host : string -> result (list SocketAddr) IoErrorKind) (net : Network)
    (self : Target) (st : CheckState) : CheckState * bool :=
  let '(st, pending) := begin_check now_ms self st in
  end_check now_ms' (lookup_host (addr_str self)) net self pending st.

(** ** A round *)

Definition MAX_PROBE_CONCURRENCY : nat := 32.

(** A finished check: the target, the address it resolved to and what the
    network answered. *)
Record Outcome := mk_outcome { o_target : Target; o_resolved : result SocketAddr IoErrorKind; o_net : Network }.
Definition o_ok (o : Outcome) : bool := (check_result cfg (o_net o) (o_target o) (o_resolved o)).1.
Definition o_contacts (o : Outcome) : list Contact := (check_result cfg (o_net o) (o_target o) (o_resolved o)).2.

(** [buffer_unordered]: checks start in order and end in any order; when a
    check ends is the network's (Rounds.v gives it the time it takes). *)
Record RoundState := mk_round {
  waiting : list Target;
  running : list (Target * option (result SocketAddr IoErrorKind));
  finished : list Outcome;
  rs_state : CheckState;
}.
Definition round_start (targets : list Target) (st : CheckState) : RoundState := mk_round targets [] [] st.
Definition round_over (s : RoundState) : Prop := waiting s = [] /\ running s = [].

Inductive round_step : RoundState -> RoundState -> Prop :=
  | check_begins now_ms tg w running fin st :
      (List.length running < MAX_PROBE_CONCURRENCY)%nat ->
      round_step (mk_round (tg :: w) running fin st)
        (mk_round w (running ++ [(tg, (begin_check now_ms tg st).2)]) fin (begin_check now_ms tg st).1)
  | check_ends now_ms answer net tg pending w r1 r2 fin st :
      round_step (mk_round w (r1 ++ (tg, pending) :: r2) fin st)
        (mk_round w (r1 ++ r2) (fin ++ [mk_outcome tg (resolve_rest now_ms answer tg pending st).2 net])
           (end_check now_ms answer net tg pending st).1).

(** [futures.collect()] and the count of the results. *)
Definition successes (fin : list Outcome) : nat := List.length (List.filter o_ok fin).
Definition failures (fin : list Outcome) : nat := List.length fin - successes fin.
End checks.

(** ** The loop *)

Section loop.
Context {G : GlobCrate} {U : UrlParser} {O : HashOrder} {S : SelectNth}.

(** A round from its start to its end, with the checks it finished. *)
Definition runs_round (cfg : HealthCheckConfig) (targets : list Target) (st : CheckState) (fin : list Outcome) (st' : CheckState) : Prop :=
  rtc (round_step cfg) (round_start targets st) (mk_round [] [] fin st').

(** A turn of the loop after its tick, with the configuration [c] read and the
    table [m] published then: the new scheduler, the checks of the round and
    the state after it. *)
Inductive loop_turn (c : Config.Config) (m : ManagedRouteTable) : Scheduler * CheckState -> list Outcome -> Scheduler * CheckState -> Prop :=
  | turn_idle s s' reset st :
      scheduler_tick (hc_from_proxy_config (Config.proxy c)) s = (s', reset, false) -> loop_turn c m (s, st) [] (s', st)
  | turn_probes s s' reset st fin st' :
      scheduler_tick (hc_from_proxy_config (Config.proxy c)) s = (s', reset, true) ->
      runs_round (checker s') (all_targets (published m)) st fin st' ->
      loop_turn c m (s, st) fin (s', st').
End loop.

(** ** What a round does *)

Section rounds.
Context {S : SelectNth} (cfg : HealthCheckConfig).

(** The trackers and the counters after the checks [fin]. *)
Definition record_outcomes (fin : list Outcome) (h : Heap) : Heap :=
  foldl (fun h o => set_tracker (health_tracker (o_target o))
                      (record_probe (hc_rise cfg) (hc_fall cfg) (get_tracker (health_tracker (o_target o)) h) (o_ok cfg o)) h) h fin.

(** An address that was resolved for a target satisfies the target's policy. *)
Definition resolved_allowed (tg : Target) (r : result SocketAddr IoErrorKind) : Prop :=
  forall addr, r = Ok addr -> ssrf_policy tg (sock_ip addr).

Record round_inv (targets : list Target) (st0 : CheckState) (s : RoundState) : Prop := {
  ri_targets : (map o_target (finished s) ++ map fst (running s) ++ waiting s)%list ≡ₚ targets;
  ri_cells : ck_cells (rs_state s) = record_outcomes (finished s) (ck_cells st0);
  ri_pending : Forall (fun x => forall r, x.2 = Some r -> resolved_allowed x.1 r) (running s);
  ri_resolved : Forall (fun o => resolved_allowed (o_target o) (o_resolved o)) (finished s);
  ri_bound : (List.length (running s) <= MAX_PROBE_CONCURRENCY)%nat;
}.

Lemma begin_check_cells now tg st : ck_cells (begin_check now tg st).1 = ck_cells st.
Proof. unfold begin_check. by destruct (resolve_cached _ _ _). Qed.

Lemma begin_check_allowed now tg st r : (begin_check now tg st).2 = Some r -> resolved_allowed tg r.
Proof.
  unfold begin_check. destruct (resolve_cached now tg (ck_dns st)) as [c o] eqn:E. cbn. intros -> addr ->.
  by eapply cached_address_allowed.
Qed.

Lemma resolve_rest_spec now answer tg pending st :
  ck_cells (resolve_rest now answer tg pending st).1 = ck_cells st
  /\ ((forall r, pending = Some r -> resolved_allowed tg r) -> resolved_allowed tg (resolve_rest now answer tg pending st).2).
Proof.
  destruct pending as [r|]; cbn; [split; [done|]; intros H; by apply H|].
  destruct (resolve_answer now answer tg (ck_dns st)) as [c r] eqn:E. cbn. split; [done|]. intros _ addr ->.
  by apply answered_address_allowed in E as [? _].
Qed.

Lemma record_outcome_cells tg ok st :
  ck_cells (record_outcome cfg tg ok st)
  = set_tracker (health_tracker tg) (record_probe (hc_rise cfg) (hc_fall cfg) (get_tracker (health_tracker tg) (ck_cells st)) ok) (ck_cells st).
Proof. by destruct ok. Qed.
Lemma end_check_cells now answer net tg pending st :
  ck_cells (end_check cfg now answer net tg pending st).1
  = record_outcomes [mk_outcome tg (resolve_rest now answer tg pending st).2 net] (ck_cells st).
Proof.
  unfold end_check. pose proof (proj1 (resolve_rest_spec now answer tg pending st)) as E.
  destruct (resolve_rest now answer tg pending st) as [st' r]. cbn in *. rewrite <- E.
  rewrite record_outcome_cells. done.
Qed.

Lemma round_step_inv targets st0 s s' : round_step cfg s s' -> round_inv targets st0 s -> round_inv targets st0 s'.
Proof.
  intros Hstep [Ht Hc Hp Hr Hb]. destruct Hstep as [now tg w running fin st Hlt|now answer net tg pending w r1 r2 fin st]; cbn in *.
  - split; cbn.
    + rewrite map_app. cbn. rewrite <- Ht, <- !app_assoc. done.
    + by rewrite begin_check_cells.
    + apply Forall_app. split; [done|]. constructor; [|done]. cbn. intros r. apply begin_check_allowed.
    + done.
    + rewrite length_app. cbn. lia.
  - apply Forall_app in Hp as [Hp1 Hp2]. apply Forall_cons in Hp2 as [Hp Hp2]. cbn in Hp. split; cbn.
    + rewrite <- Ht, !map_app. cbn. rewrite <- !app_assoc. cbn. rewrite Permutation_middle. done.
    + rewrite end_check_cells, Hc. unfold record_outcomes. by rewrite foldl_app.
    + by apply Forall_app.
    + apply Forall_app. split; [done|]. constructor; [|done]. cbn. by apply resolve_rest_spec.
    + rewrite !length_app in *. cbn in Hb. lia.
Qed.

Lemma round_reaches targets st s : rtc (round_step cfg) (round_start targets st) s -> round_inv targets st s.
Proof.
  intros Hsteps. assert (Hi : round_inv targets st (round_start targets st)).
  { split; cbn; [done|done|constructor|constructor|lia]. }
  revert Hi. induction Hsteps as [s|s1 s2 s3 Hstep _ IH]; intros Hi; [done|]. by eapply IH, round_step_inv.
Qed.

(** The tracker of a target that was checked once. *)
Lemma record_outcomes_get fin h l :
  NoDup (map (fun o => health_tracker (o_target o)) fin) ->
  (forall o, o ∈ fin -> health_tracker (o_target o) = l ->
     get_tracker l (record_outcomes fin h) = record_probe (hc_rise cfg) (hc_fall cfg) (get_tracker l h) (o_ok cfg o))
  /\ (l ∉ map (fun o => health_tracker (o_target o)) fin -> get_tracker l (record_outcomes fin h) = get_tracker l h).
Proof.
  revert h. induction fin as [|o fin IH]; intros h Hnd; cbn [map] in *.
  { split; [by intros o ?%elem_of_nil|done]. }
  apply NoDup_cons in Hnd as [Hn Hnd]. set (l' := health_tracker (o_target o)) in *.
  assert (Hset : forall v, get_tracker l (set_tracker l' v h) = if decide (l = l') then v else get_tracker l h).
  { intros v. unfold get_tracker, set_tracker. cbn. destruct (decide (l = l')) as [->|]; [by rewrite lookup_insert_eq|by rewrite lookup_insert_ne]. }
  change (record_outcomes (o :: fin) h) with
    (record_outcomes fin (set_tracker l' (record_probe (hc_rise cfg) (hc_fall cfg) (get_tracker l' h) (o_ok cfg o)) h)).
  split.
  - intros o' Ho' El. apply elem_of_cons in Ho' as [->|Ho'].
    + destruct (IH (set_tracker l' (record_probe (hc_rise cfg) (hc_fall cfg) (get_tracker l' h) (o_ok cfg o)) h) Hnd) as [_ Hother].
      rewrite Hother by (by rewrite <- El). rewrite Hset. fold l' in El. by rewrite decide_True, El by done.
    + destruct (IH (set_tracker l' (record_probe (hc_rise cfg) (hc_fall cfg) (get_tracker l' h) (o_ok cfg o)) h) Hnd) as [Hin _].
      rewrite (Hin o' Ho' El), Hset, decide_False; [done|]. intros ->. apply Hn. rewrite <- El.
      apply list_elem_of_In, (in_map (fun o => health_tracker (o_target o))). by apply list_elem_of_In.
  - intros Hl. apply not_elem_of_cons in Hl as [Hne Hl].
    destruct (IH (set_tracker l' (record_probe (hc_rise cfg) (hc_fall cfg) (get_tracker l' h) (o_ok cfg o)) h) Hnd) as [_ Hother].
    by rewrite Hother, Hset, decide_False.
Qed.
End rounds.

(** ** The targets of a round *)

Section managed_targets.
Context {G : GlobCrate} {U : UrlParser} {O : HashOrder}.

(** The list of targets to probe names each backend once, and its targets hold
    the registered cells. *)
Definition probe_list_ok (t : Table) : Prop :=
  NoDup (map url (all_targets t))
  /\ (forall tg, tg ∈ all_targets t -> exists k p, core tg ∈ contents (routes t) k p)
  /\ (forall k p tg, tg ∈ contents (routes t) k p -> exists tg', tg' ∈ all_targets t /\ url tg' = url tg).

Lemma built_probe_list now base defs config r h :
  registry_ok r h -> probe_list_ok (from_definitions_with_stats now base defs config r h).1.1.
Proof.
  intros Hr. pose proof (all_targets_once now base defs config r h) as Ho. cbv zeta in Ho. destruct Ho as (Hnd & Hin & Hcov).
  pose proof (from_definitions_cells now base defs config r h Hr) as Hc.
  destruct (from_definitions_with_stats now base defs config r h) as [[t r'] h']. cbn [fst] in *. split; [done|split].
  2:{ intros k p tg. unfold contents. destruct (routes t !! k) as [rs|] eqn:E; cbn; [|by intros ?%elem_of_nil].
      destruct (find_path p rs) as [route|] eqn:Ef; [|by intros ?%elem_of_nil]. apply find_path_Some in Ef as [Hr' _].
      intros (t0 & <- & Ht0)%list_elem_of_In%in_map_iff. apply (Hcov k route t0); [unfold routes_of; by rewrite E|by apply list_elem_of_In]. }
  intros tg Htg. destruct (Hin tg Htg) as (k & route & Hroute & Ht). exists k, (path route). unfold contents, routes_of in *.
  destruct (routes t !! k) as [rs|] eqn:E; cbn in *; [|by apply elem_of_nil in Hroute].
  rewrite (find_path_elem _ _ route) by (done || apply (ok_paths _ _ (ci_table _ _ _ _ _ _ Hc k rs E))).
  apply list_elem_of_In, in_map. by apply list_elem_of_In.
Qed.

Lemma managed_apply_probe_list now inflight op m h : reachable (m, h) -> probe_list_ok (published (managed_apply now inflight op m h).1).
Proof.
  intros Hreach. destruct (managed_inv_reachable _ Hreach) as [Hr _ _]. cbn in Hr.
  assert (Hb : forall defs config t, registry_ok (rt_stats_registry t) h -> probe_list_ok (build now inflight defs config t h).1.1).
  { intros defs config t Ht. unfold build. pose proof (built_probe_list now (held_cells inflight t) defs config _ h Ht) as Hp.
    by destruct (from_definitions_with_stats _ _ _ _ _ _) as [[table r] h']. }
  destruct op as [defs|defs|defs|defs|config]; cbn [managed_apply];
    unfold load_static, append_static, managed_update_kv, managed_update_services, reconfigure_circuit_breaker, rebuild_and_swap;
    match goal with |- context [ build now inflight ?defs ?config ?t ?h ] =>
      specialize (Hb defs config t); destruct (build now inflight defs config t h) as [[table t'] h'] end;
    apply Hb; [exact Hr..|]. by apply clear_health_trackers_ok.
Qed.

Lemma reachable_probe_list m h : reachable (m, h) -> probe_list_ok (published m).
Proof.
  assert (Hgen : forall s1 s2, rtc managed_step s1 s2 -> reachable s1 -> probe_list_ok (published s1.1) -> probe_list_ok (published s2.1)).
  { induction 1 as [s|s1 s2 s3 Hstep _ IH]; intros Hreach Hp; [done|]. apply IH.
    - destruct Hreach as (s0 & ? & ?). exists s0. split; [done|]. by eapply rtc_r.
    - destruct Hstep as [now inflight op m1 h1|m1 h1 h2 Hn]; [by apply managed_apply_probe_list|done]. }
  intros (s0 & H0 & Hsteps). apply (Hgen s0 (m, h) Hsteps); [by exists s0|].
  assert (E : all_targets (published s0.1) = []) by (by destruct H0 as [->|[c ->]]). unfold probe_list_ok. rewrite E.
  assert (Er : routes (published s0.1) = ∅) by (by destruct H0 as [->|[c ->]]). rewrite Er.
  split_and!; [constructor|by intros tg ?%elem_of_nil|]. intros k p tg. unfold contents. rewrite lookup_empty. by intros ?%elem_of_nil.
Qed.

(** The trackers of the targets to probe are distinct cells. *)
Lemma probe_list_trackers m h : reachable (m, h) -> NoDup (map health_tracker (all_targets (published m))).
Proof.
  intros Hreach. destruct (managed_inv_reachable _ Hreach) as [[_ _ _ Ht _] Hc _]. cbn in *.
  destruct (reachable_probe_list _ _ Hreach) as (Hnd & Hin & _).
  assert (Hreg : forall tg, tg ∈ all_targets (published m) -> health_trackers (rt_stats_registry (route_table m)) !! url tg = Some (health_tracker tg)).
  { intros tg (k & p & Htg)%Hin. by apply (reg_tracker _ _ _ _ (Hc _ _ _ Htg)). }
  revert Hnd Hreg. generalize (all_targets (published m)). intros ts. induction ts as [|tg ts IH]; cbn; intros Hnd Hreg; [constructor|].
  apply NoDup_cons in Hnd as [Hn Hnd]. apply NoDup_cons. split; [|apply IH; [done|intros t Hts; apply Hreg; by right]].
  intros Hl. apply list_elem_of_In, in_map_iff in Hl as (t & E & Hts). apply list_elem_of_In in Hts. apply Hn.
  assert (url tg = url t) as ->; [|apply list_elem_of_In, in_map; by apply list_elem_of_In].
  eapply (entries_inj _ _ Ht); [by apply Hreg; left|]. rewrite <- E. by apply Hreg; right.
Qed.
End managed_targets.

(** ** The health checks *)

Section health.
Context {G : GlobCrate} {U : UrlParser} {O : HashOrder} {S : SelectNth}.

Lemma contacts_allowed cfg o c :
  resolved_allowed (o_target o) (o_resolved o) -> c ∈ o_contacts cfg o -> ssrf_policy (o_target o) (sock_ip (contact_addr c)).
Proof.
  unfold o_contacts, check_result. intros Ha. destruct (o_resolved o) as [addr|e]; [|by intros ?%elem_of_nil].
  specialize (Ha addr eq_refl). enough (He : Forall (fun c => contact_addr c = addr) (probe cfg (o_net o) (o_target o) addr).2).
  { destruct (probe _ _ _ _) as [r l]. cbn in *. rewrite Forall_forall in He. intros Hc%He. by rewrite Hc. }
  assert (Hh : forall scheme host port, Forall (fun c => contact_addr c = addr) (probe_http cfg (o_net o) scheme host port addr).2).
  { intros scheme host port. unfold probe_http. destruct (build_error _); cbn; [constructor|by repeat constructor]. }
  unfold probe. destruct (upstream_tls _); [apply Hh|].
  specialize (Hh "http" (upstream_host (o_target o)) (upstream_port (o_target o))). destruct (probe_http _ _ _ _ _ _) as [[|e] l]; [done|].
  unfold probe_tcp. destruct (tcp_connect _ addr) as [[|]|]; cbn in *; apply Forall_app; by repeat constructor.
Qed.

Lemma record_outcomes_next cfg fin h : next_loc (record_outcomes cfg fin h) = next_loc h.
Proof. revert h. induction fin as [|o fin IH]; intros h; [done|]. unfold record_outcomes in *. cbn [foldl]. by rewrite IH. Qed.

Lemma reachable_cells m h h' : reachable (m, h) -> next_loc h' = next_loc h -> reachable (m, h').
Proof. intros (s0 & H0 & Hs) Hn. exists s0. split; [done|]. eapply rtc_r; [done|by constructor]. Qed.

(** A round over the published table checks each backend once. *)
Lemma round_spec cfg m st fin st' :
  reachable (m, ck_cells st) -> runs_round cfg (all_targets (published m)) st fin st' ->
  reachable (m, ck_cells st')
  /\ map o_target fin ≡ₚ all_targets (published m)
  /\ (forall o, o ∈ fin -> get_tracker (health_tracker (o_target o)) (ck_cells st')
                          = record_probe (hc_rise cfg) (hc_fall cfg) (get_tracker (health_tracker (o_target o)) (ck_cells st)) (o_ok cfg o))
  /\ (forall l, l ∉ map health_tracker (all_targets (published m)) -> get_tracker l (ck_cells st') = get_tracker l (ck_cells st))
  /\ (forall o c, o ∈ fin -> c ∈ o_contacts cfg o -> ssrf_policy (o_target o) (sock_ip (contact_addr c))).
Proof.
  intros Hreach Hround. pose proof (round_reaches _ _ _ _ Hround) as [Ht Hc _ Hr _]. cbn in *. rewrite app_nil_r in Ht.
  pose proof (probe_list_trackers _ _ Hreach) as Hnd. rewrite Hc.
  assert (Hnd' : NoDup (map (fun o => health_tracker (o_target o)) fin)).
  { rewrite <- Ht, map_map in Hnd. done. }
  split_and!; [|done| | |].
  - eapply reachable_cells; [done|]. apply record_outcomes_next.
  - intros o Ho. by apply record_outcomes_get.
  - intros l Hl. apply record_outcomes_get; [done|]. rewrite <- Ht, map_map in Hl. done.
  - intros o c Ho. apply contacts_allowed. rewrite Forall_forall in Hr. by apply Hr.
Qed.

Lemma health_turn_spec c m sch st fin sch' st' :
  reachable (m, ck_cells st) -> loop_turn c m (sch, st) fin (sch', st') ->
  let hc := hc_from_proxy_config (Config.proxy c) in
  ticker_period sch' = period_of hc
  /\ if decide (hc_interval hc = 0) then fin = [] /\ st' = st
     else
       map o_target fin ≡ₚ all_targets (published m)
       /\ (forall k p tg, tg ∈ contents (routes (published m)) k p ->
             exists o, o ∈ fin /\ url (o_target o) = url tg /\ health_tracker (o_target o) = health_tracker tg
               /\ get_tracker (health_tracker tg) (ck_cells st')
                  = record_probe (hc_rise hc) (hc_fall hc) (get_tracker (health_tracker tg) (ck_cells st)) (o_ok hc o))
       /\ (forall l, l ∉ map health_tracker (all_targets (published m)) -> get_tracker l (ck_cells st') = get_tracker l (ck_cells st))
       /\ (forall o c, o ∈ fin -> c ∈ o_contacts hc o -> ssrf_policy (o_target o) (sock_ip (contact_addr c))).
Proof.
  intros Hreach Hturn hc.
  inversion Hturn as [s s' reset st1 Etick|s s' reset st1 fin1 st1' Etick Hround]; subst;
    pose proof (scheduler_tick_spec hc sch) as Hs; fold hc in Etick; rewrite Etick in Hs; destruct Hs as (Hp & _ & Hprobes & Hchk & _).
  - split; [done|]. symmetry in Hprobes. apply negb_false_iff, Z.eqb_eq in Hprobes. by rewrite decide_True.
  - split; [done|]. symmetry in Hprobes. apply negb_true_iff, Z.eqb_neq in Hprobes. rewrite decide_False by done.
    rewrite (Hchk eq_refl) in Hround. destruct (round_spec _ _ _ _ _ Hreach Hround) as (_ & Ht & Hin & Hout & Hssrf).
    split_and!; [done| |done|done]. intros k p tg Htg.
    destruct (reachable_probe_list _ _ Hreach) as (_ & Hreg & Hcov). destruct (Hcov k p tg Htg) as (tg' & Htg' & Eu).
    pose proof Htg' as Hfin. rewrite <- Ht in Hfin. apply list_elem_of_In, in_map_iff in Hfin as (o & Eo & Ho). apply list_elem_of_In in Ho.
    exists o. split; [done|]. rewrite Eo. split; [done|]. assert (El : health_tracker tg' = health_tracker tg).
    { destruct (Hreg tg' Htg') as (k' & p' & Hc'). destruct (managed_inv_reachable _ Hreach) as [_ Hcells _]. cbn in Hcells.
      pose proof (reg_tracker _ _ _ _ (Hcells _ _ _ Hc')) as E1. pose proof (reg_tracker _ _ _ _ (Hcells _ _ _ Htg)) as E2.
      cbn in E1. rewrite Eu, E2 in E1. by injection E1. }
    split; [done|]. specialize (Hin o Ho). by rewrite Eo, El in Hin.
Qed.

(** C15: In a turn of the loop every backend of the published table is checked
    exactly once, in whatever order the checks begin, wait for the resolver and
    end, and the result is recorded in its tracker with the thresholds of the
    configuration just read; trackers of other backends do not move, and a
    probe connects only to an address that the policy of its target allows.
    With an interval of zero nothing is probed. *)
Theorem health_turn c m sch st fin sch' st' :
  reachable (m, ck_cells st) -> loop_turn c m (sch, st) fin (sch', st') ->
  let hc := hc_from_proxy_config (Config.proxy c) in
  ticker_period sch' = period_of hc
  /\ if decide (hc_interval hc = 0) then fin = [] /\ st' = st
     else
       map o_target fin ≡ₚ all_targets (published m)
       /\ (forall k p tg, tg ∈ contents (routes (published m)) k p ->
             exists o, o ∈ fin /\ url (o_target o) = url tg /\ health_tracker (o_target o) = health_tracker tg
               /\ get_tracker (health_tracker tg) (ck_cells st')
                  = record_probe (hc_rise hc) (hc_fall hc) (get_tracker (health_tracker tg) (ck_cells st)) (o_ok hc o))
       /\ (forall l, l ∉ map health_tracker (all_targets (published m)) -> get_tracker l (ck_cells st') = get_tracker l (ck_cells st))
       /\ (forall o c, o ∈ fin -> c ∈ o_contacts hc o -> ssrf_policy (o_target o) (sock_ip (contact_addr c))).
Proof. apply health_turn_spec. Qed.

(** What is left of a round. *)
Definition round_measure (s : RoundState) : nat := 2 * List.length (waiting s) + List.length (running s).

Lemma round_step_measure cfg s s' : round_step cfg s s' -> round_measure s = Datatypes.S (round_measure s').
Proof. intros []; unfold round_measure; cbn; rewrite !length_app; cbn; lia. Qed.

Lemma round_progress cfg s : ~ round_over s -> exists s', round_step cfg s s'.
Proof.
  intros Hn. destruct s as [w [|[tg pending] r] fin st].
  - destruct w as [|tg w]; [by destruct Hn|]. eexists. apply (check_begins cfg 0 tg w [] fin st). cbn. unfold MAX_PROBE_CONCURRENCY. lia.
  - eexists. apply (check_ends cfg 0 (Err OtherIo) (mk_network None (fun _ => Err "") (fun _ => None)) tg pending w [] r).
Qed.

Lemma round_over_measure s : round_over s <-> round_measure s = 0%nat.
Proof. destruct s as [w r fin st]. unfold round_over, round_measure. cbn. destruct w, r; cbn; split; try lia; try done; by intros []. Qed.

Lemma round_finishes cfg targets st : exists fin st', runs_round cfg targets st fin st'.
Proof.
  assert (Hex : forall n s, round_measure s = n -> exists s', rtc (round_step cfg) s s' /\ round_over s').
  { induction n as [|n IH]; intros s E; [exists s; split; [done|by apply round_over_measure]|].
    destruct (round_progress cfg s) as [s1 Hs1]; [rewrite round_over_measure; lia|]. pose proof (round_step_measure _ _ _ Hs1).
    destruct (IH s1 ltac:(lia)) as (s' & ? & ?). exists s'. split; [by eapply rtc_l|done]. }
  destruct (Hex _ (round_start targets st) eq_refl) as ([w r fin st'] & Hs & [Ew Er]). cbn in Ew, Er. subst. by exists fin, st'.
Qed.

Lemma turn_exists c m sch st :
  hc_interval (hc_from_proxy_config (Config.proxy c)) <> 0 -> exists fin sch' st', loop_turn c m (sch, st) fin (sch', st').
Proof.
  intros Hi. pose proof (scheduler_tick_spec (hc_from_proxy_config (Config.proxy c)) sch) as Hs.
  destruct (scheduler_tick _ sch) as [[sch' reset] probes] eqn:E. destruct Hs as (_ & _ & Hp & _).
  rewrite (proj2 (Z.eqb_neq _ _) Hi) in Hp. subst probes.
  destruct (round_finishes (checker sch') (all_targets (published m)) st) as (fin & st' & Hr). exists fin, sch', st'. by eapply turn_probes.
Qed.

(** Turns that all probe, with the checks of each. *)
Inductive turns (c : Config.Config) (m : ManagedRouteTable) : Scheduler * CheckState -> list (list Outcome) -> Scheduler * CheckState -> Prop :=
  | turns_none s : turns c m s [] s
  | turns_more s fins s1 fin s2 : turns c m s fins s1 -> loop_turn c m s1 fin s2 -> turns c m s (fins ++ [fin]) s2.

Lemma turns_history c m s fins s' k p tg :
  let hc := hc_from_proxy_config (Config.proxy c) in
  hc_interval hc <> 0 -> reachable (m, ck_cells s.2) -> turns c m s fins s' -> tg ∈ contents (routes (published m)) k p ->
  reachable (m, ck_cells s'.2)
  /\ exists results, Forall2 (fun fin ok => exists o, o ∈ fin /\ url (o_target o) = url tg /\ o_ok hc o = ok) fins results
       /\ get_tracker (health_tracker tg) (ck_cells s'.2)
          = probe_history (hc_rise hc) (hc_fall hc) results (get_tracker (health_tracker tg) (ck_cells s.2)).
Proof.
  intros hc Hi Hreach Hturns Htg. induction Hturns as [s|s fins [sch1 st1] fin [sch2 st2] _ IH Hturn]; [by split; [|exists []]|].
  destruct (IH Hreach) as (Hreach1 & results & Hres & Et). cbn [snd] in *.
  assert (Hr2 : reachable (m, ck_cells st2)).
  { inversion Hturn; subst; [done|]. match goal with H : runs_round _ _ _ _ _ |- _ => by destruct (round_spec _ _ _ _ _ Hreach1 H) as (? & _) end. }
  split; [done|]. pose proof (health_turn_spec _ _ _ _ _ _ _ Hreach1 Hturn) as [_ Hd]. fold hc in Hd.
  rewrite decide_False in Hd by done. destruct Hd as (_ & Hcov & _). destruct (Hcov k p tg Htg) as (o & Ho & Eu & _ & E).
  exists (results ++ [o_ok hc o])%list. split; [apply Forall2_app; [done|]; repeat constructor; by exists o|].
  rewrite E, Et. unfold probe_history. by rewrite fold_left_app.
Qed.

(** C16: A backend that is served and was healthy when the probing began is
    held unhealthy exactly when some [fall] turns in a row failed to probe it
    and [rise] turns in a row have not succeeded since. *)
Theorem probes_decide_health c m s fins s' k p tg rise fall cb :
  let hc := hc_from_proxy_config (Config.proxy c) in
  hc_interval hc <> 0 -> hc_rise hc = Z.of_nat rise -> hc_fall hc = Z.of_nat fall ->
  (0 < rise)%nat -> (0 < fall)%nat -> Z.of_nat rise < 2 ^ 63 -> Z.of_nat fall < 2 ^ 63 ->
  reachable (m, ck_cells s.2) -> turns c m s fins s' -> tg ∈ contents (routes (published m)) k p ->
  get_tracker (health_tracker tg) (ck_cells s.2) = mk_tracker cb true 0 0 ->
  exists results, Forall2 (fun fin ok => exists o, o ∈ fin /\ url (o_target o) = url tg /\ o_ok hc o = ok) fins results
    /\ (is_probe_healthy (get_tracker (health_tracker tg) (ck_cells s'.2)) = false
        <-> exists h1 h2, results = (h1 ++ repeat false fall ++ h2)%list /\ ~ has_run true rise h2).
Proof.
  intros hc Hi Er Ef Hrise Hfall Hr Hf Hreach Hturns Htg E0.
  destruct (turns_history _ _ _ _ _ _ _ _ Hi Hreach Hturns Htg) as (_ & results & Hres & E). fold hc in Hres, E.
  exists results. split; [done|]. rewrite E, E0, Er, Ef. by apply unhealthy_iff.
Qed.
End health.

(** ** Concrete checks *)

#[local] Instance no_glob : GlobCrate := {| Pattern := unit; pattern_new _ := None; pattern_matches _ _ := false |}.
#[local] Instance plain_url : UrlParser := fun _ => Some (mk_url "http" (Some "10.0.0.7") (Some 80) (Some 80)).
#[local] Instance list_order : HashOrder := {| iter_order m := map_to_list m; iter_order_perm m := Permutation_refl _ |}.

(** Two services of one route with the same backend, one of them from Consul. *)
Definition demo_ms : ManagedRouteTable * Heap :=
  let '(m, h) := managed_apply 5 ∅ (OpLoadStatic [demo_add "a" "h/" "http://10.0.0.7/"]) managed_new heap_empty in
  managed_apply 6 ∅ (OpUpdateKv [demo_add "b" "h/" "http://10.0.0.7/"]) m h.
Definition demo_check : CheckState := mk_check demo_ms.2 DnsCache.cache_new Metrics.metrics_new.
Definition all_up : Network := mk_network None (fun _ => Ok 200) (fun _ => Some (Ok tt)).
Definition demo_hc : HealthCheckConfig := mk_hc 1000000000 1000000000 1 1 "/" false.

(** The one check of a backend is made for one of its targets, under that
    target's policy, and its result goes to the tracker that all of them share:
    a private address that a target of Consul may use is never reached by the
    probe, because the target listed first is static, and the backend is held
    unhealthy although it is up. *)
Example shared_backend_unhealthy :
  match all_targets (published demo_ms.1) with
  | [tg] =>
      let '(st, ok) := check_target demo_hc 0 0 (fun _ => Ok [mk_sock (V4 (mk_v4 10 0 0 7)) 80]) all_up tg demo_check in
      source tg = Static /\ ok = false
      /\ map (fun t => (source t, is_probe_healthy (get_tracker (health_tracker t) (ck_cells st)),
                        addr_blocked t (mk_sock (V4 (mk_v4 10 0 0 7)) 80)))
           (contents (routes (published demo_ms.1)) "h" "/")
         = [(Static, false, true); (ConsulKv, false, false)]
  | _ => False
  end.
Proof. vm_compute. by split_and!. Qed.

(** The default configuration: a turn every 15 seconds, [rise] 2, [fall] 3. *)
Definition demo_conf : Config.Config := Config.demo_config ":9443" "5s" [].
Definition demo_sched : Scheduler := scheduler_start (hc_from_proxy_config (Config.proxy demo_conf)).

Lemma demo_reachable_ms : reachable (demo_ms.1, ck_cells demo_check).
Proof.
  exists (managed_new, heap_empty). split; [by left|]. change (demo_ms.1, ck_cells demo_check) with (demo_ms.1, demo_ms.2).
  rewrite <- surjective_pairing. unfold demo_ms. destruct (managed_apply 5 ∅ _ _ _) as [m h] eqn:E.
  apply rtc_l with (m, h); [rewrite <- E; constructor|apply rtc_once; constructor].
Qed.

Lemma demo_target_served : exists tg, contents (routes (published demo_ms.1)) "h" "/" !! 0%nat = Some tg
  /\ get_tracker (health_tracker tg) demo_ms.2 = mk_tracker cb_new true 0 0.
Proof. eexists. split; [vm_compute; reflexivity|vm_compute; reflexivity]. Qed.

Lemma health_turn_witness :
  exists fin sch' st', loop_turn demo_conf demo_ms.1 (demo_sched, demo_check) fin (sch', st')
    /\ map o_target fin ≡ₚ all_targets (published demo_ms.1).
Proof.
  destruct (turn_exists demo_conf demo_ms.1 demo_sched demo_check) as (fin & sch' & st' & Hturn); [vm_compute; discriminate|].
  exists fin, sch', st'. split; [done|].
  pose proof (health_turn demo_conf demo_ms.1 demo_sched demo_check fin sch' st' demo_reachable_ms Hturn) as [_ H].
  rewrite decide_False in H; [apply H|vm_compute; discriminate].
Defined.

Lemma probes_decide_health_witness :
  exists tg fin s', turns demo_conf demo_ms.1 (demo_sched, demo_check) [fin] s'
    /\ exists results, List.length results = 1%nat
         /\ (is_probe_healthy (get_tracker (health_tracker tg) (ck_cells s'.2)) = false
             <-> exists h1 h2, results = (h1 ++ repeat false 3 ++ h2)%list /\ ~ has_run true 2 h2).
Proof.
  destruct demo_target_served as (tg & Htg & Et).
  destruct (turn_exists demo_conf demo_ms.1 demo_sched demo_check) as (fin & sch' & st' & Hturn); [vm_compute; discriminate|].
  assert (Hturns : turns demo_conf demo_ms.1 (demo_sched, demo_check) [fin] (sch', st')) by (apply (turns_more _ _ _ []) with (demo_sched, demo_check); [constructor|done]).
  exists tg, fin, (sch', st'). split; [done|].
  destruct (probes_decide_health demo_conf demo_ms.1 (demo_sched, demo_check) [fin] (sch', st') "h" "/" tg 2 3 cb_new) as (results & Hr & Hd);
    [vm_compute; discriminate|vm_compute; reflexivity|vm_compute; reflexivity|lia|lia|lia|lia|apply demo_reachable_ms|done| |exact Et|].
  - by eapply list_elem_of_lookup_2.
  - exists results. split; [by apply Forall2_length in Hr|done].
Defined.
