(* ===== verification/Rounds.v ===== *)
(** * Rounds: how long a round of health checks takes

    A round of src/src/proxy/health.rs ends when its last check does. This
    file gives the checks of Checker.v their durations: the request and the
    TCP fallback give up after the configured time-out, the resolver is waited
    for however long it takes. Time passes only while no check that may begin
    is left and none is done, as under an executor that polls ready futures. *)
From S2P Require Import Prelude RustStr Net Routes CircuitBreaker RateLimit DnsCache Health Stats Target Weights Table Registry Checker Upstream.
From S2P Require Config Metrics.
From stdpp Require Import relations.
From Stdlib Require Import Ascii String.
Local Open Scope string_scope.
Local Open Scope Z_scope.

(** What the outside does for the checks of a target, in nanoseconds: the
    resolver's answer and when it comes ([None]: never), what the network
    would answer and when. *)
Record Backend := mk_backend {
  bk_answer : result (list SocketAddr) IoErrorKind;
  bk_resolver : option Z;
  bk_net : Network;
  bk_http : option Z;
  bk_tcp : option Z;
}.

Definition in_time (limit : Z) (t : option Z) : bool := match t with Some t => t <=? limit | None => false end.
(** The time spent waiting under a limit. *)
Definition spent (limit : Z) (t : option Z) : Z := match t with Some t => Z.min t limit | None => limit end.

Section timed.
Context {S : SelectNth} (cfg : HealthCheckConfig).

(** The network as a check sees it: what comes too late is a failure. *)
Definition timely (b : Backend) : Network :=
  mk_network (build_error (bk_net b))
    (fun p => if in_time (pr_timeout p) (bk_http b) then http_get (bk_net b) p else Err "operation timed out")
    (fun addr => if in_time (hc_timeout cfg) (bk_tcp b) then tcp_connect (bk_net b) addr else None).

Definition contact_time (b : Backend) (c : Contact) : Z :=
  match c with
  | HttpTo p => spent (pr_timeout p) (bk_http b)
  | TcpTo _ => spent (hc_timeout cfg) (bk_tcp b)
  end.

(** A probe opens its connections one after the other. *)
Definition probe_time (b : Backend) (self : Target) (resolved : result SocketAddr IoErrorKind) : Z :=
  Metrics.total (contact_time b) (check_result cfg (timely b) self resolved).2.

(** The resolver's answer is judged by the target alone. *)
Definition judged (b : Backend) (self : Target) : result SocketAddr IoErrorKind := (resolve_answer 0 (bk_answer b) self DnsCache.cache_new).2.

(** How long a check takes once it has begun; [None] for one that never
    ends. *)
Definition check_time (b : Backend) (self : Target) (pending : option (result SocketAddr IoErrorKind)) : option Z :=
  match pending with
  | Some r => Some (probe_time b self r)
  | None => t ← bk_resolver b; Some (t + probe_time b self (judged b self))
  end.

(** A round and the clock, with what is left of each running check. *)
Record TimedRound := mk_timed { tr_now : Z; tr_round : RoundState; tr_left : list (option Z) }.

Context (env : Target -> Backend).

Inductive timed_step : TimedRound -> TimedRound -> Prop :=
  | timed_begins now tg w running fin st left :
      (List.length running < MAX_PROBE_CONCURRENCY)%nat ->
      let begun := begin_check (now / 1000000) tg st in
      timed_step (mk_timed now (mk_round (tg :: w) running fin st) left)
        (mk_timed now (mk_round w (running ++ [(tg, begun.2)]) fin begun.1) (left ++ [check_time (env tg) tg begun.2]))
  | timed_ends now tg pending w r1 r2 fin st l1 l2 :
      List.length l1 = List.length r1 ->
      let answer := bk_answer (env tg) in
      timed_step (mk_timed now (mk_round w (r1 ++ (tg, pending) :: r2) fin st) (l1 ++ Some 0 :: l2))
        (mk_timed now
           (mk_round w (r1 ++ r2) (fin ++ [mk_outcome tg (resolve_rest (now / 1000000) answer tg pending st).2 (timely (env tg))])
              (end_check cfg (now / 1000000) answer (timely (env tg)) tg pending st).1)
           (l1 ++ l2))
  | time_passes now dt w running fin st left :
      0 < dt -> running <> [] -> (w = [] \/ List.length running = MAX_PROBE_CONCURRENCY) ->
      Forall (fun l => match l with Some t => dt <= t | None => True end) left ->
      timed_step (mk_timed now (mk_round w running fin st) left)
        (mk_timed (now + dt) (mk_round w running fin st) (map (fmap (fun t => t - dt)) left)).

Definition timed_start (now : Z) (targets : list Target) (st : CheckState) : TimedRound := mk_timed now (round_start targets st) [].

(** Without the clock it is a round of Checker.v. *)
Lemma timed_step_round s s' : timed_step s s' -> rtc (round_step cfg) (tr_round s) (tr_round s').
Proof. intros []; cbn [tr_round]; [apply rtc_once; by constructor..|done]. Qed.

Lemma timed_round s s' : rtc timed_step s s' -> rtc (round_step cfg) (tr_round s) (tr_round s').
Proof. induction 1 as [|s1 s2 s3 Hs _ IH]; [done|]. etrans; [by apply timed_step_round|done]. Qed.

(** ** The time of a check *)

Context (timeout_nonneg : 0 <= hc_timeout cfg).

(** Nothing takes a negative time. *)
Definition backend_ok (b : Backend) : Prop :=
  Forall (fun t => match t with Some t => 0 <= t | None => True end) [bk_resolver b; bk_http b; bk_tcp b].

Lemma spent_bounds limit t : 0 <= limit -> match t with Some t => 0 <= t | None => True end -> 0 <= spent limit t <= limit.
Proof. destruct t as [t|]; cbn; lia. Qed.

Lemma probe_time_bounds b self r : backend_ok b -> 0 <= probe_time b self r <= 2 * hc_timeout cfg.
Proof.
  intros Hb. unfold backend_ok in Hb. rewrite !Forall_cons in Hb. destruct Hb as (_ & Hh & Ht & _).
  pose proof (spent_bounds _ _ timeout_nonneg Hh) as Bh. pose proof (spent_bounds _ _ timeout_nonneg Ht) as Bt.
  unfold probe_time, check_result. destruct r as [addr|e]; [|cbn; lia].
  assert (Hp : forall scheme host port, Metrics.total (contact_time b) (probe_http cfg (timely b) scheme host port addr).2 = 0
            \/ Metrics.total (contact_time b) (probe_http cfg (timely b) scheme host port addr).2 = spent (hc_timeout cfg) (bk_http b)).
  { intros scheme host port. unfold probe_http. destruct (build_error (timely b)); [by left|]. right. cbn. lia. }
  unfold probe. destruct (upstream_tls self).
  - specialize (Hp "https" (upstream_host self) (upstream_port self)). destruct (probe_http _ _ _ _ _ _) as [r l]. cbn in *. lia.
  - specialize (Hp "http" (upstream_host self) (upstream_port self)). destruct (probe_http _ _ _ _ _ _) as [[u|e] l]; cbn in *; [lia|].
    assert (Happ : forall l', Metrics.total (contact_time b) (l ++ l') = Metrics.total (contact_time b) l + Metrics.total (contact_time b) l').
    { clear. intros l'. unfold Metrics.total. induction l as [|c l IH]; cbn; [done|]. rewrite IH. lia. }
    unfold probe_tcp. change (Metrics.total (contact_time b) l = 0 \/ Metrics.total (contact_time b) l = spent (hc_timeout cfg) (bk_http b)) in Hp.
    destruct (in_time (hc_timeout cfg) (bk_tcp b)); [destruct (tcp_connect (bk_net b) addr) as [[|]|]|]; cbn [snd]; rewrite Happ;
      change (Metrics.total (contact_time b) [TcpTo addr]) with (spent (hc_timeout cfg) (bk_tcp b) + 0); lia.
Qed.

(** What a check of a target may take at most: its resolver and both
    time-outs. *)
Definition check_budget (tg : Target) : Z := default 0 (bk_resolver (env tg)) + 2 * hc_timeout cfg.

(** The check of the target is answered: without the resolver, or by it. *)
Definition answered (tg : Target) : Prop :=
  backend_ok (env tg) /\ forall now st, (begin_check now tg st).2 = None -> is_Some (bk_resolver (env tg)).

Lemma check_time_bounds now tg st :
  answered tg -> exists t, check_time (env tg) tg (begin_check now tg st).2 = Some t /\ 0 <= t <= check_budget tg.
Proof.
  intros [Hb Ha]. assert (H0 : 0 <= default 0 (bk_resolver (env tg))).
  { unfold backend_ok in Hb. rewrite !Forall_cons in Hb. destruct Hb as [Hr _]. by destruct (bk_resolver (env tg)). }
  specialize (Ha now st). unfold check_budget. destruct (begin_check now tg st).2 as [r|]; cbn.
  - eexists. split; [done|]. pose proof (probe_time_bounds (env tg) tg r Hb). lia.
  - destruct (Ha eq_refl) as [t Et]. rewrite Et in *. cbn in *. eexists. split; [done|].
    pose proof (probe_time_bounds (env tg) tg (judged (env tg) tg) Hb). lia.
Qed.

(** ** The time of a round *)

Definition left_sum (left : list (option Z)) : Z := Metrics.total (default 0) left.

(** What is left to do: the checks that wait, at their most, and the rest of
    those that run. *)
Definition time_left (s : TimedRound) : Z := Metrics.total check_budget (waiting (tr_round s)) + left_sum (tr_left s).

Record timed_ok (s : TimedRound) : Prop := {
  to_length : List.length (tr_left s) = List.length (running (tr_round s));
  to_left : Forall (fun l => exists t, l = Some t /\ 0 <= t) (tr_left s);
  to_waiting : Forall answered (waiting (tr_round s));
  to_bound : (List.length (running (tr_round s)) <= MAX_PROBE_CONCURRENCY)%nat;
}.

Lemma left_sum_app l l' : left_sum (l ++ l') = left_sum l + left_sum l'.
Proof. unfold left_sum, Metrics.total. induction l as [|x l IH]; cbn; [done|]. rewrite IH. lia. Qed.

Lemma left_sum_minus dt left :
  0 < dt -> left <> [] -> Forall (fun l => exists t, l = Some t /\ 0 <= t) left -> left_sum (map (fmap (fun t => t - dt)) left) <= left_sum left - dt.
Proof.
  intros Hdt Hne Hl. assert (Hle : forall l, Forall (fun l => exists t, l = Some t /\ 0 <= t) l -> left_sum (map (fmap (fun t => t - dt)) l) <= left_sum l).
  { unfold left_sum, Metrics.total. induction 1 as [|x l (t & -> & _) _ IH]; cbn; [lia|]. cbn in IH. lia. }
  destruct Hl as [|x l (t & -> & _) Hl]; [done|]. specialize (Hle l Hl). unfold left_sum, Metrics.total in *. cbn in *. lia.
Qed.

Lemma time_left_nonneg s : timed_ok s -> 0 <= time_left s.
Proof.
  intros [_ Hl Hw _]. unfold time_left, left_sum, Metrics.total.
  assert (0 <= foldr (fun a n => check_budget a + n) 0 (waiting (tr_round s))).
  { induction Hw as [|tg w Ha _ IH]; cbn; [lia|]. destruct (check_time_bounds 0 tg (mk_check heap_empty DnsCache.cache_new Metrics.metrics_new) Ha) as (t & _ & ?). lia. }
  assert (0 <= foldr (fun a n => default 0 a + n) 0 (tr_left s)).
  { induction Hl as [|x l (t & -> & ?) _ IH]; cbn; lia. }
  lia.
Qed.

(** A step is one of the two a check has, or lets time pass. *)
Lemma timed_step_spec s s' :
  timed_step s s' -> timed_ok s ->
  timed_ok s' /\ tr_now s' + time_left s' <= tr_now s + time_left s
  /\ Z.of_nat (round_measure (tr_round s')) + time_left s' + 1 <= Z.of_nat (round_measure (tr_round s)) + time_left s.
Proof.
  intros Hstep [Hlen Hleft Hw Hb]. destruct Hstep as [now tg w running fin st left Hlt begun|now tg pending w r1 r2 fin st l1 l2 El answer|now dt w running fin st left Hdt Hne Hfull Hdts];
    unfold time_left, round_measure in *; cbn [tr_now tr_round tr_left waiting Checker.running finished] in *.
  - apply Forall_cons in Hw as [Ha Hw]. destruct (check_time_bounds (now / 1000000) tg st Ha) as (t & Et & Ht). fold begun in Et. rewrite Et.
    rewrite left_sum_app, !length_app. change (left_sum [Some t]) with (t + 0). cbn [Metrics.total foldr List.length]. unfold Metrics.total in *. cbn [foldr].
    split_and!; [|lia|lia]. split; cbn [tr_now tr_round tr_left waiting Checker.running]; [by rewrite !length_app, Hlen| |done|rewrite length_app; cbn; lia].
    apply Forall_app. split; [done|]. constructor; [|done]. exists t. split; [done|lia].
  - apply Forall_app in Hleft as [Hl1 Hl2]. apply Forall_cons in Hl2 as [_ Hl2]. rewrite !left_sum_app. change (left_sum (Some 0 :: l2)) with (0 + left_sum l2).
    rewrite !length_app in *. cbn [List.length] in *. split_and!; [|lia|lia].
    split; cbn [tr_now tr_round tr_left waiting Checker.running]; [rewrite !length_app; lia|by apply Forall_app|done|rewrite length_app; lia].
  - assert (Hn : left <> []) by (intros ->; by destruct running). pose proof (left_sum_minus dt left Hdt Hn Hleft).
    split_and!; [|lia|lia]. split; cbn [tr_now tr_round tr_left waiting Checker.running]; [by rewrite length_map| |done|done].
    apply Forall_map. eapply Forall_impl; [apply Forall_and; split; [exact Hleft|exact Hdts]|]. cbn. intros l [(t & -> & _) Ht]. exists (t - dt). split; [done|lia].
Qed.

Lemma timed_steps_spec n s s' :
  nsteps timed_step n s s' -> timed_ok s ->
  timed_ok s' /\ tr_now s' + time_left s' <= tr_now s + time_left s
  /\ Z.of_nat n + Z.of_nat (round_measure (tr_round s')) + time_left s' <= Z.of_nat (round_measure (tr_round s)) + time_left s.
Proof.
  induction 1 as [|n s1 s2 s3 Hstep _ IH]; intros Hok; [split_and!; (done || lia)|].
  destruct (timed_step_spec _ _ Hstep Hok) as (Hok2 & H1 & H2). destruct (IH Hok2) as (? & ? & ?). split_and!; [done|lia|lia].
Qed.

(** A round that is not over goes on. *)
Lemma timed_progress s : timed_ok s -> ~ round_over (tr_round s) -> exists s', timed_step s s'.
Proof.
  intros [Hlen Hleft Hw Hb] Hn. destruct s as [now [w r fin st] left]. cbn in *.
  destruct (decide (w <> [] /\ (List.length r < MAX_PROBE_CONCURRENCY)%nat)) as [[Hne Hlt]|Hfull].
  { destruct w as [|tg w]; [done|]. eexists. by apply timed_begins. }
  assert (Hr : r <> []).
  { intros ->. destruct w as [|tg w]; [by apply Hn|]. apply Hfull. split; [done|]. cbn. unfold MAX_PROBE_CONCURRENCY. lia. }
  destruct (decide (Some 0 ∈ left)) as [Hin|Hnin].
  - apply list_elem_of_split in Hin as (l1 & l2 & ->). rewrite length_app in Hlen. cbn in Hlen.
    destruct (drop (List.length l1) r) as [|[tg pending] r2] eqn:Ed.
    { apply (f_equal List.length) in Ed. rewrite length_drop in Ed. cbn in Ed. lia. }
    rewrite <- (take_drop (List.length l1) r), Ed. eexists. apply timed_ends. rewrite length_take. lia.
  - eexists. apply (time_passes now 1); [lia|done| |].
    + destruct w as [|tg w]; [by left|right]. destruct (decide (List.length r = MAX_PROBE_CONCURRENCY)) as [|Hd]; [done|]. exfalso. apply Hfull. split; [done|lia].
    + apply Forall_forall. intros l Hl. rewrite Forall_forall in Hleft. destruct (Hleft l Hl) as (t & -> & Ht).
      destruct (decide (t = 0)) as [->|]; [done|lia].
Qed.
End timed.

Section rounds.
Context {S : SelectNth}.

Lemma timed_start_ok env now targets st : Forall (answered env) targets -> timed_ok env (timed_start now targets st).
Proof. intros Ht. split; cbn; [done|constructor|done|lia]. Qed.

(** Every round from its start on can be carried to its end. *)
Lemma timed_completes cfg env :
  0 <= hc_timeout cfg -> forall s, timed_ok env s -> exists s', rtc (timed_step cfg env) s s' /\ round_over (tr_round s').
Proof.
  intros H0 s Hok. remember (Z.to_nat (Z.of_nat (round_measure (tr_round s)) + time_left cfg env s)) as k eqn:Ek.
  revert s Hok Ek. induction k as [k IH] using lt_wf_ind. intros s Hok ->.
  destruct (decide (round_measure (tr_round s) = 0%nat)) as [Ho%round_over_measure|Hn]; [by exists s|].
  rewrite <- round_over_measure in Hn. destruct (timed_progress cfg env s Hok Hn) as [s1 Hs1].
  destruct (timed_step_spec cfg env H0 s s1 Hs1 Hok) as (Hok1 & _ & Hm). pose proof (time_left_nonneg cfg env H0 s1 Hok1).
  destruct (IH (Z.to_nat (Z.of_nat (round_measure (tr_round s1)) + time_left cfg env s1)) ltac:(lia) s1 Hok1 eq_refl) as (s' & ? & ?).
  exists s'. split; [by eapply rtc_l|done].
Qed.

(** C17: A round of health checks ends. Let the resolver answer the checks of all
    its targets that have to ask it, after whatever time, and let servers
    answer late or never. In whatever order the checks begin and end, the
    round is over after at most the sum, over its targets, of the resolver's
    time and two time-outs (the HTTP request and the TCP fallback each give up
    at theirs), in a bounded number of steps, never coming to a halt before;
    and it is then a round as [health_turn] describes it. *)
Theorem round_terminates cfg env targets st now :
  0 <= hc_timeout cfg -> Forall (answered env) targets ->
  let budget := Metrics.total (check_budget cfg env) targets in
  (forall n s, nsteps (timed_step cfg env) n (timed_start now targets st) s ->
     tr_now s - now <= budget
     /\ Z.of_nat n <= 2 * Z.of_nat (List.length targets) + budget
     /\ (round_over (tr_round s) \/ exists s', timed_step cfg env s s'))
  /\ exists s, rtc (timed_step cfg env) (timed_start now targets st) s /\ tr_now s - now <= budget
       /\ runs_round cfg targets st (finished (tr_round s)) (rs_state (tr_round s)).
Proof.
  intros H0 Hans budget. pose proof (timed_start_ok env now targets st Hans) as Hok.
  assert (Hb : time_left cfg env (timed_start now targets st) = budget) by (unfold time_left, timed_start, round_start; cbn [tr_round tr_left waiting]; change (left_sum []) with 0; unfold budget; lia).
  assert (Hm : Z.of_nat (round_measure (tr_round (timed_start now targets st))) = 2 * Z.of_nat (List.length targets)) by (unfold round_measure; cbn; lia).
  assert (Hn : forall n s, nsteps (timed_step cfg env) n (timed_start now targets st) s ->
     timed_ok env s /\ tr_now s - now <= budget /\ Z.of_nat n <= 2 * Z.of_nat (List.length targets) + budget).
  { intros n s Hs. destruct (timed_steps_spec cfg env H0 n _ s Hs Hok) as (Hok' & Ht & Hc). rewrite Hb in Ht, Hc. rewrite Hm in Hc. change (tr_now (timed_start now targets st)) with now in Ht.
    pose proof (time_left_nonneg cfg env H0 s Hok'). split_and!; [done|lia|lia]. }
  split.
  - intros n s Hs. destruct (Hn n s Hs) as (Hok' & Ht & Hc). split_and!; [done|done|].
    destruct (decide (round_measure (tr_round s) = 0%nat)) as [Ho%round_over_measure|Ho]; [by left|right].
    rewrite <- round_over_measure in Ho. by apply timed_progress.
  - destruct (timed_completes cfg env H0 _ Hok) as (s & Hs & Ho). exists s. split; [done|].
    destruct (proj1 (rtc_nsteps _ _) Hs) as [n Hns]. destruct (Hn n s Hns) as (_ & Ht & _). split; [done|].
    pose proof (timed_round cfg env _ _ Hs) as Hr. cbn [timed_start tr_round] in Hr. unfold runs_round.
    destruct s as [now' [w r fin st'] left]. destruct Ho as [Ew Er]. cbn in *. by subst.
Qed.

(** The resolver is waited for without a limit: a check whose name is never
    answered keeps the round from ending, and the loop from its next turn. *)
Theorem unanswered_name_holds_round cfg env s s' :
  None ∈ tr_left s -> List.length (tr_left s) = List.length (running (tr_round s)) ->
  rtc (timed_step cfg env) s s' -> ~ round_over (tr_round s').
Proof.
  intros Hin Hlen Hs. assert (H : None ∈ tr_left s' /\ List.length (tr_left s') = List.length (running (tr_round s'))).
  { revert Hin Hlen. induction Hs as [s|s1 s2 s3 Hstep _ IH]; intros Hin Hlen; [done|]. apply IH; destruct Hstep; cbn in *.
    - apply elem_of_app. by left.
    - rewrite !elem_of_app in *. rewrite elem_of_cons in Hin. destruct Hin as [?|[?|?]]; [by left|done|by right].
    - apply list_elem_of_In, in_map_iff. exists None. split; [done|]. by apply list_elem_of_In.
    - by rewrite !length_app, Hlen.
    - rewrite !length_app in *. cbn in Hlen. lia.
    - by rewrite length_map. }
  destruct H as [Hin' Hlen']. intros [_ Er]. rewrite Er in Hlen'. destruct (tr_left s'); [by apply elem_of_nil in Hin'|done].
Qed.
End rounds.

(** ** A slow backend and a hung one *)

#[local] Existing Instance DnsCache.sort_select.

(** The resolver takes 3 ns; the HTTP answer comes too late, the connection
    in time. *)
Definition slow : Backend := mk_backend (Ok [mk_sock (V4 (mk_v4 8 8 8 8)) 80]) (Some 3) all_up (Some 2000000000) (Some 5).
Definition slow_targets : list Target := all_targets (published demo_ms.1).

Lemma slow_answered : Forall (answered (fun _ => slow)) slow_targets.
Proof.
  apply Forall_true. intros tg. split; [|by intros now st _; exists 3]. unfold backend_ok. repeat constructor; cbn; lia.
Qed.

Lemma round_terminates_witness :
  check_time demo_hc slow Upstream.demo_target None = Some (3 + (1000000000 + (5 + 0)))
  /\ Metrics.total (check_budget demo_hc (fun _ => slow)) slow_targets = 2000000003
  /\ exists s, rtc (timed_step demo_hc (fun _ => slow)) (timed_start 7 slow_targets demo_check) s /\ tr_now s - 7 <= 2000000003
       /\ runs_round demo_hc slow_targets demo_check (finished (tr_round s)) (rs_state (tr_round s)).
Proof.
  split; [vm_compute; reflexivity|]. assert (E : Metrics.total (check_budget demo_hc (fun _ => slow)) slow_targets = 2000000003) by (vm_compute; reflexivity).
  split; [exact E|]. rewrite <- E. apply (round_terminates demo_hc (fun _ => slow) slow_targets demo_check 7); [vm_compute; discriminate|exact slow_answered].
Defined.

(** A check whose name is never answered has begun:
    the round never ends. *)
Definition hung : Backend := mk_backend (Err OtherIo) None all_up None None.
Definition hung_round : TimedRound :=
  mk_timed 0 (mk_round [] [(Upstream.demo_target, None)] [] demo_check) [check_time demo_hc hung Upstream.demo_target None].

Lemma unanswered_name_holds_round_witness :
  forall s', rtc (timed_step demo_hc (fun _ => hung)) hung_round s' -> ~ round_over (tr_round s').
Proof.
  intros s'. apply (unanswered_name_holds_round demo_hc (fun _ => hung) hung_round s'); [by left|reflexivity].
Defined.
