(* ===== verification/Lifecycle.v ===== *)
(** * Lifecycle: the callbacks of a request

    Models the trait callbacks of src/src/proxy/handler.rs and what access.rs
    answers and records: the context of a request from [new_ctx] to [logging],
    the health endpoint, the answers to failed requests and the access log
    with its metrics. The proxy framework decides when a callback runs: a step
    relation allows every order and every interleaving in which a context is
    made before it is used and logged once, and with them the accesses of TCP
    connections (src/src/proxy/tcp.rs), which move the same gauge. *)
From S2P Require Import Prelude RustStr StrFacts Net Http Metrics.
From S2P Require Import Prog Net Routes RateLimit CircuitBreaker DnsCache Health Stats Target Weights Table Picker Upstream.
From S2P Require Tcp Moments.
From Stdlib Require Import Ascii String.
Local Open Scope string_scope.
Local Open Scope Z_scope.
Local Open Scope rust_scope.

(** ** Contexts and answers *)

Record ProxyCtx := mk_ctx {
  ctx_picked_target : option Target;
  ctx_response_status : Z;
  request_start : option Z;
  ctx_is_grpc : bool;
  ctx_is_grpc_web : bool;
  ctx_is_websocket : bool;
  ctx_is_sse : bool;
  upstream_response_bytes : Z;
}.

(** A response header and the body written after it, if any. *)
Record Response := mk_response { resp_status : Z; resp_headers : HeaderMap; resp_body : option string }.

Record FailToProxy := mk_fail { error_code : Z; can_reuse_downstream : bool }.

(** The line of the access log. *)
Record AccessLine := mk_line {
  line_method : string;
  line_host : string;
  line_path : string;
  line_status : Z;
  line_latency_us : Z;
  line_upstream : string;
  line_grpc : bool;
  line_grpc_web : bool;
  line_websocket : bool;
  line_bytes : Z;
}.

Definition set_picked (t : option Target) (c : ProxyCtx) : ProxyCtx :=
  mk_ctx t (ctx_response_status c) (request_start c) (ctx_is_grpc c) (ctx_is_grpc_web c) (ctx_is_websocket c) (ctx_is_sse c)
    (upstream_response_bytes c).
Definition set_response_status (s : Z) (c : ProxyCtx) : ProxyCtx :=
  mk_ctx (ctx_picked_target c) s (request_start c) (ctx_is_grpc c) (ctx_is_grpc_web c) (ctx_is_websocket c) (ctx_is_sse c)
    (upstream_response_bytes c).

Definition early_request_filter (header : RequestHeader) (c : ProxyCtx) : ProxyCtx :=
  let grpc_web := is_grpc_web_request header in
  mk_ctx (ctx_picked_target c) (ctx_response_status c) (request_start c) (grpc_web || is_grpc_request header) grpc_web
    (is_websocket_upgrade header) (is_sse_request header) (upstream_response_bytes c).

Definition quoted (s : string) : string := String dquote (s ++ String dquote "").

Definition health_body (version : string) : string :=
  "{" ++ quoted "status" ++ ":" ++ quoted "ok" ++ "," ++ quoted "service" ++ ":" ++ quoted "sentirum-lb" ++ ","
  ++ quoted "version" ++ ":" ++ quoted version ++ "}".

Definition is_health_path (path : string) : bool := String.eqb path "/health" || String.eqb path "/healthz".

(** [request_filter]: what is written, and whether the request is handled;
    [written] tells whether the session could be written to. *)
Definition request_filter (version : string) (written : bool) (header : RequestHeader) (c : ProxyCtx)
    : ProxyCtx * option Response * result bool ErrorType :=
  if is_health_path (uri_path (uri header)) then
    let body := health_body version in
    let resp := mk_response 200 (insert_header "Content-Length" (show_uint (str_len body)) (insert_header "Content-Type" "application/json" []))
                  (Some body) in
    if written then (set_response_status 200 c, Some resp, Ok true) else (c, None, Err OtherError)
  else (c, None, Ok false).

Definition response_filter (status : Z) (c : ProxyCtx) : ProxyCtx := set_response_status status c.

(** [body]: the length of the chunk, if there is one. *)
Definition upstream_response_body_filter (body : option Z) (c : ProxyCtx) : ProxyCtx :=
  match body with
  | Some n =>
      mk_ctx (ctx_picked_target c) (ctx_response_status c) (request_start c) (ctx_is_grpc c) (ctx_is_grpc_web c)
        (ctx_is_websocket c) (ctx_is_sse c) (upstream_response_bytes c +w n)
  | None => c
  end.

(** ** Answers to failed requests *)

(** The reason phrase of a status code, [None] for one without. *)
Class CanonicalReason := canonical_reason : Z -> option string.

(** [StatusCode::from_u16] *)
Definition valid_status (status : Z) : bool := between 100 999 status.

Definition status_message `{CanonicalReason} (status : Z) : string :=
  default "Request Failed" (if valid_status status then canonical_reason status else None).

Definition write_grpc_error_response (http_status : Z) (message : string) : Response :=
  mk_response 200
    (insert_header "grpc-message" (sanitize_grpc_message message)
       (insert_header "grpc-status" (grpc_status_for_http_status http_status) (insert_header "Content-Type" "application/grpc" []))) None.

Definition error_message `{CanonicalReason} (error : ErrorType) : string :=
  match error with
  | HTTPStatus code => status_message code
  | ConnectTimedout => "Gateway Timeout"
  | ConnectRefused => "Bad Gateway: upstream refused connection"
  | ConnectNoRoute => "Bad Gateway: no route to upstream"
  | InvalidHTTPHeader => "Bad Gateway: invalid response from upstream"
  | OtherError => "Internal Server Error"
  end.

(** [ResponseHeader::build] of the status, or of 500. *)
Definition built_status (status : Z) : Z := if valid_status status then status else 500.

Definition error_body (status : Z) (message : string) : string :=
  "{" ++ quoted "error" ++ ":" ++ quoted message ++ "," ++ quoted "status" ++ ":" ++ show_uint status ++ "}".

Definition error_response `{CanonicalReason} (error : ErrorType) (c : ProxyCtx) : Response :=
  let status := write_proxy_error_status error in
  let message := error_message error in
  if ctx_is_grpc c then write_grpc_error_response status message
  else
    let body := if ctx_is_websocket c then message else error_body status message in
    let content_type := if ctx_is_websocket c then "text/plain; charset=utf-8" else "application/json" in
    mk_response (built_status status) (insert_header "Content-Type" content_type []) (if is_empty body then None else Some body).

(** [write_proxy_error]: what reaches the session ([written] as above). *)
Definition write_proxy_error `{CanonicalReason} (written : bool) (error : ErrorType) (c : ProxyCtx) : option Response * FailToProxy :=
  let status := write_proxy_error_status error in
  ((if (0 <? status) && written then Some (error_response error c) else None), mk_fail status false).

(** ** The server *)

Section lifecycle.
Context {G : GlobCrate} {SN : SelectNth} {O : HashOrder} {CR : CanonicalReason}.

(** What all requests and connections share: the state of the proxy and the
    metrics. *)
Record Server := mk_server { balancer : ProxyState; global_metrics : Metrics }.

(** The counters of the proxy are counters of the metrics. *)
Definition counters_of (m : Metrics) : ProxyCounters :=
  mk_counters (Metrics.load m circuit_breaker_open_total) (Metrics.load m circuit_breaker_reopen_total)
    (Metrics.load m circuit_breaker_close_total) (Metrics.load m circuit_breaker_fastfail_total)
    (Metrics.load m Metrics.rate_limit_rejected_total) (Metrics.load m Metrics.active_connections).

Definition store_counters (c : ProxyCounters) (m : Metrics) : Metrics :=
  Metrics.store circuit_breaker_open_total (cb_open_total c) (Metrics.store circuit_breaker_reopen_total (cb_reopen_total c)
    (Metrics.store circuit_breaker_close_total (cb_close_total c) (Metrics.store circuit_breaker_fastfail_total (fastfail_total c)
      (Metrics.store Metrics.rate_limit_rejected_total (rate_limit_rejected_total c) (Metrics.store Metrics.active_connections (active_gauge c) m))))).

Definition proxy_view (s : Server) : ProxyState := set_counters (counters_of (global_metrics s)) (balancer s).
Definition set_balancer (b : ProxyState) (s : Server) : Server := mk_server b (store_counters (px_counters b) (global_metrics s)).
Definition on_metrics (f : Metrics -> Metrics) : prog Server unit := store (fun s => mk_server (balancer s) (f (global_metrics s))).
Definition on_balancer {A} (m : P A) : prog Server A := zoom proxy_view set_balancer m.

Definition new_ctx : prog Server ProxyCtx :=
  on_metrics Metrics.connect;;
  let! now := load (fun s => px_now_ns (balancer s)) in
  Ret (mk_ctx None 0 (Some now) false false false false 0).

Definition upstream_peer (fuel : nat) (spurious : nat -> bool) (rq : Request) (c : ProxyCtx) : prog Server (ProxyCtx * result Peer ErrorType) :=
  let! r := on_balancer (select_upstream_peer fuel spurious rq) in Ret (set_picked (assign_picked r.1 (ctx_picked_target c)) c, r.2).

(** The task of an accepted TCP connection. *)
Definition tcp_connection (mode : Tcp.TcpListenerMode) (c : Tcp.Connection) : prog Server Tcp.TcpOutcome := on_balancer (Tcp.serve_connection mode c).

(** [path_and_query] *)
Definition path_text (u : Uri) : string :=
  match uri_query u with Some query => uri_path u ++ "?" ++ query | None => uri_path u end.

(** [elapsed().as_micros() as u64] *)
Definition latency (now : Z) (c : ProxyCtx) : Z :=
  match request_start c with Some start => wrap64 (Z.max (now - start) 0 / 1000) | None => 0 end.

Definition access_line (meth : string) (header : RequestHeader) (error : option ErrorType) (now : Z) (c : ProxyCtx) : AccessLine :=
  mk_line meth (default "-" (header_str "host" (headers header))) (path_text (uri header))
    (response_status (ctx_response_status c) error) (latency now c)
    (match ctx_picked_target c with Some t => url t | None => "-" end)
    (ctx_is_grpc c) (ctx_is_grpc_web c) (ctx_is_websocket c) (upstream_response_bytes c).

(** The metrics of a logged request. *)
Definition count_line (l : AccessLine) (m : Metrics) : Metrics :=
  disconnect (record_bytes (line_bytes l)
    (Metrics.record_request (line_status l) (line_latency_us l)
       (record_protocol_request (line_grpc l) (line_grpc_web l) (line_websocket l) m))).

(** [record_access_log], all of it. *)
Definition logging (meth : string) (header : RequestHeader) (error : option ErrorType) (c : ProxyCtx) : prog Server AccessLine :=
  let! now := load (fun s => px_now_ns (balancer s)) in
  let line := access_line meth header error now c in
  on_metrics (count_line line);;
  on_balancer (record_access_log (ctx_picked_target c) (ctx_response_status c) error (line_latency_us line) (line_bytes line));;
  Ret line.

(** ** The requests in flight *)

(** The server, the live contexts by request, the access log and what each
    callback wrote, newest last, and what is left to do of each TCP
    connection. *)
Record World := mk_world {
  server : Server;
  contexts : gmap nat ProxyCtx;
  access_log : list AccessLine;
  answers : list (nat * Response);
  connections : list (prog Server Tcp.TcpOutcome);
}.

Inductive callback :=
  | NewCtx
  | EarlyRequestFilter (header : RequestHeader)
  | RequestFilter (version : string) (written : bool) (header : RequestHeader)
  | UpstreamPeer (fuel : nat) (spurious : nat -> bool) (rq : Request)
  | ResponseFilter (status : Z)
  | UpstreamResponseBodyFilter (body : option Z)
  | FailToProxyCb (written : bool) (error : ErrorType)
  | Logging (meth : string) (header : RequestHeader) (error : option ErrorType).

Definition with_ctx (i : nat) (c : ProxyCtx) (w : World) : World :=
  mk_world (server w) (<[i := c]> (contexts w)) (access_log w) (answers w) (connections w).
Definition answered (i : nat) (r : option Response) (w : World) : World :=
  mk_world (server w) (contexts w) (access_log w) (answers w ++ match r with Some r => [(i, r)] | None => [] end)%list (connections w).
Definition with_server (s : Server) (w : World) : World := mk_world s (contexts w) (access_log w) (answers w) (connections w).
Definition with_connections (ps : list (prog Server Tcp.TcpOutcome)) (w : World) : World :=
  mk_world (server w) (contexts w) (access_log w) (answers w) ps.

(** A callback of the request [i]; [None] when the framework cannot make it:
    a new context is made for a request that has none, all others need one. *)
Definition run_callback (i : nat) (cb : callback) (w : World) : option World :=
  match cb, contexts w !! i with
  | NewCtx, None => let '(s, c) := run new_ctx (server w) in Some (with_ctx i c (with_server s w))
  | EarlyRequestFilter header, Some c => Some (with_ctx i (early_request_filter header c) w)
  | RequestFilter version written header, Some c =>
      let '(c, resp, _) := request_filter version written header c in Some (answered i resp (with_ctx i c w))
  | UpstreamPeer fuel spurious rq, Some c =>
      let '(s, (c, _)) := run (upstream_peer fuel spurious rq c) (server w) in Some (with_ctx i c (with_server s w))
  | ResponseFilter status, Some c => Some (with_ctx i (response_filter status c) w)
  | UpstreamResponseBodyFilter body, Some c => Some (with_ctx i (upstream_response_body_filter body c) w)
  | FailToProxyCb written error, Some c => Some (answered i (write_proxy_error written error c).1 w)
  | Logging meth header error, Some c =>
      let '(s, line) := run (logging meth header error c) (server w) in
      Some (mk_world s (delete i (contexts w)) (access_log w ++ [line])%list (answers w) (connections w))
  | _, _ => None
  end.

(** The next access of the [i]-th connection. *)
Definition run_access (i : nat) (w : World) : option World :=
  match connections w !! i with
  | Some (Access act k) =>
      let '(s, b) := act (server w) in Some (with_connections (<[i := k b]> (connections w)) (with_server s w))
  | _ => None
  end.

(** The counters requests change and, but for the gauge of active connections
    that the TCP proxy moves too, nothing else. *)
Definition request_counters : list Counter :=
  [Metrics.requests_total; requests_error_total; bytes_received_total; grpc_requests_total; grpc_web_requests_total;
   websocket_requests_total; Metrics.active_connections; Metrics.latency_sum_us; status_2xx; status_3xx; status_4xx; status_5xx; latency_bucket_1ms]
  ++ map snd wider_buckets.

Definition same_requests (s s' : Server) : Prop :=
  forall c, c ∈ request_counters -> Metrics.load (global_metrics s') c = Metrics.load (global_metrics s) c.

(** A callback of a request; a TCP connection accepted, or one access of one;
    or anything else the process does: time passes, probes run, tables are
    swapped and other counters move. *)
Inductive server_step : World -> World -> Prop :=
  | step_callback i cb w w' : run_callback i cb w = Some w' -> server_step w w'
  | step_accept mode c w : server_step w (with_connections (connections w ++ [tcp_connection mode c])%list w)
  | step_access i w w' : run_access i w = Some w' -> server_step w w'
  | step_other s w : same_requests (server w) s -> server_step w (with_server s w).

Definition world_new (b : ProxyState) : World := mk_world (mk_server b metrics_new) ∅ [] [] [].
Definition reachable (w : World) : Prop := exists b, rtc server_step (world_new b) w.
End lifecycle.

(** ** The access log and the metrics *)

(** How much a line of the log adds to a counter. *)
Definition line_hits (c : Counter) (l : AccessLine) : Z :=
  is_counter c grpc_requests_total * Z.b2z (line_grpc l) + is_counter c grpc_web_requests_total * Z.b2z (line_grpc_web l)
  + is_counter c websocket_requests_total * Z.b2z (line_websocket l) + Metrics.hits c (line_status l, line_latency_us l)
  + is_counter c Metrics.latency_sum_us * line_latency_us l + is_counter c bytes_received_total * line_bytes l.

Lemma fetch_add_counts c c0 n m S :
  Metrics.load m c = wrap64 S -> Metrics.load (Metrics.fetch_add c0 n m) c = wrap64 (S + is_counter c c0 * n).
Proof.
  intros E. unfold Metrics.fetch_add, Metrics.store, is_counter. cbn. destruct (decide (c = c0)) as [->|].
  - by rewrite E, wrap64_add, Z.mul_1_l.
  - by rewrite Z.mul_0_l, Z.add_0_r.
Qed.

Lemma fetch_add_other c c0 n m : c <> c0 -> Metrics.load (Metrics.fetch_add c0 n m) c = Metrics.load m c.
Proof. intros Hc. unfold Metrics.fetch_add, Metrics.store. cbn. by destruct (decide (c = c0)). Qed.

Lemma bump_if_counts b c c0 m S :
  Metrics.load m c = wrap64 S -> Metrics.load (bump_if b c0 m) c = wrap64 (S + is_counter c c0 * Z.b2z b).
Proof.
  intros E. destruct b; cbn [bump_if Z.b2z]; [by apply fetch_add_counts|]. by rewrite Z.mul_0_r, Z.add_0_r.
Qed.

(** What a request adds to its classes leaves the other counters alone. *)
Lemma record_rest_other c s l m :
  in_latency c = false -> in_status c = false -> c <> requests_error_total ->
  Metrics.load (record_status s (bump (latency_bucket l) m)) c = Metrics.load m c.
Proof.
  intros Hl Hs He.
  assert (Hb : Metrics.load (bump (latency_bucket l) m) c = Metrics.load m c).
  { apply fetch_add_other. intros ->. by rewrite latency_bucket_in in Hl. }
  rewrite <- Hb. generalize (bump (latency_bucket l) m). intros m'. unfold record_status, bump.
  destruct (between 200 299 s), (between 300 399 s), (between 400 499 s); rewrite ?fetch_add_other by (done || by intros ->); done.
Qed.

Lemma request_counts c s l m S :
  Metrics.load m c = wrap64 S ->
  Metrics.load (Metrics.record_request s l m) c = wrap64 (S + Metrics.hits c (s, l) + is_counter c Metrics.latency_sum_us * l).
Proof.
  intros E. destruct (decide (c = Metrics.latency_sum_us)) as [->|Hc].
  - assert (Hh : Metrics.hits Metrics.latency_sum_us (s, l) = 0).
    { unfold Metrics.hits. rewrite (is_counter_apart in_latency _ (latency_bucket _)), (is_counter_apart in_status _ (status_counter _))
        by (done || apply latency_bucket_in || apply status_counter_in). by destruct (is_error_status _). }
    rewrite Hh, Z.add_0_r. unfold Metrics.record_request.
    set (m1 := Metrics.fetch_add Metrics.latency_sum_us l _).
    assert (E1 : Metrics.load m1 Metrics.latency_sum_us = wrap64 (S + is_counter Metrics.latency_sum_us Metrics.latency_sum_us * l)).
    { apply fetch_add_counts. unfold bump. erewrite fetch_add_counts by done. f_equal. change (is_counter Metrics.latency_sum_us Metrics.requests_total) with 0. lia. }
    rewrite <- E1. apply record_rest_other; done.
  - rewrite (record_request_counts c s l m S Hc E). f_equal. unfold is_counter. destruct (decide _); [done|]. lia.
Qed.

Lemma count_line_counts c l m S :
  c <> Metrics.active_connections -> Metrics.load m c = wrap64 S -> Metrics.load (count_line l m) c = wrap64 (S + line_hits c l).
Proof.
  intros Hc E. unfold count_line, disconnect, Metrics.store. cbn [Metrics.load]. destruct (decide (c = _)); [done|].
  unfold record_bytes, record_protocol_request.
  erewrite fetch_add_counts by (apply request_counts; do 3 apply bump_if_counts; exact E). f_equal. unfold line_hits. lia.
Qed.

Lemma gauge_count_line l m :
  Metrics.load (count_line l m) Metrics.active_connections = wrap_i64 (Metrics.load m Metrics.active_connections - 1).
Proof.
  unfold count_line, disconnect, Metrics.store. cbn [Metrics.load]. destruct (decide _); [|done]. do 2 f_equal.
  unfold record_bytes, Metrics.record_request. rewrite fetch_add_other, record_rest_other by done.
  unfold bump. rewrite !fetch_add_other by done. unfold record_protocol_request.
  by destruct (line_grpc l), (line_grpc_web l), (line_websocket l).
Qed.

(** ** The guard of a TCP connection *)

Section guard.
Context {S : Type} (gauge : S -> Z).

(** The accesses of [m], which now counts for [b] in the gauge, move it by
    what they change of that, whatever else is in it; [m] ends as [Q] says. *)
Fixpoint guarded {A} (Q : A -> bool -> Prop) (m : prog S A) (b : bool) : Prop :=
  match m with
  | Ret a => Q a b
  | Access act k =>
      forall s g, gauge s = wrap_i64 (g + Z.b2z b) ->
      exists b', gauge (act s).1 = wrap_i64 (g + Z.b2z b') /\ guarded Q (k (act s).2) b'
  end.

Lemma guarded_bind {A B} (Q : A -> bool -> Prop) (R : B -> bool -> Prop) m f b :
  guarded Q m b -> (forall a b, Q a b -> guarded R (f a) b) -> guarded R (bind m f) b.
Proof.
  revert b. induction m as [a|C act k IH]; cbn; intros b Hm Hf; [by apply Hf|].
  intros s g Hg. destruct (Hm s g Hg) as (b' & Hg' & Hk). eauto.
Qed.

Lemma guarded_quiet {A} (m : prog S A) b : within (fun s s' => gauge s' = gauge s) m -> guarded (fun _ b' => b' = b) m b.
Proof.
  induction m as [a|C act k IH]; cbn; [done|]. intros Hm s g Hg. destruct (Hm s) as [Hs Hk]. exists b. rewrite Hs. auto.
Qed.

Lemma guarded_quiet_bind {A B} (Q : B -> bool -> Prop) (m : prog S A) f b :
  within (fun s s' => gauge s' = gauge s) m -> (forall a, guarded Q (f a) b) -> guarded Q (bind m f) b.
Proof. intros Hm Hf. eapply guarded_bind; [by apply guarded_quiet|]. by intros a b' ->. Qed.

Lemma guarded_run {A} (Q : A -> bool -> Prop) (m : prog S A) b s g :
  guarded Q m b -> gauge s = wrap_i64 (g + Z.b2z b) ->
  exists b', gauge (run m s).1 = wrap_i64 (g + Z.b2z b') /\ Q (run m s).2 b'.
Proof.
  revert b s. induction m as [a|C act k IH]; cbn; intros b s Hm Hg; [by exists b|].
  destruct (Hm s g Hg) as (b' & Hg' & Hk). destruct (act s) as [s' x]. by apply (IH _ b').
Qed.
End guard.

Lemma guarded_zoom {S T A} (get : S -> T) (put : T -> S -> S) (gauge : S -> Z) (gauge' : T -> Z) (Q : A -> bool -> Prop) m b :
  (forall s, gauge' (get s) = gauge s) -> (forall t s, gauge (put t s) = gauge' t) ->
  guarded gauge' Q m b -> guarded gauge Q (zoom get put m) b.
Proof.
  intros Hget Hput. revert b. induction m as [a|C act k IH]; cbn; intros b Hm; [done|]. intros s g Hg. rewrite <- Hget in Hg.
  destruct (Hm (get s) g Hg) as (b' & Hg' & Hk). exists b'. destruct (act (get s)) as [t x]. cbn in *. rewrite Hput. auto.
Qed.

Section accounting.
Context {G : GlobCrate} {SN : SelectNth} {O : HashOrder} {CR : CanonicalReason}.

Definition proxy_gauge (s : ProxyState) : Z := active_gauge (px_counters s).
Definition gauge (s : Server) : Z := Metrics.load (global_metrics s) Metrics.active_connections.

Lemma quiet_gauge {A} (m : P A) : within Moments.quiet_effect m -> within (fun s s' => proxy_gauge s' = proxy_gauge s) m.
Proof. apply within_weaken. by intros s s' []. Qed.

Lemma gauge_moves {B} (Q : B -> bool -> Prop) b b' (f : unit -> P B) :
  guarded proxy_gauge Q (f tt) b' -> guarded proxy_gauge Q (bind (move_gauge (Z.b2z b' - Z.b2z b)) f) b.
Proof.
  intros Hf s g Hg. exists b'. split; [|done]. unfold proxy_gauge in *. cbn. rewrite Hg, wrap_i64_shift. f_equal. lia.
Qed.

(** A connection that ended no longer counts. *)
Definition released {A} : A -> bool -> Prop := fun _ b => b = false.

Lemma relay_guarded c initial rest t : guarded proxy_gauge released (Tcp.proxy_tcp_streams c initial rest t) false.
Proof.
  apply guarded_quiet_bind; [done|]. intros config. unfold Tcp.proxy_tcp_streams_with.
  apply guarded_quiet_bind; [apply quiet_gauge, Moments.within_slots|]. intros slot. destruct (negb _); [done|].
  apply (gauge_moves _ false true). apply guarded_quiet_bind; [apply quiet_gauge, Moments.within_relay|]. intros o.
  apply guarded_quiet_bind; [apply quiet_gauge, Moments.within_slots|]. intros _. by apply (gauge_moves _ true false).
Qed.

Lemma connection_guarded mode c : guarded gauge released (tcp_connection mode c) false.
Proof.
  apply (guarded_zoom _ _ _ proxy_gauge); [done|done|]. destruct mode as [| |addr]; cbn [Tcp.serve_connection].
  - unfold Tcp.handle_tcp_connection. destruct (Tcp.cn_local_addr c) as [a|]; [|done]. apply guarded_quiet_bind; [done|]. intros config.
    apply guarded_quiet_bind; [apply quiet_gauge, Moments.within_tcp_lookup|]. intros [t|]; [apply relay_guarded|done].
  - apply guarded_quiet_bind; [done|]. intros config. destruct (Tcp.read_client_hello _) as [[hello rest]|]; [|done].
    destruct (Tcp.hello_name hello) as [name|]; [|done]. destruct (is_empty name); [done|].
    apply guarded_quiet_bind; [apply quiet_gauge, Moments.within_tcp_lookup|]. intros [t|]; [apply relay_guarded|done].
  - apply guarded_quiet_bind; [done|]. intros config. destruct (Tcp.read_client_hello _) as [[hello rest]|[[]|]]; [|done..].
    destruct (_ ≫= _) as [name|]; [|done].
    apply guarded_quiet_bind; [apply quiet_gauge, Moments.within_tcp_lookup|]. intros [t|]; [apply relay_guarded|done].
Qed.

(** ** What the steps do to the metrics of requests *)

(** The proxy writes none of the counters of requests but the gauge. *)
Definition same_but_gauge (s s' : Server) : Prop :=
  forall c, c ∈ request_counters -> c <> Metrics.active_connections -> Metrics.load (global_metrics s') c = Metrics.load (global_metrics s) c.

Lemma store_counters_apart pc m c :
  c ∈ request_counters -> c <> Metrics.active_connections -> Metrics.load (store_counters pc m) c = Metrics.load m c.
Proof.
  intros Hin Hne. unfold store_counters, Metrics.store. cbn [Metrics.load].
  repeat (rewrite decide_False by (intros ->; first [done|by apply (bool_decide_unpack _) in Hin as []|revert Hin; apply (bool_decide_unpack _); vm_compute; exact I])).
  done.
Qed.

Lemma within_balancer {A} (m : P A) : within same_but_gauge (on_balancer m).
Proof. apply (within_zoom _ _ _ (fun _ _ => True)); [|by apply within_any]. intros s t _ c. apply store_counters_apart. Qed.

Lemma run_quiet {A} (m : P A) s : within Moments.quiet_effect m -> same_requests s (run (on_balancer m) s).1.
Proof.
  intros Hm. assert (Hg : gauge (run (on_balancer m) s).1 = gauge s).
  { apply (within_run (fun s s' => gauge s' = gauge s)); [done|by intros ? ? ? -> ->|].
    by apply (within_zoom _ _ _ (fun s s' => proxy_gauge s' = proxy_gauge s)); [|apply quiet_gauge]. }
  assert (Hc : same_but_gauge s (run (on_balancer m) s).1).
  { apply within_run; [done| |apply within_balancer]. intros s1 s2 s3 H1 H2 c Hin Hne. by rewrite H2, H1. }
  intros c Hin. destruct (decide (c = Metrics.active_connections)) as [->|Hne]; [exact Hg|by apply Hc].
Qed.

Lemma run_logging meth header e c s :
  let line := access_line meth header e (px_now_ns (balancer s)) c in
  same_requests (mk_server (balancer s) (count_line line (global_metrics s))) (run (logging meth header e c) s).1
  /\ (run (logging meth header e c) s).2 = line.
Proof.
  unfold logging. rewrite run_bind. cbn -[on_balancer access_line]. rewrite run_bind.
  match goal with |- context [run (on_balancer ?m) ?s] =>
    pose proof (run_quiet m s (Moments.within_record _ _ _ _ _)) as Hz; destruct (run (on_balancer m) s) end.
  done.
Qed.

(** The connections counted in the gauge: those that, left to run to their
    end, take one off it. *)
Definition counted (p : prog Server Tcp.TcpOutcome) (b : bool) : Prop :=
  forall s g, gauge s = wrap_i64 (g + Z.b2z b) -> gauge (run p s).1 = wrap_i64 g.

Lemma guarded_counted p b : guarded gauge released p b -> counted p b.
Proof.
  intros Hp s g Hg. destruct (guarded_run _ _ _ _ _ _ Hp Hg) as (b' & Hg' & ->). rewrite Hg'. f_equal. cbn. lia.
Qed.

Record accounted (w : World) (held : list bool) : Prop := {
  ac_gauge : gauge (server w) = wrap_i64 (Z.of_nat (size (contexts w)) + total Z.b2z held);
  ac_held : Forall2 (guarded gauge released) (connections w) held;
  ac_within : Forall (within same_but_gauge) (connections w);
  ac_counts c : c ∈ request_counters -> c <> Metrics.active_connections ->
    Metrics.load (global_metrics (server w)) c = wrap64 (total (line_hits c) (access_log w));
}.

Lemma gauge_counter : Metrics.active_connections ∈ request_counters.
Proof. apply (bool_decide_unpack _). vm_compute. exact I. Qed.

(** Steps that change neither the metrics of requests nor the number of
    contexts. *)
Lemma accounted_same w w' held :
  same_requests (server w) (server w') -> size (contexts w') = size (contexts w) -> access_log w' = access_log w ->
  connections w' = connections w -> accounted w held -> accounted w' held.
Proof.
  intros Em Ec El Ep [Hg Hh Hw Hc]. split; rewrite ?Ec, ?Ep; [|done..|].
  - rewrite <- Hg. apply Em, gauge_counter.
  - intros c Hin Hne. rewrite Em, El by done. by apply Hc.
Qed.

Lemma size_update (i : nat) (c c' : ProxyCtx) (cs : gmap nat ProxyCtx) : cs !! i = Some c -> size (<[i := c']> cs) = size cs.
Proof. intros E. by rewrite map_size_insert, E. Qed.

Lemma total_insert {A} (f : A -> Z) (l : list A) i x y : l !! i = Some x -> total f (<[i := y]> l) = total f l - f x + f y.
Proof.
  revert i. induction l as [|z l IH]; intros i; [done|]. destruct i as [|i].
  - intros [= ->]. change (f y + total f l = f x + total f l - f x + f y). lia.
  - intros E. change (f z + total f (<[i := y]> l) = f z + total f l - f x + f y). rewrite (IH i E). lia.
Qed.

Lemma callback_accounted i cb w w' held : run_callback i cb w = Some w' -> accounted w held -> accounted w' held.
Proof.
  intros Hrun Hacc. pose proof Hacc as [Hg Hh Hw Hc]. unfold run_callback in Hrun. destruct cb, (contexts w !! i) as [c|] eqn:Ei; try done.
  - cbn in Hrun. injection Hrun as <-. split; [|done..|]; cbn.
    + unfold gauge, Metrics.connect in *. cbn. rewrite Hg, wrap_i64_shift, map_size_insert, Ei. f_equal. lia.
    + intros c Hin Hne. unfold Metrics.connect. cbn. destruct (decide _); [done|]. by apply Hc.
  - injection Hrun as <-. apply (accounted_same w); cbn; by rewrite ?(size_update i c _ _ Ei).
  - destruct (request_filter _ _ _ _) as [[c' resp] r]. injection Hrun as <-.
    apply (accounted_same w); cbn; by rewrite ?(size_update i c _ _ Ei).
  - unfold upstream_peer in Hrun. rewrite run_bind in Hrun.
    match type of Hrun with context [run (on_balancer ?m) ?s] =>
      pose proof (run_quiet m s (Moments.within_select _ _ _)) as Hz; destruct (run (on_balancer m) s) end.
    cbn in Hrun, Hz. injection Hrun as <-. apply (accounted_same w); cbn; by rewrite ?(size_update i c _ _ Ei).
  - injection Hrun as <-. apply (accounted_same w); cbn; by rewrite ?(size_update i c _ _ Ei).
  - injection Hrun as <-. apply (accounted_same w); cbn; by rewrite ?(size_update i c _ _ Ei).
  - injection Hrun as <-. by apply (accounted_same w).
  - destruct (run_logging meth header error c (server w)) as [Hm Hl].
    destruct (run (logging meth header error c) (server w)) as [s line]. cbn in Hm, Hl. injection Hrun as <-.
    split; cbn [server contexts access_log connections]; [|done..|].
    + unfold gauge. rewrite (Hm _ gauge_counter). cbn [global_metrics]. rewrite gauge_count_line. unfold gauge in Hg. rewrite Hg, map_size_delete, Ei.
      unfold Z.sub. rewrite wrap_i64_shift. f_equal.
      assert (size (contexts w) <> 0)%nat by (intros Ez; apply map_size_empty_inv in Ez; by rewrite Ez, lookup_empty in Ei). lia.
    + intros c0 Hin Hne. rewrite (Hm _ Hin), total_snoc, Hl. apply count_line_counts; auto.
Qed.

Lemma access_accounted i w w' held : run_access i w = Some w' -> accounted w held -> exists held', accounted w' held'.
Proof.
  unfold run_access. intros Hrun [Hg Hh Hw Hc]. destruct (connections w !! i) as [[|B act k]|] eqn:Ei; [done| |done].
  destruct (Forall2_lookup_l _ _ _ _ _ Hh Ei) as (b & Eb & Hp).
  pose proof (Forall_lookup_1 _ _ _ _ Hw Ei) as Hwi. destruct (Hwi (server w)) as [Hs Hk].
  assert (Hg1 : gauge (server w) = wrap_i64 (Z.of_nat (size (contexts w)) + total Z.b2z held - Z.b2z b + Z.b2z b)) by (rewrite Hg; f_equal; lia).
  destruct (Hp _ _ Hg1) as (b' & Hg' & Hk'). destruct (act (server w)) as [s x]. cbn in Hs, Hk, Hg', Hk'. injection Hrun as <-.
  exists (<[i := b']> held). split; cbn.
  - rewrite Hg', (total_insert _ _ _ _ _ Eb). f_equal. lia.
  - by apply Forall2_insert.
  - by apply Forall_insert.
  - intros c Hin Hne. rewrite Hs by done. by apply Hc.
Qed.

Lemma step_accounted w w' held : server_step w w' -> accounted w held -> exists held', accounted w' held'.
Proof.
  intros [i cb w0 w1 Hrun|mode c w0|i w0 w1 Hrun|s w0 Hs] Hacc.
  - exists held. by eapply callback_accounted.
  - exists (held ++ [false])%list. destruct Hacc as [Hg Hh Hw Hc]. split; cbn; [|by apply Forall2_app; [|constructor; [apply connection_guarded|]]| |done].
    + rewrite total_snoc. cbn. by rewrite Z.add_0_r.
    + apply Forall_app. split; [done|]. constructor; [apply within_balancer|done].
  - by eapply access_accounted.
  - exists held. by apply (accounted_same w0).
Qed.

Lemma reachable_accounted w : reachable w -> exists held, accounted w held.
Proof.
  intros [b Hr]. revert Hr. apply (rtc_ind_r (fun w => exists held, accounted w held)).
  - exists []. by split.
  - intros w1 w2 _ Hstep [held Hh]. by eapply step_accounted.
Qed.

Lemma ended_uncounted ps held :
  Forall2 (guarded gauge released) ps held -> Forall (fun p : prog Server Tcp.TcpOutcome => exists o, p = Ret o) ps -> total Z.b2z held = 0.
Proof.
  induction 1 as [|p b ps held Hp _ IH]; [done|]. intros [[o ->] Hps]%Forall_cons. cbn in Hp. unfold released in Hp. subst b.
  change (0 + total Z.b2z held = 0). by rewrite IH.
Qed.
End accounting.

Section answers.
Context {G : GlobCrate} {SN : SelectNth} {O : HashOrder} {CR : CanonicalReason}.

(** A request of the log, as the metrics record it. *)
Definition logged_request (l : AccessLine) : Metrics.Request := (line_status l, line_latency_us l).

(** The comparisons of counters, evaluated. *)
Ltac eval_counters :=
  repeat match goal with |- context [is_counter ?a ?b] => let v := eval vm_compute in (is_counter a b) in change (is_counter a b) with v end.

Lemma line_counts c (log : list AccessLine) :
  total (line_hits c) log
  = is_counter c grpc_requests_total * total (fun l => Z.b2z (line_grpc l)) log
    + is_counter c grpc_web_requests_total * total (fun l => Z.b2z (line_grpc_web l)) log
    + is_counter c websocket_requests_total * total (fun l => Z.b2z (line_websocket l)) log
    + total (Metrics.hits c) (map logged_request log)
    + is_counter c Metrics.latency_sum_us * total line_latency_us log + is_counter c bytes_received_total * total line_bytes log.
Proof.
  unfold total. induction log as [|l log IH]; cbn [foldr map]; [lia|]. rewrite IH. unfold line_hits, logged_request. lia.
Qed.

(** C34: Whatever callbacks of whatever requests run, in whatever order and
    interleaved with the accesses of whatever TCP connections and with anything
    else the process does, the gauge of active connections is the number of
    requests in flight and of TCP connections that are counted, which are those
    that take one off it when left to run to their end (so that it cannot go
    negative or leak: none is counted when all have ended), and what is
    exported about requests is what the access log says:
    as many requests as lines, and every class of status, every latency
    bucket, the errors, the protocols and the bytes are those of the lines
    (modulo the width of the counters). *)
Theorem requests_accounted w :
  reachable w ->
  let m := global_metrics (server w) in
  let log := access_log w in
  (exists held : list bool, Forall2 counted (connections w) held
     /\ Metrics.load m Metrics.active_connections = wrap_i64 (Z.of_nat (size (contexts w)) + total Z.b2z held))
  /\ (Forall (fun p => exists o, p = Ret o) (connections w) -> Metrics.load m Metrics.active_connections = wrap_i64 (Z.of_nat (size (contexts w))))
  /\ Metrics.load m Metrics.requests_total = wrap64 (Z.of_nat (List.length log))
  /\ (forall c, in_latency c = true \/ in_status c = true \/ c = requests_error_total ->
        Metrics.load m c = Metrics.load (record_all (map logged_request log) metrics_new) c)
  /\ Metrics.load m grpc_requests_total = wrap64 (total (fun l => Z.b2z (line_grpc l)) log)
  /\ Metrics.load m grpc_web_requests_total = wrap64 (total (fun l => Z.b2z (line_grpc_web l)) log)
  /\ Metrics.load m websocket_requests_total = wrap64 (total (fun l => Z.b2z (line_websocket l)) log)
  /\ Metrics.load m Metrics.latency_sum_us = wrap64 (total line_latency_us log)
  /\ Metrics.load m bytes_received_total = wrap64 (total line_bytes log).
Proof.
  intros (held & [Hg Hh _ Hc])%reachable_accounted. cbv zeta. split; [|split].
  { exists held. split; [|done]. eapply Forall2_impl; [exact Hh|]. apply guarded_counted. }
  { intros Hdone. unfold gauge in Hg. rewrite Hg, (ended_uncounted _ _ Hh Hdone). by rewrite Z.add_0_r. }
  assert (Hz : forall c, c ∉ latency_bucket_1ms :: map snd wider_buckets -> c ∉ [status_2xx; status_3xx; status_4xx; status_5xx] ->
    c <> Metrics.requests_total -> c <> requests_error_total -> total (Metrics.hits c) (map logged_request (access_log w)) = 0).
  { intros c Hl Hs Ht He. unfold total. induction (map logged_request (access_log w)) as [|r l IH]; cbn [foldr]; [done|].
    rewrite IH, Z.add_0_r. unfold Metrics.hits.
    rewrite (is_counter_apart in_latency _ (latency_bucket _)), (is_counter_apart in_status _ (status_counter _))
      by (apply latency_bucket_in || apply status_counter_in || by apply bool_decide_false).
    unfold is_counter. destruct (decide (c = Metrics.requests_total)), (decide (c = requests_error_total)); try done. by destruct (is_error_status _). }
  assert (Hin : forall c, bool_decide (c ∈ request_counters /\ c <> Metrics.active_connections) = true ->
    Metrics.load (global_metrics (server w)) c = wrap64 (total (line_hits c) (access_log w))).
  { intros c [Hi Hn]%bool_decide_eq_true. by apply Hc. }
  split; [|split].
  - rewrite Hin, line_counts by (reflexivity || apply (bool_decide_unpack _); vm_compute; exact I). eval_counters.
    rewrite (total_ext _ (fun _ => 1) (map _ _) hits_total), total_one, length_map. f_equal. lia.
  - intros c Hcl. assert (Hb : c ∈ request_counters /\ c <> Metrics.active_connections /\ c <> Metrics.latency_sum_us).
    { by destruct c; destruct Hcl as [H|[H|H]]; try discriminate H; split_and!; try discriminate; apply (bool_decide_unpack _). }
    destruct Hb as (Hb & Ha & Hn). rewrite (Hin c), recorded, line_counts by (done || by apply bool_decide_eq_true). f_equal.
    assert (Ho : forall d, in_latency d || in_status d || bool_decide (d = requests_error_total) = false -> is_counter c d = 0).
    { intros d Hd. unfold is_counter. rewrite decide_False; [done|]. intros ->. rewrite !orb_false_iff, bool_decide_eq_false in Hd. destruct Hd as [[? ?] ?].
      destruct Hcl as [?|[?|?]]; congruence. }
    rewrite !Ho by reflexivity. lia.
  - split_and!; rewrite Hin, line_counts, ?Hz by (reflexivity || apply (bool_decide_unpack _); vm_compute; exact I);
      eval_counters; f_equal; lia.
Qed.

(** ** Refused requests *)

Ltac refusal_code := eexists; split; [reflexivity|rewrite !elem_of_cons; tauto].

Lemma selection_refusals fuel spurious config rq assigned e :
  leaf (select_with fuel spurious config rq) (assigned, Err e) ->
  e = ConnectNoRoute \/ exists code, e = HTTPStatus code /\ code ∈ [no_route_status config; 503; 429; 403].
Proof.
  intros L. unfold select_with in L. apply leaf_bind in L as [[target|] L].
  - apply leaf_bind in L as [[t|] L]; [|apply leaf_bind in L as [u L]; injection L as _ <-; right; refusal_code].
    apply leaf_bind in L as [[|] L]; cbn [negb] in L.
    + apply leaf_bind in L as [slot L]. destruct (negb (default false slot)).
      * apply leaf_bind in L as [u L]. injection L as _ <-. right. refusal_code.
      * apply leaf_bind in L as [[a|k] L]; [discriminate|]. destruct k; injection L as _ <-; first [by left|right; refusal_code].
    + apply leaf_bind in L as [u L]. apply leaf_bind in L as [u' L]. injection L as _ <-. right. refusal_code.
  - apply leaf_bind in L as [table L]. injection L as _ <-. right. destruct (matching_routes _ _ _ _); refusal_code.
Qed.

(** The errors a request can end with: a refusal of the selection, or a
    failure of the connection that carries no status. *)
Definition ends_with fuel spurious config rq assigned (e : ErrorType) : Prop :=
  leaf (select_with fuel spurious config rq) (assigned, Err e) \/ forall code, e <> HTTPStatus code.

Lemma logged_status meth header e now c :
  ctx_response_status c = 0 -> line_status (access_line meth header (Some e) now c) = write_proxy_error_status e.
Proof. intros E. unfold access_line, response_status. cbn. rewrite E. by destruct e. Qed.

(** C26: A request that fails before a response was begun is answered with
    the status the access log and the metrics record for it: to a gRPC client
    as HTTP 200 with the gRPC status of that code and a message that reads back
    as the reason, to any other as that very HTTP status (the configured
    status for unrouted requests being a valid code), and the proxy reports
    the same code to the framework. *)
Theorem failed_request_answered fuel spurious config rq assigned e c meth header now :
  ends_with fuel spurious config rq assigned e -> valid_status (no_route_status config) = true -> ctx_response_status c = 0 ->
  let logged := line_status (access_line meth header (Some e) now c) in
  exists r, write_proxy_error true e c = (Some r, mk_fail logged false)
    /\ (ctx_is_grpc c = false -> resp_status r = logged)
    /\ (ctx_is_grpc c = true ->
          resp_status r = 200
          /\ header_values "grpc-status" (resp_headers r) = [grpc_status_for_http_status logged]
          /\ exists msg, header_values "grpc-message" (resp_headers r) = [msg] /\ percent_decode msg = blank_controls (error_message e)).
Proof.
  intros He Hn Hc logged.
  assert (Hv : valid_status logged = true).
  { unfold logged. rewrite logged_status by done. destruct He as [L|Hcode].
    - apply selection_refusals in L as [->|(code & -> & Hin)]; [done|]. cbn.
      rewrite !elem_of_cons, elem_of_nil in Hin. destruct Hin as [->|[->|[->|[->|[]]]]]; done.
    - destruct e as [code| | | | |]; try done. by destruct (Hcode code). }
  assert (Hl : write_proxy_error_status e = logged) by (unfold logged; by rewrite logged_status).
  unfold write_proxy_error. rewrite Hl.
  assert (Hp : (0 <? logged) = true) by (apply Z.ltb_lt; unfold valid_status, between in Hv; lia). rewrite Hp. cbn [andb].
  eexists. split; [done|]. unfold error_response. rewrite Hl. split; intros ->; cbn [resp_status resp_headers].
  - unfold built_status. by rewrite Hv.
  - unfold write_grpc_error_response. cbn [resp_status resp_headers]. rewrite !header_values_insert. split; [done|]. cbn. split; [done|].
    eexists. split; [done|]. apply grpc_message_roundtrip.
Qed.
End answers.

(** ** Examples *)

#[local] Existing Instances Upstream.no_glob Upstream.list_order.
#[local] Instance reasons : CanonicalReason := fun code => if code =? 404 then Some "Not Found" else None.

(** Steps one after the other: a callback of a request, a connection accepted,
    or accesses of a connection. *)
Inductive event := OnRequest (i : nat) (cb : callback) | Accepted (mode : Tcp.TcpListenerMode) (c : Tcp.Connection) | Accesses (i n : nat).

Definition step_event {G : GlobCrate} {SN : SelectNth} {O : HashOrder} {CR : CanonicalReason} (e : event) (w : World) : option World :=
  match e with
  | OnRequest i cb => run_callback i cb w
  | Accepted mode c => Some (with_connections (connections w ++ [tcp_connection mode c])%list w)
  | Accesses i n => Nat.iter n (fun o => o ≫= run_access i) (Some w)
  end.

Fixpoint serve {G : GlobCrate} {SN : SelectNth} {O : HashOrder} {CR : CanonicalReason} (l : list event) (w : World) : option World :=
  match l with [] => Some w | e :: l => w' ← step_event e w; serve l w' end.

Lemma reachable_step {G : GlobCrate} {SN : SelectNth} {O : HashOrder} {CR : CanonicalReason} w w' : reachable w -> server_step w w' -> reachable w'.
Proof. intros [b Hr] Hs. exists b. by eapply rtc_r. Qed.

Lemma event_reachable {G : GlobCrate} {SN : SelectNth} {O : HashOrder} {CR : CanonicalReason} e w w' : reachable w -> step_event e w = Some w' -> reachable w'.
Proof.
  intros Hr. destruct e as [i cb|mode c|i n]; cbn.
  - intros E. eapply reachable_step; [done|by eapply step_callback].
  - intros [= <-]. eapply reachable_step; [done|apply step_accept].
  - revert w'. induction n as [|n IH]; intros w'; [by intros [= <-]|]. change (Nat.iter n (fun o => o ≫= run_access i) (Some w) ≫= run_access i = Some w' -> reachable w').
    destruct (Nat.iter n _ _) as [w1|]; [|done]. intros E. exact (reachable_step w1 w' (IH w1 eq_refl) (step_access i w1 w' E)).
Qed.

Lemma serve_reachable {G : GlobCrate} {SN : SelectNth} {O : HashOrder} {CR : CanonicalReason} l w w' : reachable w -> serve l w = Some w' -> reachable w'.
Proof.
  revert w. induction l as [|e l IH]; intros w Hr; cbn; [by intros [= <-]|].
  destruct (step_event e w) as [w1|] eqn:E; cbn; [|done]. apply IH. by eapply event_reachable.
Qed.

Definition get_header (path ctype : string) : RequestHeader := mk_request (mk_uri None path None) [("host", "ex.com"); ("content-type", ctype)].

(** A health check, an unrouted gRPC request, a request still in flight, and a
    TCP connection in the middle of its relay. *)
Definition demo_events : list event :=
  [OnRequest 1 NewCtx; OnRequest 2 NewCtx; OnRequest 3 NewCtx; Accepted Tcp.Plain Tcp.demo_conn;
   OnRequest 1 (RequestFilter "1.0" true (get_header "/health" "")); OnRequest 2 (EarlyRequestFilter (get_header "/p.S/M" "application/grpc"));
   OnRequest 1 (Logging "GET" (get_header "/health" "") None); Accesses 0 7;
   OnRequest 2 (FailToProxyCb true (HTTPStatus 404)); OnRequest 2 (Logging "POST" (get_header "/p.S/M" "application/grpc") (Some (HTTPStatus 404)))].

Definition demo_world : World := default (world_new Tcp.demo_state) (serve demo_events (world_new Tcp.demo_state)).

Lemma demo_world_reachable : reachable demo_world.
Proof.
  apply (serve_reachable demo_events (world_new Tcp.demo_state)); [by exists Tcp.demo_state|].
  unfold demo_world. assert (E : match serve demo_events (world_new Tcp.demo_state) with Some _ => true | None => false end = true) by (vm_compute; reflexivity).
  by destruct (serve demo_events _).
Qed.

Lemma requests_accounted_witness :
  map line_status (access_log demo_world) = [200; 404]
  /\ Metrics.load (global_metrics (server demo_world)) Metrics.active_connections = 2
  /\ exists held : list bool, Forall2 counted (connections demo_world) held
       /\ Metrics.load (global_metrics (server demo_world)) Metrics.active_connections
          = wrap_i64 (Z.of_nat (size (contexts demo_world)) + total Z.b2z held).
Proof.
  split; [vm_compute; reflexivity|]. split; [vm_compute; reflexivity|]. exact (proj1 (requests_accounted demo_world demo_world_reachable)).
Defined.

Definition lost_request : Upstream.Request :=
  mk_req "none.com" "/" (fun _ => None) (fun _ _ => 0%nat) (fun _ => Err NotFound).

Definition demo_ctx (grpc : bool) : ProxyCtx := mk_ctx None 0 (Some 0) grpc false false false 0.

Lemma failed_request_answered_witness :
  let header := get_header "/" "" in
  exists r, write_proxy_error true (HTTPStatus 404) (demo_ctx false) = (Some r, mk_fail 404 false)
    /\ (ctx_is_grpc (demo_ctx false) = false -> resp_status r = 404)
    /\ (ctx_is_grpc (demo_ctx false) = true ->
          resp_status r = 200
          /\ header_values "grpc-status" (resp_headers r) = [grpc_status_for_http_status 404]
          /\ exists msg, header_values "grpc-message" (resp_headers r) = [msg] /\ percent_decode msg = blank_controls "Not Found").
Proof.
  refine (failed_request_answered 1 (fun _ => false) (px_config Upstream.demo_proxy) lost_request None (HTTPStatus 404)
            (demo_ctx false) "GET" (get_header "/" "") 0 (or_introl _) eq_refl eq_refl).
  assert (E : (run (select_with 1 (fun _ => false) (px_config Upstream.demo_proxy) lost_request) Upstream.demo_proxy).2
              = (None, Err (HTTPStatus 404))) by (vm_compute; reflexivity).
  rewrite <- E. apply run_leaf.
Defined.

(** The body of an error, as a client that is not gRPC reads it. *)
Example error_body_of_404 :
  resp_body (error_response (HTTPStatus 404) (demo_ctx false))
  = Some ("{" ++ quoted "error" ++ ":" ++ quoted "Not Found" ++ "," ++ quoted "status" ++ ":404}").
Proof. vm_compute. reflexivity. Qed.
