(* ===== verification/Startup.v ===== *)
(** * Startup: from the command line to a serving balancer

    Models [main] of src/src/main.rs: the configuration and its overrides, the
    static routes, the TLS listeners with their certificates and client
    authorities, and the services that run. What the files, the Consul agent
    and the libraries answer are arguments. *)
From S2P Require Import Prelude RustStr Net Routes CircuitBreaker RateLimit Health Stats Target Weights Table Registry.
From S2P Require Import Config ClientHello ClientCert TlsConf Pem CertStore Handshake Files Tcp Runtime.
From S2P Require DnsCache Metrics.
From Stdlib Require Import Ascii String.
Local Open Scope string_scope.
Local Open Scope Z_scope.

(** ** The configuration *)

(** The command line. *)
Record Args := mk_args {
  arg_config : option string;
  arg_routes : option string;
  arg_listen : option string;
  arg_consul : option string;
  arg_log_level : option string;
}.

(** Without a configuration file: [Config] as [main] writes it. *)
Definition config_of_args (args : Args) : Config :=
  mk_config
    (mk_server (default ":9999" (arg_listen args)) "127.0.0.1:9998" [] "" 0 "30s")
    (mk_consul (default "127.0.0.1:8500" (arg_consul args)) "http" "" "/sentirum-lb/routes" "urlprefix-" "0s" true true [] [] true false)
    default_ProxyConfig default_LoggingConfig default_TlsConfig [] default_TcpConfig.

Definition set_listen (listen : string) (s : ServerConfig) : ServerConfig :=
  mk_server listen (admin_listen s) (admin_users s) (admin_token s) (workers s) (drain_timeout s).
Definition set_address (a : string) (c : ConsulConfig) : ConsulConfig :=
  mk_consul a (scheme_ c) (token c) (kv_prefix c) (tag_prefix c) (poll_interval c) (service_discovery c) (kv_watching c)
    (service_whitelist c) (service_blacklist c) (graceful_shutdown c) (include_warning c).

Definition apply_overrides (args : Args) (c : Config) : Config :=
  mk_config
    (match arg_listen args with Some l => set_listen l (server c) | None => server c end)
    (match arg_consul args with Some a => set_address a (consul c) | None => consul c end)
    (proxy c)
    (match arg_log_level args with Some l => mk_logging l (format (logging c)) | None => logging c end)
    (tls c) (tls_listeners c) (tcp c).

(** [toml]: the decoder of the file; [read] as [read_to_string]. *)
Definition load_config (toml : string -> result Config string) (read : string -> result string string) (args : Args) : result Config string :=
  let content := match arg_config args with Some path => read path | None => Ok "" end in
  match content with
  | Err e => Err e
  | Ok content =>
      match (if is_empty content then Ok (config_of_args args) else toml content) with
      | Err e => Err e
      | Ok c => Ok (apply_overrides args c)
      end
  end.

(** ** TLS listeners *)

Section startup.
Context {T : TlsCrate} {L : SslCalls} (utf8_error : string -> string) (now_unix : Z).

(** What the outside answers while the listeners are set up. The answers of
    Consul to the first load of each listener are given by its index. *)
Record Outside := mk_outside {
  o_read : string -> result string string;
  o_files : string -> FileText;
  o_path : string -> PathNode;
  o_consul_client : option string;
  o_ca_answer : nat -> result (gmap string string * Z) string;
  o_cert_answer : nat -> result (gmap string string * Z) string;
  o_with_callbacks : option string;
}.
Context (o : Outside).

Record ClientCaService := mk_ca_service { svc_ca_store : DynamicClientCaStore; svc_ca_prefix : string; svc_ca_index : Z }.
Record CertService := mk_cert_service { svc_cert_store : DynamicCertStore; svc_cert_prefix : string; svc_cert_index : Z }.

(** A listener given to the proxy service. *)
Record TlsListener := mk_listener {
  lst_label : string;
  lst_addr : string;
  lst_selector : TlsSelector;
  lst_http2 : bool;
}.

(** What the loop over the TLS configurations builds up. *)
Record Setup := mk_setup {
  su_listeners : list TlsListener;
  su_ca_services : list ClientCaService;
  su_cert_services : list CertService;
  su_file_certs : list (string * TlsCertConfig * LoadedCertificate);
  su_admin_ca : list DynamicClientCaStore;
  su_admin_certs : list DynamicCertStore;
  su_https_ready : bool;
}.
Definition setup_new : Setup := mk_setup [] [] [] [] [] [] false.

Definition add_ca_service (s : ClientCaService) (su : Setup) : Setup :=
  mk_setup (su_listeners su) (su_ca_services su ++ [s])%list (su_cert_services su) (su_file_certs su) (su_admin_ca su) (su_admin_certs su) (su_https_ready su).
Definition add_admin_ca (s : DynamicClientCaStore) (su : Setup) : Setup :=
  mk_setup (su_listeners su) (su_ca_services su) (su_cert_services su) (su_file_certs su) (su_admin_ca su ++ [s])%list (su_admin_certs su) (su_https_ready su).
Definition add_listener (is_primary : bool) (l : TlsListener) (su : Setup) : Setup :=
  mk_setup (su_listeners su ++ [l])%list (su_ca_services su) (su_cert_services su) (su_file_certs su) (su_admin_ca su) (su_admin_certs su)
    (su_https_ready su || is_primary).
Definition add_file_cert (label : string) (config : TlsCertConfig) (cert : LoadedCertificate) (su : Setup) : Setup :=
  mk_setup (su_listeners su) (su_ca_services su) (su_cert_services su) (su_file_certs su ++ [(label, config, cert)])%list (su_admin_ca su)
    (su_admin_certs su) (su_https_ready su).
Definition add_cert_service (s : CertService) (su : Setup) : Setup :=
  mk_setup (su_listeners su) (su_ca_services su) (su_cert_services su ++ [s])%list (su_file_certs su) (su_admin_ca su)
    (su_admin_certs su ++ [svc_cert_store s])%list (su_https_ready su).

(** [DynamicClientCaStore::refresh_from_consul] *)
Definition ca_refresh_from_consul (answer : result (gmap string string * Z) string) (self : DynamicClientCaStore)
    : DynamicClientCaStore * result Z TlsError :=
  match answer with
  | Err e => (self, Err (ConfigError e))
  | Ok (entries, new_index) => (ca_apply_snapshot utf8_error now_unix entries new_index self, Ok new_index)
  end.

(** The first load of a store: nothing when the client cannot be made; the
    index is 0 then, and after an error. *)
Definition initial_load {A} (refresh : A -> A * result Z TlsError) (store : A) : A * Z :=
  match o_consul_client o with
  | Some _ => (store, 0)
  | None => let '(store, r) := refresh store in (store, match r with Ok index => index | Err _ => 0 end)
  end.

(** The client authorities of a listener, [None] when it cannot be had. *)
Definition setup_client_ca (i : nat) (auth : ClientAuthConfig) (su : Setup) : option (DynamicClientCaStore * Setup) :=
  let store := DynamicClientCaStore_new (auth_ca_upgrade_cn auth) in
  match auth_source auth with
  | CaFile path =>
      match ca_load_from_path utf8_error now_unix (load_pem_entries_from_path path (o_path o path)) store with
      | (_, Err _) => None
      | (store, Ok _) => Some (store, su)
      end
  | CaConsulKv prefix =>
      let '(store, index) := initial_load (ca_refresh_from_consul (o_ca_answer o i)) store in
      match loaded_entries (ca_status store) with
      | [] => None
      | _ => Some (store, add_ca_service (mk_ca_service store prefix index) su)
      end
  end.

(** How the setup of a listener ends: on with the loop, or it failed. *)
Inductive Outcome := Done (su : Setup) | Failed (su : Setup).

(** [build_tls_settings_from_source] with the error of the library. *)
Definition build_settings (source : ServerCertificateSource) (client_auth : option (ClientAuthMode * DynamicClientCaStore)) : result TlsSelector TlsError :=
  match o_with_callbacks o with
  | Some e => Err (ConfigError e)
  | None => Ok (build_selector source client_auth)
  end.

Definition setup_file (is_primary : bool) (label addr : string) (cfg : TlsConfig) (file : TlsCertConfig)
    (client_auth : option (ClientAuthMode * DynamicClientCaStore)) (su : Setup) : Outcome :=
  match TlsCertConfig_validate (o_files o) file with
  | Err _ => Failed su
  | Ok _ =>
      match load_static_certificate utf8_error (o_read o) file with
      | Err _ => Failed su
      | Ok cert =>
          match build_settings (StaticCert cert) client_auth with
          | Err _ => Failed su
          | Ok settings => Done (add_file_cert label file cert (add_listener is_primary (mk_listener label addr settings (http2 cfg)) su))
          end
      end
  end.

Definition setup_consul (i : nat) (is_primary : bool) (label addr : string) (cfg : TlsConfig) (kv : ConsulTlsConfig)
    (client_auth : option (ClientAuthMode * DynamicClientCaStore)) (su : Setup) : Outcome :=
  let '(store, index) :=
    initial_load (fun store => let '(store, _, r) := refresh_from_consul utf8_error now_unix (o_cert_answer o i) store in (store, r))
      (DynamicCertStore_new (consul_strict_sni kv)) in
  let ready := match loaded_certificates (store_status store) with [] => false | _ => true end in
  if consul_require_initial_snapshot kv && negb ready then Failed su
  else match build_settings (DynamicCerts store) client_auth with
       | Err _ => Failed su
       | Ok settings =>
           Done (add_cert_service (mk_cert_service store (cert_prefix kv) index)
                   (add_listener is_primary (mk_listener label addr settings (http2 cfg)) su))
       end.

(** One turn of the loop, for the [i]-th TLS configuration. *)
Definition setup_listener (http_listen : string) (fallback_addr : option string) (i : nat) (label : string) (cfg : TlsConfig) (su : Setup) : Outcome :=
  let is_primary := String.eqb label "primary" in
  let addr := if is_primary then default (tls_listen_addr http_listen (tls_listen cfg)) fallback_addr
              else tls_listen_addr http_listen (tls_listen cfg) in
  if negb is_primary && is_empty (trim (tls_listen cfg)) then Done su
  else match ClientAuthConfig_resolve cfg with
  | Err _ => Failed su
  | Ok auth =>
      match (match auth with
             | None => Some (None, su)
             | Some auth =>
                 '(store, su) ← setup_client_ca i auth su;
                 Some (Some (auth_mode auth, store), add_admin_ca store su)
             end) with
      | None => Failed su
      | Some (client_auth, su) =>
          match TlsMode_resolve cfg with
          | Ok (Some (TlsFile file)) => setup_file is_primary label addr cfg file client_auth su
          | Ok (Some (TlsConsulKv kv)) => setup_consul i is_primary label addr cfg kv client_auth su
          | Ok None => Done su
          | Err _ => Failed su
          end
      end
  end.

(** The loop: a failure of the primary listener ends the process, that of
    another only leaves it out. *)
Fixpoint setup_listeners (http_listen : string) (fallback_addr : option string) (i : nat) (cfgs : list (string * TlsConfig)) (su : Setup) : option Setup :=
  match cfgs with
  | [] => Some su
  | (label, cfg) :: cfgs =>
      match setup_listener http_listen fallback_addr i label cfg su with
      | Done su => setup_listeners http_listen fallback_addr (S i) cfgs su
      | Failed su => if String.eqb label "primary" then None else setup_listeners http_listen fallback_addr (S i) cfgs su
      end
  end.

Definition listener_label (i : nat) : string := "tls_listeners[" ++ pretty i ++ "]".
Definition all_tls_configs (c : Config) : list (string * TlsConfig) :=
  ("primary", tls c) :: imap (fun i cfg => (listener_label i, cfg)) (tls_listeners c).

(** ** The services *)

Inductive BackgroundService :=
  | ConsulWatcherService (services kv : bool)
  | TlsCertService (s : CertService)
  | ClientCaWatcher (s : ClientCaService)
  | FileCertWatcher (label : string) (config : TlsCertConfig) (cert : LoadedCertificate) (interval_secs : Z)
  | TcpService (mode : TcpMode) (fallback_addr : option string)
  | AdminService (cert_store : option DynamicCertStore) (ca_store : option DynamicClientCaStore)
      (file_certs : list (string * TlsCertConfig * LoadedCertificate))
  | HealthService.

(** The server after [main] set it up. *)
Record Boot {N : HeaderNames} {G : GlobCrate} {U : UrlParser} {O : HashOrder} {S : DnsCache.SelectNth} := mk_boot {
  boot_state : AdminState;
  boot_http : string;
  boot_http_keepalive : option (option TcpKeepalive);
  boot_threads : option Z;
  boot_pool_size : Z;
  boot_grace_secs : option Z;
  boot_h2c : bool;
  boot_tls : Setup;
  boot_services : list BackgroundService;
}.

Definition tcp_mode_at_start (c : Config) (loopback : result string string) : TcpMode * option string :=
  let mode := match resolve_tcp_mode c with Ok mode => mode | Err _ => TcpDisabled end in
  match mode with
  | HttpsTcpSni => match loopback with Ok addr => (HttpsTcpSni, Some addr) | Err _ => (TcpDisabled, None) end
  | _ => (mode, None)
  end.

(** The background services, in the order they are added. *)
Definition background_services (c : Config) (mode : TcpMode) (fallback_addr : option string) (su : Setup) : list BackgroundService :=
  let mode := match mode with HttpsTcpSni => if su_https_ready su then mode else TcpDisabled | _ => mode end in
  ((if service_discovery (consul c) || kv_watching (consul c) then [ConsulWatcherService (service_discovery (consul c)) (kv_watching (consul c))] else [])
   ++ map TlsCertService (su_cert_services su)
   ++ map ClientCaWatcher (su_ca_services su)
   ++ map (fun '(label, config, cert) => FileCertWatcher label config cert 30) (su_file_certs su)
   ++ (match mode with TcpDisabled => [] | _ => [TcpService mode fallback_addr] end)
   ++ [AdminService (head (su_admin_certs su)) (head (su_admin_ca su)) (su_file_certs su); HealthService])%list.

Section main.
Context {N : HeaderNames} {G : GlobCrate} {U : UrlParser} {O : HashOrder} {S : DnsCache.SelectNth}.

(** The static routes are loaded when the file can be read. *)
Definition load_static_routes (now_ns : Z) (routes : option (result string string)) (s : AdminState) : AdminState :=
  match routes with
  | Some (Ok content) =>
      let '(m, h) := load_static now_ns ∅ (parse_route_commands content) (s_route_table s) (cells s) in
      mk_admin (config s) (startup_config s) (s_trusted_proxies s) (dns_cache s) m h
  | _ => s
  end.

Definition grace_secs (c : Config) : option Z :=
  let drain_secs := parse_duration (drain_timeout (server c)) / 1000000000 in
  if graceful_shutdown (consul c) && (0 <? drain_secs) then Some drain_secs else None.

(** [main]: the error it exits with, or the server it runs. *)
Definition main (toml : string -> result Config string) (loopback : result string string) (now_ns : Z) (args : Args) : result Boot string :=
  match load_config toml (o_read o) args with
  | Err e => Err e
  | Ok c =>
      match start_balancer c with
      | Err e => Err e
      | Ok state =>
          let state := load_static_routes now_ns (o_read o <$> arg_routes args) state in
          let '(mode, fallback_addr) := tcp_mode_at_start c loopback in
          match setup_listeners (server_listen (server c)) fallback_addr 0 (all_tls_configs c) setup_new with
          | None => Err "primary TLS listener"
          | Some su =>
              Ok (mk_boot N G U O S state (server_listen (server c)) (downstream_socket_options c)
                    (if 0 <? workers (server c) then Some (workers (server c)) else None) (pool_size (proxy c)) (grace_secs c)
                    (enable_h2c (proxy c)) su (background_services c mode fallback_addr su))
          end
      end
  end.
End main.
End startup.

(** ** The services that watch Consul

    [ConsulTlsBackgroundService] and [ConsulClientCaBackgroundService] are the
    same loop over two stores: [refresh] with an answer to the request made
    with the last index. *)

Record CertWatch (A : Type) := mk_cert_watch {
  cw_store : A;
  cw_last_index : Z;
  cw_backoff_secs : Z;
  cw_metrics : Metrics.Metrics;
}.
Arguments mk_cert_watch {A}.
Arguments cw_store {A}.
Arguments cw_last_index {A}.
Arguments cw_backoff_secs {A}.
Arguments cw_metrics {A}.

Definition cert_watch_start {A} (watcher : string) (initial_index : Z) (store : A) (m : Metrics.Metrics) : CertWatch A :=
  mk_cert_watch store initial_index 1
    (Metrics.set_consul_watcher_last_index watcher initial_index (Metrics.set_consul_watcher_backoff_seconds watcher 0 m)).

(** One turn, and the seconds it then sleeps. *)
Definition cert_watch_turn {A} (watcher : string) (refresh : A -> A * result Z TlsError) (w : CertWatch A) : CertWatch A * Z :=
  let '(store, result) := refresh (cw_store w) in
  match result with
  | Ok new_index =>
      (mk_cert_watch store new_index 1
         (Metrics.set_consul_watcher_last_index watcher new_index (Metrics.set_consul_watcher_backoff_seconds watcher 0 (cw_metrics w))), 0)
  | Err _ =>
      (mk_cert_watch store (cw_last_index w) (Z.min (cw_backoff_secs w * 2) 60)
         (Metrics.set_consul_watcher_backoff_seconds watcher (cw_backoff_secs w) (Metrics.record_consul_watcher_error watcher (cw_metrics w))),
       cw_backoff_secs w)
  end.

Fixpoint cert_watch_loop {A} (watcher : string) (refreshes : list (A -> A * result Z TlsError)) (w : CertWatch A) : CertWatch A * list Z :=
  match refreshes with
  | [] => (w, [])
  | refresh :: refreshes =>
      let '(w, slept) := cert_watch_turn watcher refresh w in
      let '(w, sleeps) := cert_watch_loop watcher refreshes w in (w, slept :: sleeps)
  end.

Section watches.
Context {T : TlsCrate} {L : SslCalls} (utf8_error : string -> string) (now_unix : Z).

Definition cert_watch (s : CertService) (answers : list (result (gmap string string * Z) string)) (m : Metrics.Metrics) : CertWatch DynamicCertStore * list Z :=
  cert_watch_loop "tls" (map (fun a store => let '(store, _, r) := refresh_from_consul utf8_error now_unix a store in (store, r)) answers)
    (cert_watch_start "tls" (svc_cert_index s) (svc_cert_store s) m).

Definition ca_watch (s : ClientCaService) (answers : list (result (gmap string string * Z) string)) (m : Metrics.Metrics) : CertWatch DynamicClientCaStore * list Z :=
  cert_watch_loop "client_ca" (map (ca_refresh_from_consul utf8_error now_unix) answers)
    (cert_watch_start "client_ca" (svc_ca_index s) (svc_ca_store s) m).

(** Every wait of the loop is at most a minute; a failure leaves the store and
    the index of the next request as they were. *)
Lemma ca_watch_spec s answers m :
  let '(w, sleeps) := ca_watch s answers m in
  Forall (fun x => 0 <= x <= 60) sleeps /\ List.length sleeps = List.length answers
  /\ cw_store w = foldl (fun store a => match a with Ok (entries, index) => ca_apply_snapshot utf8_error now_unix entries index store | Err _ => store end)
                    (svc_ca_store s) answers
  /\ cw_last_index w = foldl (fun i a => match a with Ok (_, index) => index | Err _ => i end) (svc_ca_index s) answers.
Proof.
  unfold ca_watch. set (w0 := cert_watch_start _ _ _ _).
  assert (Hw : 1 <= cw_backoff_secs w0 <= 60) by (subst w0; cbn; lia).
  change (svc_ca_store s) with (cw_store w0). change (svc_ca_index s) with (cw_last_index w0). clearbody w0.
  revert w0 Hw. induction answers as [|[[entries index]|e] answers IH]; intros w0 Hw; cbn [map cert_watch_loop foldl]; [done|..];
    unfold cert_watch_turn; cbn [ca_refresh_from_consul].
  - set (w1 := mk_cert_watch _ _ _ _). specialize (IH w1 ltac:(subst w1; cbn; lia)). destruct (cert_watch_loop _ _ _) as [w sleeps].
    destruct IH as (H1 & H2 & H3 & H4). split_and!; [constructor; [lia|done]|cbn; by f_equal|done..].
  - set (w1 := mk_cert_watch _ _ _ _). specialize (IH w1 ltac:(subst w1; cbn; lia)). destruct (cert_watch_loop _ _ _) as [w sleeps].
    destruct IH as (H1 & H2 & H3 & H4). split_and!; [constructor; [lia|done]|cbn; by f_equal|done..].
Qed.
End watches.

(** ** Listeners are what their configuration says *)

Section listeners.
Context {T : TlsCrate} {L : SslCalls} (utf8_error : string -> string) (now_unix : Z) (o : Outside).

(** The client authentication and the certificates of a listener. *)
Definition authenticates (cfg : TlsConfig) (l : TlsListener) : Prop :=
  match ClientAuthConfig_resolve cfg with
  | Ok None => sel_client_auth (lst_selector l) = None
  | Ok (Some auth) =>
      exists store trusted, sel_client_auth (lst_selector l) = Some (mk_auth_state (auth_mode auth) store (auth_ca_upgrade_cn auth))
        /\ ca_store (ca_snapshot store) = Some trusted /\ trusted <> []
  | Err _ => False
  end.

Definition has_certificates (cfg : TlsConfig) (l : TlsListener) : Prop :=
  match TlsMode_resolve cfg with
  | Ok (Some (TlsFile file)) =>
      exists cert, load_static_certificate utf8_error (o_read o) file = Ok cert /\ server_certs (lst_selector l) = StaticCert cert
  | Ok (Some (TlsConsulKv kv)) =>
      exists store, server_certs (lst_selector l) = DynamicCerts store /\ store_strict_sni store = consul_strict_sni kv
        /\ (consul_require_initial_snapshot kv = true -> ordered (store_snapshot store) <> [])
  | _ => False
  end.

(** What a listener got from Consul is watched from the index it was read at. *)
Definition watched (cfg : TlsConfig) (l : TlsListener) (su : Setup) : Prop :=
  (forall store, server_certs (lst_selector l) = DynamicCerts store ->
     exists kv index, TlsMode_resolve cfg = Ok (Some (TlsConsulKv kv)) /\ mk_cert_service store (cert_prefix kv) index ∈ su_cert_services su)
  /\ (forall auth prefix state, ClientAuthConfig_resolve cfg = Ok (Some auth) -> auth_source auth = CaConsulKv prefix ->
        sel_client_auth (lst_selector l) = Some state -> exists index, mk_ca_service (cas_store state) prefix index ∈ su_ca_services su)
  /\ (forall file cert, TlsMode_resolve cfg = Ok (Some (TlsFile file)) -> server_certs (lst_selector l) = StaticCert cert ->
        (lst_label l, file, cert) ∈ su_file_certs su).

Record opened (cfg : TlsConfig) (l : TlsListener) (su : Setup) : Prop := {
  op_authenticates : authenticates cfg l;
  op_certificates : has_certificates cfg l;
  op_watched : watched cfg l su;
}.

(** The services only grow. *)
Record grows (su su' : Setup) : Prop := {
  gr_ca : su_ca_services su ⊆ su_ca_services su';
  gr_cert : su_cert_services su ⊆ su_cert_services su';
  gr_file : su_file_certs su ⊆ su_file_certs su';
}.

Lemma watched_grows cfg l su su' : grows su su' -> watched cfg l su -> watched cfg l su'.
Proof.
  intros [Hca Hcert Hfile] (H1 & H2 & H3). split_and!.
  - intros store E. destruct (H1 store E) as (kv & i & Ek & Hin). exists kv, i. split; [done|]. by apply Hcert.
  - intros auth p st E1 E2 E3. destruct (H2 auth p st E1 E2 E3) as [i Hin]. exists i. by apply Hca.
  - intros file cert E1 E2. apply Hfile. eauto.
Qed.

Lemma opened_grows cfg l su su' : grows su su' -> opened cfg l su -> opened cfg l su'.
Proof. intros Hg [H1 H2 H3]. split; [done..|]. by eapply watched_grows. Qed.

Lemma ca_fresh_loaded cn entries index :
  let store := ca_apply_snapshot utf8_error now_unix entries index (DynamicClientCaStore_new cn) in
  loaded_entries (ca_status store) <> [] ->
  ca_upgrade_cn store = cn /\ exists trusted, ca_store (ca_snapshot store) = Some trusted /\ trusted <> [].
Proof.
  cbv zeta. intros Hl. pose proof (ca_apply_spec utf8_error now_unix entries index (DynamicClientCaStore_new cn)) as Hs. cbv zeta in Hs.
  unfold ca_apply_snapshot in *. destruct (decide _); [done|]. destruct (ca_from_entries _ _) as [[next ws]|e]; [|done].
  destruct (ca_store next) as [trusted|] eqn:E; [|done]. split; [done|]. cbn in *. rewrite E in Hs.
  destruct Hs as [Hs|[[= ->] Hne]]; [by rewrite Hs in E|]. eauto.
Qed.

Lemma setup_client_ca_spec i auth su store su' :
  setup_client_ca utf8_error now_unix o i auth su = Some (store, su') ->
  ca_upgrade_cn store = auth_ca_upgrade_cn auth
  /\ (exists trusted, ca_store (ca_snapshot store) = Some trusted /\ trusted <> [])
  /\ (forall prefix, auth_source auth = CaConsulKv prefix -> exists index, mk_ca_service store prefix index ∈ su_ca_services su')
  /\ grows su su' /\ su_listeners su' = su_listeners su /\ su_https_ready su' = su_https_ready su.
Proof.
  unfold setup_client_ca. destruct (auth_source auth) as [path|prefix].
  - unfold ca_load_from_path. destruct (load_pem_entries_from_path path (o_path o path)) as [entries|e]; [|done].
    destruct (loaded_entries _) as [|n ns] eqn:El; [done|]. intros [= <- <-].
    destruct (ca_fresh_loaded (auth_ca_upgrade_cn auth) entries 0) as [Hcn Ht]; [by rewrite El|]. by split_and!.
  - unfold initial_load, ca_refresh_from_consul. destruct (o_consul_client o); [done|].
    destruct (o_ca_answer o i) as [[entries index]|e]; [|done]. destruct (loaded_entries _) as [|n ns] eqn:El; [done|]. intros [= <- <-].
    destruct (ca_fresh_loaded (auth_ca_upgrade_cn auth) entries index) as [Hcn Ht]; [by rewrite El|]. split_and!; [done..| | |done|done].
    + intros p [= <-]. exists index. apply elem_of_app. right. by apply list_elem_of_singleton.
    + split; cbn; set_solver.
Qed.

Lemma store_fresh_loaded strict answer :
  let store := (refresh_from_consul utf8_error now_unix answer (DynamicCertStore_new strict)).1.1 in
  store_strict_sni store = strict /\ (loaded_certificates (store_status store) <> [] -> ordered (store_snapshot store) <> []).
Proof.
  cbv zeta. unfold refresh_from_consul. destruct answer as [[entries index]|e]; [|done]. cbn. unfold apply_consul_snapshot.
  destruct (decide _); [done|]. destruct (from_fabio_entries _ _ _) as [next ws]. destruct (ordered next) as [|c cs] eqn:E; [done|]. cbn. by rewrite E.
Qed.

(** How a turn of the loop changes what was built. *)
Definition turn_spec (cfg : TlsConfig) (label addr : string) (su su' : Setup) (opens : Prop) : Prop :=
  grows su su'
  /\ ((su_listeners su' = su_listeners su /\ su_https_ready su' = su_https_ready su /\ ~ opens)
      \/ exists l, su_listeners su' = (su_listeners su ++ [l])%list /\ lst_label l = label /\ lst_addr l = addr /\ opened cfg l su'
                   /\ su_https_ready su' = su_https_ready su || String.eqb label "primary").

Definition listener_addr (http_listen : string) (fallback_addr : option string) (label : string) (cfg : TlsConfig) : string :=
  if String.eqb label "primary" then default (tls_listen_addr http_listen (tls_listen cfg)) fallback_addr
  else tls_listen_addr http_listen (tls_listen cfg).

(** A configuration that asks for a listener. *)
Definition asks (label : string) (cfg : TlsConfig) : Prop :=
  (label = "primary" \/ trim (tls_listen cfg) <> "") /\ exists mode, TlsMode_resolve cfg = Ok (Some mode).

(** What the certificates are set up with after the client authorities. *)
Record authorities_ready (cfg : TlsConfig) (client_auth : option (ClientAuthMode * DynamicClientCaStore)) (su : Setup) : Prop := {
  ar_resolved : exists auth, ClientAuthConfig_resolve cfg = Ok auth /\ (fst <$> client_auth) = (auth_mode <$> auth)
    /\ (forall a store, auth = Some a -> snd <$> client_auth = Some store ->
          ca_upgrade_cn store = auth_ca_upgrade_cn a
          /\ (exists trusted, ca_store (ca_snapshot store) = Some trusted /\ trusted <> [])
          /\ (forall prefix, auth_source a = CaConsulKv prefix -> exists index, mk_ca_service store prefix index ∈ su_ca_services su));
}.

Lemma ready_authenticates cfg client_auth su source label addr h2 :
  authorities_ready cfg client_auth su ->
  let l := mk_listener label addr (build_selector source client_auth) h2 in
  authenticates cfg l
  /\ (forall auth prefix state, ClientAuthConfig_resolve cfg = Ok (Some auth) -> auth_source auth = CaConsulKv prefix ->
        sel_client_auth (lst_selector l) = Some state -> exists index, mk_ca_service (cas_store state) prefix index ∈ su_ca_services su).
Proof.
  intros [(auth & Er & Em & Hs)]. cbv zeta. unfold authenticates, build_selector. cbn [lst_selector sel_client_auth]. rewrite Er.
  destruct auth as [a|], client_auth as [[mode store]|]; try done; cbn.
  - injection Em as ->. destruct (Hs a store eq_refl eq_refl) as (Hcn & (trusted & Ht & Hne) & Hw). split.
    + exists store, trusted. by rewrite Hcn.
    + intros auth prefix state [= <-] Hp [= <-]. by apply Hw.
Qed.

Lemma setup_file_turn label addr cfg file client_auth su :
  TlsMode_resolve cfg = Ok (Some (TlsFile file)) -> authorities_ready cfg client_auth su ->
  match setup_file utf8_error o (String.eqb label "primary") label addr cfg file client_auth su with
  | Done su' => turn_spec cfg label addr su su' True
  | Failed su' => su' = su
  end.
Proof.
  intros Em Ha. unfold setup_file, build_settings. destruct (TlsCertConfig_validate _ _); [|done].
  destruct (load_static_certificate _ _ _) as [cert|] eqn:Ec; [|done]. destruct (o_with_callbacks o); [done|].
  destruct (ready_authenticates cfg client_auth su (StaticCert cert) label addr (http2 cfg) Ha) as [H1 H2]. split; [split; cbn; set_solver|].
  right. eexists. split; [done|]. split_and!; [done..| |done]. split; [done| |].
  - unfold has_certificates. rewrite Em. eauto.
  - split_and!; [done|exact H2|]. rewrite Em. intros f c [= <-] [= <-]. cbn. apply elem_of_app. right. by apply list_elem_of_singleton.
Qed.

Lemma setup_consul_turn i label addr cfg kv client_auth su :
  TlsMode_resolve cfg = Ok (Some (TlsConsulKv kv)) -> authorities_ready cfg client_auth su ->
  match setup_consul utf8_error now_unix o i (String.eqb label "primary") label addr cfg kv client_auth su with
  | Done su' => turn_spec cfg label addr su su' True
  | Failed su' => su' = su
  end.
Proof.
  intros Em Ha. unfold setup_consul, build_settings, initial_load.
  set (sr := match o_consul_client o with Some _ => _ | None => _ end).
  assert (Hstore : store_strict_sni sr.1 = consul_strict_sni kv
    /\ (loaded_certificates (store_status sr.1) <> [] -> ordered (store_snapshot sr.1) <> [])).
  { subst sr. destruct (o_consul_client o); [done|].
    pose proof (store_fresh_loaded (consul_strict_sni kv) (o_cert_answer o i)) as Hf. cbv zeta in Hf.
    by destruct (refresh_from_consul _ _ _ _) as [[store ms] r]. }
  destruct sr as [store index]. cbn in Hstore. destruct Hstore as [Hst Hl].
  destruct (consul_require_initial_snapshot kv && _) eqn:Er; [done|]. destruct (o_with_callbacks o); [done|].
  destruct (ready_authenticates cfg client_auth su (DynamicCerts store) label addr (http2 cfg) Ha) as [H1 H2]. split; [split; cbn; set_solver|].
  right. eexists. split; [done|]. split_and!; [done..| |done]. split; [done| |].
  - unfold has_certificates. rewrite Em. exists store. split_and!; [done..|]. intros Hr. apply Hl. rewrite Hr in Er. by destruct (loaded_certificates _).
  - split_and!; [|exact H2|by rewrite Em]. intros st [= <-]. exists kv, index. split; [done|]. cbn. apply elem_of_app. right. by apply list_elem_of_singleton.
Qed.

Lemma turn_spec_after cfg label addr su0 su su' (opens opens' : Prop) :
  grows su0 su -> su_listeners su = su_listeners su0 -> su_https_ready su = su_https_ready su0 -> (opens' -> opens) ->
  turn_spec cfg label addr su su' opens -> turn_spec cfg label addr su0 su' opens'.
Proof.
  intros [G1 G2 G3] El Eh Ho [[G1' G2' G3'] Ht]. split; [split; by etransitivity|]. rewrite El, Eh in Ht.
  destruct Ht as [(H1 & H2 & H3)|Ht]; [left|by right]. tauto.
Qed.

Lemma setup_listener_turn http fb i label cfg su :
  match setup_listener utf8_error now_unix o http fb i label cfg su with
  | Done su' => turn_spec cfg label (listener_addr http fb label cfg) su su' (asks label cfg)
  | Failed su' => grows su su' /\ su_listeners su' = su_listeners su /\ su_https_ready su' = su_https_ready su
  end.
Proof.
  unfold setup_listener. fold (listener_addr http fb label cfg). set (addr := listener_addr http fb label cfg). clearbody addr.
  destruct (negb (String.eqb label "primary") && is_empty (trim (tls_listen cfg))) eqn:Eskip.
  { split; [done|]. left. split_and!; [done..|]. intros [Hl _]. bool_simpl. destruct (String.eqb_spec label "primary"); [done|].
    destruct Hl as [Hl|Hl]; [done|]. destruct (trim (tls_listen cfg)); done. }
  destruct (ClientAuthConfig_resolve cfg) as [auth|] eqn:Eauth; [|done].
  set (ca := match auth with None => _ | Some _ => _ end).
  assert (Hca : match ca with
                | None => True
                | Some (client_auth, su1) => authorities_ready cfg client_auth su1 /\ grows su su1
                    /\ su_listeners su1 = su_listeners su /\ su_https_ready su1 = su_https_ready su
                end).
  { subst ca. destruct auth as [a|].
    - destruct (setup_client_ca _ _ _ _ _ _) as [[store su1]|] eqn:Es; [|done]. apply setup_client_ca_spec in Es as (Hcn & Ht & Hw & [G1 G2 G3] & El & Eh).
      cbn. split_and!; [|by split|done|done]. split. exists (Some a). split_and!; [done..|]. by intros a' store' [= <-] [= <-].
    - split_and!; [|done..]. split. by exists None. }
  destruct ca as [[client_auth su1]|]; [|done]. destruct Hca as (Ha & Hg & El & Eh).
  destruct (TlsMode_resolve cfg) as [[[file|kv]|]|] eqn:Em.
  - pose proof (setup_file_turn label addr cfg file client_auth su1 Em Ha) as Ht. destruct (setup_file _ _ _ _ _ _ _ _ _) as [su'|su'].
    + by eapply turn_spec_after; [..|exact Ht].
    + by subst su'.
  - pose proof (setup_consul_turn i label addr cfg kv client_auth su1 Em Ha) as Ht. destruct (setup_consul _ _ _ _ _ _ _ _ _ _ _) as [su'|su'].
    + by eapply turn_spec_after; [..|exact Ht].
    + by subst su'.
  - split; [done|]. left. split_and!; [done..|]. intros [_ [mode E]]. by rewrite Em in E.
  - done.
Qed.

(** The listeners that a run of the loop adds. *)
Record loop_spec (http : string) (fb : option string) (cfgs : list (string * TlsConfig)) (su su' : Setup) (news : list TlsListener) : Prop := {
  lo_grows : grows su su';
  lo_listeners : su_listeners su' = (su_listeners su ++ news)%list;
  lo_opened : Forall (fun l => exists cfg, (lst_label l, cfg) ∈ cfgs /\ lst_addr l = listener_addr http fb (lst_label l) cfg /\ opened cfg l su') news;
  lo_primary cfg : ("primary", cfg) ∈ cfgs -> asks "primary" cfg -> Exists (fun l => lst_label l = "primary") news;
  lo_ready : su_https_ready su' = true -> su_https_ready su = true \/ Exists (fun l => lst_label l = "primary") news;
}.

Lemma setup_listeners_loop http fb i cfgs su su' :
  setup_listeners utf8_error now_unix o http fb i cfgs su = Some su' -> exists news, loop_spec http fb cfgs su su' news.
Proof.
  revert i su. induction cfgs as [|[label cfg] cfgs IH]; intros i su; cbn.
  { intros [= <-]. exists []. split; cbn; [done|by rewrite app_nil_r|constructor|by intros cfg ?%elem_of_nil|by left]. }
  pose proof (setup_listener_turn http fb i label cfg su) as Ht. destruct (setup_listener _ _ _ _ _ _ _ _ _) as [su1|su1].
  - intros (news & [[G1 G2 G3] El Ho Hp Hr])%IH. destruct Ht as [[G1' G2' G3'] [(El1 & Eh1 & Hn)|(l & El1 & Hlab & Haddr & Hop & Eh1)]].
    + exists news. split.
      * split; by etransitivity.
      * by rewrite El, El1.
      * eapply Forall_impl; [exact Ho|]. intros l (c & Hin & Hl). exists c. split; [by right|done].
      * intros c [[= -> ->]|Hin]%elem_of_cons Ha; [done|by eapply Hp].
      * by rewrite Eh1 in Hr.
    + exists (l :: news). split.
      * split; by etransitivity.
      * rewrite El, El1. by rewrite <- app_assoc.
      * constructor.
        -- exists cfg. rewrite Hlab. split_and!; [by left|done|]. by eapply opened_grows; [|exact Hop].
        -- eapply Forall_impl; [exact Ho|]. intros l' (c & Hin & Hl). exists c. split; [by right|done].
      * intros c [[= <- <-]|Hin]%elem_of_cons Ha; [by left|]. right. by eapply Hp.
      * intros Hy. destruct (Hr Hy) as [Hy'|He]; [|right; by right]. rewrite Eh1 in Hy'. apply orb_true_iff in Hy' as [Hy'|Hy']; [by left|].
        right. left. rewrite Hlab. by apply String.eqb_eq.
  - destruct Ht as ([G1' G2' G3'] & El1 & Eh1). destruct (String.eqb_spec label "primary") as [|Hne]; [done|].
    intros (news & [[G1 G2 G3] El Ho Hp Hr])%IH. exists news. split.
    + split; by etransitivity.
    + by rewrite El, El1.
    + eapply Forall_impl; [exact Ho|]. intros l (c & Hin & Hl). exists c. split; [by right|done].
    + intros c [[= <- <-]|Hin]%elem_of_cons Ha; [done|by eapply Hp].
    + by rewrite Eh1 in Hr.
Qed.
End listeners.

(** ** What a started balancer serves *)

Section started.
Context {T : TlsCrate} {L : SslCalls} (utf8_error : string -> string) (now_unix : Z) (o : Outside).
Context {N : HeaderNames} {G : GlobCrate} {U : UrlParser} {O : HashOrder} {S : DnsCache.SelectNth}.
Context (toml : string -> result Config string) (loopback : result string string) (now_ns : Z) (args : Args).

(** What a successful [main] went through. *)
Record started (c : Config) (b : Boot) : Prop := {
  sd_config : load_config toml (o_read o) args = Ok c;
  sd_valid : validate c = None;
  sd_state : exists s0, start_balancer c = Ok s0 /\ boot_state b = load_static_routes now_ns (o_read o <$> arg_routes args) s0;
  sd_setup : setup_listeners utf8_error now_unix o (server_listen (server c)) (tcp_mode_at_start c loopback).2 0 (all_tls_configs c) setup_new
             = Some (boot_tls b);
  sd_services : boot_services b = background_services c (tcp_mode_at_start c loopback).1 (tcp_mode_at_start c loopback).2 (boot_tls b);
}.

Lemma main_started b : main utf8_error now_unix o toml loopback now_ns args = Ok b -> exists c, started c b.
Proof.
  unfold main. destruct (load_config _ _ _) as [c|] eqn:Ec; [|done]. destruct (start_balancer c) as [s0|] eqn:Es; [|done].
  destruct (tcp_mode_at_start c loopback) as [mode fb] eqn:Et. destruct (setup_listeners _ _ _ _ _ _ _ _) as [su|] eqn:Esu; [|done].
  intros [= <-]. exists c. split; [done| |by exists s0|by rewrite Et|by rewrite Et].
  unfold start_balancer in Es. by destruct (validate c).
Qed.

Lemma started_loop c b :
  started c b ->
  loop_spec utf8_error o (server_listen (server c)) (tcp_mode_at_start c loopback).2 (all_tls_configs c) setup_new (boot_tls b) (su_listeners (boot_tls b)).
Proof. intros [_ _ _ Hs _]. apply setup_listeners_loop in Hs as [news Hl]. pose proof (lo_listeners _ _ _ _ _ _ _ _ Hl) as E. cbn in E. by rewrite E. Qed.

(** What any client of a listener meets in its handshake. *)
Definition demands_certificate (l : TlsListener) : Prop :=
  forall server_name, let ssl := certificate_callback (lst_selector l) server_name fresh_ssl in
  ssl_certificate ssl = None
  \/ exists trusted, trusted <> [] /\ ssl_verify ssl = Some (mk_verify true true) /\ ssl_verify_store ssl = Some trusted.

Lemma required_demands cfg auth l :
  ClientAuthConfig_resolve cfg = Ok (Some auth) -> auth_mode auth = AuthRequired -> authenticates cfg l -> demands_certificate l.
Proof.
  intros Ea Em Hl server_name. cbv zeta. unfold authenticates in Hl. rewrite Ea in Hl. destruct Hl as (store & trusted & Es & Et & Hne).
  rewrite Em in Es. destruct l as [lab addr [source sca] h2]. cbn [lst_selector sel_client_auth] in *. subst sca.
  unfold certificate_callback. cbn [sel_client_auth]. unfold configure_ssl. cbn [cas_mode cas_store verify_mode cas_upgrade_cn].
  unfold current_store. rewrite Et. rewrite Et. destruct (set_verify_cert_store_error trusted); [by left|]. right. exists trusted. split; [done|].
  cbn [server_certs]. destruct (source_select source server_name) as [cert|]; [|done].
  by destruct (attach_certificate_auth cert (set_verify_callback (mk_verify true true) (auth_ca_upgrade_cn auth) (set_verify_store trusted fresh_ssl)))
    as (E1 & E2 & E3).
Qed.

(** C31: A balancer that starts has validated its configuration, and every
    TLS listener it opens is the one of a TLS section: with the certificates
    the section names (none missing where a first snapshot is required), and
    with client authentication exactly as the section says, the authorities
    being loaded and not empty. Where it is required no handshake gets a
    server certificate without the demand for a client certificate. The primary
    listener, if its section asks for one, is open: a failure ends the process. *)
Theorem started_listeners_sound b :
  main utf8_error now_unix o toml loopback now_ns args = Ok b ->
  exists c, load_config toml (o_read o) args = Ok c /\ validate c = None
    /\ Forall (fun l => exists cfg, (lst_label l, cfg) ∈ all_tls_configs c
         /\ authenticates cfg l /\ has_certificates utf8_error o cfg l
         /\ forall auth, ClientAuthConfig_resolve cfg = Ok (Some auth) -> auth_mode auth = AuthRequired -> demands_certificate l)
       (su_listeners (boot_tls b))
    /\ ((exists mode, TlsMode_resolve (tls c) = Ok (Some mode)) -> Exists (fun l => lst_label l = "primary") (su_listeners (boot_tls b))).
Proof.
  intros [c Hs]%main_started. pose proof (started_loop c b Hs) as Hl. exists c. split_and!; [apply Hs..| |].
  - eapply Forall_impl; [apply Hl|]. intros l (cfg & Hin & _ & [Ha Hc _]). exists cfg. split_and!; [done..|].
    intros auth Ea Em. by eapply required_demands.
  - intros Hm. apply (lo_primary _ _ _ _ _ _ _ _ Hl (tls c)); [by left|]. split; [by left|done].
Qed.

(** The services of a started balancer keep up what its listeners were
    opened with: certificates and authorities from Consul are watched under
    their prefix, certificate files are watched for changes; routes are watched
    as configured; the TCP proxy with an HTTPS fallback runs only with the
    fallback listener open at its address. The state the balancer serves from is
    the validated start state with the static routes loaded. *)
Theorem started_services_sound b :
  main utf8_error now_unix o toml loopback now_ns args = Ok b ->
  exists c, load_config toml (o_read o) args = Ok c
    /\ Forall (fun l => exists cfg, (lst_label l, cfg) ∈ all_tls_configs c
         /\ (forall store, server_certs (lst_selector l) = DynamicCerts store ->
               exists kv index, TlsMode_resolve cfg = Ok (Some (TlsConsulKv kv))
                 /\ TlsCertService (mk_cert_service store (cert_prefix kv) index) ∈ boot_services b)
         /\ (forall auth prefix state, ClientAuthConfig_resolve cfg = Ok (Some auth) -> auth_source auth = CaConsulKv prefix ->
               sel_client_auth (lst_selector l) = Some state -> exists index, ClientCaWatcher (mk_ca_service (cas_store state) prefix index) ∈ boot_services b)
         /\ (forall file cert, TlsMode_resolve cfg = Ok (Some (TlsFile file)) -> server_certs (lst_selector l) = StaticCert cert ->
               FileCertWatcher (lst_label l) file cert 30 ∈ boot_services b))
       (su_listeners (boot_tls b))
    /\ (forall fb, TcpService HttpsTcpSni fb ∈ boot_services b ->
          exists addr, fb = Some addr /\ Exists (fun l => lst_label l = "primary" /\ lst_addr l = addr) (su_listeners (boot_tls b)))
    /\ exists s0, start_balancer c = Ok s0 /\ rtc runtime_step s0 (boot_state b).
Proof.
  intros [c Hs]%main_started. pose proof (started_loop c b Hs) as Hl. exists c. split; [apply Hs|].
  rewrite (sd_services _ _ Hs). split_and!.
  - eapply Forall_impl; [apply Hl|]. intros l (cfg & Hin & _ & [_ _ (H1 & H2 & H3)]). exists cfg. split; [done|]. unfold background_services. split_and!.
    + intros store E. destruct (H1 store E) as (kv & i & Ek & Hk). exists kv, i. split; [done|]. rewrite !elem_of_app. right; left.
      by apply list_elem_of_fmap_2.
    + intros auth p st E1 E2 E3. destruct (H2 auth p st E1 E2 E3) as [i Hk]. exists i. rewrite !elem_of_app. do 2 right. left.
      by apply list_elem_of_fmap_2.
    + intros file cert E1 E2. rewrite !elem_of_app. do 3 right. left.
      by apply (list_elem_of_fmap_2 (fun '(label, config, cert) => FileCertWatcher label config cert 30) _ (lst_label l, file, cert)), H3.
  - intros fb Hin. unfold background_services in Hin. rewrite !elem_of_app in Hin.
    assert (Hm : exists addr, tcp_mode_at_start c loopback = (HttpsTcpSni, Some addr) /\ fb = Some addr /\ su_https_ready (boot_tls b) = true).
    { destruct Hin as [Hin|[Hin|[Hin|[Hin|[Hin|Hin]]]]].
      - destruct (_ || _); [|by apply elem_of_nil in Hin]. by apply list_elem_of_singleton in Hin.
      - by apply list_elem_of_fmap_1 in Hin as (? & ? & ?).
      - by apply list_elem_of_fmap_1 in Hin as (? & ? & ?).
      - by apply list_elem_of_fmap_1 in Hin as ([[? ?] ?] & ? & ?).
      - unfold tcp_mode_at_start in *. destruct (match resolve_tcp_mode c with Ok _ => _ | Err _ => _ end);
          try (destruct loopback as [addr|]); cbn [fst snd] in *; try (by apply elem_of_nil in Hin);
          try (apply list_elem_of_singleton in Hin; discriminate).
        destruct (su_https_ready (boot_tls b)); [|by apply elem_of_nil in Hin]. apply list_elem_of_singleton in Hin as [= ->]. eauto.
      - rewrite !elem_of_cons, elem_of_nil in Hin. by destruct Hin as [?|[?|?]]. }
    destruct Hm as (addr & Et & -> & Hr). exists addr. split; [done|]. destruct (lo_ready _ _ _ _ _ _ _ _ Hl Hr) as [?|He]; [done|].
    rewrite Exists_exists in He |- *. destruct He as (l & Hin' & Hlab). exists l. split; [done|]. split; [done|].
    pose proof (lo_opened _ _ _ _ _ _ _ _ Hl) as Ho. rewrite Forall_forall in Ho. destruct (Ho l Hin') as (cfg & _ & -> & _).
    unfold listener_addr. by rewrite Hlab, Et.
  - destruct (sd_state _ _ Hs) as (s0 & E0 & ->). exists s0. split; [done|]. unfold load_static_routes.
    destruct (arg_routes args) as [p|]; [|done]. cbn. destruct (o_read o p) as [content|]; [|done].
    destruct s0 as [cf st tr d m h]. cbn. pose proof (step_routes now_ns ∅ (OpLoadStatic (parse_route_commands content)) cf st tr d m h eq_refl) as Hstep.
    cbn in Hstep. destruct (load_static _ _ _ _ _) as [m' h']. by apply rtc_once.
Qed.
End started.

(** ** Examples *)

#[local] Instance no_glob : GlobCrate := {| Pattern := unit; pattern_new _ := None; pattern_matches _ _ := false |}.
#[local] Instance any_header : HeaderNames := fun s => negb (contains_char " "%char s).
#[local] Existing Instance DnsCache.sort_select.
#[local] Instance some_url : UrlParser := fun _ => None.
#[local] Instance list_order : HashOrder := {| iter_order m := map_to_list m; iter_order_perm m := Permutation_refl _ |}.
#[local] Existing Instance plain_tls.
#[local] Existing Instance no_errors.

(** A certificate from files and client certificates required, from the same
    file; and a second listener whose authorities Consul should give. *)
Definition demo_tls (listen ca_source : string) : TlsConfig :=
  mk_tls "file" "/c.pem" "/k.pem" listen "" false false "required" ca_source "/ca.pem" "cas" "" false true.
Definition demo_file_config : Config :=
  mk_config (default_ServerConfig ":9999") default_ConsulConfig default_ProxyConfig default_LoggingConfig
    (demo_tls "" "file") [demo_tls ":9443" "consul_kv"] default_TcpConfig.

Definition demo_outside (ca : PathNode) (answer : result (gmap string string * Z) string) : Outside :=
  mk_outside (fun p => if String.eqb p "/c.pem" then Ok (cert_text "a.b") else if String.eqb p "/k.pem" then Ok (key_text "a.b") else Ok "toml")
    (fun p => Text p) (fun _ => ca) None (fun _ => answer) (fun _ => Err "none") None.
Definition demo_args : Args := mk_args (Some "lb.toml") None None None None.
Definition demo_main (ca : PathNode) (answer : result (gmap string string * Z) string) : result Boot string :=
  main (fun _ => "") 0 (demo_outside ca answer) (fun _ => Ok demo_file_config) (Err "no port") 5 demo_args.

Definition demo_ca : PathNode := OtherNode (Ok (cert_text "root")).
Definition demo_cas : gmap string string := {["ca.pem" := cert_text "root"]}.

(** Without authorities the primary listener cannot be set up and the process
    ends; a listener other than the primary is left out. *)
Example startup_examples :
  (match demo_main (NoStat "no such file") (Ok (demo_cas, 7)) with Err e => e | Ok _ => "" end) = "primary TLS listener"
  /\ (match demo_main demo_ca (Err "down") with Ok b => map lst_label (su_listeners (boot_tls b)) | Err _ => [] end) = ["primary"]
  /\ (match demo_main demo_ca (Ok (demo_cas, 7)) with
      | Ok b => map (fun l => (lst_label l, lst_addr l)) (su_listeners (boot_tls b)) | Err _ => [] end)
     = [("primary", ":10000"); ("tls_listeners[0]", ":9443")].
Proof. vm_compute. by split_and!. Qed.

Lemma started_listeners_sound_witness :
  exists b, demo_main demo_ca (Err "down") = Ok b
  /\ exists c, load_config (fun _ => Ok demo_file_config) (o_read (demo_outside demo_ca (Err "down"))) demo_args = Ok c /\ validate c = None
    /\ Forall (fun l => exists cfg, (lst_label l, cfg) ∈ all_tls_configs c
         /\ authenticates cfg l /\ has_certificates (fun _ => "") (demo_outside demo_ca (Err "down")) cfg l
         /\ forall auth, ClientAuthConfig_resolve cfg = Ok (Some auth) -> auth_mode auth = AuthRequired -> demands_certificate l)
       (su_listeners (boot_tls b))
    /\ ((exists mode, TlsMode_resolve (tls c) = Ok (Some mode)) -> Exists (fun l => lst_label l = "primary") (su_listeners (boot_tls b))).
Proof.
  assert (Hm : exists b, demo_main demo_ca (Err "down") = Ok b) by (vm_compute; eauto).
  destruct Hm as [b Hb]. exists b. split; [exact Hb|].
  exact (started_listeners_sound (fun _ => "") 0 (demo_outside demo_ca (Err "down")) (fun _ => Ok demo_file_config) (Err "no port") 5 demo_args b Hb).
Defined.

Lemma started_services_sound_witness :
  exists b, demo_main demo_ca (Ok (demo_cas, 7)) = Ok b
  /\ exists c, load_config (fun _ => Ok demo_file_config) (o_read (demo_outside demo_ca (Ok (demo_cas, 7)))) demo_args = Ok c.
Proof.
  assert (Hm : exists b, demo_main demo_ca (Ok (demo_cas, 7)) = Ok b) by (vm_compute; eauto).
  destruct Hm as [b Hb]. exists b. split; [exact Hb|].
  destruct (started_services_sound (fun _ => "") 0 (demo_outside demo_ca (Ok (demo_cas, 7))) (fun _ => Ok demo_file_config) (Err "no port") 5 demo_args b Hb)
    as (c & Hc & _). exists c. exact Hc.
Defined.
