(* ===== verification/Settings.v ===== *)
(** * Settings: what a validated configuration runs with

    The durations of the configuration are texts, read where they are used:
    the timeouts of the proxy (src/src/config/parse.rs), the health checks
    (src/src/proxy/health.rs), the waits of the Consul client
    (src/src/consul/client.rs and watcher.rs), the refresh of the dynamic TCP
    listeners (src/src/proxy/tcp.rs) and the grace period of a shutdown
    (src/src/main.rs). A text that does not parse falls back to a default
    there; validation is what keeps that from happening. *)
From S2P Require Import Prelude RustStr StrFacts Net Health Config Tcp Consul Watcher Checker Startup.
From Stdlib Require Import Ascii String.
Local Open Scope string_scope.
Local Open Scope Z_scope.

(** A grace period is counted in whole seconds: a drain of less than one
    gives none. *)
Definition grace_of (graceful : bool) (d : Duration) : option Z :=
  if graceful && (from_secs 1 <=? d) then Some (d / from_secs 1) else None.

(** The wait a poll interval asks Consul for, five minutes for zero. *)
Definition consul_wait (d : Duration) : Duration := if d =? 0 then from_secs 300 else d.

(** Every setting read from a text of the configuration, at the place that
    reads it, is the one the text denotes. *)
Record runtime_settings (c : Config) : Prop := {
  rs_connect : denotes (connect_timeout (proxy c)) (connect (parsed_timeouts c));
  rs_read : denotes (read_timeout (proxy c)) (read (parsed_timeouts c));
  rs_write : denotes (write_timeout (proxy c)) (write (parsed_timeouts c));
  rs_idle : denotes (idle_timeout (proxy c)) (idle_ (parsed_timeouts c));
  rs_stream : denotes_or_blank (stream_read_timeout (proxy c)) (stream_read (parsed_timeouts c));
  rs_ping : denotes_or_blank (upstream_h2_ping_interval (proxy c)) (h2_ping_interval (parsed_timeouts c));
  rs_upstream : keepalive_running (upstream_tcp_keepalive (proxy c)) (upstream_user_timeout (proxy c)) (upstream_keepalive (parsed_timeouts c));
  rs_downstream : keepalive_running (downstream_tcp_keepalive (proxy c)) "" (downstream_keepalive (parsed_timeouts c));
  rs_check_interval : denotes (health_check_interval (proxy c)) (hc_interval (hc_from_proxy_config (proxy c)));
  rs_check_timeout : denotes (health_check_timeout (proxy c)) (hc_timeout (hc_from_proxy_config (proxy c)));
  rs_poll : exists d, denotes (poll_interval (consul c)) d
    /\ let client := client_config_from (consul c) in
       poll_sleep client = consul_wait d
       /\ http_timeout client = if d <=? duration_max - from_secs 10 then Some (consul_wait d + from_secs 10) else None;
  rs_refresh : forall d, resolve_tcp_mode c = Ok (TcpDynamic d) -> denotes (refresh (tcp c)) d /\ 0 < d;
  rs_drain : exists d, denotes (drain_timeout (server c)) d /\ 0 < d /\ grace_secs c = grace_of (graceful_shutdown (consul c)) d;
  rs_trusted : Forall2 (fun text range => CidrRange_parse text = Some range)
    (trusted_proxies (proxy c)) (parse_trusted_proxies (trusted_proxies (proxy c)));
}.

Lemma parse_trimmed s : parse_optional_duration (trim s) = parse_optional_duration s.
Proof. unfold parse_optional_duration. by rewrite trim_idempotent. Qed.

Lemma duration_denoted az value : duration_ok az value -> exists d, denotes value d /\ 0 <= d /\ parse_duration value = d /\ (az = false -> 0 < d).
Proof.
  intros (d & Hd & Hp). exists d. split_and!; [done| |by unfold parse_duration; rewrite parse_trimmed, Hd|done].
  apply parse_duration_range in Hd. lia.
Qed.

Lemma poll_settings cfg d :
  denotes (poll_interval cfg) d -> 0 <= d ->
  let client := client_config_from cfg in
  poll_sleep client = consul_wait d
  /\ http_timeout client = if d <=? duration_max - from_secs 10 then Some (consul_wait d + from_secs 10) else None.
Proof.
  intros Hd H0. cbv zeta. unfold poll_sleep, http_timeout, client_config_from, normalize_query_wait. cbn [query_wait].
  unfold denotes in Hd. rewrite Hd. unfold consul_wait. destruct (d =? 0) eqn:E; bool_simpl.
  - subst d. by vm_compute.
  - unfold parse_duration. rewrite trim_idempotent, parse_trimmed, Hd. cbv zeta.
    rewrite (proj2 (Z.eqb_neq _ _) E). split; [done|].
    destruct (d + from_secs 10 <=? duration_max) eqn:E1, (d <=? duration_max - from_secs 10) eqn:E2; bool_simpl; done || lia.
Qed.

Lemma grace_settings c d : denotes (drain_timeout (server c)) d -> grace_secs c = grace_of (graceful_shutdown (consul c)) d.
Proof.
  intros Hd. unfold grace_secs, grace_of, parse_duration. rewrite parse_trimmed. unfold denotes in Hd. rewrite Hd. cbv zeta.
  change (from_secs 1) with 1000000000. assert ((0 <? d / 1000000000) = (1000000000 <=? d)) as ->; [|done].
  destruct (1000000000 <=? d) eqn:E; bool_simpl; [apply Z.ltb_lt|apply Z.ltb_ge]; Z.div_mod_to_equations; lia.
Qed.

Lemma refresh_settings c d :
  duration_ok false (refresh (tcp c)) -> resolve_tcp_mode c = Ok (TcpDynamic d) -> denotes (refresh (tcp c)) d /\ 0 < d.
Proof.
  intros (d' & Hd & Hp). unfold resolve_tcp_mode. cbv zeta. repeat (case_match; try done). intros [= <-]. rewrite Hd. cbn. split; [done|by apply Hp].
Qed.

Lemma trusted_settings l :
  Forall (fun s => validate_cidr s = Ok tt) l -> Forall2 (fun text range => CidrRange_parse text = Some range) l (parse_trusted_proxies l).
Proof.
  unfold parse_trusted_proxies. induction 1 as [|s l Hs _ IH]; [constructor|].
  destruct (validated_cidr_parses s Hs) as [r Hr]. cbn. rewrite Hr. by constructor.
Qed.


(** ** Concrete configurations *)

#[local] Instance any_header : HeaderNames := fun s => negb (contains_char " "%char s).


Definition server_draining (drain : string) (c : Config) : Config :=
  let s := server c in
  mk_config (mk_server (server_listen s) (admin_listen s) (admin_users s) (admin_token s) (workers s) drain)
    (consul c) (proxy c) (logging c) (tls c) (tls_listeners c) (tcp c).
Definition polling (poll : string) (c : Config) : Config :=
  let k := consul c in
  mk_config (server c)
    (mk_consul (address k) (scheme_ k) (token k) (kv_prefix k) (tag_prefix k) poll (service_discovery k) (kv_watching k)
      (service_whitelist k) (service_blacklist k) (graceful_shutdown k) (include_warning k))
    (proxy c) (logging c) (tls c) (tls_listeners c) (tcp c).

(** A drain of half a second is accepted as positive and gives no grace. *)
Example short_drain_ignored :
  let c := server_draining "500ms" (Config.demo_config ":9443" "5s" []) in
  validate c = None /\ parse_optional_duration (drain_timeout (server c)) = Some (from_millis 500) /\ grace_secs c = None.
Proof. vm_compute. split_and!; reflexivity. Qed.

(** The largest poll interval is accepted, and the time-out of the client
    overflows. *)
Example longest_poll_panics :
  let c := polling "18446744073709551615s" (Config.demo_config ":9443" "5s" []) in
  validate c = None /\ http_timeout (client_config_from (consul c)) = None.
Proof. vm_compute. split_and!; reflexivity. Qed.
