(* ===== verification/Flow.v ===== *)
(** * Flow: short-window traffic rates of the topology view

    Models src/src/admin/topology_flow.rs: the samples kept of the totals and
    of every target of the table, the rates and activity computed from them
    and the cache that is refreshed at most once a second. Times are
    milliseconds since the start of the process. *)
From stdpp Require Import sorting.
From S2P Require Import Prelude F64 RustStr StrFacts Routes RateLimit CircuitBreaker Health Stats Target Weights Table.
From S2P Require Metrics.
From Stdlib Require Import Ascii String.
Local Open Scope string_scope.
Local Open Scope Z_scope.

Definition SAMPLE_INTERVAL_MS : Z := 1000.
Definition HISTORY_RETENTION_MS : Z := 6000.
Definition STALE_RETENTION_MS : Z := 60000.

Record TopologyFlowMetrics := mk_flow {
  rps_1s : f64;
  rps_5s : f64;
  bps_1s : f64;
  bps_5s : f64;
  delta_requests : Z;
  delta_bytes : Z;
  last_active_ms_ago : option Z;
  activity_level : string;
}.
Definition flow_default : TopologyFlowMetrics := mk_flow f64_zero f64_zero f64_zero f64_zero 0 0 None "".

Definition activity_level_rank (level : string) : Z := if String.eqb level "hot" then 2 else if String.eqb level "warm" then 1 else 0.
Definition activity_level_name (rank : Z) : string := if rank =? 2 then "hot" else if rank =? 1 then "warm" else "idle".

Definition earliest (current next : option Z) : option Z :=
  match current, next with Some a, Some b => Some (Z.min a b) | None, next => next | current, None => current end.

(** The loop of [combine]: what is combined so far and the activity rank. *)
Definition combine_one (acc : TopologyFlowMetrics * Z) (flow : TopologyFlowMetrics) : TopologyFlowMetrics * Z :=
  let '(c, rank) := acc in
  (mk_flow (f64_add (rps_1s c) (rps_1s flow)) (f64_add (rps_5s c) (rps_5s flow)) (f64_add (bps_1s c) (bps_1s flow))
     (f64_add (bps_5s c) (bps_5s flow)) (saturating_add (delta_requests c) (delta_requests flow))
     (saturating_add (delta_bytes c) (delta_bytes flow)) (earliest (last_active_ms_ago c) (last_active_ms_ago flow)) (activity_level c),
   Z.max rank (activity_level_rank (activity_level flow))).

Definition combine (flows : list TopologyFlowMetrics) : TopologyFlowMetrics :=
  let '(c, rank) := foldl combine_one (flow_default, 0) flows in
  mk_flow (rps_1s c) (rps_5s c) (bps_1s c) (bps_5s c) (delta_requests c) (delta_bytes c) (last_active_ms_ago c) (activity_level_name rank).

(** ** Histories *)

Record CounterSample := mk_counter_sample { at_ms : Z; requests : Z; bytes : Z }.

(** The samples, oldest first. *)
Record FlowHistory := mk_history { samples : list CounterSample; last_active_ms : option Z }.
Definition history_default : FlowHistory := mk_history [] None.

Definition push_sample (s : CounterSample) (l : list CounterSample) : list CounterSample :=
  match last l with
  | Some newest => if at_ms newest =? at_ms s then (take (List.length l - 1) l ++ [s])%list else (l ++ [s])%list
  | None => [s]
  end.

Fixpoint drop_old (now : Z) (l : list CounterSample) : list CounterSample :=
  match l with
  | s :: l' => if HISTORY_RETENTION_MS <? saturating_sub now (at_ms s) then drop_old now l' else l
  | [] => []
  end.

(** [samples.iter().rev().nth(1)] *)
Definition previous_sample (l : list CounterSample) : option CounterSample := rev l !! 1%nat.

Definition record (now req byt : Z) (last_access_secs : option Z) (h : FlowHistory) : FlowHistory :=
  let sample := mk_counter_sample now req byt in
  let l := drop_old now (push_sample sample (samples h)) in
  let active :=
    match last_access_secs with
    | Some secs => if 0 <? secs then Some (Z.min (secs * 1000) u64_max) else last_active_ms h
    | None =>
        let previous := default sample (previous_sample l) in
        if (requests previous <? req) || (bytes previous <? byt) then Some now else last_active_ms h
    end in
  mk_history l active.

Definition baseline (h : FlowHistory) (latest : CounterSample) (window_ms : Z) : option CounterSample :=
  match List.find (fun s => window_ms <=? saturating_sub (at_ms latest) (at_ms s)) (rev (samples h)) with
  | Some s => Some s
  | None => head (samples h)
  end.

Definition rate_over_window (h : FlowHistory) (latest : CounterSample) (window_ms : Z) (value : CounterSample -> Z) : f64 :=
  match baseline h latest window_ms with
  | None => f64_zero
  | Some base =>
      let elapsed_ms := saturating_sub (at_ms latest) (at_ms base) in
      if elapsed_ms =? 0 then f64_zero
      else
        let delta := saturating_sub (value latest) (value base) in
        f64_div (f64_mul (f64_of_Z delta) (f64_of_Z 1000)) (f64_of_Z elapsed_ms)
  end.

Definition delta_of (value : CounterSample -> Z) (latest : CounterSample) (previous : option CounterSample) : Z :=
  match previous with Some prev => saturating_sub (value latest) (value prev) | None => 0 end.

Definition flow (now : Z) (h : FlowHistory) : TopologyFlowMetrics :=
  match last (samples h) with
  | None => flow_default
  | Some latest =>
      let previous := previous_sample (samples h) in
      let d_requests := delta_of requests latest previous in
      let d_bytes := delta_of bytes latest previous in
      let r1 := rate_over_window h latest 1000 requests in
      let r5 := rate_over_window h latest 5000 requests in
      let b1 := rate_over_window h latest 1000 bytes in
      let b5 := rate_over_window h latest 5000 bytes in
      let ago := (fun t => saturating_sub now t) <$> last_active_ms h in
      let level :=
        if (0 <? d_requests) || (0 <? d_bytes) || f64_le f64_one r1 then "hot"
        else if f64_lt f64_zero r5 || f64_lt f64_zero b5 || match ago with Some age => age <=? 30000 | None => false end then "warm"
        else "idle" in
      mk_flow r1 r5 b1 b5 d_requests d_bytes ago level
  end.

Definition has_recent_samples (now : Z) (h : FlowHistory) : bool :=
  match last (samples h) with Some s => saturating_sub now (at_ms s) <=? STALE_RETENTION_MS | None => false end.

(** ** The cache *)

Record TopologyFlowState := mk_flow_state {
  last_refresh_ms : Z;
  lb : FlowHistory;
  edges : gmap string FlowHistory;
}.
Definition flow_state_default : TopologyFlowState := mk_flow_state 0 history_default ∅.

Record TopologyFlowSnapshot := mk_flow_snapshot { snap_lb : TopologyFlowMetrics; snap_edges : gmap string TopologyFlowMetrics }.

Definition unit_separator : string := String (chr 31) "".
Definition topology_target_key (host path service url : string) : string :=
  host ++ unit_separator ++ path ++ unit_separator ++ service ++ unit_separator ++ url.

Section cache.
Context {G : GlobCrate} {O : HashOrder}.

Definition target_key (e : string * Route * Target) : string :=
  let '(host, route, target) := e in topology_target_key host (Table.path route) (Target.service target) (url target).

(** The refresh of the edges, one target after the other. *)
Definition record_edge (now : Z) (h : Heap) (es : gmap string FlowHistory) (e : string * Route * Target) : gmap string FlowHistory :=
  let stats := get_stats (edge_stats_loc e.2) h in
  let key := target_key e in
  <[key := record now (requests_total stats) (bytes_total stats) (Some (last_access stats)) (default history_default (es !! key))]> es.

Definition due (now : Z) (st : TopologyFlowState) : bool :=
  (SAMPLE_INTERVAL_MS <=? saturating_sub now (last_refresh_ms st)) || (last_refresh_ms st =? 0).

Definition refresh (now : Z) (m : Metrics.Metrics) (table : Table) (h : Heap) (st : TopologyFlowState) : TopologyFlowState :=
  let totals := record now (Metrics.load m Metrics.requests_total) (Metrics.load m Metrics.bytes_received_total) None (lb st) in
  let targets := iter_targets table in
  let es := foldl (record_edge now h) (edges st) targets in
  mk_flow_state now totals (filter (fun kv => (bool_decide (kv.1 ∈ map target_key targets) || has_recent_samples now kv.2) = true) es).

Definition snapshot (now : Z) (m : Metrics.Metrics) (table : Table) (h : Heap) (st : TopologyFlowState) : TopologyFlowState * TopologyFlowSnapshot :=
  let st := if due now st then refresh now m table h st else st in
  (st, mk_flow_snapshot (flow now (lb st)) (flow now <$> edges st)).
End cache.

(** The example of the source's own tests. *)
Example flow_test :
  let h := record 6000 26 9000 (Some 6) (record 2000 16 4000 (Some 2) (record 1000 10 1000 (Some 1) history_default)) in
  let f := flow 6000 h in
  delta_requests f = 10 /\ delta_bytes f = 5000 /\ last_active_ms_ago f = Some 0 /\ activity_level f = "hot"
  /\ f64_eq (rps_1s f) (f64_div (f64_of_Z 5) (f64_of_Z 2)) = true /\ f64_eq (bps_1s f) (f64_of_Z 1250) = true
  /\ f64_eq (bps_5s f) (f64_of_Z 1600) = true.
Proof. vm_compute. by split_and!. Qed.

(** ** The window of a history *)

Definition times (h : FlowHistory) : list Z := map at_ms (samples h).

(** Two samples in a row are a second apart, unless the first was taken in the
    first millisecond, when the time of the last refresh reads as none. *)
Definition gap (a b : Z) : Prop := a < b /\ (a = 0 \/ a + SAMPLE_INTERVAL_MS <= b).

Fixpoint spaced (l : list Z) : Prop :=
  match l with
  | a :: l' => match l' with b :: _ => gap a b | [] => True end /\ spaced l'
  | [] => True
  end.

Lemma spaced_cons a b l : spaced (a :: b :: l) <-> gap a b /\ spaced (b :: l).
Proof. done. Qed.

Lemma spaced_snoc l a : spaced l -> (forall n, last l = Some n -> gap n a) -> spaced (l ++ [a])%list.
Proof.
  induction l as [|x [|y l] IH]; intros Hs Hl; [done| |].
  - split; [by apply Hl|done].
  - rewrite spaced_cons in Hs. destruct Hs as [Hg Hs]. split; [done|]. by apply IH.
Qed.

Lemma spaced_drop k l : spaced l -> spaced (drop k l).
Proof.
  revert l. induction k as [|k IH]; intros [|a l] Hs; try done. apply IH. destruct l as [|b l]; [done|]. by rewrite spaced_cons in Hs; destruct Hs.
Qed.

Lemma spaced_sorted l : spaced l -> StronglySorted Z.lt l.
Proof.
  induction l as [|a l IH]; intros Hs; [constructor|]. destruct l as [|b l]; [repeat constructor|].
  rewrite spaced_cons in Hs. destruct Hs as [[Hab _] Hs]. specialize (IH Hs). constructor; [done|]. constructor; [done|].
  apply StronglySorted_inv in IH as [_ IH]. eapply Forall_impl; [exact IH|]. cbn. lia.
Qed.

Lemma sorted_last_max l n : StronglySorted Z.lt l -> last l = Some n -> Forall (fun a => a <= n) l.
Proof.
  induction l as [|a l IH]; intros Hs Hl; [done|]. apply StronglySorted_inv in Hs as [Hs Ha]. destruct l as [|b l].
  - cbn in Hl. injection Hl as ->. constructor; [lia|done].
  - specialize (IH Hs Hl). constructor; [|done]. apply Forall_cons in IH as [Hb _]. apply Forall_cons in Ha as [Hab _]. lia.
Qed.

Lemma spaced_span a l n : spaced (a :: l) -> 0 < a -> last (a :: l) = Some n -> a + SAMPLE_INTERVAL_MS * Z.of_nat (List.length l) <= n.
Proof.
  unfold SAMPLE_INTERVAL_MS. revert a. induction l as [|b l IH]; intros a Hs Ha Hl.
  - cbn in Hl. injection Hl as ->. cbn. lia.
  - rewrite spaced_cons in Hs. destruct Hs as [[Hab Hg] Hs]. unfold SAMPLE_INTERVAL_MS in Hg. specialize (IH b Hs ltac:(lia) Hl). cbn [List.length]. lia.
Qed.

(** Seven samples at most fit in the window. *)
Lemma spaced_length l n :
  spaced l -> Forall (fun a => 0 <= a) l -> last l = Some n -> Forall (fun a => n - a <= HISTORY_RETENTION_MS) l -> (List.length l <= 7)%nat.
Proof.
  unfold HISTORY_RETENTION_MS. intros Hs Hp Hl Hw. destruct l as [|a l]; [cbn; lia|].
  apply Forall_cons in Hp as [Ha Hp], Hw as [Hwa _]. destruct (decide (a = 0)) as [->|Hne].
  - destruct l as [|b l]; [cbn; lia|]. rewrite spaced_cons in Hs. destruct Hs as [[Hab _] Hs].
    pose proof (spaced_span b l n Hs Hab Hl) as Hsp. unfold SAMPLE_INTERVAL_MS in Hsp. cbn [List.length]. lia.
  - pose proof (spaced_span a l n Hs ltac:(lia) Hl) as Hsp. unfold SAMPLE_INTERVAL_MS in Hsp. cbn [List.length]. lia.
Qed.

(** ** Recording *)

Lemma last_times h : last (times h) = at_ms <$> last (samples h).
Proof. unfold times. apply fmap_last. Qed.

Lemma push_times s l : map at_ms (push_sample s l) = if decide (last (map at_ms l) = Some (at_ms s)) then map at_ms l else (map at_ms l ++ [at_ms s])%list.
Proof.
  unfold push_sample. rewrite (fmap_last at_ms). destruct l as [|x l _] using rev_ind; [done|].
  rewrite last_snoc. cbn [fmap option_fmap option_map]. destruct (Z.eqb_spec (at_ms x) (at_ms s)) as [E|Hne].
  - rewrite decide_True by congruence. rewrite length_app. cbn [List.length]. rewrite Nat.add_sub, take_app_length, !map_app. cbn. by rewrite E.
  - rewrite decide_False by congruence. by rewrite map_app.
Qed.

Lemma drop_old_drop now l : exists k, drop_old now l = drop k l /\ Forall (fun s => HISTORY_RETENTION_MS < saturating_sub now (at_ms s)) (take k l).
Proof.
  induction l as [|s l (k & E & Hk)]; [by exists 0%nat|]. cbn. destruct (HISTORY_RETENTION_MS <? _) eqn:Er.
  - exists (S k). rewrite E. split; [done|]. cbn. constructor; [lia|done].
  - by exists 0%nat.
Qed.

Lemma drop_old_head now l : match drop_old now l with s :: _ => saturating_sub now (at_ms s) <= HISTORY_RETENTION_MS | [] => True end.
Proof. induction l as [|s l IH]; cbn; [done|]. destruct (HISTORY_RETENTION_MS <? _) eqn:Er; [done|]. lia. Qed.

(** A history whose next sample is to be taken at [now]. *)
Record extendable (now : Z) (h : FlowHistory) : Prop := {
  ex_spaced : spaced (times h);
  ex_range : Forall (fun t => 0 <= t <= now) (times h);
  ex_newest n : last (times h) = Some n -> n = now \/ gap n now;
}.

(** What the cache keeps of a counter: a window of six seconds. *)
Record history_sound (h : FlowHistory) : Prop := {
  hs_sorted : StronglySorted Z.lt (times h);
  hs_window s newest : s ∈ samples h -> last (samples h) = Some newest -> 0 <= at_ms newest - at_ms s <= HISTORY_RETENTION_MS;
  hs_length : (List.length (samples h) <= 7)%nat;
}.

Lemma record_sound now req byt secs h :
  extendable now h -> 0 <= now ->
  let h' := record now req byt secs h in
  extendable now h' /\ history_sound h' /\ last (samples h') = Some (mk_counter_sample now req byt).
Proof.
  intros [Hs Hr Hn] Hnow. cbv zeta. unfold record. set (s := mk_counter_sample now req byt). set (l := push_sample s (samples h)).
  assert (Hlast : last l = Some s).
  { subst l. unfold push_sample. destruct (last (samples h)) as [x|]; [|done]. destruct (_ =? _); apply last_snoc. }
  assert (Hl : spaced (map at_ms l) /\ Forall (fun t => 0 <= t <= now) (map at_ms l)).
  { subst l. rewrite push_times. fold (times h). destruct (decide (last (times h) = Some (at_ms s))) as [E|Hne]; [done|]. split.
    - apply spaced_snoc; [done|]. intros n E. destruct (Hn n E) as [->|Hg]; [by destruct Hne|done].
    - apply Forall_app. split; [done|]. constructor; [cbn; lia|done]. }
  destruct Hl as [Hls Hlr]. destruct (drop_old_drop now l) as (k & Ek & Hk). pose proof (drop_old_head now l) as Hh.
  assert (Hkl : (k < List.length l)%nat).
  { destruct (decide (k < List.length l)%nat); [done|]. exfalso. rewrite take_ge in Hk by lia. rewrite Forall_forall in Hk.
    specialize (Hk s). apply last_Some_elem_of in Hlast. specialize (Hk Hlast). unfold saturating_sub, HISTORY_RETENTION_MS in Hk. cbn in Hk. lia. }
  assert (Hlast' : last (drop k l) = Some s).
  { rewrite last_lookup, lookup_drop, length_drop, <- Hlast, last_lookup. f_equal. lia. }
  assert (Hds : spaced (map at_ms (drop k l))) by (rewrite <- skipn_map; by apply spaced_drop).
  assert (Hdr : Forall (fun t => 0 <= t <= now) (map at_ms (drop k l))) by (rewrite <- skipn_map; by apply Forall_drop).
  rewrite Ek in Hh |- *. pose proof (fmap_last at_ms (drop k l)) as Htl. rewrite Hlast' in Htl. cbn in Htl.
  pose proof (spaced_sorted _ Hds) as Hsort.
  assert (Hw : Forall (fun t => 0 <= now - t <= HISTORY_RETENTION_MS) (map at_ms (drop k l))).
  { destruct (drop k l) as [|x xs] eqn:Ed; [constructor|]. cbn [map] in *. apply StronglySorted_inv in Hsort as [_ Hx].
    rewrite Forall_cons in Hdr |- *. destruct Hdr as [Hd1 Hd2]. unfold saturating_sub in Hh. split; [lia|].
    rewrite Forall_forall in Hx, Hd2 |- *. intros t Ht. specialize (Hx t Ht). specialize (Hd2 t Ht). cbn in Hx, Hd2. lia. }
  split_and!; [split| |done].
  - exact Hds.
  - exact Hdr.
  - intros n E. left. unfold times in E. cbn [samples] in E. apply (eq_trans (eq_sym Htl)) in E. by injection E.
  - split; cbn [samples times].
    + exact Hsort.
    + intros x newest Hx E. rewrite Hlast' in E. injection E as <-. cbn [at_ms]. rewrite Forall_forall in Hw. apply Hw. by apply list_elem_of_fmap_2.
    + rewrite <- (length_map at_ms). eapply spaced_length; [exact Hds| |exact Htl|].
      * eapply Forall_impl; [exact Hdr|]. cbn. lia.
      * eapply Forall_impl; [exact Hw|]. cbn. lia.
Qed.

(** A rate is taken since the newest sample that is at least as old as the
    window, or since the oldest when none is. *)
Lemma baseline_spec h latest window_ms b :
  StronglySorted Z.lt (times h) -> baseline h latest window_ms = Some b ->
  b ∈ samples h
  /\ ((window_ms <= saturating_sub (at_ms latest) (at_ms b)
       /\ forall s, s ∈ samples h -> window_ms <= saturating_sub (at_ms latest) (at_ms s) -> at_ms s <= at_ms b)
      \/ forall s, s ∈ samples h -> saturating_sub (at_ms latest) (at_ms s) < window_ms).
Proof.
  unfold baseline, times. destruct h as [l act]. cbn [samples]. intros Hs.
  destruct (List.find _ (rev l)) as [b'|] eqn:Ef.
  - intros [= ->]. pose proof (find_some _ _ Ef) as [Hin Hb]. apply in_rev, list_elem_of_In in Hin. split; [done|]. left. split; [lia|].
    revert Ef Hs. induction l as [|x l IH] using rev_ind; intros Ef Hs s Hsin Hsw; [by apply elem_of_nil in Hsin|].
    rewrite rev_app_distr in Ef. cbn in Ef. rewrite map_app in Hs.
    destruct (window_ms <=? saturating_sub (at_ms latest) (at_ms x)) eqn:Ex.
    + injection Ef as ->. apply (sorted_last_max _ (at_ms b)) in Hs; [|by apply (last_snoc (at_ms b))]. rewrite Forall_forall in Hs. apply Hs.
      rewrite <- (map_app at_ms l [b]). by apply list_elem_of_fmap_2.
    + apply elem_of_app in Hsin as [Hsin|Hsin%list_elem_of_singleton]; [|subst; lia]. apply IH; try done.
      * apply find_some in Ef as [Hi _]. by apply in_rev, list_elem_of_In in Hi.
      * by apply StronglySorted_app_1_l in Hs.
  - intros Hh. split; [by apply head_Some_elem_of|]. right. intros s Hin. pose proof (find_none _ _ Ef s) as Hn. cbn in Hn.
    specialize (Hn ltac:(apply -> in_rev; by apply list_elem_of_In)). lia.
Qed.

(** ** The cache *)

Section runs.
Context {G : GlobCrate} {O : HashOrder}.

(** A history as it is between refreshes, the last at [r]. *)
Record kept (r : Z) (h : FlowHistory) : Prop := {
  ke_sound : history_sound h;
  ke_spaced : spaced (times h);
  ke_range : Forall (fun t => 0 <= t <= r) (times h);
}.

Lemma kept_default r : kept r history_default.
Proof. split; [split; cbn; [constructor|by intros s n ?%elem_of_nil|lia]|done|constructor]. Qed.

Lemma kept_later r r' h : r <= r' -> kept r h -> kept r' h.
Proof. intros Hr [H1 H2 H3]. split; [done..|]. eapply Forall_impl; [exact H3|]. cbn. lia. Qed.

Lemma kept_extendable r now h :
  0 <= r <= now -> SAMPLE_INTERVAL_MS <= now - r \/ r = 0 -> kept r h -> extendable now h.
Proof.
  unfold SAMPLE_INTERVAL_MS. intros Hr Hd [_ Hs Hx]. split; [done|eapply Forall_impl; [exact Hx|]; cbn; lia|].
  intros n Hn. apply last_Some_elem_of in Hn. rewrite Forall_forall in Hx. specialize (Hx n Hn). cbn in Hx. unfold gap, SAMPLE_INTERVAL_MS. lia.
Qed.

Lemma record_kept now req byt secs h :
  extendable now h -> 0 <= now ->
  let h' := record now req byt secs h in
  kept now h' /\ extendable now h' /\ last (samples h') = Some (mk_counter_sample now req byt).
Proof. intros He Hn. destruct (record_sound now req byt secs h He Hn) as (E & S & L). split; [|done]. split; [done|apply E..]. Qed.

(** The edges while a refresh goes on. *)
Definition edges_ok (now : Z) (es : gmap string FlowHistory) : Prop := forall k h, es !! k = Some h -> kept now h /\ extendable now h.

Lemma record_edges now h targets es :
  0 <= now -> edges_ok now es ->
  let es' := foldl (record_edge now h) es targets in
  edges_ok now es'
  /\ forall k x, es' !! k = Some x -> k ∈ map target_key targets -> exists req byt, last (samples x) = Some (mk_counter_sample now req byt).
Proof.
  intros Hnow. cbv zeta. induction targets as [|e targets IH] using rev_ind; intros Hes.
  { split; [done|]. by intros k x _ ?%elem_of_nil. }
  rewrite foldl_snoc. destruct (IH Hes) as [Hok Hnew]. clear IH. set (es' := foldl _ _ _) in *. unfold record_edge at 1 2.
  set (stats := get_stats (edge_stats_loc e.2) h).
  assert (He : extendable now (default history_default (es' !! target_key e))).
  { destruct (es' !! target_key e) as [x|] eqn:Ex; cbn; [by eapply Hok|]. split; [done|constructor|done]. }
  destruct (record_kept now (requests_total stats) (bytes_total stats) (Some (last_access stats)) _ He Hnow) as (R1 & R2 & R3). split.
  - intros k x. rewrite lookup_insert_Some. intros [[<- <-]|[Hne Hx]]; [done|by eapply Hok].
  - intros k x. rewrite lookup_insert_Some, map_app, elem_of_app. intros [[<- <-]|[Hne Hx]] Hin; [eauto|].
    destruct Hin as [Hin|Hin%list_elem_of_singleton]; [eauto|done].
Qed.

Lemma record_edges_present now h targets es e : e ∈ targets -> is_Some (foldl (record_edge now h) es targets !! target_key e).
Proof.
  induction targets as [|e' targets IH] using rev_ind; [by intros ?%elem_of_nil|]. rewrite foldl_snoc. unfold record_edge at 1.
  rewrite elem_of_app, list_elem_of_singleton. destruct (decide (target_key e' = target_key e)) as [E|Hne].
  - rewrite E. by rewrite lookup_insert_eq.
  - rewrite lookup_insert_ne by done. intros [Hin | Heq]; [by apply IH|by subst e].
Qed.

(** The cache after some requests for it, the last at [now]. *)
Inductive flow_run : Z -> TopologyFlowState -> Prop :=
  | flow_start : flow_run 0 flow_state_default
  | flow_next now now' m table h st : flow_run now st -> now <= now' -> flow_run now' (snapshot now' m table h st).1.

Record cache_ok (now : Z) (st : TopologyFlowState) : Prop := {
  ca_time : 0 <= last_refresh_ms st <= now;
  ca_lb : kept (last_refresh_ms st) (lb st);
  ca_edges k h : edges st !! k = Some h -> kept (last_refresh_ms st) h;
}.

Lemma refresh_ok now now' m table h st :
  cache_ok now st -> now <= now' -> due now' st = true -> cache_ok now' (refresh now' m table h st).
Proof.
  intros [Ht Hl He] Hn Hd. unfold due, saturating_sub in Hd.
  assert (Hd' : SAMPLE_INTERVAL_MS <= now' - last_refresh_ms st \/ last_refresh_ms st = 0) by (unfold SAMPLE_INTERVAL_MS in *; lia).
  split; cbn [refresh last_refresh_ms lb edges]; [lia| |].
  - apply record_kept; [|lia]. apply (kept_extendable (last_refresh_ms st)); [lia|exact Hd'|exact Hl].
  - intros k x Hx. apply map_lookup_filter_Some in Hx as [Hx _].
    destruct (record_edges now' h (iter_targets table) (edges st)) as [Hok _]; [lia| |by eapply Hok].
    intros k' x' Hx'. specialize (He k' x' Hx'). split; [apply (kept_later (last_refresh_ms st)); [lia|exact He]|].
    apply (kept_extendable (last_refresh_ms st)); [lia|exact Hd'|exact He].
Qed.

Lemma flow_run_ok now st : flow_run now st -> cache_ok now st.
Proof.
  induction 1 as [|now now' m table h st _ IH Hle]; [split; cbn; [lia|apply kept_default|done]|].
  unfold snapshot. cbn. destruct (due now' st) eqn:Ed; [by eapply refresh_ok|].
  destruct IH as [Ht Hl He]. split; [lia|done..].
Qed.

(** However often and for however long the topology view is asked for, the
    cache stays small: every history, that of the totals and that of every
    edge, holds at most seven samples, in order of time, of at most six
    seconds. A refresh takes a sample of every target of the table at that
    moment, and forgets an edge that is neither in the table nor was sampled
    within a minute. *)
Theorem flow_cache_bounded now st :
  flow_run now st ->
  history_sound (lb st) /\ (forall k h, edges st !! k = Some h -> history_sound h)
  /\ forall now' m table h, now <= now' -> due now' st = true ->
     let st' := (snapshot now' m table h st).1 in
     (forall e, e ∈ iter_targets table -> exists x req byt, edges st' !! target_key e = Some x /\ last (samples x) = Some (mk_counter_sample now' req byt))
     /\ forall k x, edges st' !! k = Some x ->
          k ∈ map target_key (iter_targets table) \/ exists n, last (samples x) = Some n /\ now' - at_ms n <= STALE_RETENTION_MS.
Proof.
  intros Hrun%flow_run_ok. destruct Hrun as [Ht Hl He]. split_and!; [apply Hl|intros k h Hk; by apply (He k)|].
  intros now' m table h Hle Hd. unfold snapshot. cbv zeta. rewrite Hd. cbn [fst refresh edges].
  assert (Hes : edges_ok now' (edges st)).
  { intros k x Hx. unfold due, saturating_sub in Hd. specialize (He k x Hx). split; [apply (kept_later (last_refresh_ms st)); [lia|exact He]|].
    apply (kept_extendable (last_refresh_ms st)); [lia| |exact He]. unfold SAMPLE_INTERVAL_MS in *. lia. }
  destruct (record_edges now' h (iter_targets table) (edges st) ltac:(lia) Hes) as [_ Hnew]. split.
  - intros e Hin. destruct (record_edges_present now' h (iter_targets table) (edges st) e Hin) as [x Hx].
    assert (Hk : target_key e ∈ map target_key (iter_targets table)) by (by apply list_elem_of_fmap_2).
    destruct (Hnew _ x Hx Hk) as (req & byt & Hlast). exists x, req, byt. split; [|done]. apply map_lookup_filter_Some. split; [done|]. cbn.
    by rewrite bool_decide_true.
  - intros k x Hx. apply map_lookup_filter_Some in Hx as [Hx Hf]. cbn in Hf. apply orb_true_iff in Hf as [Hf|Hf].
    + left. by apply bool_decide_eq_true in Hf.
    + right. unfold has_recent_samples in Hf. destruct (last (samples x)) as [n|]; [|done]. exists n. split; [done|]. unfold saturating_sub in Hf. lia.
Qed.
End runs.

#[local] Instance no_glob : GlobCrate := {| Pattern := unit; pattern_new _ := None; pattern_matches _ _ := false |}.
#[local] Instance list_order : HashOrder := {| iter_order m := map_to_list m; iter_order_perm m := Permutation_refl _ |}.

Definition demo_flow_state (at_ : list Z) : TopologyFlowState :=
  foldl (fun st now => (snapshot now Metrics.metrics_new table_new heap_empty st).1) flow_state_default at_.

Lemma flow_cache_bounded_witness :
  times (lb (demo_flow_state [0; 0; 3; 500; 1003; 7500])) = [7500]
  /\ times (lb (demo_flow_state [0; 3; 500; 1003])) = [0; 3; 1003]
  /\ history_sound (lb (demo_flow_state [0; 3; 500; 1003])).
Proof.
  split; [vm_compute; reflexivity|]. split; [vm_compute; reflexivity|].
  assert (Hr : flow_run 1003 (demo_flow_state [0; 3; 500; 1003])).
  { unfold demo_flow_state. cbn [foldl]. apply (flow_next 500); [|lia]. apply (flow_next 3); [|lia]. apply (flow_next 0); [|lia].
    apply (flow_next 0); [|lia]. apply flow_start. }
  exact (proj1 (flow_cache_bounded _ _ Hr)).
Defined.
