(* ===== verification/Views.v ===== *)
(** * Views: what the admin interface shows

    Models the read-only handlers of src/src/admin: the configuration view of
    config_handler.rs, the route list of routes_handler.rs and the target,
    topology and Consul views of metrics_handler.rs, as the JSON documents and
    samples they build. A handler is a function of the state it reads; the
    times it reads are arguments. *)
From S2P Require Import Prelude F64 RustStr Net Routes CircuitBreaker RateLimit DnsCache Health Stats Target Weights Table Registry.
From S2P Require Import Config TlsConf Flow Runtime.
From S2P Require Metrics.
From Stdlib Require Import Ascii String.
Local Open Scope string_scope.
Local Open Scope Z_scope.
Local Open Scope rust_scope.

(** The values of serde_json; an object lists its fields in the order they are
    written. *)
Inductive Json :=
  | JNull
  | JBool (b : bool)
  | JNum (z : Z)
  | JFloat (x : f64)
  | JStr (s : string)
  | JArr (l : list Json)
  | JObj (fields : list (string * Json)).

Definition jopt {A} (f : A -> Json) (o : option A) : Json := match o with Some a => f a | None => JNull end.

(** The value of a field; the first of that name. *)
Definition field (name : string) (j : Json) : option Json :=
  match j with JObj fields => snd <$> List.find (fun kv => String.eqb kv.1 name) fields | _ => None end.

(** ** config_handler.rs *)

Definition runtime_config_capabilities : Json :=
  JObj [("strategy", JBool true); ("matcher", JBool true); ("request_id_header", JBool true); ("no_route_status", JBool true);
        ("timeouts", JBool true); ("max_connections", JBool true); ("dns_cache_ttl", JBool true); ("circuit_breaker", JBool true);
        ("upstream_http2", JBool true); ("health_check", JBool true); ("rate_limit", JBool true); ("logging_level", JBool false);
        ("logging_format", JBool false); ("pool_size", JBool false); ("enable_h2c", JBool false); ("trusted_proxies", JBool true);
        ("stream_read_timeout", JBool true); ("upstream_tcp_keepalive", JBool true); ("upstream_user_timeout", JBool true);
        ("downstream_tcp_keepalive", JBool false)].

Definition tls_source_name (tls : TlsConfig) : string :=
  match TlsMode_resolve tls with
  | Ok (Some (TlsFile _)) => "file"
  | Ok (Some (TlsConsulKv _)) => "consul_kv"
  | Ok None => "disabled"
  | Err _ => "invalid"
  end.

Definition proxy_json (p : ProxyConfig) : Json :=
  JObj [("strategy", JStr (strategy p)); ("matcher", JStr (matcher p)); ("request_id_header", JStr (request_id_header p));
        ("no_route_status", JNum (no_route_status p)); ("connect_timeout", JStr (connect_timeout p)); ("read_timeout", JStr (read_timeout p));
        ("stream_read_timeout", JStr (stream_read_timeout p)); ("upstream_tcp_keepalive", JStr (upstream_tcp_keepalive p));
        ("upstream_user_timeout", JStr (upstream_user_timeout p)); ("downstream_tcp_keepalive", JStr (downstream_tcp_keepalive p));
        ("write_timeout", JStr (write_timeout p)); ("idle_timeout", JStr (idle_timeout p)); ("enable_h2c", JBool (enable_h2c p));
        ("upstream_h2_max_streams", JNum (upstream_h2_max_streams p)); ("upstream_h2_ping_interval", JStr (upstream_h2_ping_interval p));
        ("pool_size", JNum (pool_size p)); ("max_connections", JNum (max_connections p)); ("dns_cache_ttl", JNum (dns_cache_ttl p));
        ("dns_negative_cache_ttl", JNum (dns_negative_cache_ttl p)); ("trusted_proxies", JArr (map JStr (trusted_proxies p)));
        ("circuit_breaker_enabled", JBool (circuit_breaker_enabled p)); ("circuit_breaker_error_threshold", JNum (circuit_breaker_error_threshold p));
        ("circuit_breaker_window_size", JNum (circuit_breaker_window_size p));
        ("circuit_breaker_recovery_timeout", JNum (circuit_breaker_recovery_timeout p));
        ("circuit_breaker_half_open_max", JNum (circuit_breaker_half_open_max p)); ("health_check_interval", JStr (health_check_interval p));
        ("health_check_timeout", JStr (health_check_timeout p)); ("health_check_fall", JNum (health_check_fall p));
        ("health_check_rise", JNum (health_check_rise p)); ("rate_limit_per_target", JNum (rate_limit_per_target p));
        ("rate_limit_burst", JNum (rate_limit_burst p)); ("health_check_path", JStr (health_check_path p));
        ("health_check_tls_skip_verify", JBool (health_check_tls_skip_verify p))].

Definition tls_json (t : TlsConfig) : Json :=
  JObj [("source", JStr (tls_source_name t)); ("listen", JStr (tls_listen t)); ("strict_sni", JBool (strict_sni t));
        ("require_initial_snapshot", JBool (require_initial_snapshot t)); ("cert_path", JStr (cert_path t)); ("key_path", JStr (key_path t));
        ("consul_cert_prefix", JStr (consul_cert_prefix t)); ("client_auth", JStr (client_auth t)); ("client_ca_source", JStr (client_ca_source t));
        ("client_ca_path", JStr (client_ca_path t)); ("client_ca_consul_prefix", JStr (client_ca_consul_prefix t));
        ("client_ca_upgrade_cn", JStr (client_ca_upgrade_cn t))].

Definition tls_listener_json (i : nat) (t : TlsConfig) : Json :=
  JObj [("index", JNum (Z.of_nat i)); ("listen", JStr (tls_listen t)); ("source", JStr (tls_source_name t)); ("cert_path", JStr (cert_path t));
        ("key_path", JStr (key_path t)); ("client_auth", JStr (client_auth t)); ("client_ca_source", JStr (client_ca_source t));
        ("client_ca_path", JStr (client_ca_path t)); ("strict_sni", JBool (strict_sni t))].

Definition public_config_fields (c : Config) : list (string * Json) :=
  [("server", JObj [("listen", JStr (server_listen (server c))); ("admin_listen", JStr (admin_listen (server c))); ("workers", JNum (workers (server c)))]);
   ("consul", JObj [("address", JStr (address (consul c))); ("scheme", JStr (scheme_ (consul c))); ("kv_prefix", JStr (kv_prefix (consul c)));
                    ("tag_prefix", JStr (tag_prefix (consul c)))]);
   ("proxy", proxy_json (proxy c));
   ("logging", JObj [("level", JStr (level (logging c))); ("format", JStr (format (logging c)))]);
   ("tls", tls_json (tls c));
   ("tls_listeners", JArr (imap tls_listener_json (tls_listeners c)));
   ("tcp", JObj [("mode", JStr (tcp_mode (tcp c))); ("listen", JStr (tcp_listen (tcp c))); ("refresh", JStr (Config.refresh (tcp c)))])].

Definition public_config_json (c : Config) : Json := JObj (public_config_fields c).

(** [config_handler], and the answer of a reset that took place. *)
Definition config_view (c startup : Config) : Json :=
  JObj (public_config_fields c ++
        [("meta", JObj [("runtime", runtime_config_capabilities); ("startup", public_config_json startup); ("reset_mode", JStr "startup_snapshot")])])%list.

(** The answers of the handlers that change the configuration. *)
Definition update_answer (r : result unit string) : Json :=
  match r with
  | Err e => JObj [("success", JBool false); ("error", JStr e)]
  | Ok _ => JObj [("success", JBool true); ("message", JStr "Configuration updated successfully"); ("runtime", runtime_config_capabilities)]
  end.

Definition reset_answer (c startup : Config) (r : result unit string) : Json :=
  match r with Err e => JObj [("success", JBool false); ("error", JStr e)] | Ok _ => config_view c startup end.

(** [dns_cache_handler]; [show_addr] is the standard [Display] of an address. *)
Definition percent_of (part whole : Z) : Z :=
  if 0 <? whole then f64_to_usize (f64_round (f64_mul (f64_div (f64_of_Z part) (f64_of_Z whole)) (f64_of_Z 100))) else 0.

Definition dns_entry_json (show_addr : SocketAddr -> string) (now_ms : Z) (host : string) (e : DnsCacheEntry) : Json :=
  JObj [("host", JStr host); ("addrs", JArr (map (fun a => JStr (show_addr a)) (addrs e)));
        ("ttl_remaining_secs", JNum (saturating_sub (expires_at_ms e) now_ms / 1000)); ("is_negative", JBool (negative e))].

Definition dns_cache_view (show_addr : SocketAddr -> string) (now_ms : Z) (c : DnsCache) : Json :=
  let s := dns_stats c in
  JObj [("stats", JObj [("total_entries", JNum (stat_entries s)); ("hits", JNum (stat_hits s)); ("misses", JNum (stat_misses s));
                        ("negatives", JNum (stat_negatives s)); ("hit_rate", JNum (percent_of (stat_hits s) (stat_hits s +w stat_misses s)))]);
        ("entries", JArr (map (fun kv => dns_entry_json show_addr now_ms kv.1 kv.2) (map_to_list (DnsCache.inner c))))].

(** ** routes_handler.rs *)

(** The names serde and [Debug] give, in lower case. *)
Definition protocol_name (p : UpstreamProtocol) : string :=
  match p with Http => "http" | Https => "https" | Grpc => "grpc" | Grpcs => "grpcs" | Ws => "ws" | Wss => "wss" | Tcp => "tcp" end.
Definition state_name (s : CircuitState) : string := match s with Closed => "closed" | Open => "open" | HalfOpen => "halfopen" end.
Definition source_name (s : RouteSource) : string :=
  match s with Static => "static" | ConsulKv => "consulkv" | ConsulService => "consulservice" end.

Section tables.
Context {G : GlobCrate} {O : HashOrder}.

Definition route_target_json (t : Target) : Json :=
  JObj [("service", JStr (service t)); ("url", JStr (url t)); ("weight", JFloat (weight t)); ("protocol", JStr (protocol_name (upstream_protocol t)));
        ("tls", JBool (upstream_tls t)); ("http2", JBool (requires_http2 (upstream_protocol t))); ("websocket", JBool (is_websocket (upstream_protocol t)));
        ("opts", JObj (map (fun kv => (kv.1, JStr kv.2)) (map_to_list (opts t))))].

Definition route_json (matcher : string) (host : string) (r : Route) : Json :=
  JObj [("host", JStr host); ("path", JStr (path r)); ("matcher", JStr matcher); ("targets", JArr (map route_target_json (targets r)))].

(** The routes of a host of the table. *)
Definition routes_at (t : Table) (host : string) : list Route := default [] (get_routes t host).

Definition routes_info (matcher : string) (t : Table) : list Json :=
  List.concat (map (fun host => map (route_json matcher host) (routes_at t host)) (hosts t)).

Definition routes_view (matcher : string) (t : Table) : Json :=
  JObj [("route_count", JNum (Z.of_nat (route_count t))); ("target_count", JNum (Z.of_nat (target_count t))); ("routes", JArr (routes_info matcher t))].

(** ** metrics_handler.rs *)

Definition flow_json (f : TopologyFlowMetrics) : Json :=
  JObj [("rps_1s", JFloat (rps_1s f)); ("rps_5s", JFloat (rps_5s f)); ("bps_1s", JFloat (bps_1s f)); ("bps_5s", JFloat (bps_5s f));
        ("delta_requests", JNum (delta_requests f)); ("delta_bytes", JNum (delta_bytes f)); ("last_active_ms_ago", jopt JNum (last_active_ms_ago f));
        ("activity_level", JStr (activity_level f))].

Definition flow_of (s : TopologyFlowSnapshot) (host : string) (r : Route) (t : Target) : TopologyFlowMetrics :=
  default flow_default (snap_edges s !! topology_target_key host (path r) (service t) (url t)).

Definition breaker_of (t : Target) (h : Heap) : CircuitBreaker := circuit_breaker (get_tracker (health_tracker t) h).
Definition breaker_state (t : Target) (h : Heap) : CircuitState := decode_state (state_atomic (breaker_of t h)).

Record TargetMetrics := mk_target_metrics {
  tm_host : string;
  tm_path : string;
  tm_service : string;
  tm_url : string;
  tm_protocol : string;
  tm_circuit_breaker : string;
  tm_active_connections : Z;
  tm_requests : Z;
  tm_errors : Z;
  tm_avg_latency_us : Z;
  tm_bytes_total : Z;
  tm_flow : TopologyFlowMetrics;
}.

Record MetricsSnapshot := mk_metrics_snapshot {
  ms_requests_total : Z;
  ms_requests_error_total : Z;
  ms_active_connections : Z;
  ms_route_count : nat;
  ms_target_count : nat;
  ms_targets : list TargetMetrics;
  ms_timestamp : Z;
}.

Definition target_metrics (s : TopologyFlowSnapshot) (h : Heap) (e : string * Route * Target) : TargetMetrics :=
  let '(host, r, t) := e in
  let stats := get_stats (target_stats_loc t) h in
  mk_target_metrics host (path r) (service t) (url t) (protocol_name (parsed_protocol t)) (state_name (breaker_state t h))
    (get_counter (active_connections t) h) (requests_total stats) (errors_total stats) (avg_latency_us stats) (bytes_total stats) (flow_of s host r t).

(** [iter().sum()] of unsigned 64-bit numbers. *)
Definition sum_u64 (l : list Z) : Z := foldl wrapping_add 0 l.

(** [make_snapshot], after the flow cache was asked. *)
Definition make_snapshot (s : TopologyFlowSnapshot) (timestamp : Z) (t : Table) (h : Heap) : MetricsSnapshot :=
  let ts := List.concat (map (fun host => List.concat (map (fun r => map (fun tg => target_metrics s h (host, r, tg)) (targets r)) (routes_at t host))) (hosts t)) in
  mk_metrics_snapshot (sum_u64 (map tm_requests ts)) (sum_u64 (map tm_errors ts)) (sum_u64 (map tm_active_connections ts))
    (route_count t) (target_count t) ts timestamp.

(** The samples of [targets_metrics_handler] for one target. *)
Definition circuit_state_value (s : CircuitState) : Z := match s with Closed => 0 | Open => 2 | HalfOpen => 1 end.

Definition target_samples (h : Heap) (e : string * Route * Target) : list Metrics.Sample :=
  let '(host, r, t) := e in
  let stats := get_stats (target_stats_loc t) h in
  let labels := [("service", Metrics.escape_prometheus_label (service t)); ("host", Metrics.escape_prometheus_label host);
                 ("path", Metrics.escape_prometheus_label (path r));
                 ("protocol", Metrics.escape_prometheus_label (protocol_name (parsed_protocol t)))] in
  let sample name v := Metrics.mk_sample name labels (Metrics.VInt v) in
  [sample "sentirum_lb_target_requests_total" (requests_total stats); sample "sentirum_lb_target_errors_total" (errors_total stats);
   sample "sentirum_lb_target_latency_us_total" (latency_sum_us stats); sample "sentirum_lb_target_bytes_total" (bytes_total stats);
   sample "sentirum_lb_target_circuit_breaker_state" (circuit_state_value (breaker_state t h))].

Definition targets_metrics_view (t : Table) (h : Heap) : list Metrics.Sample := List.concat (map (target_samples h) (iter_targets t)).

(** A change of the breaker, at its approximate wall-clock time. *)
Definition transition_json (now_wall_ms now_mono_ms : Z) (t : CircuitTransition) : Json :=
  JObj [("from", JStr (state_name (tr_from t))); ("to", JStr (state_name (tr_to t)));
        ("timestamp_ms", JNum (saturating_add (saturating_sub now_wall_ms now_mono_ms) (tr_elapsed_ms t)))].

Definition stats_json (requests errors avg_latency bytes : Z) : Json :=
  JObj [("requests", JNum requests); ("errors", JNum errors); ("error_rate_pct", JNum (percent_of errors requests));
        ("avg_latency_us", JNum avg_latency); ("bytes_total", JNum bytes)].

Definition target_view (s : TopologyFlowSnapshot) (now_wall_ms now_mono_ms : Z) (h : Heap) (e : string * Route * Target) : Json :=
  let '(host, r, t) := e in
  let stats := get_stats (target_stats_loc t) h in
  JObj [("host", JStr host); ("path", JStr (path r)); ("service", JStr (service t)); ("url", JStr (url t));
        ("protocol", JStr (protocol_name (parsed_protocol t))); ("tls", JBool (parsed_tls t)); ("http2", JBool (requires_http2 (parsed_protocol t)));
        ("weight", JFloat (weight t)); ("fixed_weight", JFloat (fixed_weight t)); ("source", JStr (source_name (source t)));
        ("active_connections", JNum (get_counter (active_connections t) h)); ("circuit_breaker", JStr (state_name (breaker_state t h)));
        ("probe_healthy", JBool (is_probe_healthy (get_tracker (health_tracker t) h)));
        ("circuit_breaker_history", JArr (map (transition_json now_wall_ms now_mono_ms) (take 20 (rev (CircuitBreaker.history (breaker_of t h))))));
        ("flow", flow_json (flow_of s host r t));
        ("stats", stats_json (requests_total stats) (errors_total stats) (avg_latency_us stats) (bytes_total stats))].

Definition targets_view (s : TopologyFlowSnapshot) (now_wall_ms now_mono_ms : Z) (t : Table) (h : Heap) : Json :=
  let ts := map (target_view s now_wall_ms now_mono_ms h) (iter_targets t) in
  JObj [("targets", JArr ts); ("total", JNum (Z.of_nat (List.length ts)))].

(** ** The topology *)

Definition topology_target (s : TopologyFlowSnapshot) (h : Heap) (host : string) (r : Route) (t : Target) : Json :=
  let stats := get_stats (edge_stats_loc t) h in
  JObj [("service", JStr (service t)); ("url", JStr (url t)); ("protocol", JStr (protocol_name (parsed_protocol t))); ("tls", JBool (parsed_tls t));
        ("weight", JFloat (weight t)); ("active_connections", JNum (get_counter (active_connections t) h));
        ("circuit_breaker", JStr (state_name (breaker_state t h))); ("probe_healthy", JBool (is_probe_healthy (get_tracker (health_tracker t) h)));
        ("flow", flow_json (flow_of s host r t));
        ("stats", stats_json (requests_total stats) (errors_total stats) (latency_sum_us stats / Z.max (requests_total stats) 1) (bytes_total stats))].

Definition route_flow (s : TopologyFlowSnapshot) (host : string) (r : Route) : TopologyFlowMetrics := combine (map (flow_of s host r) (targets r)).

Definition topology_route (s : TopologyFlowSnapshot) (matcher : string) (h : Heap) (host : string) (r : Route) : Json :=
  JObj [("path", JStr (path r)); ("matcher", JStr matcher); ("flow", flow_json (route_flow s host r));
        ("targets", JArr (map (topology_target s h host r) (targets r)))].

Definition topology_host (s : TopologyFlowSnapshot) (matcher : string) (t : Table) (h : Heap) (host : string) : Json :=
  JObj [("host", JStr host); ("flow", flow_json (combine (map (route_flow s host) (routes_at t host))));
        ("routes", JArr (map (topology_route s matcher h host) (routes_at t host)))].

Definition topology_view (s : TopologyFlowSnapshot) (matcher : string) (m : Metrics.Metrics) (t : Table) (h : Heap) : Json :=
  let requests := Metrics.load m Metrics.requests_total in
  let errors := Metrics.load m Metrics.requests_error_total in
  let error_rate :=
    if 0 <? requests then f64_round (f64_mul (f64_div (f64_of_Z errors) (f64_of_Z requests)) (f64_of_Z 100)) else f64_zero in
  JObj [("lb", JObj [("id", JStr "lb"); ("requests", JNum requests); ("active_connections", JNum (Metrics.load m Metrics.active_connections));
                     ("error_rate", JFloat error_rate); ("flow", flow_json (snap_lb s))]);
        ("hosts", JArr (map (topology_host s matcher t h) (hosts t)))].
End tables.

Definition watcher_view (m : Metrics.Metrics) (index backoff errors : Metrics.Counter) : Json :=
  JObj [("status", JStr "unknown"); ("last_index", JNum (Metrics.load m index)); ("backoff_secs", JNum (Metrics.load m backoff));
        ("errors", JNum (Metrics.load m errors))].

Definition consul_status_view (m : Metrics.Metrics) : Json :=
  JObj [("services", watcher_view m Metrics.consul_watcher_last_index_services Metrics.consul_watcher_backoff_seconds_services Metrics.consul_watcher_errors_total_services);
        ("kv", watcher_view m Metrics.consul_watcher_last_index_kv Metrics.consul_watcher_backoff_seconds_kv Metrics.consul_watcher_errors_total_kv);
        ("tls", watcher_view m Metrics.consul_watcher_last_index_tls Metrics.consul_watcher_backoff_seconds_tls Metrics.consul_watcher_errors_total_tls);
        ("client_ca", watcher_view m Metrics.consul_watcher_last_index_client_ca Metrics.consul_watcher_backoff_seconds_client_ca
                        Metrics.consul_watcher_errors_total_client_ca)].

(** ** Secrets *)

(** A configuration without what must not leave the process: the admin token,
    the users with their passwords and the token of Consul. *)
Definition redact (c : Config) : Config :=
  mk_config
    (mk_server (server_listen (server c)) (admin_listen (server c)) [] "" (workers (server c)) (drain_timeout (server c)))
    (mk_consul (address (consul c)) (scheme_ (consul c)) "" (kv_prefix (consul c)) (tag_prefix (consul c)) (poll_interval (consul c))
       (service_discovery (consul c)) (kv_watching (consul c)) (service_whitelist (consul c)) (service_blacklist (consul c))
       (graceful_shutdown (consul c)) (include_warning (consul c)))
    (proxy c) (logging c) (tls c) (tls_listeners c) (tcp c).

Section secrets.
Context {N : HeaderNames} {G : GlobCrate} {U : UrlParser} {O : HashOrder} {S : DnsCache.SelectNth}.

Definition redact_state (s : AdminState) : AdminState :=
  mk_admin (redact (config s)) (redact (startup_config s)) (s_trusted_proxies s) (dns_cache s) (s_route_table s) (cells s).

Lemma validate_redact c : validate (redact c) = validate c.
Proof. by destruct c as [[] [] ? ? ? ? ?]. Qed.

Lemma redact_update u c : updated_config u (redact c) = redact (updated_config u c).
Proof. by destruct c. Qed.

Lemma update_redact now inflight u s :
  config_update_handler now inflight u (redact_state s)
  = let '(s', r) := config_update_handler now inflight u s in (redact_state s', r).
Proof.
  unfold config_update_handler. destruct (unsupported_runtime_updates u); [|done]. cbn [config redact_state s_trusted_proxies dns_cache s_route_table cells].
  rewrite redact_update, validate_redact. destruct (validate _); [done|]. cbn [redact proxy]. by destruct (apply_breaker _ _ _ _ _ _).
Qed.

Lemma reset_redact now inflight s :
  config_reset_handler now inflight (redact_state s)
  = let '(s', r) := config_reset_handler now inflight s in (redact_state s', r).
Proof.
  unfold config_reset_handler. cbn [config startup_config redact_state s_trusted_proxies dns_cache s_route_table cells].
  rewrite validate_redact. destruct (validate _); [done|]. cbn [redact proxy]. by destruct (apply_breaker _ _ _ _ _ _).
Qed.

(** C38: Nothing the configuration interface answers depends on a secret:
    showing the configuration, updating it and resetting it give the same
    answers, whatever the admin token, the users and their passwords and the
    Consul token are, now and after any sequence of such requests. *)
Theorem config_api_hides_secrets (now : Z) (inflight : gset loc) (requests : list (option ConfigUpdateRequest)) s :
  let run := foldl (fun st r => match r with
                                | Some u => (config_update_handler now inflight u st).1
                                | None => (config_reset_handler now inflight st).1
                                end) in
  let t := run s requests in
  let t' := run (redact_state s) requests in
  config_view (config t') (startup_config t') = config_view (config t) (startup_config t)
  /\ (forall u, update_answer (config_update_handler now inflight u t').2 = update_answer (config_update_handler now inflight u t).2)
  /\ (let '(n, r) := config_reset_handler now inflight t in let '(n', r') := config_reset_handler now inflight t' in
      reset_answer (config n') (startup_config n') r' = reset_answer (config n) (startup_config n) r).
Proof.
  cbv zeta.
  assert (E : foldl (fun st r => match r with
                                 | Some u => (config_update_handler now inflight u st).1
                                 | None => (config_reset_handler now inflight st).1
                                 end) (redact_state s) requests
              = redact_state (foldl (fun st r => match r with
                                 | Some u => (config_update_handler now inflight u st).1
                                 | None => (config_reset_handler now inflight st).1
                                 end) s requests)).
  { revert s. induction requests as [|[u|] requests IH]; intros s; cbn [foldl]; [done|..]; rewrite <- IH; f_equal.
    - rewrite update_redact. by destruct (config_update_handler _ _ _ _).
    - rewrite reset_redact. by destruct (config_reset_handler _ _ _). }
  rewrite E. generalize (foldl (fun st r => match r with
                                 | Some u => (config_update_handler now inflight u st).1
                                 | None => (config_reset_handler now inflight st).1
                                 end) s requests). clear. intros t. split_and!; [done| |].
  - intros u. rewrite update_redact. by destruct (config_update_handler _ _ _ _).
  - rewrite reset_redact. by destruct (config_reset_handler _ _ _) as [n [[]|e]].
Qed.
End secrets.

(** ** The route list *)

Section listed.
Context {G : GlobCrate} {O : HashOrder}.

Lemma routes_info_order matcher t :
  routes_info matcher t = List.concat (map (fun kv => map (route_json matcher kv.1) kv.2) (iter_order (routes t))).
Proof.
  unfold routes_info, hosts. rewrite map_map. f_equal. apply map_ext_in. intros [host rs] Hin%list_elem_of_In.
  rewrite (iter_order_perm (routes t)) in Hin. apply elem_of_map_to_list in Hin. cbn. unfold routes_at, get_routes. by rewrite Hin.
Qed.

(** The targets listed under a route. *)
Definition listed_targets (j : Json) : list Json := match field "targets" j with Some (JArr l) => l | _ => [] end.

Lemma listed_route matcher host r : listed_targets (route_json matcher host r) = map route_target_json (targets r).
Proof. done. Qed.

Lemma sum_list_concat {A B} (f : B -> nat) (g : A -> list B) l :
  sum_list (map f (List.concat (map g l))) = sum_list (map (fun a => sum_list (map f (g a))) l).
Proof.
  induction l as [|a l IH]; [done|]. cbn. rewrite map_app, <- IH. clear IH. induction (g a) as [|b bs IHb]; [done|]. cbn. lia.
Qed.

(** The view of the routes lists every route of every host once, with its
    targets, and the counts it gives are those of the list. *)
Lemma routes_view_complete matcher t :
  routes_info matcher t ≡ₚ List.concat (map (fun kv => map (route_json matcher kv.1) kv.2) (map_to_list (routes t)))
  /\ field "route_count" (routes_view matcher t) = Some (JNum (Z.of_nat (List.length (routes_info matcher t))))
  /\ field "target_count" (routes_view matcher t)
     = Some (JNum (Z.of_nat (sum_list (map (fun j => List.length (listed_targets j)) (routes_info matcher t))))).
Proof.
  rewrite routes_info_order. split_and!.
  - rewrite <- !flat_map_concat_map. by rewrite (iter_order_perm (routes t)).
  - cbn. do 3 f_equal. unfold route_count. generalize (iter_order (routes t)). intros l.
    induction l as [|kv l IH]; [done|]. cbn. rewrite length_app, length_map. by rewrite IH.
  - cbn. do 3 f_equal. unfold target_count. rewrite !sum_list_concat. f_equal. apply map_ext. intros [host rs]. cbn.
    rewrite map_map. f_equal. apply map_ext. intros r. unfold route_target_count. by rewrite listed_route, length_map.
Qed.
End listed.

(** ** Examples: what the views count twice *)

#[local] Instance no_glob : GlobCrate := {| Pattern := unit; pattern_new _ := None; pattern_matches _ _ := false |}.
#[local] Instance some_url : UrlParser := fun _ => None.
#[local] Instance list_order : HashOrder := {| iter_order m := map_to_list m; iter_order_perm m := Permutation_refl _ |}.

Definition demo_views (commands : string) : Table * Heap :=
  let '(m, h) := managed_apply 5 ∅ (OpLoadStatic (parse_route_commands commands)) managed_new heap_empty in
  let t := published m in
  (t, match head (iter_targets t) with
      | Some (_, _, tg) => set_stats (target_stats_loc tg) (record_request 3 10 20 false (get_stats (target_stats_loc tg) h)) h
      | None => h
      end).

(** One request to a backend that two routes lead to counts as two in the
    live snapshot, which adds up counters that the routes share. *)
Example snapshot_counts_shared_twice :
  let '(t, h) := demo_views "route add a h/ http://x/
route add b k/ http://x/" in
  let s := make_snapshot (mk_flow_snapshot flow_default ∅) 0 t h in
  map tm_requests (ms_targets s) = [1; 1] /\ ms_requests_total s = 2.
Proof. vm_compute. by split. Qed.

(** Two instances of a service in one route give samples of the same name and
    labels. *)
Example instances_share_series :
  let '(t, h) := demo_views "route add a h/ http://x/
route add a h/ http://y/" in
  let series := map (fun s => (Metrics.metric s, Metrics.labels s)) (targets_metrics_view t h) in
  List.length series = 10%nat /\ take 5 series = drop 5 series.
Proof. vm_compute. by split. Qed.
