(* ===== verification/Stream.v ===== *)
(** * Stream: the live snapshot shared by all subscribers

    Models the channel of [metrics_stream_handler] of
    src/src/admin/metrics_handler.rs: the first subscriber makes the channel
    and starts the task that sends a snapshot every second, later ones join
    it, and the task stops when none is left. A step is what happens under one
    acquisition of the lock around the channel, so that subscribers and the
    task interleave between their double checks. *)
From S2P Require Import Prelude.
From Stdlib Require Import String.
Local Open Scope string_scope.

(** A subscriber that found no channel is about to take the write lock;
    afterwards it holds a receiver of a channel. *)
Inductive Client := Pending | Streaming (channel : nat).
#[export] Instance Client_eq_dec : EqDecision Client.
Proof. solve_decision. Defined.

(** Where the task is in its loop, with the snapshot it made. *)
Inductive TaskPc := Waiting | Made (json : string) | MayStop (json : string) | Sending (json : string).

(** [slot] is [metrics_stream_tx]; [values] is the last value of each channel. *)
Record StreamState := mk_stream {
  slot : option nat;
  next_channel : nat;
  clients : gmap nat Client;
  tasks : list TaskPc;
  values : gmap nat string;
}.

Definition stream_new : StreamState := mk_stream None 0 ∅ [] ∅.

Definition receiver_count (s : StreamState) (c : nat) : nat := size (filter (fun e => e.2 = Streaming c) (clients s)).

Inductive Action :=
  | Connect (i : nat)                    (** under the read lock *)
  | Retry (i : nat)                      (** under the write lock *)
  | Disconnect (i : nat)
  | TaskTick (k : nat) (json : string)   (** the timer, then the snapshot *)
  | TaskCheck (k : nat)                  (** under the read lock *)
  | TaskStop (k : nat)                   (** under the write lock *)
  | TaskSend (k : nat).                  (** under the read lock *)

Definition set_client (i : nat) (c : Client) (s : StreamState) : StreamState :=
  mk_stream (slot s) (next_channel s) (<[i := c]> (clients s)) (tasks s) (values s).
Definition set_task (k : nat) (pc : TaskPc) (s : StreamState) : StreamState :=
  mk_stream (slot s) (next_channel s) (clients s) (<[k := pc]> (tasks s)) (values s).

(** A channel whose receivers are gone, or no channel. *)
Definition unused (s : StreamState) : bool := match slot s with Some c => (receiver_count s c =? 0)%nat | None => true end.

(** The sender keeps a value only when a receiver is there. *)
Definition send (json : string) (s : StreamState) : StreamState :=
  match slot s with
  | Some c => if (receiver_count s c =? 0)%nat then s else mk_stream (slot s) (next_channel s) (clients s) (tasks s) (<[c := json]> (values s))
  | None => s
  end.

Definition task_step (a : Action) (k : nat) (pc : TaskPc) (s : StreamState) : StreamState :=
  match a, pc with
  | TaskTick _ json, Waiting => set_task k (Made json) s
  | TaskCheck _, Made json => set_task k (if unused s then MayStop json else Sending json) s
  | TaskStop _, MayStop json =>
      match slot s with
      | Some c =>
          if (receiver_count s c =? 0)%nat then mk_stream None (next_channel s) (clients s) (delete k (tasks s)) (values s)
          else set_task k (Sending json) s
      | None => set_task k (Sending json) s
      end
  | TaskSend _, Sending json => set_task k Waiting (send json s)
  | _, _ => s
  end.

(** A step that is not enabled does nothing. *)
Definition stream_step (s : StreamState) (a : Action) : StreamState :=
  match a with
  | Connect i =>
      match clients s !! i, slot s with
      | None, Some c => set_client i (Streaming c) s
      | None, None => set_client i Pending s
      | Some _, _ => s
      end
  | Retry i =>
      match clients s !! i, slot s with
      | Some Pending, Some c => set_client i (Streaming c) s
      | Some Pending, None =>
          let c := next_channel s in
          mk_stream (Some c) (S c) (<[i := Streaming c]> (clients s)) (tasks s ++ [Waiting]) (<[c := "{}"]> (values s))
      | _, _ => s
      end
  | Disconnect i => mk_stream (slot s) (next_channel s) (delete i (clients s)) (tasks s) (values s)
  | TaskTick k _ | TaskCheck k | TaskStop k | TaskSend k => match tasks s !! k with Some pc => task_step a k pc s | None => s end
  end.

Definition stream_run (acts : list Action) (s : StreamState) : StreamState := foldl stream_step s acts.

(** ** One channel, one task, no subscriber left behind *)

Definition stream_ok (s : StreamState) : Prop :=
  match slot s with
  | Some c => (exists pc, tasks s = [pc]) /\ forall i c', clients s !! i = Some (Streaming c') -> c' = c
  | None => tasks s = [] /\ forall i c', clients s !! i <> Some (Streaming c')
  end.

Lemma receiver_count_0 s c : receiver_count s c = 0%nat <-> forall i, clients s !! i <> Some (Streaming c).
Proof.
  unfold receiver_count. rewrite map_size_empty_iff. split.
  - intros H i Hi. eapply (lookup_empty_Some i (Streaming c)). rewrite <- H. by apply map_lookup_filter_Some.
  - intros H. apply map_eq. intros i. rewrite lookup_empty. apply map_lookup_filter_None. right. intros x Hi E. cbn in E. subst x. by apply (H i).
Qed.

Lemma receiver_there s c i : clients s !! i = Some (Streaming c) -> (receiver_count s c =? 0)%nat = false.
Proof. intros Hi. apply Nat.eqb_neq. intros E. by apply (proj1 (receiver_count_0 s c) E i). Qed.

(** Giving a subscriber that had no receiver the state [cl]. *)
Lemma set_client_ok i cl s :
  stream_ok s -> (forall c, cl = Streaming c -> slot s = Some c) -> stream_ok (set_client i cl s).
Proof.
  unfold stream_ok. cbn. intros H Hc. destruct (slot s) as [c|].
  - destruct H as [Ht H]. split; [done|]. intros j c' [[-> ->]|[_ Hj]]%lookup_insert_Some; [by specialize (Hc c' eq_refl) as [= ->]|by eapply H].
  - destruct H as [Ht H]. split; [done|]. intros j c' [[-> ->]|[_ Hj]]%lookup_insert_Some; [by specialize (Hc c' eq_refl)|by eapply H].
Qed.

Lemma set_task_ok k pc pc0 s : tasks s !! k = Some pc0 -> stream_ok s -> stream_ok (set_task k pc s).
Proof.
  unfold stream_ok. cbn. intros Hk H. destruct (slot s) as [c|]; [|by destruct H as [Ht _]; rewrite Ht in Hk].
  destruct H as [[pc1 Ht] H]. split; [|done]. rewrite Ht in *. exists pc. by destruct k.
Qed.

Lemma send_ok json s : stream_ok s -> stream_ok (send json s) /\ tasks (send json s) = tasks s /\ clients (send json s) = clients s.
Proof. unfold send. destruct (slot s) as [c|] eqn:E; [|done]. destruct (_ =? _)%nat; [done|]. intros H. unfold stream_ok in *. cbn. rewrite E in *. done. Qed.

Lemma stream_step_ok s a : stream_ok s -> stream_ok (stream_step s a).
Proof.
  intros H. destruct a as [i|i|i|k json|k|k|k]; cbn [stream_step].
  - destruct (clients s !! i); [done|]. destruct (slot s) as [c|] eqn:E; apply set_client_ok; try done. by intros c' [= ->].
  - destruct (clients s !! i) as [[|c]|] eqn:Ei; [|done..]. destruct (slot s) as [c|] eqn:E.
    + apply set_client_ok; [done|]. by intros c' [= ->].
    + unfold stream_ok in *. rewrite E in H. destruct H as [Ht H]. cbn. rewrite Ht. split; [by eexists|].
      intros j c' [[_ [= ->]]|[_ Hj]]%lookup_insert_Some; [done|]. by apply H in Hj.
  - unfold stream_ok in *. cbn. destruct (slot s); destruct H as [Ht H]; (split; [done|]); intros j c' Hj;
      apply lookup_delete_Some in Hj as [_ Hj]; by apply H in Hj.
  - destruct (tasks s !! k) as [[]|] eqn:Ek; cbn; try done. by eapply set_task_ok.
  - destruct (tasks s !! k) as [[]|] eqn:Ek; cbn; try done. by eapply set_task_ok.
  - destruct (tasks s !! k) as [[]|] eqn:Ek; cbn; try done. destruct (slot s) as [c|] eqn:E; [|by eapply set_task_ok].
    destruct (Nat.eqb_spec (receiver_count s c) 0) as [Hz|]; [|by eapply set_task_ok].
    unfold stream_ok in *. rewrite E in H. destruct H as [[pc Ht] H]. cbn. rewrite Ht in *. split; [by destruct k|].
    intros i c' Hi. pose proof (H i c' Hi) as ->. by apply (proj1 (receiver_count_0 s c) Hz i).
  - destruct (tasks s !! k) as [[]|] eqn:Ek; cbn; try done. destruct (send_ok json s H) as (H' & Ht & _). eapply set_task_ok; [by rewrite Ht|done].
Qed.

Lemma stream_run_ok acts s : stream_ok s -> stream_ok (stream_run acts s).
Proof. revert s. induction acts as [|a acts IH]; intros s H; [done|]. by apply IH, stream_step_ok. Qed.

Lemma stream_new_ok : stream_ok stream_new.
Proof. by split. Qed.

(** ** Delivery *)

(** What other subscribers do, while subscriber [i] stays. *)
Definition by_others (i : nat) (a : Action) : bool :=
  match a with Connect _ | Retry _ => true | Disconnect j => negb (j =? i)%nat | _ => false end.

(** Subscriber [i] has a receiver of [c] and the task is at [pc]. *)
Record fed (i c : nat) (pc : TaskPc) (s : StreamState) : Prop := {
  fed_ok : stream_ok s;
  fed_client : clients s !! i = Some (Streaming c);
  fed_task : tasks s = [pc];
}.

Lemma fed_slot i c pc s : fed i c pc s -> slot s = Some c.
Proof.
  intros [H Hi _]. unfold stream_ok in H. destruct (slot s) as [c0|]; destruct H as [_ H]; [|by apply H in Hi]. by rewrite (H i c Hi).
Qed.

Lemma fed_others i c pc s acts : fed i c pc s -> forallb (by_others i) acts = true -> fed i c pc (stream_run acts s).
Proof.
  revert s. induction acts as [|a acts IH]; intros s Hf; [done|]. intros [Ha Hacts]%andb_true_iff. apply IH; [|done].
  pose proof (fed_slot _ _ _ _ Hf) as Hs. destruct Hf as [Hok Hi Ht]. split; [by apply stream_step_ok| |].
  - destruct a as [j|j|j| | | |]; try done; cbn [stream_step]; rewrite ?Hs.
    + destruct (clients s !! j) eqn:Ej; [done|]. cbn. rewrite lookup_insert_ne; [done|congruence].
    + destruct (clients s !! j) as [[|]|] eqn:Ej; try done. cbn. rewrite lookup_insert_ne; [done|congruence].
    + cbn in Ha |- *. apply negb_true_iff, Nat.eqb_neq in Ha. by rewrite lookup_delete_ne.
  - destruct a as [j|j|j| | | |]; try done; cbn [stream_step]; rewrite ?Hs.
    + by destruct (clients s !! j).
    + by destruct (clients s !! j) as [[|]|].
Qed.

(** A step of the task while somebody listens: it never stops. *)
Lemma fed_task_step i c pc s a :
  fed i c pc s ->
  let pc' := match a, pc with
             | TaskTick 0 json, Waiting => Made json
             | TaskCheck 0, Made json => Sending json
             | TaskStop 0, MayStop json => Sending json
             | TaskSend 0, Sending json => Waiting
             | _, _ => pc
             end in
  by_others i a = false -> a <> Disconnect i -> fed i c pc' (stream_step s a).
Proof.
  intros Hf pc' Ho Hd. pose proof (fed_slot _ _ _ _ Hf) as Hs. pose proof (fed_client _ _ _ _ Hf) as Hi. pose proof (fed_task _ _ _ _ Hf) as Ht.
  pose proof (stream_step_ok s a (fed_ok _ _ _ _ Hf)) as Hok'. pose proof (receiver_there _ _ _ Hi) as Hr.
  split; [exact Hok'|..]; subst pc'.
  all: destruct a as [j|j|j|[|k] json|[|k]|[|k]|[|k]]; try done.
  all: try (cbn in Ho; apply negb_false_iff, Nat.eqb_eq in Ho; by subst j).
  all: cbn [stream_step]; rewrite Ht; cbn [lookup list_lookup]; try done.
  all: destruct pc; cbn [task_step]; unfold unused, send; rewrite ?Hs, ?Hr; cbn; rewrite ?Ht; done.
Qed.

(** C40: However subscribers come and go and interleave with the task, there is
    one task exactly while there is a channel, and every subscriber listens on
    that channel, never on an abandoned one. A snapshot the task makes while a
    subscriber is connected becomes the value of its channel, whatever the
    others do between the steps of the task. *)
Theorem live_stream_fed acts :
  let s := stream_run acts stream_new in
  match slot s with
  | Some c => (exists pc, tasks s = [pc]) /\ forall i c', clients s !! i = Some (Streaming c') -> c' = c
  | None => tasks s = [] /\ forall i c', clients s !! i <> Some (Streaming c')
  end
  /\ forall i c json o1 o2 o3,
       clients s !! i = Some (Streaming c) -> tasks s = [Waiting] -> forallb (by_others i) (o1 ++ o2 ++ o3) = true ->
       values (stream_run ([TaskTick 0 json] ++ o1 ++ [TaskCheck 0] ++ o2 ++ [TaskStop 0] ++ o3 ++ [TaskSend 0]) s) !! c = Some json.
Proof.
  cbv zeta. pose proof (stream_run_ok acts _ stream_new_ok) as Hok. set (s := stream_run acts stream_new) in *. split; [exact Hok|].
  intros i c json o1 o2 o3 Hi Ht. rewrite !forallb_app. intros [H1 [H2 H3]%andb_true_iff]%andb_true_iff.
  assert (Hf : fed i c Waiting s) by by split. unfold stream_run. rewrite !foldl_app. cbn [foldl].
  apply (fed_task_step _ _ _ _ (TaskTick 0 json)) in Hf; [|done..]. apply (fed_others _ _ _ _ o1) in Hf; [|done].
  apply (fed_task_step _ _ _ _ (TaskCheck 0)) in Hf; [|done..]. apply (fed_others _ _ _ _ o2) in Hf; [|done].
  apply (fed_task_step _ _ _ _ (TaskStop 0)) in Hf; [|done..]. apply (fed_others _ _ _ _ o3) in Hf; [|done]. cbn beta iota in Hf. unfold stream_run in Hf.
  match type of Hf with fed _ _ _ ?s3 => set (s4 := s3) in *; clearbody s4 end.
  pose proof (fed_slot _ _ _ _ Hf) as Hs. destruct Hf as [_ Hc Hk]. pose proof (receiver_there _ _ _ Hc) as Hr.
  cbn [stream_step]. rewrite Hk. cbn [lookup list_lookup task_step]. unfold send. rewrite Hs, Hr. cbn. apply lookup_insert_eq.
Qed.

(** Two subscribers find no channel; the second joins the first's. The first
    leaves while the task is about to stop, a third arrives, and the task goes
    on; when all are gone it stops, and a later subscriber starts another. *)
Definition demo_acts : list Action :=
  [Connect 1; Connect 2; Retry 1; Retry 2; Disconnect 2; TaskTick 0 "a"; Disconnect 1; TaskCheck 0; Connect 3; TaskStop 0; TaskSend 0].

Lemma live_stream_fed_witness :
  let s := stream_run demo_acts stream_new in
  clients s = {[3 := Streaming 0]} /\ tasks s = [Waiting] /\ values s = {[0 := "a"]}
  /\ values (stream_run ([TaskTick 0 "b"] ++ [Connect 4] ++ [TaskCheck 0] ++ [Disconnect 4] ++ [TaskStop 0] ++ [] ++ [TaskSend 0]) s) !! 0 = Some "b".
Proof.
  cbv zeta. split; [vm_compute; reflexivity|]. split; [vm_compute; reflexivity|]. split; [vm_compute; reflexivity|].
  apply (live_stream_fed demo_acts) with (i := 3); vm_compute; reflexivity.
Defined.

Example stream_restarts :
  let s := stream_run (demo_acts ++ [Disconnect 3; TaskTick 0 "b"; TaskCheck 0; TaskStop 0; Connect 5; Retry 5])%list stream_new in
  slot s = Some 1 /\ tasks s = [Waiting] /\ clients s = {[5 := Streaming 1]}.
Proof. vm_compute. by split_and!. Qed.
