(* ===== verification/Api.v ===== *)
(** * Api: the admin interface as a whole

    Models the router of src/src/admin/api.rs with the handlers that change
    state: the routes of routes_handler.rs, the certificates of
    certs_handler.rs, and the configuration, log and session handlers of the
    other files. Matching a path is the web framework's; requests are given
    with their method and path. *)
From S2P Require Import Prelude F64 RustStr Net Routes CircuitBreaker RateLimit Health Stats Target Weights Table Registry.
From S2P Require Import Http Config ClientHello TlsConf Pem CertStore Handshake Logs Admin Flow Runtime Views.
From S2P Require DnsCache Metrics.
From Stdlib Require Import Ascii String.
Local Open Scope string_scope.
Local Open Scope Z_scope.

(** ** The router *)

Inductive Method := GET | HEAD | POST | PUT | DELETE | OtherMethod (name : string).
#[export] Instance Method_eq_dec : EqDecision Method.
Proof. solve_decision. Defined.

Inductive Endpoint :=
  | RedirectToDashboard | DashboardHtml | DashboardCss | DashboardJs | Favicon | LoginHandler | LogoutHandler | MeHandler | HealthHandler
  | RoutesHandler | RoutesAddHandler | RoutesStaticClearHandler | MetricsHandler | ConfigHandler | ConfigUpdateHandler | ConfigResetHandler
  | CertsHandler | CertsReloadHandler | LogsHandler | TargetsHandler | ConsulStatusHandler | TopologyHandler | TargetsMetricsHandler
  | DnsCacheHandler | LogsStreamHandler | MetricsStreamHandler.
#[export] Instance Endpoint_eq_dec : EqDecision Endpoint.
Proof. solve_decision. Defined.

Definition public_routes : list (string * Method * Endpoint) :=
  [("/admin", GET, RedirectToDashboard); ("/admin/", GET, DashboardHtml); ("/admin/dashboard", GET, DashboardHtml);
   ("/admin/assets/dashboard.css", GET, DashboardCss); ("/admin/assets/dashboard.js", GET, DashboardJs); ("/favicon.ico", GET, Favicon);
   ("/admin/login", POST, LoginHandler); ("/admin/logout", POST, LogoutHandler); ("/admin/me", GET, MeHandler); ("/admin/health", GET, HealthHandler)].

Definition protected_routes : list (string * Method * Endpoint) :=
  [("/admin/routes", GET, RoutesHandler); ("/admin/routes", POST, RoutesAddHandler); ("/admin/routes/static", DELETE, RoutesStaticClearHandler);
   ("/admin/metrics", GET, MetricsHandler); ("/admin/config", GET, ConfigHandler); ("/admin/config", PUT, ConfigUpdateHandler);
   ("/admin/config/reset", POST, ConfigResetHandler); ("/admin/certs", GET, CertsHandler); ("/admin/certs/reload", POST, CertsReloadHandler);
   ("/admin/logs", GET, LogsHandler); ("/admin/targets", GET, TargetsHandler); ("/admin/consul-status", GET, ConsulStatusHandler);
   ("/admin/topology", GET, TopologyHandler); ("/admin/targets-metrics", GET, TargetsMetricsHandler); ("/admin/dns-cache", GET, DnsCacheHandler);
   ("/admin/logs/stream", GET, LogsStreamHandler); ("/admin/metrics/stream", GET, MetricsStreamHandler)].

Inductive Dispatch := NotFound | MethodNotAllowed | Unauthorized | Serve (e : Endpoint).

(** A route for GET answers HEAD as well. *)
Definition answers_method (registered asked : Method) : bool :=
  bool_decide (registered = asked) || (bool_decide (registered = GET) && bool_decide (asked = HEAD)).

Definition method_dispatch (routes : list (string * Method * Endpoint)) (method : Method) (path : string) : Dispatch :=
  match List.find (fun r => String.eqb r.1.1 path && answers_method r.1.2 method) routes with
  | Some (_, _, e) => Serve e
  | None => MethodNotAllowed
  end.

Definition registered (routes : list (string * Method * Endpoint)) (path : string) : bool := existsb (fun r => String.eqb r.1.1 path) routes.

Record HttpRequest := mk_http_request { http_method : Method; http_path : string; http_headers : HeaderMap; http_query : option string }.

Definition admin_request (r : HttpRequest) : AdminRequest :=
  mk_admin_request (bool_decide (http_method r = GET)) (http_headers r) (http_query r).

Definition no_auth (server : ServerConfig) : bool := is_empty (admin_token server) && match admin_users server with [] => true | _ => false end.

(** [build_router]: [start] is the configuration it was built under, which
    decides whether the middleware is there; the middleware reads the running
    one. *)
Definition dispatch (start running : ServerConfig) (auth : AuthState) (r : HttpRequest) : Dispatch :=
  if registered public_routes (http_path r) then method_dispatch public_routes (http_method r) (http_path r)
  else if registered protected_routes (http_path r) then
    if negb (no_auth start) && negb (authorized running auth (admin_request r)) then Unauthorized
    else method_dispatch protected_routes (http_method r) (http_path r)
  else NotFound.

(** ** The handlers *)

(** [logs_handler] *)
Record LogsQuery := mk_logs_query { q_limit : option nat; q_level : option string; q_search : option string }.

Definition logs_handler (buffer : option LogBufferState) (q : LogsQuery) : option (list LogEntry) :=
  match buffer with
  | Some buffer => recent RING_BUFFER_CAPACITY (Nat.min (default 100%nat (q_limit q)) 1000) (q_level q) (q_search q) buffer
  | None => Some []
  end.

Section handlers.
Context {N : HeaderNames} {G : GlobCrate} {U : UrlParser} {O : HashOrder} {S : DnsCache.SelectNth}.

(** [routes_add_handler]: the number of routes added and their services. *)
Definition routes_add_handler (now_ns : Z) (inflight : gset loc) (commands : string) (s : AdminState) (m : Metrics.Metrics)
    : AdminState * Metrics.Metrics * result (nat * list string) string :=
  if is_empty (trim commands) then (s, m, Err "No route commands provided")
  else match parse_route_commands commands with
  | [] => (s, m, Err "No valid route commands parsed from input")
  | new_defs =>
      let '(t, h) := append_static now_ns inflight new_defs (s_route_table s) (cells s) in
      let m := Metrics.record_route_reload "static" m in (* rebuild_and_swap *)
      let m := Metrics.record_route_reload "static" m in
      (mk_admin (config s) (startup_config s) (s_trusted_proxies s) (dns_cache s) t h, m,
       Ok (List.length new_defs, map def_service new_defs))
  end.

Definition routes_static_clear_handler (now_ns : Z) (inflight : gset loc) (s : AdminState) (m : Metrics.Metrics) : AdminState * Metrics.Metrics :=
  let '(t, h) := load_static now_ns inflight [] (s_route_table s) (cells s) in
  (mk_admin (config s) (startup_config s) (s_trusted_proxies s) (dns_cache s) t h, Metrics.record_route_reload "static" m).
End handlers.

(** ** Certificates *)

Section certs.
Context {T : TlsCrate} (utf8_error : string -> string).

(** [i64] division of the seconds left. *)
Definition days_left (now_unix exp : Z) : Z := Z.quot (exp - now_unix) 86400.

(** [file_cert_info] *)
Definition file_cert_info (read : string -> result string string) (now_unix : Z) (label listen cert_path client_auth : string) : Json :=
  let base := [("label", JStr label); ("listen", JStr listen); ("source", JStr "file"); ("cert_path", JStr cert_path);
               ("client_auth", JStr (if is_empty client_auth then "off" else client_auth))] in
  match read cert_path with
  | Ok pem =>
      match parse_certificate_chain utf8_error pem with
      | Ok ((leaf :: _) as certs) =>
          let expiry := asn1_time_to_unix_seconds (not_after leaf) in
          JObj (base ++ [("subject", JStr (certificate_subject_string leaf)); ("common_name", jopt JStr (first_subject_value leaf COMMONNAME));
                         ("not_after", JStr (not_after leaf)); ("not_after_unix", jopt JNum expiry);
                         ("days_remaining", jopt JNum (days_left now_unix <$> expiry)); ("chain_length", JNum (Z.of_nat (List.length certs)))])%list
      | _ => JObj base
      end
  | Err _ => JObj base
  end.

(** The listeners of [certs_handler]. *)
Definition cert_listeners (read : string -> result string string) (now_unix : Z) (c : Config) : list Json :=
  ((if String.eqb (tls_source_name (tls c)) "file" && negb (is_empty (cert_path (tls c)))
    then [file_cert_info read now_unix "primary" (tls_listen (tls c)) (cert_path (tls c)) (client_auth (tls c))] else [])
   ++ List.concat (imap (fun i t => if String.eqb (tls_source_name t) "file" && negb (is_empty (cert_path t))
                                    then [file_cert_info read now_unix ("tls_listeners[" ++ pretty i ++ "]") (tls_listen t) (cert_path t) (client_auth t)]
                                    else []) (tls_listeners c)))%list.

Definition cert_status_json (s : DynamicTlsCertificateStatus) : Json :=
  JObj [("entry_name", JStr (st_entry_name s)); ("primary_name", jopt JStr (st_primary_name s)); ("not_after_unix", jopt JNum (st_not_after_unix s));
        ("days_remaining", jopt JNum (st_days_remaining s))].

Definition ca_cert_status_json (s : DynamicClientCaCertificateStatus) : Json :=
  JObj [("entry_name", JStr (ca_entry_name s)); ("subject", JStr (ca_subject s)); ("common_name", jopt JStr (ca_common_name s));
        ("organization", jopt JStr (ca_organization s)); ("organizational_unit", jopt JStr (ca_organizational_unit s))].

Definition certs_view (read : string -> result string string) (now_unix : Z) (c : Config) (runtime : option DynamicTlsStatus)
    (ca_runtime : option DynamicClientCaStatus) : Json :=
  let t := tls c in
  JObj [("source", JStr (tls_source_name t)); ("strict_sni", JBool (strict_sni t)); ("require_initial_snapshot", JBool (require_initial_snapshot t));
        ("consul_cert_prefix", JStr (consul_cert_prefix t));
        ("loaded_certificates", JArr (map JStr (default [] (loaded_certificates <$> runtime))));
        ("certificates", JArr (map cert_status_json (default [] (certificates <$> runtime))));
        ("default_certificate", jopt JStr (runtime ≫= default_certificate)); ("last_consul_index", JNum (default 0 (last_consul_index <$> runtime)));
        ("last_reload_unix", jopt JNum (runtime ≫= last_reload_unix)); ("last_error", jopt JStr (runtime ≫= last_error));
        ("listeners", JArr (cert_listeners read now_unix c));
        ("client_auth", JObj [("mode", JStr (client_auth t)); ("ca_source", JStr (client_ca_source t)); ("ca_path", JStr (client_ca_path t));
           ("ca_consul_prefix", JStr (client_ca_consul_prefix t)); ("ca_upgrade_cn", JStr (client_ca_upgrade_cn t));
           ("loaded_entries", JArr (map JStr (default [] (loaded_entries <$> ca_runtime))));
           ("certificates", JArr (map ca_cert_status_json (default [] (ca_statuses <$> ca_runtime))));
           ("last_consul_index", JNum (default 0 (ca_last_consul_index <$> ca_runtime)));
           ("last_reload_unix", jopt JNum (ca_runtime ≫= ca_last_reload_unix)); ("last_error", jopt JStr (ca_runtime ≫= ca_last_error))])].

(** A certificate from files that can be reloaded: its listener, the one in
    use, its files. *)
Record FileCert := mk_file_cert { fc_label : string; fc_cert : LoadedCertificate; fc_config : TlsCertConfig }.

(** What the files hold when a certificate is loaded, and when the file is
    looked at again for the answer. *)
Record Look := mk_look { first_read : string -> result string string; second_read : string -> result string string }.

(** What is reported of a reloaded certificate, from a second look at the
    file. *)
Definition reload_details (read : string -> result string string) (now_unix : Z) (config : TlsCertConfig) : string * option string * option Z :=
  match read (file_cert_path config) with
  | Err _ => ("read-error", None, None)
  | Ok pem =>
      match parse_certificate_chain utf8_error pem with
      | Err _ => ("parse-error", None, None)
      | Ok [] => ("unknown", None, None)
      | Ok (leaf :: _) =>
          (certificate_subject_string leaf, first_subject_value leaf COMMONNAME, days_left now_unix <$> asn1_time_to_unix_seconds (not_after leaf))
      end
  end.

Inductive ReloadResult :=
  | Reloaded (listener subject : string) (cn : option string) (days : option Z)
  | ReloadFailed (listener error : string).

Definition reload_one (now_unix : Z) (item : FileCert * Look) : FileCert * ReloadResult :=
  let '(fc, look) := item in
  match load_static_certificate utf8_error (first_read look) (fc_config fc) with
  | Ok new_cert =>
      let '(subject, cn, days) := reload_details (second_read look) now_unix (fc_config fc) in
      (mk_file_cert (fc_label fc) new_cert (fc_config fc), Reloaded (fc_label fc) subject cn days)
  | Err error => (fc, ReloadFailed (fc_label fc) (show_tls_error error))
  end.

Record ReloadAnswer := mk_reload_answer {
  ra_success : bool;
  ra_reloaded : nat;
  ra_failed : nat;
  ra_details : list ReloadResult;
  ra_errors : list ReloadResult;
}.

Definition is_reloaded (r : ReloadResult) : bool := match r with Reloaded _ _ _ _ => true | ReloadFailed _ _ => false end.

(** [certs_reload_handler], each certificate with the looks at its files. *)
Definition certs_reload_handler (now_unix : Z) (file_certs : list (FileCert * Look)) : list FileCert * result ReloadAnswer string :=
  match file_certs with
  | [] => ([], Err "No file-based TLS listeners configured")
  | _ =>
      let outcomes := map (reload_one now_unix) file_certs in
      let results := List.filter is_reloaded (map snd outcomes) in
      let errors := List.filter (fun r => negb (is_reloaded r)) (map snd outcomes) in
      (map fst outcomes,
       Ok (mk_reload_answer (match errors with [] => true | _ => false end) (List.length results) (List.length errors) results errors))
  end.
End certs.

(** ** Who gets through *)

(** The endpoints that change the balancer. *)
Definition changes_state (e : Endpoint) : bool :=
  match e with RoutesAddHandler | RoutesStaticClearHandler | ConfigUpdateHandler | ConfigResetHandler | CertsReloadHandler => true | _ => false end.

Definition served_publicly (r : HttpRequest) (e : Endpoint) : Prop :=
  exists m, (http_path r, m, e) ∈ public_routes /\ answers_method m (http_method r) = true.

Lemma method_dispatch_spec l method path e :
  method_dispatch l method path = Serve e -> exists m, (path, m, e) ∈ l /\ answers_method m method = true.
Proof.
  unfold method_dispatch. destruct (List.find _ l) as [[[p m] e']|] eqn:Ef; [|done]. intros [= ->].
  apply find_some in Ef as [Hin Hf]. cbn in Hf. apply andb_true_iff in Hf as [<-%String.eqb_eq Ha]. exists m. by rewrite list_elem_of_In.
Qed.

(** What the two tables say is checked entry by entry. *)
Lemma checked_route (check : string * Method * Endpoint -> bool) l x : forallb check l = true -> x ∈ l -> check x = true.
Proof. rewrite forallb_forall. intros H Hin. by apply H, list_elem_of_In. Qed.

Lemma changing_routes_protected m path e : (path, m, e) ∈ public_routes -> changes_state e = false.
Proof. intros H. apply (checked_route (fun r => negb (changes_state r.2))) in H; [by apply negb_true_iff in H|done]. Qed.

Lemma changing_routes_not_get m path e :
  (path, m, e) ∈ protected_routes -> changes_state e = true -> m <> GET.
Proof.
  intros H He ->. apply (checked_route (fun r => negb (changes_state r.2 && bool_decide (r.1.2 = GET)))) in H; [|done].
  cbn in H. by rewrite He in H.
Qed.

Lemma changing_request_not_get r m path e :
  (path, m, e) ∈ protected_routes -> changes_state e = true -> answers_method m (http_method r) = true -> req_is_get (admin_request r) = false.
Proof.
  intros Hin He Ha. pose proof (changing_routes_not_get _ _ _ Hin He) as Hm. cbn. apply bool_decide_eq_false. intros Hg.
  unfold answers_method in Ha. by rewrite Hg, (bool_decide_eq_false_2 (m = GET)) in Ha.
Qed.

Lemma dispatch_cases start running auth r e :
  dispatch start running auth r = Serve e ->
  served_publicly r e
  \/ (exists m, (http_path r, m, e) ∈ protected_routes /\ answers_method m (http_method r) = true)
     /\ (no_auth start = true \/ authorized running auth (admin_request r) = true).
Proof.
  unfold dispatch. destruct (registered public_routes _); [intros H%method_dispatch_spec; by left|].
  destruct (registered protected_routes _); [|done].
  destruct (no_auth start) eqn:En; cbn [negb andb]; [intros H%method_dispatch_spec; right; split; [done|by left]|].
  destruct (authorized running auth (admin_request r)) eqn:Ea; cbn [negb]; [|done]. intros H%method_dispatch_spec. right. split; [done|by right].
Qed.

Lemma unguarded_is_loopback start : may_serve start = true -> no_auth start = true -> is_loopback_bind (admin_listen start) = true.
Proof. unfold may_serve, no_auth. destruct (is_empty (admin_token start)), (admin_users start); cbn; done. Qed.

(** C35: The admin server started under [start] runs a handler only for a public
    path, or when its bind address passes the code's prefix test for loopback
    and there are no credentials, or for a request with the token of the running configuration (for secrets under 256
    bytes, exactly it) or of a session that a login with valid credentials was
    given. The handlers that change the
    balancer are never public, and a token in the query, which ends up in logs
    and referrers, never reaches them. *)
Theorem admin_api_guarded `{Bcrypt} start running events r e :
  may_serve start = true ->
  dispatch start running (auth_run running events) r = Serve e ->
  (served_publicly r e /\ changes_state e = false)
  \/ (no_auth start = true /\ is_loopback_bind (admin_listen start) = true)
  \/ exists t,
       ((admin_token running <> "" /\ constant_time_eq t (admin_token running) = true
         /\ (str_len t < 256 -> str_len (admin_token running) < 256 -> t = admin_token running)
         /\ (presented_header (admin_request r) t \/ presented_admin (admin_request r) t
             \/ changes_state e = false /\ presented_query (admin_request r) t))
        \/ (Exists (issued running t) events
            /\ (presented_header (admin_request r) t \/ changes_state e = false /\ presented_query (admin_request r) t))).
Proof.
  intros Hm [Hp|[(m & Hin & Ha) [Hn|Hauth]]]%dispatch_cases.
  - left. split; [done|]. destruct Hp as (m & Hin & _). by apply changing_routes_protected in Hin.
  - right. left. split; [done|]. by apply unguarded_is_loopback.
  - right. right.
    assert (Hq : forall t, presented_query (admin_request r) t -> changes_state e = false).
    { intros t [Hg _]. destruct (changes_state e) eqn:He; [|done]. by rewrite (changing_request_not_get _ _ _ _ Hin He Ha) in Hg. }
    apply authorized_spec in Hauth as [(t & Hp & Hne & Hc)|(t & Hp & Hs)]; exists t.
    + left. split; [done|]. split; [done|]. split; [intros ? ?; by apply constant_time_eq_short|]. destruct Hp as [?|[?|?]]; [by left|by right; left|right; right]. split; [by apply (Hq t)|done].
    + right. split; [by apply session_issued|]. destruct Hp as [?|?]; [by left|right]. split; [by apply (Hq t)|done].
Qed.

(** ** Routes added and cleared *)

Section route_changes.
Context {N : HeaderNames} {G : GlobCrate} {U : UrlParser} {O : HashOrder} {S : DnsCache.SelectNth}.

(** What the published table serves. *)
Definition serves (s : AdminState) (defs : list RouteDef) : Prop :=
  forall k p, erased_contents (Table.routes (published (s_route_table s))) k p = spec_table defs k p.

(** The rest of the state, with the sources the Consul watchers keep. *)
Definition others_kept (s s' : AdminState) : Prop :=
  config s' = config s /\ startup_config s' = startup_config s /\ s_trusted_proxies s' = s_trusted_proxies s /\ dns_cache s' = dns_cache s
  /\ kv_routes (Registry.registry (s_route_table s')) = kv_routes (Registry.registry (s_route_table s))
  /\ service_routes (Registry.registry (s_route_table s')) = service_routes (Registry.registry (s_route_table s)).

Definition valid_commands (commands : string) : bool :=
  negb (is_empty (trim commands)) && match parse_route_commands commands with [] => false | _ => true end.

Lemma static_change_spec now inflight op m h :
  Registry.reachable (m, h) ->
  let '(m', h') := managed_apply now inflight op m h in
  Registry.reachable (m', h')
  /\ (static_routes (Registry.registry m'), kv_routes (Registry.registry m'), service_routes (Registry.registry m'))
     = spec_sources op (static_routes (Registry.registry m), kv_routes (Registry.registry m), service_routes (Registry.registry m))
  /\ forall k p, erased_contents (Table.routes (published m')) k p = spec_table (get_all (Registry.registry m')) k p.
Proof.
  intros Hr. pose proof (reachable_apply now inflight op m h Hr) as Hr'. pose proof (managed_inv_reachable _ Hr) as [Hi _ _].
  pose proof (managed_apply_spec now inflight op m h Hi) as Ha. destruct (managed_apply now inflight op m h) as [m' h']. by destruct Ha as (_ & ? & ?).
Qed.

(** Commands posted to the admin API are served: on any state the balancer
    can reach, they add their routes, marked static, after the static routes
    there were, before those of Consul, and the published table is the one
    these sources specify; an input that is blank or from which nothing parses
    changes nothing. Clearing leaves exactly the routes of Consul. Neither
    touches the configuration, the DNS cache or the Consul sources. *)
Theorem posted_routes_served now inflight commands s m :
  Registry.reachable (s_route_table s, cells s) ->
  let reg := Registry.registry (s_route_table s) in
  let '(added, m', answer) := routes_add_handler now inflight commands s m in
  let '(cleared, _) := routes_static_clear_handler now inflight s m in
  (if valid_commands commands then
     let defs := parse_route_commands commands in
     answer = Ok (List.length defs, map def_service defs) /\ others_kept s added
     /\ Registry.reachable (s_route_table added, cells added)
     /\ serves added (static_routes reg ++ mark_sources defs Routes.Static ++ kv_routes reg ++ service_routes reg)%list
   else (added, m') = (s, m) /\ exists e, answer = Err e)
  /\ others_kept s cleared /\ Registry.reachable (s_route_table cleared, cells cleared) /\ serves cleared (kv_routes reg ++ service_routes reg)%list.
Proof.
  intros Hr reg. unfold routes_add_handler, routes_static_clear_handler, valid_commands.
  pose proof (static_change_spec now inflight (OpAppendStatic (parse_route_commands commands)) _ _ Hr) as Ha. cbn [managed_apply] in Ha.
  pose proof (static_change_spec now inflight (OpLoadStatic []) _ _ Hr) as Hc. cbn [managed_apply] in Hc.
  destruct (load_static _ _ _ _ _) as [tc hc], Hc as (Hrc & [= Es1 Ek1 Ev1] & Hs1).
  destruct (is_empty (trim commands)); cbn [negb andb].
  2: destruct (parse_route_commands commands) as [|d defs];
     [|destruct (append_static _ _ _ _ _) as [ta ha], Ha as (Hra & [= Es Ek Ev] & Hs)].
  all: split; [|split; [by split_and!|split; [done|]]; intros k p; cbn; rewrite Hs1; unfold get_all; by rewrite Es1, Ek1, Ev1].
  1, 2: split; [done|by eexists].
  split; [done|split; [by split_and!|split; [done|]]]. intros k p. cbn. rewrite Hs. unfold get_all. by rewrite Es, Ek, Ev, <- app_assoc.
Qed.
End route_changes.

(** ** Certificates reloaded *)

Section reloading.
Context {T : TlsCrate} (utf8_error : string -> string).

Definition loads (x : FileCert * Look) : bool :=
  match load_static_certificate utf8_error (first_read x.2) (fc_config x.1) with Ok _ => true | Err _ => false end.

(** The certificate in use after a reload. *)
Definition after_reload (x : FileCert * Look) : FileCert :=
  mk_file_cert (fc_label x.1)
    (match load_static_certificate utf8_error (first_read x.2) (fc_config x.1) with Ok c => c | Err _ => fc_cert x.1 end) (fc_config x.1).

Definition reload_listener (r : ReloadResult) : string := match r with Reloaded l _ _ _ | ReloadFailed l _ => l end.

Lemma reload_one_spec now x :
  (reload_one utf8_error now x).1 = after_reload x
  /\ is_reloaded (reload_one utf8_error now x).2 = loads x
  /\ reload_listener (reload_one utf8_error now x).2 = fc_label x.1.
Proof.
  destruct x as [fc look]. unfold reload_one, after_reload, loads. cbn [fst snd].
  destruct (load_static_certificate _ _ _) as [c|e]; [|by destruct fc].
  by destruct (reload_details _ _ _ _) as [[subject cn] days].
Qed.

Lemma reload_results now (keep : bool -> bool) items :
  map reload_listener (List.filter (fun r => keep (is_reloaded r)) (map snd (map (reload_one utf8_error now) items)))
  = map (fun x => fc_label x.1) (List.filter (fun x => keep (loads x)) items).
Proof.
  induction items as [|x items IH]; [done|]. destruct (reload_one_spec now x) as (_ & Hk & Hl). cbn [map List.filter]. rewrite Hk.
  destruct (keep (loads x)); cbn [map]; by rewrite IH, ?Hl.
Qed.

Lemma after_reload_ok x : cert_ok (fc_cert x.1) -> cert_ok (fc_cert (after_reload x)).
Proof.
  unfold after_reload, load_static_certificate. cbn [fc_cert]. intros H. destruct (first_read _ (file_cert_path _)) as [c|]; [|done].
  destruct (first_read _ (file_key_path _)) as [k|]; [|done]. destruct (from_pem_pair _ _ _ _) eqn:E; [|done]. by apply from_pem_pair_ok in E as [_ ?].
Qed.

Lemma filter_lengths {A} (keep : A -> bool) l :
  (List.length (List.filter keep l) + List.length (List.filter (fun x => negb (keep x)) l) = List.length l)%nat.
Proof. induction l as [|x l IH]; [done|]. cbn. destruct (keep x); cbn; lia. Qed.

Lemma none_left {A} (keep : A -> bool) l :
  match List.filter (fun x => negb (keep x)) l with [] => true | _ => false end = forallb keep l.
Proof. induction l as [|x l IH]; [done|]. cbn. by destruct (keep x). Qed.

(** A reload replaces the certificate of exactly those listeners whose
    files load now and leaves the others with the one they had; so every
    listener goes on with a certificate that matches its key. The answer
    reports each listener once, under details or under errors, with the right
    counts, and success only when none failed; without listeners there is
    nothing to reload. *)
Theorem certs_reload_spec now items :
  Forall (fun x => cert_ok (fc_cert x.1)) items ->
  let '(fcs', answer) := certs_reload_handler utf8_error now items in
  fcs' = map after_reload items
  /\ Forall (fun fc => cert_ok (fc_cert fc)) fcs'
  /\ match answer with
     | Ok a => map reload_listener (ra_details a) = map (fun x => fc_label x.1) (List.filter loads items)
               /\ map reload_listener (ra_errors a) = map (fun x => fc_label x.1) (List.filter (fun x => negb (loads x)) items)
               /\ ra_reloaded a = List.length (List.filter loads items) /\ (ra_reloaded a + ra_failed a = List.length items)%nat
               /\ ra_success a = forallb loads items
     | Err _ => items = []
     end.
Proof.
  intros Hok.
  assert (Hcerts : map fst (map (reload_one utf8_error now) items) = map after_reload items)
    by (rewrite map_map; apply map_ext; intros x; apply reload_one_spec).
  assert (Hok' : Forall (fun fc => cert_ok (fc_cert fc)) (map after_reload items)).
  { apply Forall_map. eapply Forall_impl; [exact Hok|]. intros x. apply after_reload_ok. }
  pose proof (reload_results now (fun b => b) items) as Hd. pose proof (reload_results now negb items) as He.
  pose proof (none_left is_reloaded (map snd (map (reload_one utf8_error now) items))) as Hs.
  pose proof (filter_lengths is_reloaded (map snd (map (reload_one utf8_error now) items))) as Hn. rewrite !length_map in Hn.
  unfold certs_reload_handler. destruct items as [|x items]; [done|]. rewrite Hcerts.
  split_and!; [done|exact Hok'|exact Hd|exact He| |exact Hn|].
  - apply (f_equal (@List.length string)) in Hd. by rewrite !length_map in Hd.
  - cbn [ra_success]. rewrite Hs. clear - T. induction (x :: items) as [|y l IH]; [done|]. cbn [map forallb].
    destruct (reload_one_spec now y) as (_ & -> & _). by rewrite IH.
Qed.
End reloading.

(** ** Concrete inputs *)

#[local] Existing Instances Admin.no_bcrypt Runtime.any_header Runtime.no_glob Runtime.some_url Runtime.list_order DnsCache.sort_select.

Definition clear_request (headers : HeaderMap) (query : option string) : HttpRequest :=
  mk_http_request DELETE "/admin/routes/static" headers query.

(** The token counts in a header of a DELETE, not in its query. *)
Lemma admin_api_guarded_witness :
  let r := clear_request [("x-admin-token", "secret")] None in
  dispatch demo_server demo_server (auth_run demo_server []) (clear_request [] (Some "token=secret")) = Unauthorized
  /\ may_serve demo_server = true
  /\ dispatch demo_server demo_server (auth_run demo_server []) r = Serve RoutesStaticClearHandler
  /\ ((served_publicly r RoutesStaticClearHandler /\ changes_state RoutesStaticClearHandler = false)
      \/ (no_auth demo_server = true /\ is_loopback_bind (admin_listen demo_server) = true)
      \/ exists t,
       ((admin_token demo_server <> "" /\ constant_time_eq t (admin_token demo_server) = true
         /\ (str_len t < 256 -> str_len (admin_token demo_server) < 256 -> t = admin_token demo_server)
         /\ (presented_header (admin_request r) t \/ presented_admin (admin_request r) t
             \/ changes_state RoutesStaticClearHandler = false /\ presented_query (admin_request r) t))
        \/ (Exists (issued demo_server t) []
            /\ (presented_header (admin_request r) t \/ changes_state RoutesStaticClearHandler = false /\ presented_query (admin_request r) t)))).
Proof.
  split; [vm_compute; reflexivity|]. split; [vm_compute; reflexivity|]. split; [vm_compute; reflexivity|].
  apply (admin_api_guarded demo_server demo_server [] (clear_request [("x-admin-token", "secret")] None) RoutesStaticClearHandler); vm_compute; reflexivity.
Defined.

(** Methods and paths the tables do not have. *)
Example dispatch_other :
  map (fun '(m, p) => dispatch demo_server demo_server auth_new (mk_http_request m p [("x-admin-token", "secret")] None))
    [(HEAD, "/admin/routes"); (PUT, "/admin/routes"); (GET, "/admin/login"); (GET, "/admin/routes/"); (GET, "/admin/health")]
  = [Serve RoutesHandler; MethodNotAllowed; MethodNotAllowed; NotFound; Serve HealthHandler].
Proof. vm_compute. reflexivity. Qed.

Definition posted : string := "route add svc h.com/p http://x:80/".

Lemma posted_routes_served_witness :
  let '(added, _, answer) := routes_add_handler 5 ∅ posted demo_started Metrics.metrics_new in
  Registry.reachable (s_route_table demo_started, cells demo_started) /\ valid_commands posted = true
  /\ answer = Ok (1%nat, ["svc"]) /\ serves added (mark_sources (parse_route_commands posted) Routes.Static).
Proof.
  assert (Hr : Registry.reachable (s_route_table demo_started, cells demo_started)).
  { eexists. split; [|apply rtc_refl]. right. eexists. reflexivity. }
  pose proof (posted_routes_served 5 ∅ posted demo_started Metrics.metrics_new Hr) as H. cbv zeta in H.
  destruct (routes_add_handler _ _ _ _ _) as [[added m'] answer]. destruct (routes_static_clear_handler _ _ _ _) as [cleared m''].
  assert (Hv : valid_commands posted = true) by (vm_compute; reflexivity). rewrite Hv in H.
  assert (Hd : (List.length (parse_route_commands posted), map def_service (parse_route_commands posted)) = (1%nat, ["svc"])) by (vm_compute; reflexivity).
  rewrite Hd in H. split; [exact Hr|]. split; [exact Hv|]. split; [apply H|].
  replace (mark_sources (parse_route_commands posted) Routes.Static)
    with (static_routes (Registry.registry (s_route_table demo_started)) ++ mark_sources (parse_route_commands posted) Routes.Static
          ++ kv_routes (Registry.registry (s_route_table demo_started)) ++ service_routes (Registry.registry (s_route_table demo_started)))%list
    by apply app_nil_r. apply H.
Defined.

(** One addition, counted twice. *)
Example added_routes_counted_twice :
  let '(_, m, _) := routes_add_handler 5 ∅ posted demo_started Metrics.metrics_new in
  Metrics.load m Metrics.route_reload_total_static = 2.
Proof. vm_compute. reflexivity. Qed.

(** The files of one listener load, those of the other are gone. *)
Definition demo_files (path : string) : result string string :=
  if String.eqb path "a.crt" then Ok (cert_text "a.b") else if String.eqb path "a.key" then Ok (key_text "a.b") else Err "not found".

Definition demo_cert (label name cert key : string) : FileCert (T := plain_tls) :=
  mk_file_cert (T := plain_tls) label (mk_loaded (T := plain_tls) "static-file" name [] name [name]) (mk_tls_cert cert key).

Definition demo_items : list (FileCert (T := plain_tls) * Look) :=
  [(demo_cert "one" "old" "a.crt" "a.key", mk_look demo_files demo_files); (demo_cert "two" "kept" "b.crt" "b.key", mk_look demo_files demo_files);
   (demo_cert "three" "old" "a.crt" "a.key", mk_look demo_files (fun _ => Err "gone"))].

Lemma certs_reload_spec_witness :
  let '(fcs', answer) := certs_reload_handler (T := plain_tls) (fun _ => "") 0 demo_items in
  Forall (fun fc => cert_ok (T := plain_tls) (fc_cert fc)) fcs'
  /\ map (fun fc => leaf (fc_cert fc)) fcs' = ["a.b"; "kept"; "a.b"]
  /\ match answer with
     | Ok a => ra_success a = false /\ ra_reloaded a = 2%nat /\ ra_failed a = 1%nat
               /\ last (ra_details a) = Some (Reloaded "three" "read-error" None None)
     | Err _ => False
     end.
Proof.
  assert (Hok : Forall (fun x => cert_ok (T := plain_tls) (fc_cert x.1)) demo_items) by (repeat constructor).
  pose proof (certs_reload_spec (T := plain_tls) (fun _ => "") 0 demo_items Hok) as H. cbv zeta.
  split; [apply H|]. vm_compute. by split_and!.
Defined.
